(* ===== verification/_CoqProject ===== *)
-Q . S2P
Prelude.v
Types.v
External.v
Mock.v
Core.v
Airtime.v
Channels.v
NodeDB.v
Wire.v
Store.v
World.v
StoreApply.v
Radio.v
Reliable.v
PhoneApi.v
Handshake.v
Invariant.v
Send.v
NodeInfo.v
Router.v
Telemetry.v
Position.v
Reception.v
Node.v
Ble.v
Shell.v
ShellNode.v
Serial.v
SerialTx.v
Settings.v
Init.v
BleAccess.v
Mqtt.v
Uplink.v
MapReport.v
Bridge.v
MqttSession.v
MqttLive.v
Boot.v
