(* ===== verification/Prelude.v ===== *)
(** * A verification development for the Zephyr Meshtastic stack

    The repository is a Meshtastic node for Zephyr: a LoRa mesh radio with
    encrypted channels, flooding, acknowledgements, a database of the nodes
    heard, and an interface for phone applications.  This library models its C
    code (src/src/*.c, below without the directory) as executable Rocq
    functions and proves what makes it correct.

    ** The program and its model

    Frames from the radio enter through the driver's callback into a queue
    (meshtastic_radio.c); the receive thread hands each to the router
    (meshtastic_router.c), which drops duplicates, decodes
    (meshtastic_packet.c, with the channel table of meshtastic_channels.c and
    PSA Crypto), delivers to the application and the phones
    (meshtastic_phoneapi*.c), updates the node database
    (meshtastic_nodedb.c), acknowledges (meshtastic_routing.c), runs the
    modules (meshtastic_modules.c, meshtastic_message.c,
    meshtastic_nodeinfo.c) and relays.  Everything to send goes through
    [meshtastic_send_packet] (meshtastic.c) or the router into the transmit
    queue (meshtastic_outbound.c), whose worker drives the radio with bounded
    retries and accounts the airtime (meshtastic_airtime.c); unicast packets
    that want an acknowledgement are kept and retransmitted by
    meshtastic_reliable.c.  The configuration store
    (meshtastic_config_store.c) mirrors the channels, configs and names, is
    saved and loaded by meshtastic_settings.c, and is pushed into the running
    stack at the start ([meshtastic_init]) and at each change.  Transports
    (meshtastic_serial.c, meshtastic_ble.c) carry the phone protocol.  The
    sensors' modules send telemetry and positions of their own accord and when
    asked (meshtastic_metrics.c, meshtastic_environment.c,
    meshtastic_gnss.c); a gateway carries packets to and from an MQTT broker
    (meshtastic_mqtt.c); the command line (meshtastic_shell.c) drives all of
    it.

    The state of a component is a record with the fields of its C statics;
    [World.world] has one field per component, the state of the platform
    (crypto service, radio driver, kernel) and the trace of the callbacks the
    application saw.  An operation is a function of the state monad
    [M S A := S -> option (A * S)] of this file; [None] is undefined behaviour
    of the C code or a loop that does not end, so that every theorem that an
    operation returns [Some] is a safety and termination theorem.  Copies into
    a buffer that comes from a caller or from the air have no outcome beyond
    its size ([within] before them), and a frame's header none beyond the frame
    ([Wire.read_header]): the receive path's header reads, the decryption
    buffer, the decoded payload, every 255-byte frame buffer (received,
    relayed, injected, queued, kept for retransmission) and the shell's message
    are modelled so, and their length checks are what the safety theorems rest
    on.  Where a function builds a buffer of its own from lists behind one size
    test ([encode_packet_data], [meshtastic_packet_to_mesh_pb],
    [mqtt_mesh_from_wire]) the test is its result.  Error codes
    are values of [result].  Integers are [Z] with the wrap-around written
    where the C type has it; floats are [spec_float] where the code computes
    with them.  Statements about operations are written with [wp m Q s]
    ("[m] run in [s] returns, and its result and final state satisfy [Q]") and
    [keeps I m] ("[m] returns in every state of [I] and keeps [I]").

    Code that is not in src/ is a type class of operations with a second class
    of the documented laws (External.v, [Settings.Backend]): the protobuf
    codec [Pb]/[PbLaws], PSA [PSA]/[PSALaws]/[PSATotal], the LoRa driver
    [LoraDriver]/[LoraLaws] (with the history of the calls an idle driver
    took up), the kernel [Kernel]/[KernelLaws], the C library's
    error numbers, and the settings storage.  Mock.v has an executable
    instance of each, on which the witnesses run.  Build options are the class
    [Types.Kconfig], their ranges [Types.KconfigRanges]; those of the gateway
    [Types.MqttConfig], which the seed of the configuration store reads too.  A component with
    options or drivers of its own has its own classes next to it:
    [TelemetryConfig] and [TelemetryDrivers] (Telemetry.v), [PositionConfig]
    (Position.v), [BtHost]/[BtHostLaws] (Ble.v), [ShellConfig] (Shell.v),
    [BootConfig] (Init.v), [BleConfig] and [GattHost]/[GattHostLaws]
    (BleAccess.v), [TransportConfig] and [BootHost] (Boot.v),
    [MqttClient]/[MqttClientLaws] (Mqtt.v), [Broker]/[BrokerLaws]
    (MqttSession.v), and [WillingBroker] (MqttLive.v), a broker that accepts.

    ** Files

    - Prelude.v (this file): record update, machine integers, little-endian
      bytes, C strings, the state monad with its calculus and tactics.
    - Types.v, External.v, Mock.v: data and constants of the public headers,
      the platform, concrete platforms.
    - Core.v: [struct meshtastic_context], identifiers, node number, status,
      duplicate cache (meshtastic.c, meshtastic_core.h, [dup_check]/[dup_add]
      of meshtastic_router.c).
    - Airtime.v, Channels.v, NodeDB.v: the C files of those names.
    - Wire.v: meshtastic_packet.c but for [meshtastic_send_mesh_pb].
    - Store.v, StoreApply.v: meshtastic_config_store.c; the second has what
      changes the running stack as well.
    - World.v: the whole state.
    - Radio.v: meshtastic_radio.c and meshtastic_outbound.c.
    - Reliable.v: meshtastic_reliable.c.
    - PhoneApi.v, Handshake.v: meshtastic_phoneapi.c,
      meshtastic_phoneapi_config.c, and the configuration handshake.
    - Invariant.v: the invariant [world_wf] of the running node and the
      primitives that keep it.
    - Send.v: [meshtastic_send_packet] and its callers,
      [meshtastic_send_mesh_pb], [meshtastic_phoneapi_handle_toradio].
    - NodeInfo.v: meshtastic_nodeinfo.c.
    - Router.v, Reception.v: meshtastic_router.c, meshtastic_routing.c,
      meshtastic_modules.c, meshtastic_message.c; definitions and properties.
    - Telemetry.v: meshtastic_metrics.c, meshtastic_environment.c and
      meshtastic_telemetry_common.c.
    - Position.v: meshtastic_gnss.c.
    - Node.v: the node as a transition system of all of the above.
    - Ble.v: meshtastic_ble.c, the service and a client of it.
    - Shell.v, ShellNode.v: meshtastic_shell.c; the commands, and sessions at
      the command line on a running node.
    - Serial.v, SerialTx.v: meshtastic_serial.c; framing, the receiver and
      single turns of the transmitter; its interrupt handler and work items
      taking turns.
    - Settings.v: meshtastic_settings.c.
    - Init.v: [meshtastic_init], meshtastic_settings_apply.c.
    - BleAccess.v: the rest of meshtastic_ble.c, the attribute table with its
      permissions, the advertised data and the callbacks of the security
      manager.
    - Mqtt.v, Uplink.v, MapReport.v, Bridge.v, MqttSession.v, MqttLive.v:
      meshtastic_mqtt.c; topics, queue and upload, what a heard frame uploads,
      the map report, two gateways and the meshes they join, the connection and
      its thread, and that thread with a broker that accepts.  The gateway's state is apart from [world]: the router and
      the send path note their calls of the upload hooks in it ([mqtt_hook] of
      World.v, where the code calls [meshtastic_mqtt_on_rx] and
      [meshtastic_mqtt_on_tx]), and [with_hooks] of Mqtt.v serves them.
    - Boot.v: the rest of [meshtastic_init], which starts the transports and
      the gateway ([meshtastic_ble_init], [meshtastic_serial_init]).

    A definition has the name of the C function it translates; a helper that
    stands for a part of a function (a loop, a block) is next to it.

    ** What the theorems show

    The node as a whole: [Node.node_safe] (every history of events from a
    well-formed state runs to its end and keeps the invariant; the stored
    configuration changes by nothing but the commands that change it),
    [Boot.boot_outcome] (from saved settings a node can boot from, the start
    ends in that invariant, with the stored settings in force and the
    transports and the gateway ready for their theorems, or in an error with
    the node off; [Init.init_outcome] is its part before the transports),
    [Init.reboot_restores] and [Settings.flush_init] (what was saved is what
    the next start runs with), [StoreApply.apply_core_spec] and its record
    [in_force] (which stored setting becomes which running one), [Settings.settings_init_wf] (any content of the
    storage loads safely), [Settings.reload_idem] (loading it twice changes
    nothing).

    Reception: [Reception.process_lora_rx_safe] (any bytes from the air),
    [Wire.try_decode_safe], [Wire.wire_roundtrip] (a frame is decoded to the
    packet it was built from, by any holder of the key), [Core.dup_cache_window]
    and [Reception.duplicate_dropped] (a repeat is counted, and acknowledged
    again if it asks for it), [Reception.deliver_spec].  Relaying:
    [Reception.relay_spec] and [Reception.relay_path_bounded] (at most seven
    relays), [Reception.reply_hops_spec].

    Sending: [Send.send_packet_forever_spec] (what leaves, and when it waits
    for an acknowledgement), [Radio.transmit_spec] (what the driver is asked),
    [Radio.enqueue_forever_served], [Core.allocate_packet_id_unique];
    retransmission: the theorems of Reliable.v, among them
    [Reliable.reliable_settles].  Sensors: [Telemetry.telemetry_spacing] (of each kind of telemetry) and
    [Position.position_broadcasts_spaced] (what is sent unasked or in answer
    keeps its intervals), [Position.fill_position_units].

    Tables: the channel table's invariant and key lookup (Channels.v), the
    node database as a bounded map with eviction (NodeDB.v), the peer cache
    and the spacing of requests (NodeInfo.v), airtime as sliding windows
    (Airtime.v).  Phones: the ring as a bounded deque
    ([PhoneApi.phone_ring_refines]), the handshake
    ([Handshake.handshake_delivers]), the serial stream
    ([Serial.serial_stream_received], [Serial.serial_tx_flushes];
    [SerialTx.serial_delivers]: interrupts and work items get every frame out),
    the Bluetooth service ([Ble.ble_delivers]: a client gets the queue's
    frames; [Ble.ble_safe]: no history of callbacks breaks it;
    [BleAccess.unpaired_silent]: with a passkey a client without it leaves no
    trace).

    The gateway: [Uplink.heard_uplinked] (what a heard frame leaves in the
    publish queue), [MqttSession.gateway_fifo] (published in order and at most
    once, over connections that fail, are what the node's packets uploaded),
    [MqttLive.gateway_publishes] (with a broker that accepts, all of it is),
    [Bridge.gateway_bridge] and [Bridge.no_echo] (two gateways join two meshes
    without echoes), [MapReport.map_report_spec].

    The command line: [ShellNode.shell_safe] (no line breaks the node but for
    two named cases), [ShellNode.channel_shared] (a channel shown on one node
    can be typed in on another), [Shell.text_send_spec].

    Error behaviour, which is also a finding about the code:
    [Channels.channel_get_key_diverges], [StoreApply.apply_core_diverges],
    [Serial.serial_small_ring_stalls],
    [SerialTx.serial_small_tx_stalls], [Ble.ble_full_pieces_lose], the
    examples of Shell.v and ShellNode.v, and the lemmas
    [Channels.stale_secondary_hash], [StoreApply.primary_flips_back],
    [Radio.enqueue_timeout_dangles].

    ** Bounds and fuel

    [channel_get_key_] recurses once per call of the C function.  It is given
    two levels, which are enough on every well-formed table
    ([get_key_refines]); where they are not, no number of levels is
    ([channel_get_key_diverges]).
    [next_config_frame_] runs the handshake's outer loop: three rounds reach a
    state that answers ([next_config_frame_total]).  The serial handlers have
    the length of the ring (receive: a round takes at least one byte) or its
    size (transmit: a round puts at least one byte into the ring) as fuel; the
    interrupt's loop has one turn more than the ring has bytes, since every
    turn but the last takes one ([SerialTx.serial_isr_ends]).
    The transmit retries and the worker's turns are bounded by the
    configuration.  All other recursion is structural.

    ** Concurrency

    The kernel's threads run one operation at a time between the points where
    the C code locks: an operation of the model is the code between taking and
    giving its mutex, and Node.v interleaves whole operations.  A thread that
    blocks on the transmit queue runs the worker in its place until it is
    served.  Races that need a switch inside an operation are not modelled;
    those seen while reading are recorded as findings of the manifest.

    ** Not modelled

    The thread and work-queue plumbing (stacks, priorities, when a thread first
    runs, and starting the node again after a start that failed), logging, the
    registers of the UART, the Bluetooth host below its check of permissions
    (BleAccess.v has what the callbacks ask of it, not what it then does; the
    callbacks that only log are left out), the dispatch of the
    shell library beyond the tables of commands, the colours of its output,
    the MQTT library below its publish, subscribe and connect calls, the
    protobuf schemas and the code generated from them, the samples and the
    tests. *)

From stdpp Require Export base tactics option list numbers strings gmap.
From Stdlib Require Export ZArith Lia.

#[global] Open Scope Z_scope.

(** ** Record update

    C code assigns one field of a structure at a time.  [settable T] is the
    eta-expansion of a record type; from it [build_setter] derives, for a
    projection, the function that rewrites that field and keeps the others. *)

Class Settable (T : Type) := settable : T → T.
Class Setter {T F : Type} (proj : T → F) := set : (F → F) → T → T.
Arguments set {T F} proj {Setter} _ _ : assert.

Ltac build_setter :=
  lazymatch goal with
  | |- @Setter ?T ?F ?proj =>
      let inst := constr:(_ : Settable T) in
      let body := eval hnf in (@settable T inst) in
      lazymatch eval pattern proj in body with
      | ?abs _ =>
          let r := constr:(fun (f : F → F) (x : T) =>
                             abs (fun y : T => f (proj y)) x) in
          let r := eval cbv beta in r in exact r
      end
  end.
#[global] Hint Extern 1 (Setter _) => build_setter : typeclass_instances.

Declare Scope record_scope.
Delimit Scope record_scope with rec.
Notation "r '<|' f ':=' v '|>'" := (set f (λ _, v) r)
  (at level 1, left associativity, format "r  <| f  :=  v |>") : record_scope.
Notation "r '<|' f '::=' g '|>'" := (set f g r)
  (at level 1, left associativity, format "r  <| f  ::=  g |>") : record_scope.
#[global] Open Scope record_scope.

(** Evaluate updates and projections of updated records. *)
Ltac rsimpl := cbn [set] in *; cbn in *.
Ltac rgoal := cbn [set]; cbn.

(** ** Machine integers

    Unsigned C integers are [Z] with the wrap-around written out where the
    code relies on it. *)

Definition u8 (z : Z) : Z := z `mod` 256.
Definition u16 (z : Z) : Z := z `mod` 65536.
Definition u32 (z : Z) : Z := z `mod` 4294967296.

Definition UINT32_MAX : Z := 4294967295.
Definition INT64_MAX : Z := 9223372036854775807.

(** [(int8_t)z] and [(int32_t)z] on a two's complement target. *)
Definition i8 (z : Z) : Z := (z + 128) `mod` 256 - 128.
Definition i32 (z : Z) : Z := (z + 2147483648) `mod` 4294967296 - 2147483648.

Definition is_u8 (z : Z) : Prop := 0 ≤ z < 256.
Definition is_u32 (z : Z) : Prop := 0 ≤ z < 4294967296.
Definition bytes_ok (bs : list Z) : Prop := Forall is_u8 bs.

#[export] Instance is_u8_dec z : Decision (is_u8 z) := _.
#[export] Instance is_u32_dec z : Decision (is_u32 z) := _.
#[export] Instance bytes_ok_dec bs : Decision (bytes_ok bs) := _.

(** [BIT(n)], [WRITE_BIT], [IS_BIT_SET] of Zephyr's [sys/util.h]. *)
Definition BIT (n : Z) : Z := Z.shiftl 1 n.
Definition WRITE_BIT (v n : Z) (b : bool) : Z :=
  if b then Z.lor v (BIT n) else Z.land v (Z.lnot (BIT n)).
Definition IS_BIT_SET (v n : Z) : bool := Z.testbit v n.

(** [sys_put_le32] / [sys_get_le32] of [sys/byteorder.h]; a packed
    little-endian field of a structure is stored the same way. *)
Definition le32 (v : Z) : list Z :=
  [v `mod` 256; (v `div` 256) `mod` 256;
   (v `div` 65536) `mod` 256; (v `div` 16777216) `mod` 256].
Definition get_le32 (bs : list Z) : Z :=
  match bs with
  | b0 :: b1 :: b2 :: b3 :: _ => b0 + 256 * b1 + 65536 * b2 + 16777216 * b3
  | _ => 0
  end.
Definition get_be32 (bs : list Z) : Z :=
  match bs with
  | b0 :: b1 :: b2 :: b3 :: _ => 16777216 * b0 + 65536 * b1 + 256 * b2 + b3
  | _ => 0
  end.
Definition le16 (v : Z) : list Z := [v `mod` 256; (v `div` 256) `mod` 256].

Ltac zmod := unfold u8, u16, u32, i8, i32, is_u8, is_u32 in *;
  Z.to_euclidean_division_equations; lia.

Lemma get_le32_le32 v rest : is_u32 v → get_le32 (le32 v ++ rest) = v.
Proof. unfold le32; cbn. intros. zmod. Qed.

Lemma le32_get_le32 b0 b1 b2 b3 :
  is_u8 b0 → is_u8 b1 → is_u8 b2 → is_u8 b3 →
  le32 (get_le32 [b0; b1; b2; b3]) = [b0; b1; b2; b3].
Proof. intros. unfold le32; cbn. repeat f_equal; zmod. Qed.

Lemma length_le32 v : length (le32 v) = 4%nat.
Proof. done. Qed.

Lemma bytes_ok_le32 v : bytes_ok (le32 v).
Proof. unfold le32, bytes_ok. repeat constructor; zmod. Qed.

Lemma u8_is_u8 z : is_u8 (u8 z).
Proof. zmod. Qed.
Lemma u32_is_u32 z : is_u32 (u32 z).
Proof. zmod. Qed.
Lemma u8_id z : is_u8 z → u8 z = z.
Proof. intros. zmod. Qed.
Lemma u32_id z : is_u32 z → u32 z = z.
Proof. intros. zmod. Qed.

(** The low and high parts of a byte built from two disjoint bit fields. *)
Lemma land_7_shiftl_5 a b :
  Z.land (Z.lor (Z.land a 7) (Z.shiftl (Z.land b 7) 5)) 7 = Z.land a 7.
Proof.
  apply Z.bits_inj'; intros n Hn.
  rewrite !Z.land_spec, Z.lor_spec, Z.land_spec, Z.shiftl_spec, Z.land_spec by lia.
  change 7 with (Z.ones 3).
  destruct (decide (n < 3)).
  - rewrite (Z.testbit_neg_r b (n - 5)), orb_false_r by lia.
    rewrite Z.ones_spec_low, !andb_true_r by lia. done.
  - rewrite !(Z.ones_spec_high 3 n), !andb_false_r by lia. done.
Qed.

(** Bit [k] of a small constant or variable, for bit-level case analysis. *)
Lemma testbit_above (z n : Z) : 0 ≤ z < 2 ^ n → ∀ k, n ≤ k → Z.testbit z k = false.
Proof.
  intros Hz k Hk. destruct (decide (z = 0)) as [->|]; [apply Z.bits_0|].
  assert (n ≠ 0) by (intros ->; cbn in Hz; lia).
  assert (0 ≤ n) by (destruct (decide (n < 0)); [rewrite Z.pow_neg_r in Hz|]; lia).
  apply Z.bits_above_log2; [lia|]. apply Z.log2_lt_pow2; [lia|].
  eapply Z.lt_le_trans; [apply Hz|]. apply Z.pow_le_mono_r; lia.
Qed.

(** ** Strings

    A C string is the characters before its terminating NUL. *)

Definition char_byte (c : Ascii.ascii) : Z := Z.of_N (Ascii.N_of_ascii c).
Fixpoint str_bytes (s : string) : list Z :=
  match s with
  | EmptyString => []
  | String c s' => char_byte c :: str_bytes s'
  end.

Lemma bytes_ok_str s : bytes_ok (str_bytes s).
Proof.
  induction s as [|c s IH]; cbn; constructor; [|done]. unfold char_byte.
  pose proof (Ascii.N_ascii_bounded c). zmod.
Qed.

(** [strncpy(dst, src, n)] followed by the terminator the callers put (or the
    zeroed destination leaves) at [dst\[n\]]: the first [n] characters. *)
Definition strncpy (n : nat) (s : string) : string := String.substring 0 n s.

Lemma substring0_length n s : (String.length (strncpy n s) ≤ n)%nat.
Proof.
  unfold strncpy. revert s. induction n as [|n IH]; intros [|c s]; cbn; try lia.
  specialize (IH s). lia.
Qed.

Lemma substring0_id n s : (String.length s ≤ n)%nat → strncpy n s = s.
Proof.
  unfold strncpy. revert s. induction n as [|n IH]; intros [|c s] H; cbn in *; try done; try lia.
  f_equal. apply IH. lia.
Qed.

(** ** Error codes

    The errno values the stack returns, compares or forwards.  [EDRV] stands
    for any other error a driver or kernel call may return. *)

Inductive errno :=
  | EINVAL | ENOMEM | ENOENT | ENODEV | ENOTSUP | EIO | EBADMSG | ENOMSG
  | EAGAIN | EBUSY | EALREADY | ENOSYS | EHOSTUNREACH | ETIMEDOUT | ENODATA | ENOTCONN
  | EDRV (code : positive).
#[export] Instance errno_eq_dec : EqDecision errno.
Proof. solve_decision. Defined.

(** A C function returning [int]: [Ok a] is the non-negative return with the
    out-parameters it set, [Err e] the return [-e]. *)
Inductive result (A : Type) :=
  | Ok (a : A)
  | Err (e : errno).
Arguments Ok {A} _.
Arguments Err {A} _.
#[export] Instance result_eq_dec `{EqDecision A} : EqDecision (result A).
Proof. solve_decision. Defined.

Definition is_err {A} (r : result A) : bool :=
  match r with Ok _ => false | Err _ => true end.
Definition forget {A} (r : result A) : result () :=
  match r with Ok _ => Ok () | Err e => Err e end.

(** ** State and undefined behaviour

    [M S A] is a C statement over the state [S].  [None] is an execution that
    does not return normally: undefined behaviour (an access out of bounds, a
    write through a dangling pointer) or unbounded recursion.  A theorem that
    a run is [Some] is therefore a memory-safety and termination result. *)

Definition M (S A : Type) : Type := S → option (A * S).

#[export] Instance M_ret S : MRet (M S) := λ A a s, Some (a, s).
#[export] Instance M_bind S : MBind (M S) := λ A B k m s,
  match m s with Some (a, s') => k a s' | None => None end.

Definition ub {S A} : M S A := λ _, None.
(** Reading or writing the first [n] bytes of a buffer of [cap] bytes. *)
Definition within {S} (n cap : nat) : M S () := if (n <=? cap)%nat then mret () else ub.
Definition gets {S A} (f : S → A) : M S A := λ s, Some (f s, s).
Definition modify {S} (f : S → S) : M S () := λ s, Some ((), f s).
(** [state f]: a total operation of another component's model, run in place. *)
Definition state {S A} (f : S → A * S) : M S A := λ s, Some (f s).

Fixpoint mapM_ {S A} (f : A → M S ()) (l : list A) : M S () :=
  match l with
  | [] => mret ()
  | a :: l => f a ;; mapM_ f l
  end.

(** Run a component's statement on the component's field of a larger state. *)
Definition zoom {W S A} (proj : W → S) `{!Setter proj} (m : M S A) : M W A := λ w,
  match m (proj w) with
  | Some (a, s) => Some (a, w <| proj := s |>)
  | None => None
  end.

(** Weakest precondition: [m] returns normally from [s] and [Q] holds of the
    value and the state it returns. *)
Definition wp {S A} (m : M S A) (Q : A → S → Prop) (s : S) : Prop :=
  match m s with Some (a, s') => Q a s' | None => False end.

Section wp.
Context {S : Type}.
Implicit Types s : S.

Lemma wp_ret {A} (a : A) (Q : A → S → Prop) s : wp (mret a) Q s ↔ Q a s.
Proof. done. Qed.
Lemma wp_bind {A B} (m : M S A) (k : A → M S B) Q s :
  wp (m ≫= k) Q s ↔ wp m (λ a, wp (k a) Q) s.
Proof. unfold wp, mbind, M_bind. by destruct (m s) as [[a s']|]. Qed.
Lemma wp_gets {A} (f : S → A) Q s : wp (gets f) Q s ↔ Q (f s) s.
Proof. done. Qed.
Lemma wp_modify (f : S → S) Q s : wp (modify f) Q s ↔ Q () (f s).
Proof. done. Qed.
Lemma wp_state {A} (f : S → A * S) Q s : wp (state f) Q s ↔ Q (f s).1 (f s).2.
Proof. unfold wp, state. by destruct (f s). Qed.
Lemma wp_mono {A} (m : M S A) (Q Q' : A → S → Prop) s :
  wp m Q s → (∀ a s', Q a s' → Q' a s') → wp m Q' s.
Proof. unfold wp. destruct (m s) as [[a s']|]; eauto. Qed.
Lemma bind_run {A B} (m : M S A) (k : A → M S B) s a s1 : m s = Some (a, s1) → (m ≫= k) s = k a s1.
Proof. intros Hm. unfold mbind, M_bind. by rewrite Hm. Qed.
Lemma within_bind {B} n cap (m : M S B) : (n ≤ cap)%nat → (within n cap ;; m) = m.
Proof. intros Hn. unfold within. by rewrite (proj2 (Nat.leb_le _ _) Hn). Qed.
Lemma wp_within n cap (Q : () → S → Prop) s : wp (within n cap) Q s ↔ (n ≤ cap)%nat ∧ Q () s.
Proof.
  unfold within. destruct (Nat.leb_spec n cap).
  - split; [by split|by intros [_ ?]].
  - split; [by intros []|intros [? _]; lia].
Qed.
Lemma wp_and {A} (m : M S A) (Q Q' : A → S → Prop) s :
  wp m Q s → wp m Q' s → wp m (λ a s', Q a s' ∧ Q' a s') s.
Proof. unfold wp. destruct (m s) as [[a s']|]; eauto. Qed.
Lemma wp_run {A} (m : M S A) (Q : A → S → Prop) s :
  wp m Q s ↔ ∃ a s', m s = Some (a, s') ∧ Q a s'.
Proof.
  unfold wp. split; [destruct (m s) as [[a s']|]; naive_solver|].
  intros (a & s' & -> & H). done.
Qed.
Lemma wp_mapM {A} (f : A → M S ()) (I : S → Prop) l s :
  I s → (∀ a s, a ∈ l → I s → wp (f a) (λ _, I) s) → wp (mapM_ f l) (λ _, I) s.
Proof.
  revert s. induction l as [|a l IH]; intros s HI Hf; cbn; [done|].
  apply wp_bind. eapply wp_mono; [apply Hf; [left|done]|].
  intros [] s' HI'. apply IH; [done|]. intros b s'' Hb. apply Hf. by right.
Qed.
End wp.

Lemma wp_zoom {W S A} (proj : W → S) `{!Setter proj} (m : M S A) Q (w : W) :
  wp (zoom proj m) Q w ↔ wp m (λ a s, Q a (w <| proj := s |>)) (proj w).
Proof. unfold wp, zoom. by destruct (m (proj w)) as [[a s]|]. Qed.

(** [keeps I m]: [m] is defined on every state satisfying [I] and
    re-establishes [I]. *)
Definition keeps {S A} (I : S → Prop) (m : M S A) : Prop :=
  ∀ s, I s → wp m (λ _, I) s.

Section keeps.
Context {S : Type} (I : S → Prop).

Lemma keeps_ret {A} (a : A) : keeps I (mret a).
Proof. by intros s. Qed.
Lemma keeps_gets {A} (f : S → A) : keeps I (gets f).
Proof. by intros s. Qed.
Lemma keeps_bind {A B} (m : M S A) (k : A → M S B) :
  keeps I m → (∀ a, keeps I (k a)) → keeps I (m ≫= k).
Proof.
  intros Hm Hk s HI. apply wp_bind. eapply wp_mono; [by apply Hm|].
  intros a s' HI'. by apply Hk.
Qed.
Lemma keeps_modify (f : S → S) : (∀ s, I s → I (f s)) → keeps I (modify f).
Proof. intros H s HI. by apply H. Qed.
Lemma keeps_state {A} (f : S → A * S) : (∀ s, I s → I (f s).2) → keeps I (state f).
Proof. intros H s HI. apply wp_state. by apply H. Qed.
Lemma keeps_if {A} (b : bool) (m n : M S A) :
  keeps I m → keeps I n → keeps I (if b then m else n).
Proof. by destruct b. Qed.
(** A statement under the guard it runs behind. *)
Lemma keeps_within {A} n cap (m : M S A) : (n ≤ cap)%nat → keeps I m → keeps I (within n cap ;; m).
Proof. intros Hn Hm. by rewrite within_bind. Qed.
Lemma keeps_mapM {A} (f : A → M S ()) l : (∀ a, keeps I (f a)) → keeps I (mapM_ f l).
Proof. intros Hf s HI. apply wp_mapM; [done|]. intros. by apply Hf. Qed.
End keeps.

Create HintDb keeps discriminated.
#[export] Hint Resolve keeps_ret keeps_gets keeps_bind keeps_if keeps_mapM : keeps.

(** Open a [wp] goal down to the statements the hint databases do not know. *)
Ltac wp_step :=
  first
    [ rewrite wp_bind | rewrite wp_ret | rewrite wp_gets | rewrite wp_modify
    | rewrite wp_state | rewrite wp_zoom ].
Ltac wps := repeat wp_step.

(** Case analysis on the boolean guards of the code. *)
Ltac case_if :=
  match goal with
  | |- context [if ?b then _ else _] =>
      lazymatch b with
      | context [if _ then _ else _] => fail
      | _ => lazymatch type of b with
             | bool => let E := fresh "E" in destruct b eqn:E
             | _ => destruct b
             end
      end
  end.
Ltac case_if_in H :=
  match type of H with
  | context [if ?b then _ else _] =>
      lazymatch b with
      | context [if _ then _ else _] => fail
      | _ => lazymatch type of b with
             | bool => let E := fresh "E" in destruct b eqn:E
             | _ => destruct b
             end
      end
  end.

(** Turn boolean guards into propositions [lia] understands. *)
Ltac boolp :=
  repeat match goal with
  | H : context [?a || ?b = true] |- _ => rewrite orb_true_iff in H
  | H : context [?a || ?b = false] |- _ => rewrite orb_false_iff in H
  | H : context [?a && ?b = true] |- _ => rewrite andb_true_iff in H
  | H : context [?a && ?b = false] |- _ => rewrite andb_false_iff in H
  | H : negb _ = true |- _ => apply negb_true_iff in H
  | H : negb _ = false |- _ => apply negb_false_iff in H
  | H : context [Z.eqb _ _ = true] |- _ => rewrite Z.eqb_eq in H
  | H : context [Z.eqb _ _ = false] |- _ => rewrite Z.eqb_neq in H
  | H : context [Z.ltb _ _ = true] |- _ => rewrite Z.ltb_lt in H
  | H : context [Z.ltb _ _ = false] |- _ => rewrite Z.ltb_ge in H
  | H : context [Z.leb _ _ = true] |- _ => rewrite Z.leb_le in H
  | H : context [Z.leb _ _ = false] |- _ => rewrite Z.leb_gt in H
  | H : bool_decide _ = true |- _ => apply bool_decide_eq_true in H
  | H : bool_decide _ = false |- _ => apply bool_decide_eq_false in H
  | H : _ ∧ _ |- _ => destruct H
  end.

(** ** Lists as C arrays *)

(** The first index whose element satisfies [f]: a [for] loop with [break]. *)
Fixpoint find_index {A} (f : A → bool) (l : list A) : option nat :=
  match l with
  | [] => None
  | a :: l => if f a then Some 0%nat else S <$> find_index f l
  end.

Section find_index.
Context {A : Type} (f : A → bool).

Lemma find_index_Some l i :
  find_index f l = Some i ↔
  (∃ a, l !! i = Some a ∧ f a = true) ∧ (∀ j a, (j < i)%nat → l !! j = Some a → f a = false).
Proof.
  revert i. induction l as [|b l IH]; intros i; cbn.
  { split; [done|]. intros [(a & H & _) _]. done. }
  destruct (f b) eqn:E.
  - split; [intros [= <-]|].
    + split; [eauto|]. intros j a Hj. lia.
    + intros [_ H]. destruct i as [|i]; [done|].
      specialize (H 0%nat b). rewrite H in E by (lia || done). done.
  - rewrite fmap_Some. split.
    + intros (k & Hk & ->). apply IH in Hk as [Ha Hb]. split; [done|].
      intros [|j] a Hj Hl; cbn in Hl; [congruence|]. apply (Hb j); [lia|done].
    + intros [(a & Ha & Hf) Hb]. destruct i as [|i]; cbn in Ha; [congruence|].
      exists i. split; [|done]. apply IH. split; [eauto|].
      intros j a' Hj Hl. apply (Hb (S j)); [lia|done].
Qed.

Lemma find_index_None l : find_index f l = None ↔ Forall (λ a, f a = false) l.
Proof.
  induction l as [|b l IH]; cbn; [by split|].
  rewrite Forall_cons. destruct (f b); [naive_solver|].
  rewrite fmap_None, IH. naive_solver.
Qed.

Lemma find_index_lt l i : find_index f l = Some i → (i < length l)%nat.
Proof. intros [(a & H & _) _]%find_index_Some. by eapply lookup_lt_Some. Qed.
End find_index.

(** Updating the element a loop has found. *)
Lemma alter_as_insert {A} (f : A → A) i (l : list A) x :
  l !! i = Some x → alter f i l = <[i := f x]> l.
Proof.
  intros Hx. apply list_eq. intros j. rewrite list_lookup_alter, list_lookup_insert.
  apply lookup_lt_Some in Hx as Hlt. case_decide; case_decide; destruct_and?; subst; try tauto.
  by rewrite Hx.
Qed.

Lemma testbit_WRITE_BIT v n b k :
  0 ≤ n → 0 ≤ k → Z.testbit (WRITE_BIT v n b) k = if k =? n then b else Z.testbit v k.
Proof.
  intros Hn Hk. unfold WRITE_BIT, BIT.
  assert (Z.testbit (Z.shiftl 1 n) k = (k =? n)) as Hb.
  { rewrite Z.shiftl_spec by lia. destruct (Z.eqb_spec k n) as [->|Hne].
    - by rewrite Z.sub_diag.
    - destruct (decide (k < n)); [by rewrite Z.testbit_neg_r by lia|].
      by apply (testbit_above 1 1); lia. }
  destruct b; rewrite ?Z.lor_spec, ?Z.land_spec, ?Z.lnot_spec, Hb by done;
    destruct (k =? n); destruct (Z.testbit v k); done.
Qed.

(** A fact about every byte, checked on each. *)
Lemma byte_forall (P : Z → Prop) `{!∀ z, Decision (P z)} z :
  bool_decide (Forall (λ n, P (Z.of_nat n)) (seq 0 256)) = true → is_u8 z → P z.
Proof.
  intros Hall%bool_decide_eq_true [Hl Hu]. rewrite Forall_seq in Hall.
  specialize (Hall (Z.to_nat z)). rewrite Z2Nat.id in Hall by done. apply Hall. lia.
Qed.

(** ** Rings

    An index in a ring of [n] elements, and an array [slots] of [n] elements
    that holds the list [l] from [first] on. *)

Lemma wrap t k n :
  (t < n)%nat → (k ≤ n)%nat →
  ((t + k) `mod` n = if t + k <? n then t + k else t + k - n)%nat.
Proof.
  intros Ht Hk. destruct (Nat.ltb_spec (t + k) n); [by rewrite Nat.mod_small|].
  replace (t + k)%nat with (t + k - n + 1 * n)%nat at 1 by lia.
  rewrite Nat.Div0.mod_add, Nat.mod_small; lia.
Qed.

Ltac wraps := rewrite ?wrap in * by lia; repeat case_if; boolp;
  rewrite ?Nat.ltb_lt, ?Nat.ltb_ge in *.

Definition ring_at {A} (slots : list A) (first n : nat) (l : list A) : Prop :=
  ∀ k x, l !! k = Some x → slots !! ((first + k) `mod` n)%nat = Some x.

Lemma ring_at_tail {A} (slots : list A) first n x l :
  ring_at slots first n (x :: l) → ring_at slots ((first + 1) `mod` n) n l.
Proof.
  intros Hr k y Hk. rewrite Nat.Div0.add_mod_idemp_l.
  replace (first + 1 + k)%nat with (first + S k)%nat by lia. by apply (Hr (S k)).
Qed.

Lemma ring_at_head {A} (slots : list A) first n x l :
  (first < n)%nat → ring_at slots first n (x :: l) → slots !! first = Some x.
Proof.
  intros Hf Hr. specialize (Hr 0%nat x eq_refl). by rewrite Nat.add_0_r, Nat.mod_small in Hr.
Qed.

Lemma ring_at_snoc {A} (slots : list A) first n x l :
  (first < n)%nat → length slots = n → (length l < n)%nat → ring_at slots first n l →
  ring_at (<[((first + length l) `mod` n)%nat := x]> slots) first n (l ++ [x]).
Proof.
  intros Hf Hn Hl Hr k y Hk. apply lookup_lt_Some in Hk as Hlt.
  rewrite length_app in Hlt. cbn in Hlt. destruct (decide (k = length l)) as [->|Hne].
  - rewrite list_lookup_middle in Hk by done. injection Hk as <-.
    apply list_lookup_insert_eq. rewrite Hn. apply Nat.mod_upper_bound. lia.
  - rewrite lookup_app_l in Hk by lia. rewrite list_lookup_insert_ne; [by apply Hr|]. wraps; lia.
Qed.

(** ** Strings as byte arrays *)

Definition byte_char (b : Z) : Ascii.ascii := Ascii.ascii_of_N (Z.to_N b).
Definition string_of_bytes (bs : list Z) : string :=
  foldr (λ b s, String (byte_char b) s) EmptyString bs.
(** The C string at the start of an array: the bytes before the first NUL. *)
Fixpoint c_string (bs : list Z) : list Z :=
  match bs with
  | [] => []
  | b :: bs => if b =? 0 then [] else b :: c_string bs
  end.
(** A string with no NUL in it, as every C string is. *)
Definition no_nul (s : string) : Prop := Forall (λ b, b ≠ 0) (str_bytes s).

Lemma string_of_str_bytes s : string_of_bytes (str_bytes s) = s.
Proof.
  unfold string_of_bytes. induction s as [|c s IH]; cbn; [done|]. rewrite IH. f_equal.
  unfold byte_char, char_byte. by rewrite N2Z.id, Ascii.ascii_N_embedding.
Qed.

Lemma length_str_bytes s : length (str_bytes s) = String.length s.
Proof. induction s as [|c s IH]; cbn; [done|]. by rewrite IH. Qed.

Lemma c_string_app s n : no_nul s → c_string (str_bytes s ++ replicate n 0) = str_bytes s.
Proof.
  intros Hs. unfold no_nul in Hs. induction (str_bytes s) as [|b bs IH]; cbn.
  - by destruct n.
  - apply Forall_cons in Hs as [Hb Hs]. rewrite (proj2 (Z.eqb_neq _ _)) by done.
    by rewrite IH.
Qed.

(** Filtering by a boolean. *)
Lemma filter_bool_cons {A} (f : A → bool) a l :
  filter (λ x, f x) (a :: l) = if f a then a :: filter (λ x, f x) l else filter (λ x, f x) l.
Proof. rewrite filter_cons. case_decide; destruct (f a); done. Qed.
