(* ===== verification/Types.v ===== *)
(** * Data of the stack

    Build-time configuration, the public packet structure, the nanopb
    structures the stack fills and reads (restricted to the fields the code
    under src/ touches), and the channel table entry.  Enumerations that come
    off the wire are kept as [Z] because the decoder does not range-check
    them; a protobuf [optional] field is an [option] (the generated [has_x]
    flag with [x]); a [float] of the telemetry messages is a [spec_float] in
    single precision, one of the packet structure ([rx_snr]) the integer the
    code converts it from. *)

From Stdlib Require Export SpecFloat.
From S2P Require Import Prelude.

(** ** Kconfig *)

Class Kconfig := {
  CONFIG_DUP_CACHE_SIZE : nat;
  CONFIG_OUTBOUND_QUEUE_DEPTH : nat;
  CONFIG_RX_QUEUE_DEPTH : nat;
  CONFIG_DEFAULT_HOP_LIMIT : Z;
  CONFIG_TX_POWER : Z;
  CONFIG_TX_BUSY_RETRIES : nat;
  CONFIG_TX_BUSY_BACKOFF_MIN_MS : Z;
  CONFIG_TX_BUSY_BACKOFF_MAX_MS : Z;
  CONFIG_RELIABLE_MAX_PENDING : nat;
  CONFIG_RELIABLE_RETRANSMISSIONS : Z;
  CONFIG_RELIABLE_RETRY_INTERVAL_MS : Z;
  CONFIG_RELIABLE_RETRY_JITTER_MS : Z;
  CONFIG_NODEDB_MAX_NODES : nat;
  CONFIG_NODEINFO_PEER_CACHE_SIZE : nat;
  CONFIG_NODEINFO_UNKNOWN_SUPPRESS_SEC : Z;
  CONFIG_NODEINFO_REPLY_SUPPRESS_SEC : Z;
  CONFIG_NODEINFO_START_DELAY_SEC : Z;
  CONFIG_NODEINFO_INTERVAL_SEC : Z;
  CONFIG_SERIAL_RX_BUF_SIZE : nat;
  CONFIG_SERIAL_TX_BUF_SIZE : nat;
  CONFIG_MQTT : bool;
  CONFIG_MQTT_IGNORE_MQTT : bool;
  CONFIG_BLE : bool;
  CONFIG_NODE_LONG_NAME : string;
  CONFIG_NODE_SHORT_NAME : string;
  CONFIG_NODE_ID_DEFAULT : Z;
  MESHTASTIC_BOARD_HW_MODEL : Z
}.

(** The [range] clauses of the Kconfig files. *)
Class KconfigRanges `{Kconfig} := {
  dup_cache_range : (4 ≤ CONFIG_DUP_CACHE_SIZE ≤ 64)%nat;
  outbound_range : (2 ≤ CONFIG_OUTBOUND_QUEUE_DEPTH ≤ 32)%nat;
  rx_queue_range : (2 ≤ CONFIG_RX_QUEUE_DEPTH ≤ 16)%nat;
  hop_limit_range : 1 ≤ CONFIG_DEFAULT_HOP_LIMIT ≤ 7;
  reliable_pending_range : (1 ≤ CONFIG_RELIABLE_MAX_PENDING ≤ 16)%nat;
  reliable_retrans_range : 0 ≤ CONFIG_RELIABLE_RETRANSMISSIONS ≤ 8;
  reliable_interval_range : 1000 ≤ CONFIG_RELIABLE_RETRY_INTERVAL_MS ≤ 120000;
  reliable_jitter_range : 0 ≤ CONFIG_RELIABLE_RETRY_JITTER_MS ≤ 30000;
  nodedb_range : (1 ≤ CONFIG_NODEDB_MAX_NODES ≤ 256)%nat;
  nodeinfo_peers_range : (4 ≤ CONFIG_NODEINFO_PEER_CACHE_SIZE ≤ 64)%nat;
  serial_rx_range : (64 ≤ CONFIG_SERIAL_RX_BUF_SIZE ≤ 4096)%nat;
  serial_tx_range : (256 ≤ CONFIG_SERIAL_TX_BUF_SIZE ≤ 8192)%nat
}.

(** The defaults of the Kconfig files, with all features on. *)
Definition default_kconfig : Kconfig := {|
  CONFIG_DUP_CACHE_SIZE := 16;
  CONFIG_OUTBOUND_QUEUE_DEPTH := 8;
  CONFIG_RX_QUEUE_DEPTH := 4;
  CONFIG_DEFAULT_HOP_LIMIT := 3;
  CONFIG_TX_POWER := 17;
  CONFIG_TX_BUSY_RETRIES := 6;
  CONFIG_TX_BUSY_BACKOFF_MIN_MS := 8;
  CONFIG_TX_BUSY_BACKOFF_MAX_MS := 40;
  CONFIG_RELIABLE_MAX_PENDING := 3;
  CONFIG_RELIABLE_RETRANSMISSIONS := 3;
  CONFIG_RELIABLE_RETRY_INTERVAL_MS := 12000;
  CONFIG_RELIABLE_RETRY_JITTER_MS := 3000;
  CONFIG_NODEDB_MAX_NODES := 16;
  CONFIG_NODEINFO_PEER_CACHE_SIZE := 16;
  CONFIG_NODEINFO_UNKNOWN_SUPPRESS_SEC := 600;
  CONFIG_NODEINFO_REPLY_SUPPRESS_SEC := 43200;
  CONFIG_NODEINFO_START_DELAY_SEC := 30;
  CONFIG_NODEINFO_INTERVAL_SEC := 10800;
  CONFIG_SERIAL_RX_BUF_SIZE := 640;
  CONFIG_SERIAL_TX_BUF_SIZE := 2048;
  CONFIG_MQTT := true;
  CONFIG_MQTT_IGNORE_MQTT := false;
  CONFIG_BLE := true;
  CONFIG_NODE_LONG_NAME := "Zephyr Meshtastic";
  CONFIG_NODE_SHORT_NAME := "ZEPH";
  CONFIG_NODE_ID_DEFAULT := 0xDEADBEEF;
  MESHTASTIC_BOARD_HW_MODEL := 255
|}.

Lemma default_kconfig_ranges : @KconfigRanges default_kconfig.
Proof. constructor; cbn; lia. Qed.

(** The options of Kconfig.mqtt. *)
Class MqttConfig := {
  CONFIG_MQTT_BROKER_HOST : string;
  CONFIG_MQTT_BROKER_PORT : N;
  CONFIG_MQTT_USERNAME : string;
  CONFIG_MQTT_PASSWORD : string;
  CONFIG_MQTT_ROOT : string;
  CONFIG_MQTT_ENCRYPTION_ENABLED : bool;
  CONFIG_MQTT_UPLINK_ENABLED : bool;
  CONFIG_MQTT_DOWNLINK_ENABLED : bool;
  CONFIG_MQTT_PUBLISH_QUEUE_SIZE : nat;
  CONFIG_MQTT_RECONNECT_INTERVAL_MS : Z;
  CONFIG_MQTT_RX_BUFFER_SIZE : nat;
  CONFIG_MQTT_TX_BUFFER_SIZE : nat;
  CONFIG_MQTT_MAP_REPORT : bool;
  CONFIG_MQTT_MAP_REPORT_INTERVAL_SEC : Z;
  CONFIG_MQTT_MAP_REPORT_POSITION_PRECISION : Z;
  KERNEL_VERSION_STRING : string
}.
Class MqttRanges `{MqttConfig} := {
  publish_queue_range : (4 ≤ CONFIG_MQTT_PUBLISH_QUEUE_SIZE ≤ 64)%nat;
  tx_buffer_range : (256 ≤ CONFIG_MQTT_TX_BUFFER_SIZE ≤ 4096)%nat
}.

Definition default_mqtt_config : MqttConfig := {|
  CONFIG_MQTT_BROKER_HOST := "mqtt.meshtastic.org";
  CONFIG_MQTT_BROKER_PORT := 1883;
  CONFIG_MQTT_USERNAME := "meshdev";
  CONFIG_MQTT_PASSWORD := "large4cats";
  CONFIG_MQTT_ROOT := "msh/EU_868";
  CONFIG_MQTT_ENCRYPTION_ENABLED := true;
  CONFIG_MQTT_UPLINK_ENABLED := true;
  CONFIG_MQTT_DOWNLINK_ENABLED := true;
  CONFIG_MQTT_PUBLISH_QUEUE_SIZE := 4;
  CONFIG_MQTT_RECONNECT_INTERVAL_MS := 5000;
  CONFIG_MQTT_RX_BUFFER_SIZE := 1024;
  CONFIG_MQTT_TX_BUFFER_SIZE := 1024;
  CONFIG_MQTT_MAP_REPORT := false;
  CONFIG_MQTT_MAP_REPORT_INTERVAL_SEC := 900;
  CONFIG_MQTT_MAP_REPORT_POSITION_PRECISION := 14;
  KERNEL_VERSION_STRING := "4.3.0"
|}.
Lemma default_mqtt_ranges : @MqttRanges default_mqtt_config.
Proof. constructor; cbn; lia. Qed.

(** ** Constants *)

Definition MESHTASTIC_NODE_BROADCAST : Z := 0xFFFFFFFF.
Definition MESHTASTIC_MAX_TEXT_LEN : nat := 233.
Definition MESHTASTIC_MAX_PAYLOAD_LEN : nat := 233.
Definition MESHTASTIC_CHANNEL_LONGFAST : string := "LongFast".
Definition MESHTASTIC_CHANNEL_INDEX_INVALID : Z := 0xFF.
Definition MESHTASTIC_PKT_MAX : nat := 255.
Definition MESHTASTIC_HDR_LEN : nat := 16.
Definition MESHTASTIC_PAYLOAD_MAX : nat := 239.
Definition MESHTASTIC_MAX_CHANNELS : Z := 8.

Definition MESHTASTIC_PORT_TEXT_MESSAGE : Z := 1.
Definition MESHTASTIC_PORT_POSITION : Z := 3.
Definition MESHTASTIC_PORT_NODEINFO : Z := 4.
Definition MESHTASTIC_PORT_ROUTING : Z := 5.
Definition MESHTASTIC_PORT_NODE_STATUS : Z := 36.
Definition MESHTASTIC_PORT_TELEMETRY : Z := 67.
(** [meshtastic_PortNum_*] of portnums.proto. *)
Definition PortNum_UNKNOWN_APP : Z := 0.
Definition PortNum_ROUTING_APP : Z := 5.
Definition PortNum_TEXT_MESSAGE_COMPRESSED_APP : Z := 7.

Definition Role_DISABLED : Z := 0.
Definition Role_PRIMARY : Z := 1.
Definition Role_SECONDARY : Z := 2.

(** [Config.DeviceConfig.Role] and [RebroadcastMode] of config.proto. *)
Definition DeviceRole_CLIENT : Z := 0.
Definition DeviceRole_CLIENT_MUTE : Z := 1.
Definition Rebroadcast_ALL : Z := 0.
Definition Rebroadcast_LOCAL_ONLY : Z := 2.
Definition Rebroadcast_KNOWN_ONLY : Z := 3.
Definition Rebroadcast_NONE : Z := 4.
Definition Rebroadcast_CORE_PORTNUMS_ONLY : Z := 5.

Definition Priority_UNSET : Z := 0.
Definition Priority_ACK : Z := 120.
Definition Transport_INTERNAL : Z := 0.
Definition Transport_LORA : Z := 1.
Definition Transport_MQTT : Z := 5.

(** ** [struct meshtastic_packet]

    [p_payload] is the pointer: [None] for NULL, otherwise the bytes readable
    behind it. *)
Record packet := mk_packet {
  p_from : Z; p_to : Z; p_id : Z; p_portnum : Z;
  p_payload : option (list Z); p_payload_len : nat;
  p_data_dest : Z; p_data_source : Z; p_request_id : Z; p_reply_id : Z;
  p_hop_limit : Z; p_hop_start : Z; p_channel : Z; p_channel_index : Z;
  p_next_hop : Z; p_relay_node : Z;
  p_want_ack : bool; p_via_mqtt : bool; p_want_response : bool;
  p_rssi : Z; p_snr : Z
}.
#[export] Instance packet_set : Settable packet := λ x,
  mk_packet (p_from x) (p_to x) (p_id x) (p_portnum x) (p_payload x) (p_payload_len x)
    (p_data_dest x) (p_data_source x) (p_request_id x) (p_reply_id x)
    (p_hop_limit x) (p_hop_start x) (p_channel x) (p_channel_index x)
    (p_next_hop x) (p_relay_node x) (p_want_ack x) (p_via_mqtt x) (p_want_response x)
    (p_rssi x) (p_snr x).
#[export] Instance packet_eq_dec : EqDecision packet.
Proof. solve_decision. Defined.

(** [(struct meshtastic_packet){0}]: what a designated initialiser leaves in
    the fields it does not name. *)
Definition packet_zero : packet :=
  mk_packet 0 0 0 0 None 0 0 0 0 0 0 0 0 0 0 0 false false false 0 0.

(** The bytes [memcpy(dst, packet->payload, packet->payload_len)] copies. *)
Definition payload_bytes (p : packet) : list Z :=
  take (p_payload_len p) (default [] (p_payload p)).

(** A packet whose pointer really covers [payload_len] bytes, fields within
    their C types. *)
Definition packet_ok (p : packet) : Prop :=
  is_u32 (p_from p) ∧ is_u32 (p_to p) ∧ is_u32 (p_id p) ∧
  is_u8 (p_hop_limit p) ∧ is_u8 (p_hop_start p) ∧
  is_u8 (p_channel p) ∧ is_u8 (p_channel_index p) ∧
  is_u8 (p_next_hop p) ∧ is_u8 (p_relay_node p) ∧
  (∀ bs, p_payload p = Some bs → (p_payload_len p ≤ length bs)%nat ∧ bytes_ok bs).

(** The guard every packet consumer repeats:
    [(payload == NULL && payload_len != 0) || payload_len > MAX_PAYLOAD_LEN]. *)
Definition payload_invalid (p : packet) : bool :=
  (bool_decide (p_payload p = None) && negb (p_payload_len p =? 0)%nat)
  || (MESHTASTIC_MAX_PAYLOAD_LEN <? p_payload_len p)%nat.

(** ** nanopb messages *)

Record Data := mk_Data {
  d_portnum : Z; d_payload : list Z; d_want_response : bool;
  d_dest : Z; d_source : Z; d_request_id : Z; d_reply_id : Z;
  d_emoji : Z; d_bitfield : option Z
}.
#[export] Instance Data_set : Settable Data := λ x,
  mk_Data (d_portnum x) (d_payload x) (d_want_response x) (d_dest x) (d_source x)
    (d_request_id x) (d_reply_id x) (d_emoji x) (d_bitfield x).
#[export] Instance Data_eq_dec : EqDecision Data.
Proof. solve_decision. Defined.
Definition Data_zero : Data := mk_Data 0 [] false 0 0 0 0 0 None.

(** The [payload_variant] union with its tag.  [PV_other] is any tag but the
    two below (0 after [init_zero]) with what the storage shows when it is
    read through the [encrypted] member. *)
Inductive payload_variant :=
  | PV_decoded (d : Data)
  | PV_encrypted (bs : list Z)
  | PV_other (raw : list Z).
#[export] Instance payload_variant_eq_dec : EqDecision payload_variant.
Proof. solve_decision. Defined.

Record MeshPacket := mk_MeshPacket {
  m_from : Z; m_to : Z; m_channel : Z; m_variant : payload_variant; m_id : Z;
  m_rx_snr : Z; m_hop_limit : Z; m_want_ack : bool; m_priority : Z; m_rx_rssi : Z;
  m_via_mqtt : bool; m_hop_start : Z; m_next_hop : Z; m_relay_node : Z;
  m_transport : Z
}.
#[export] Instance MeshPacket_set : Settable MeshPacket := λ x,
  mk_MeshPacket (m_from x) (m_to x) (m_channel x) (m_variant x) (m_id x) (m_rx_snr x)
    (m_hop_limit x) (m_want_ack x) (m_priority x) (m_rx_rssi x) (m_via_mqtt x)
    (m_hop_start x) (m_next_hop x) (m_relay_node x) (m_transport x).
#[export] Instance MeshPacket_eq_dec : EqDecision MeshPacket.
Proof. solve_decision. Defined.
Definition MeshPacket_zero : MeshPacket :=
  mk_MeshPacket 0 0 0 (PV_other []) 0 0 0 false Priority_UNSET 0 false 0 0 0 Transport_INTERNAL.

Definition is_decoded (m : MeshPacket) : bool :=
  match m_variant m with PV_decoded _ => true | _ => false end.
Definition is_encrypted (m : MeshPacket) : bool :=
  match m_variant m with PV_encrypted _ => true | _ => false end.
(** [mesh->encrypted], whatever the tag but [decoded]. *)
Definition encrypted_view (m : MeshPacket) : list Z :=
  match m_variant m with PV_encrypted bs | PV_other bs => bs | PV_decoded _ => [] end.

(** [Routing]: the oneof is only looked at for [error_reason]. *)
Record Routing := mk_Routing { rt_is_error_reason : bool; rt_error_reason : Z }.
Definition Routing_Error_NONE : Z := 0.

Record User := mk_User {
  u_id : string; u_long_name : string; u_short_name : string; u_macaddr : list Z;
  u_hw_model : Z; u_is_licensed : bool; u_role : Z; u_public_key : list Z;
  u_is_unmessagable : option bool
}.
Definition User_zero : User := mk_User "" "" "" (replicate 6 0) 0 false 0 [] None.

Record Position := mk_Position {
  pos_latitude_i : option Z; pos_longitude_i : option Z; pos_altitude : option Z;
  pos_time : Z; pos_location_source : Z; pos_altitude_source : Z;
  pos_altitude_geoidal_separation : option Z; pos_HDOP : Z; pos_ground_speed : option Z;
  pos_ground_track : option Z; pos_fix_quality : Z; pos_fix_type : Z; pos_sats_in_view : Z;
  pos_next_update : Z; pos_seq_number : Z; pos_precision_bits : Z
}.
#[export] Instance Position_set : Settable Position := λ x,
  mk_Position (pos_latitude_i x) (pos_longitude_i x) (pos_altitude x) (pos_time x)
    (pos_location_source x) (pos_altitude_source x) (pos_altitude_geoidal_separation x)
    (pos_HDOP x) (pos_ground_speed x) (pos_ground_track x) (pos_fix_quality x) (pos_fix_type x)
    (pos_sats_in_view x) (pos_next_update x) (pos_seq_number x) (pos_precision_bits x).
#[export] Instance Position_eq_dec : EqDecision Position.
Proof. solve_decision. Defined.
Definition Position_zero : Position := mk_Position None None None 0 0 0 None 0 None None 0 0 0 0 0 0.

#[export] Instance spec_float_eq_dec : EqDecision spec_float.
Proof. solve_decision. Defined.

Record DeviceMetrics := mk_DeviceMetrics {
  dm_battery_level : option Z; dm_voltage : option spec_float;
  dm_channel_utilization : option spec_float; dm_air_util_tx : option spec_float;
  dm_uptime_seconds : option Z
}.
#[export] Instance DeviceMetrics_set : Settable DeviceMetrics := λ x,
  mk_DeviceMetrics (dm_battery_level x) (dm_voltage x) (dm_channel_utilization x)
    (dm_air_util_tx x) (dm_uptime_seconds x).
#[export] Instance DeviceMetrics_eq_dec : EqDecision DeviceMetrics.
Proof. solve_decision. Defined.
Definition DeviceMetrics_zero : DeviceMetrics := mk_DeviceMetrics None None None None None.

Record EnvironmentMetrics := mk_EnvironmentMetrics {
  em_temperature : option spec_float; em_relative_humidity : option spec_float;
  em_barometric_pressure : option spec_float; em_gas_resistance : option spec_float;
  em_voltage : option spec_float; em_current : option spec_float; em_iaq : option Z;
  em_distance : option spec_float; em_lux : option spec_float; em_white_lux : option spec_float;
  em_ir_lux : option spec_float; em_uv_lux : option spec_float; em_wind_direction : option Z;
  em_wind_speed : option spec_float; em_weight : option spec_float;
  em_wind_gust : option spec_float; em_wind_lull : option spec_float;
  em_radiation : option spec_float; em_rainfall_1h : option spec_float;
  em_rainfall_24h : option spec_float; em_soil_moisture : option Z;
  em_soil_temperature : option spec_float; em_one_wire_temperature : list spec_float
}.
#[export] Instance EnvironmentMetrics_set : Settable EnvironmentMetrics := λ x,
  mk_EnvironmentMetrics (em_temperature x) (em_relative_humidity x) (em_barometric_pressure x)
    (em_gas_resistance x) (em_voltage x) (em_current x) (em_iaq x) (em_distance x) (em_lux x)
    (em_white_lux x) (em_ir_lux x) (em_uv_lux x) (em_wind_direction x) (em_wind_speed x)
    (em_weight x) (em_wind_gust x) (em_wind_lull x) (em_radiation x) (em_rainfall_1h x)
    (em_rainfall_24h x) (em_soil_moisture x) (em_soil_temperature x) (em_one_wire_temperature x).
#[export] Instance EnvironmentMetrics_eq_dec : EqDecision EnvironmentMetrics.
Proof. solve_decision. Defined.
Definition EnvironmentMetrics_zero : EnvironmentMetrics :=
  mk_EnvironmentMetrics None None None None None None None None None None None None None None None
    None None None None None None None [].

Inductive Telemetry :=
  | Tel_device_metrics (m : DeviceMetrics)
  | Tel_environment_metrics (m : EnvironmentMetrics)
  | Tel_other (tag : Z).
#[export] Instance Telemetry_eq_dec : EqDecision Telemetry.
Proof. solve_decision. Defined.

(** ** [meshtastic_Channel] *)

Record ChannelSettings := mk_ChannelSettings {
  cs_psk : list Z; cs_name : string; cs_uplink_enabled : bool;
  cs_downlink_enabled : bool; cs_module_settings : option Z
}.
#[export] Instance ChannelSettings_set : Settable ChannelSettings := λ x,
  mk_ChannelSettings (cs_psk x) (cs_name x) (cs_uplink_enabled x)
    (cs_downlink_enabled x) (cs_module_settings x).
#[export] Instance ChannelSettings_eq_dec : EqDecision ChannelSettings.
Proof. solve_decision. Defined.
Definition ChannelSettings_zero : ChannelSettings :=
  mk_ChannelSettings [] "" false false None.

Record Channel := mk_Channel {
  c_index : Z; c_has_settings : bool; c_settings : ChannelSettings; c_role : Z
}.
#[export] Instance Channel_set : Settable Channel := λ x,
  mk_Channel (c_index x) (c_has_settings x) (c_settings x) (c_role x).
#[export] Instance Channel_eq_dec : EqDecision Channel.
Proof. solve_decision. Defined.
Definition Channel_zero : Channel := mk_Channel 0 false ChannelSettings_zero Role_DISABLED.

(** ** Events *)

Inductive event_type :=
  | PACKET_RECEIVED | TEXT_MESSAGE | TX_DONE | TX_FAILED | BLE_CONNECTED
  | BLE_DISCONNECTED | GNSS_FIX | METRICS_ERROR | TX_ACKED | TX_NO_ACK.
#[export] Instance event_type_eq_dec : EqDecision event_type.
Proof. solve_decision. Defined.

Record event := mk_event {
  ev_type : event_type; ev_err : option errno; ev_packet : option packet
}.
#[export] Instance event_eq_dec : EqDecision event.
Proof. solve_decision. Defined.

(** [k_timeout_t]. *)
Inductive timeout := K_NO_WAIT | K_FOREVER | K_MSEC (ms : Z).
#[export] Instance timeout_eq_dec : EqDecision timeout.
Proof. solve_decision. Defined.
