(* ===== verification/External.v ===== *)
(** * Code outside src/

    The stack calls nanopb, PSA Crypto, the Zephyr LoRa driver API and the
    kernel.  Each is a class of operations the model is a parameter of; the
    documented behaviour the theorems rely on is a second class of laws.
    Mock.v has a concrete instance of each for the witnesses. *)

From S2P Require Import Prelude Types.

(** ** nanopb

    [pb_encode n x] is [pb_encode] into a stream over a buffer of [n] bytes
    and [pb_decode] the decoding of the bytes of a stream; [None] is the
    return value [false].  [X] stands for the generated descriptor. *)
Class Pb (X : Type) := {
  pb_encode : nat → X → option (list Z);
  pb_decode : list Z → option X
}.

(** [ok] are the values the message definition can represent. *)
Class PbLaws (X : Type) `{Pb X} (ok : X → Prop) := {
  pb_encode_length n x bs : pb_encode n x = Some bs → (length bs ≤ n)%nat;
  pb_encode_bytes n x bs : pb_encode n x = Some bs → bytes_ok bs;
  pb_decode_encode n x bs : ok x → pb_encode n x = Some bs → pb_decode bs = Some x
}.

(** Values of [meshtastic_Data] within the sizes of the message definition. *)
Definition Data_ok (d : Data) : Prop :=
  is_u32 (d_portnum d) ∧ (length (d_payload d) ≤ MESHTASTIC_MAX_PAYLOAD_LEN)%nat ∧
  bytes_ok (d_payload d) ∧ is_u32 (d_dest d) ∧ is_u32 (d_source d) ∧
  is_u32 (d_request_id d) ∧ is_u32 (d_reply_id d) ∧
  d_emoji d = 0 ∧ d_bitfield d = None.

(** ** PSA Crypto

    The key store and the multi-part cipher operations of [psa/crypto.h]; an
    option result is the status compared with [PSA_SUCCESS]. *)
Class PSA (K : Type) := {
  psa_op : Type;
  psa_import_key : list Z → K → option Z * K;
  psa_cipher_encrypt_setup : Z → K → option psa_op * K;
  psa_cipher_set_iv : psa_op → list Z → K → option psa_op * K;
  psa_cipher_update : psa_op → list Z → K → option (list Z * psa_op) * K;
  psa_cipher_finish : psa_op → K → option (list Z) * K;
  psa_cipher_abort : psa_op → K → K;
  psa_destroy_key : Z → K → K
}.

Definition xor_bytes (a b : list Z) : list Z := zip_with Z.lxor a b.

(** AES-CTR as PSA documents it: a stream cipher whose update returns as many
    bytes as it is given.  [psa_keys] are the live volatile keys, [psa_ops]
    the operations that still hold resources: an operation whose finish fails
    stays so until it is aborted. *)
Class PSALaws (K : Type) `{PSA K} := {
  psa_keys : K → gmap Z (list Z);
  psa_ops : K → nat;
  op_key : psa_op → list Z;
  op_iv : psa_op → list Z;
  ctr_stream : list Z → list Z → nat → list Z;
  ctr_stream_length key iv n : length (ctr_stream key iv n) = n;
  ctr_stream_bytes key iv n : bytes_ok (ctr_stream key iv n);
  import_spec key k :
    match psa_import_key key k with
    | (Some kid, k') => psa_keys k !! kid = None ∧ psa_keys k' = <[kid := key]> (psa_keys k) ∧
                        psa_ops k' = psa_ops k
    | (None, k') => psa_keys k' = psa_keys k ∧ psa_ops k' = psa_ops k
    end;
  setup_spec kid k :
    match psa_cipher_encrypt_setup kid k with
    | (Some op, k') => psa_keys k !! kid = Some (op_key op) ∧ psa_keys k' = psa_keys k ∧
                       psa_ops k' = S (psa_ops k)
    | (None, k') => psa_keys k' = psa_keys k ∧ psa_ops k' = psa_ops k
    end;
  set_iv_spec op iv k :
    match psa_cipher_set_iv op iv k with
    | (Some op', k') => op_key op' = op_key op ∧ op_iv op' = iv ∧
                        psa_keys k' = psa_keys k ∧ psa_ops k' = psa_ops k
    | (None, k') => psa_keys k' = psa_keys k ∧ psa_ops k' = psa_ops k
    end;
  update_spec op input k :
    match psa_cipher_update op input k with
    | (Some (out, _), k') =>
        out = xor_bytes input (ctr_stream (op_key op) (op_iv op) (length input)) ∧
        psa_keys k' = psa_keys k ∧ psa_ops k' = psa_ops k
    | (None, k') => psa_keys k' = psa_keys k ∧ psa_ops k' = psa_ops k
    end;
  finish_spec op k :
    match psa_cipher_finish op k with
    | (Some out, k') => out = [] ∧ psa_keys k' = psa_keys k ∧ psa_ops k' = pred (psa_ops k)
    | (None, k') => psa_keys k' = psa_keys k ∧ psa_ops k' = psa_ops k
    end;
  abort_spec op k :
    psa_keys (psa_cipher_abort op k) = psa_keys k ∧
    psa_ops (psa_cipher_abort op k) = pred (psa_ops k);
  destroy_spec kid k :
    psa_keys (psa_destroy_key kid k) = delete kid (psa_keys k) ∧
    psa_ops (psa_destroy_key kid k) = psa_ops k
}.

(** No call of the crypto service on a live key fails: what the success theorems assume of
    the platform. *)
Class PSATotal (K : Type) `{PSALaws K} := {
  import_total key k : is_Some (psa_import_key key k).1;
  setup_total kid k : is_Some (psa_keys k !! kid) → is_Some (psa_cipher_encrypt_setup kid k).1;
  set_iv_total op iv k : is_Some (psa_cipher_set_iv op iv k).1;
  update_total op input k : is_Some (psa_cipher_update op input k).1;
  finish_total op k : is_Some (psa_cipher_finish op k).1
}.

Lemma xor_bytes_length a b : length a = length b → length (xor_bytes a b) = length a.
Proof. intros H. unfold xor_bytes. rewrite length_zip_with. lia. Qed.

Lemma xor_bytes_involutive a b : length a = length b → xor_bytes (xor_bytes a b) b = a.
Proof.
  revert b. induction a as [|x a IH]; intros [|y b] H; try done. cbn.
  rewrite Z.lxor_assoc, Z.lxor_nilpotent, Z.lxor_0_r. f_equal. apply IH. by injection H.
Qed.

Lemma lxor_u8 a b : is_u8 a → is_u8 b → is_u8 (Z.lxor a b).
Proof.
  intros Ha Hb. assert (0 ≤ Z.lxor a b) by (apply Z.lxor_nonneg; zmod).
  split; [done|]. destruct (decide (Z.lxor a b = 0)) as [->|]; [done|].
  apply (Z.log2_lt_pow2 _ 8); [lia|].
  eapply Z.le_lt_trans; [apply Z.log2_lxor; zmod|].
  apply Z.max_lub_lt; [destruct (decide (a = 0)) as [->|]|destruct (decide (b = 0)) as [->|]];
    try (cbn; lia); apply Z.log2_lt_pow2; zmod.
Qed.

Lemma xor_bytes_ok a b : bytes_ok a → bytes_ok b → bytes_ok (xor_bytes a b).
Proof.
  intros Ha. revert b. induction Ha as [|x a Hx Ha IH]; intros b Hb; [constructor|].
  destruct Hb as [|y b Hy Hb]; [constructor|]. constructor; [by apply lxor_u8|by apply IH].
Qed.

(** ** The LoRa driver

    [struct lora_modem_config], the fields the stack changes. *)
Inductive cad_mode := LORA_CAD_MODE_NONE | LORA_CAD_MODE_LBT.
Record lora_modem_config := mk_lora_modem_config {
  frequency : Z; tx_power : Z; tx : bool; cad : cad_mode; cad_symbol_num : Z
}.
#[export] Instance lora_modem_config_set : Settable lora_modem_config := λ x,
  mk_lora_modem_config (frequency x) (tx_power x) (tx x) (cad x) (cad_symbol_num x).

(** [drivers/lora.h].  [lora_recv_async true] passes the receive callback,
    [lora_recv_async false] a NULL callback, which stops reception. *)
Class LoraDriver (L : Type) := {
  device_is_ready : L → bool;
  lora_config : lora_modem_config → L → result () * L;
  lora_send : list Z → L → result () * L;
  lora_recv_async : bool → L → result () * L;
  lora_airtime : Z → L → Z
}.

(** What an idle driver was asked, in order, with its answers. *)
Inductive modem_call :=
  | Configured (c : lora_modem_config) (r : result ())
  | Sent (bs : list Z) (r : result ()).

(** The documented rule the stack works around: the driver refuses to be
    configured or to send while asynchronous reception is active.
    [modem_calls] is the history of the calls it did take up, by which a
    frame goes out under the last configuration accepted before it. *)
Class LoraLaws (L : Type) `{LoraDriver L} := {
  rx_active : L → bool;
  on_air : L → list (list Z);
  config_busy c l : rx_active l = true → lora_config c l = (Err EBUSY, l);
  send_busy bs l : rx_active l = true → lora_send bs l = (Err EBUSY, l);
  config_spec c l : rx_active l = false →
    rx_active (lora_config c l).2 = false ∧ on_air (lora_config c l).2 = on_air l;
  send_spec bs l : rx_active l = false →
    rx_active (lora_send bs l).2 = false ∧
    on_air (lora_send bs l).2 =
      (if is_err (lora_send bs l).1 then on_air l else on_air l ++ [bs]);
  recv_stop l : rx_active (lora_recv_async false l).2 = false ∧
    on_air (lora_recv_async false l).2 = on_air l;
  recv_start l :
    rx_active (lora_recv_async true l).2 = negb (is_err (lora_recv_async true l).1) ∧
    on_air (lora_recv_async true l).2 = on_air l;
  airtime_range n l : 0 ≤ n → is_u32 (lora_airtime n l);
  modem_calls : L → list modem_call;
  config_called c l : rx_active l = false →
    modem_calls (lora_config c l).2 = modem_calls l ++ [Configured c (lora_config c l).1];
  send_called bs l : rx_active l = false →
    modem_calls (lora_send bs l).2 = modem_calls l ++ [Sent bs (lora_send bs l).1];
  recv_called b l : modem_calls (lora_recv_async b l).2 = modem_calls l
}.

(** ** The kernel

    The clock, the random source, and the outcome of a semaphore wait with a
    finite timeout, which depends on the schedule. *)
Class Kernel (T : Type) := {
  k_uptime_get : T → Z * T;
  sys_rand32_get : T → Z * T;
  k_sleep : Z → T → T;
  k_sem_expires : Z → T → bool * T
}.

Class KernelLaws (T : Type) `{Kernel T} := {
  uptime_range t : 0 ≤ (k_uptime_get t).1 ≤ INT64_MAX `div` 2;
  rand32_range t : is_u32 (sys_rand32_get t).1
}.

(** ** The C library: the numbers behind the error names. *)
Class Libc := { errno_code : errno → Z }.
