(* ===== verification/Mock.v ===== *)
(** * Concrete platforms

    Executable instances of the classes of External.v, with their laws: the
    hypotheses of the development are satisfiable together, and the witnesses
    run on them.  The LoRa driver plays the part tests/common/mock_lora.c
    plays for the C tests. *)

From S2P Require Import Prelude Types External.

(** ** A nanopb stand-in *)

Definition toy_limit (n : nat) (bs : list Z) : option (list Z) :=
  if (length bs <=? n)%nat then Some bs else None.

Lemma toy_limit_Some n bs bs' : toy_limit n bs = Some bs' → bs' = bs ∧ (length bs ≤ n)%nat.
Proof. unfold toy_limit. destruct (Nat.leb_spec (length bs) n); naive_solver. Qed.

Definition toy_Data (d : Data) : list Z :=
  (if d_want_response d then 1 else 0)
  :: le32 (d_portnum d) ++ le32 (d_dest d) ++ le32 (d_source d)
     ++ le32 (d_request_id d) ++ le32 (d_reply_id d) ++ (u8 <$> d_payload d).
Definition toy_Data_decode (bs : list Z) : option Data :=
  if (length bs <? 21)%nat then None
  else
    let f n := get_le32 (drop n bs) in
    Some (mk_Data (f 1%nat) (drop 21 bs) (bool_decide (head bs = Some 1))
            (f 5%nat) (f 9%nat) (f 13%nat) (f 17%nat) 0 None).
#[export] Instance toy_pb_Data : Pb Data := {
  pb_encode n d := toy_limit n (toy_Data d);
  pb_decode := toy_Data_decode
}.

Lemma bytes_ok_u8 bs : bytes_ok (u8 <$> bs).
Proof. apply Forall_fmap, Forall_true. intros. apply u8_is_u8. Qed.
Lemma map_u8_id bs : bytes_ok bs → u8 <$> bs = bs.
Proof. induction 1 as [|x bs Hx _ IH]; cbn; [done|]. by rewrite u8_id, IH. Qed.

#[export] Instance toy_pb_Data_laws : PbLaws Data Data_ok.
Proof.
  constructor.
  - intros n d bs [-> H]%toy_limit_Some. done.
  - intros n d bs [-> H]%toy_limit_Some. unfold toy_Data. constructor.
    { destruct (d_want_response d); zmod. }
    repeat (apply Forall_app; split; [apply bytes_ok_le32|]). apply bytes_ok_u8.
  - intros n d bs (Hp & _ & Hb & Hd & Hs & Hr & Hy & He & Hbf) [-> _]%toy_limit_Some.
    destruct d as [p pl w de so rq rp em bf]; cbn in *. subst.
    unfold pb_decode, toy_pb_Data, toy_Data_decode, toy_Data. cbn -[Nat.ltb].
    do 2 f_equal; try zmod; [|by destruct w]. by rewrite drop_0, map_u8_id.
Qed.

Definition toy_Routing (r : Routing) : list Z :=
  (if rt_is_error_reason r then 1 else 0) :: le32 (rt_error_reason r).
#[export] Instance toy_pb_Routing : Pb Routing := {
  pb_encode n r := toy_limit n (toy_Routing r);
  pb_decode bs := match bs with
                  | b :: bs => Some (mk_Routing (bool_decide (b = 1)) (get_le32 bs))
                  | [] => None
                  end
}.

#[export] Instance toy_pb_Routing_laws : PbLaws Routing (λ r, is_u32 (rt_error_reason r)).
Proof.
  constructor.
  - by intros n r bs [-> H]%toy_limit_Some.
  - intros n r bs [-> H]%toy_limit_Some. constructor; [by case_match|apply bytes_ok_le32].
  - intros n [b e] bs He [-> _]%toy_limit_Some. unfold pb_decode, toy_pb_Routing, toy_Routing.
    cbn in He |- *. do 2 f_equal; [by destruct b|]. zmod.
Qed.

(** ** A PSA Crypto stand-in: a key store and a toy stream *)

Record toy_psa := mk_toy_psa {
  toy_keys : gmap Z (list Z); toy_ops : nat
}.
Definition toy_stream (key iv : list Z) (n : nat) : list Z :=
  (λ i, u8 (foldr Z.add (Z.of_nat i) (key ++ iv))) <$> seq 0 n.
Definition fresh_id (m : gmap Z (list Z)) : Z := fresh (elements (dom m : gset Z)).

#[export] Instance toy_PSA : PSA toy_psa := {
  psa_op := list Z * list Z;
  psa_import_key key k :=
    let kid := fresh_id (toy_keys k) in
    (Some kid, mk_toy_psa (<[kid := key]> (toy_keys k)) (toy_ops k));
  psa_cipher_encrypt_setup kid k :=
    match toy_keys k !! kid with
    | Some key => (Some (key, []), mk_toy_psa (toy_keys k) (S (toy_ops k)))
    | None => (None, k)
    end;
  psa_cipher_set_iv op iv k := (Some (op.1, iv), k);
  psa_cipher_update op input k :=
    (Some (xor_bytes input (toy_stream op.1 op.2 (length input)), op), k);
  psa_cipher_finish op k := (Some [], mk_toy_psa (toy_keys k) (pred (toy_ops k)));
  psa_cipher_abort op k := mk_toy_psa (toy_keys k) (pred (toy_ops k));
  psa_destroy_key kid k := mk_toy_psa (delete kid (toy_keys k)) (toy_ops k)
}.

Lemma toy_keys_fresh (m : gmap Z (list Z)) : m !! fresh_id m = None.
Proof.
  apply (not_elem_of_dom (D:=gset Z)). intros H%elem_of_elements. by eapply infinite_is_fresh.
Qed.

#[export] Instance toy_PSA_laws : PSALaws toy_psa.
Proof.
  refine {| psa_keys := toy_keys; psa_ops := toy_ops; op_key := fst; op_iv := snd;
            ctr_stream := toy_stream |}.
  - intros. unfold toy_stream. by rewrite length_fmap, length_seq.
  - intros. apply Forall_fmap, Forall_true. intros. apply u8_is_u8.
  - intros key k. cbn. split_and!; [apply toy_keys_fresh|done..].
  - intros kid k. cbn. destruct (toy_keys k !! kid) eqn:E; done.
  - done.
  - done.
  - done.
  - done.
  - done.
Defined.

#[export] Instance toy_PSA_total : PSATotal toy_psa.
Proof.
  constructor; try done. intros kid k Hk. cbn in *. by destruct (toy_keys k !! kid), Hk.
Qed.

(** ** A LoRa driver *)

(** [mock_busy] more transmissions end in [-EBUSY], then [mock_err] decides. *)
Record mock_lora := mk_mock_lora_called {
  mock_rx : bool; mock_air : list (list Z); mock_busy : nat; mock_err : option errno;
  mock_ready : bool; mock_calls : list modem_call
}.
Definition mk_mock_lora rx air busy err ready : mock_lora :=
  mk_mock_lora_called rx air busy err ready [].
#[export] Instance mock_lora_set : Settable mock_lora := λ x,
  mk_mock_lora_called (mock_rx x) (mock_air x) (mock_busy x) (mock_err x) (mock_ready x)
    (mock_calls x).

#[export] Instance mock_lora_driver : LoraDriver mock_lora := {
  device_is_ready := mock_ready;
  lora_config c l :=
    if mock_rx l then (Err EBUSY, l)
    else (Ok (), l <| mock_calls ::= (λ cs, cs ++ [Configured c (Ok ())]) |>);
  lora_send bs l :=
    if mock_rx l then (Err EBUSY, l)
    else
      let called r l := (r, l <| mock_calls ::= (λ cs, cs ++ [Sent bs r]) |>) in
      match mock_busy l with
      | S n => called (Err EBUSY) (l <| mock_busy := n |>)
      | O => match mock_err l with
             | Some e => called (Err e) l
             | None => called (Ok ()) (l <| mock_air ::= (λ a, a ++ [bs]) |>)
             end
      end;
  lora_recv_async arm l := (Ok (), l <| mock_rx := arm |>);
  lora_airtime n _ := u32 (n * 10)
}.

#[export] Instance mock_lora_laws : LoraLaws mock_lora.
Proof.
  refine {| rx_active := mock_rx; on_air := mock_air; modem_calls := mock_calls |}.
  - intros c [] H; cbn in *; by subst.
  - intros bs [] H; cbn in *; by subst.
  - intros c [] H; cbn in *; by subst.
  - intros bs [? ? [] [] ? ?] H; cbn in *; by subst.
  - done.
  - done.
  - intros. apply u32_is_u32.
  - intros c [] H; cbn in *; by subst.
  - intros bs [? ? [] [] ? ?] H; cbn in *; by subst.
  - done.
Defined.

(** ** A kernel: the clock advances by one millisecond per reading *)

Record mock_kernel := mk_mock_kernel { mock_now : Z; mock_rand : Z; mock_expires : bool }.
#[export] Instance mock_Kernel : Kernel mock_kernel := {
  k_uptime_get t := (mock_now t `mod` 4294967296,
    mk_mock_kernel ((mock_now t + 1) `mod` 4294967296) (mock_rand t) (mock_expires t));
  sys_rand32_get t := (u32 (mock_rand t),
    mk_mock_kernel (mock_now t) (u32 (mock_rand t * 1103515245 + 12345)) (mock_expires t));
  k_sleep ms t := mk_mock_kernel ((mock_now t + ms) `mod` 4294967296) (mock_rand t)
    (mock_expires t);
  k_sem_expires _ t := (mock_expires t, t)
}.

#[export] Instance mock_Kernel_laws : KernelLaws mock_kernel.
Proof.
  constructor; intros t; cbn.
  - pose proof (Z.mod_pos_bound (mock_now t) 4294967296). unfold INT64_MAX. zmod.
  - apply u32_is_u32.
Qed.

(** A message the peer never sends: every buffer is refused. *)
Definition pb_silent (X : Type) : Pb X :=
  {| pb_encode := λ _ _, None; pb_decode := λ _, None |}.

(** A codec that knows a fixed table of values and sends their position. *)
Definition table_encode {X} `{EqDecision X} (tbl : list X) (n : nat) (x : X)
    : option (list Z) :=
  i ← find_index (λ y, bool_decide (y = x)) tbl;
  if (1 <=? n)%nat && (i <? 256)%nat then Some [Z.of_nat i] else None.
Definition table_pb {X} `{EqDecision X} (tbl : list X) : Pb X := {|
  pb_encode := table_encode tbl;
  pb_decode bs := match bs with [b] => tbl !! Z.to_nat b | _ => None end
|}.

Lemma table_pb_laws {X} `{EqDecision X} (tbl : list X) :
  @PbLaws X (table_pb tbl) (λ x, x ∈ tbl).
Proof.
  assert (∀ n x bs, table_encode tbl n x = Some bs →
    ∃ i, bs = [Z.of_nat i] ∧ (1 ≤ n)%nat ∧ (i < 256)%nat ∧ tbl !! i = Some x) as Henc.
  { intros n x bs. unfold table_encode. destruct (find_index _ tbl) as [i|] eqn:E; [|done]. cbn [mbind option_bind].
    apply find_index_Some in E as [(y & Hy & Heq) _]. apply bool_decide_eq_true in Heq as ->.
    destruct ((1 <=? n)%nat && (i <? 256)%nat) eqn:E2; [|done]. boolp.
    rewrite Nat.leb_le, Nat.ltb_lt in *. intros Hbs. injection Hbs as <-. eauto 10. }
  constructor.
  - intros n x bs (i & -> & Hn & _)%Henc. done.
  - intros n x bs (i & -> & _ & Hi & _)%Henc. repeat constructor; lia.
  - intros n x bs _ (i & -> & _ & _ & Hx)%Henc. cbn. by rewrite Nat2Z.id.
Qed.

(** picolibc's [errno.h]. *)
#[export] Instance picolibc : Libc := { errno_code e :=
  match e with
  | EINVAL => 22 | ENOMEM => 12 | ENOENT => 2 | ENODEV => 19 | ENOTSUP => 134 | EIO => 5
  | EBADMSG => 77 | ENOMSG => 35 | EAGAIN => 11 | EBUSY => 16 | EALREADY => 120 | ENOSYS => 88
  | EHOSTUNREACH => 118 | ETIMEDOUT => 116 | ENODATA => 61 | ENOTCONN => 128
  | EDRV code => Z.pos code
  end }.
