(* ===== verification/Core.v ===== *)
(** * Runtime context (src/meshtastic.c, src/meshtastic_core.h)

    The global [mt] less the two fields that belong to the channel table, the
    identifier counters, the local user record, the node number rules and the
    status snapshot. *)

From S2P Require Import Prelude Types.

(** [struct meshtastic_status]; [initialized] and [node_id] are filled by
    [meshtastic_get_status]. *)
Record status := mk_status {
  ble_connected : bool; tx_packets : Z; tx_failures : Z; rx_packets : Z;
  relayed_packets : Z; duplicate_packets : Z; decode_failures : Z; rx_dropped : Z;
  rx_rearm_failures : Z; last_rx_from : Z; last_rssi : Z; last_snr : Z
}.
#[export] Instance status_set : Settable status := λ x,
  mk_status (ble_connected x) (tx_packets x) (tx_failures x) (rx_packets x)
    (relayed_packets x) (duplicate_packets x) (decode_failures x) (rx_dropped x)
    (rx_rearm_failures x) (last_rx_from x) (last_rssi x) (last_snr x).
Definition status_zero : status := mk_status false 0 0 0 0 0 0 0 0 0 0 0.

(** A [uint32_t] counter's [++]. *)
Definition inc32 (z : Z) : Z := u32 (z + 1).

(** [struct meshtastic_context].  A callback is whether one is registered;
    [mt_lora_dev] is whether the device pointer is set. *)
Record context := mk_context {
  mt_lora_dev : bool;
  mt_node_id : Z; mt_hop_limit : Z; mt_tx_power : Z; mt_frequency : Z;
  mt_long_name : string; mt_short_name : string;
  mt_recv_cb : bool; mt_event_cb : bool;
  mt_next_pkt_id : Z; mt_next_fromradio_id : Z;
  mt_dup_cache : list (Z * Z); mt_dup_head : nat;
  mt_status : status; mt_initialized : bool; mt_radio_rx_armed : bool
}.
#[export] Instance context_set : Settable context := λ x,
  mk_context (mt_lora_dev x) (mt_node_id x) (mt_hop_limit x) (mt_tx_power x)
    (mt_frequency x) (mt_long_name x) (mt_short_name x) (mt_recv_cb x) (mt_event_cb x)
    (mt_next_pkt_id x) (mt_next_fromradio_id x) (mt_dup_cache x) (mt_dup_head x)
    (mt_status x) (mt_initialized x) (mt_radio_rx_armed x).

Definition MESHTASTIC_FROMRADIO_NONE : Z := 0.

(** [id = counter++; if (id == 0) id = counter++;] *)
Definition next_nonzero (counter : Z) : Z * Z :=
  let id := counter in
  let counter := inc32 counter in
  if id =? 0 then (counter, inc32 counter) else (id, counter).

Definition meshtastic_allocate_packet_id (mt : context) : Z * context :=
  let '(id, next) := next_nonzero (mt_next_pkt_id mt) in
  (id, mt <| mt_next_pkt_id := next |>).

Definition meshtastic_next_fromradio_id (mt : context) : Z * context :=
  let '(id, next) := next_nonzero (mt_next_fromradio_id mt) in
  (id, mt <| mt_next_fromradio_id := next |>).

(** ** The local user *)

Definition hex_digit (d : Z) : Ascii.ascii :=
  Ascii.ascii_of_N (Z.to_N (if d <? 10 then 48 + d else 87 + d)).
(** [snprintk("!%08x", node)]. *)
Definition node_id_string (node : Z) : string :=
  String.String (Ascii.ascii_of_N 33)
    (foldr (λ k s, String.String (hex_digit (Z.land (Z.shiftr node k) 15)) s) ""
       [28; 24; 20; 16; 12; 8; 4; 0]).

(** [hw_model] is MESHTASTIC_BOARD_HW_MODEL, [role] the device role; the
    array sizes are those of mesh.options. *)
Definition meshtastic_fill_user (hw_model role : Z) (mt : context) : User :=
  let node := mt_node_id mt in
  mk_User (node_id_string node)
    (strncpy 39 (mt_long_name mt)) (strncpy 4 (mt_short_name mt))
    [0x02; 0x00; u8 (Z.shiftr node 24); u8 (Z.shiftr node 16); u8 (Z.shiftr node 8); u8 node]
    hw_model false role [] None.

(** ** Node numbers *)

(** [sys_get_be32(&data\[i\])]. *)
Definition be32_at (i : nat) (data : list Z) : Z := get_be32 (drop i data).

(** Last four bytes, big-endian; bytes 2 to 5 of a MAC address.  Shorter
    identifiers are right-aligned in a zeroed buffer. *)
Definition node_id_from_bytes (data : list Z) : Z :=
  let len := length data in
  if (6 <=? len)%nat then be32_at 2 data
  else if (4 <=? len)%nat then be32_at (len - 4) data
  else if (len =? 0)%nat then 0
  else get_be32 (replicate (4 - len) 0 ++ data).

(** [hwid] is what [hwinfo_get_device_id] stored, [None] an error. *)
Definition node_id_from_hwinfo (hwid : option (list Z)) : result Z :=
  match hwid with
  | None | Some [] => Err ENODEV
  | Some hwid =>
      let node_id := node_id_from_bytes hwid in
      if node_id =? 0 then Err EINVAL else Ok node_id
  end.

(** ** Status *)

Record status_snapshot := mk_snapshot {
  snap_status : status; snap_initialized : bool; snap_node_id : Z
}.

(** [out] is whether the caller's pointer is not NULL. *)
Definition meshtastic_get_status (out : bool) (mt : context) : result status_snapshot :=
  if negb out then Err EINVAL
  else Ok (mk_snapshot (mt_status mt) (mt_initialized mt) (mt_node_id mt)).

Definition meshtastic_set_ble_connected (connected : bool) (mt : context) : context :=
  mt <| mt_status ::= set ble_connected (λ _, connected) |>.

Definition meshtastic_set_recv_cb (cb : bool) (mt : context) : context :=
  mt <| mt_recv_cb := cb |>.
Definition meshtastic_set_event_cb (cb : bool) (mt : context) : context :=
  mt <| mt_event_cb := cb |>.

(** ** Duplicate cache (src/meshtastic_router.c) *)

Definition dup_check (src id : Z) (mt : context) : bool * context :=
  if bool_decide ((src, id) ∈ mt_dup_cache mt)
  then (true, mt <| mt_status ::= set duplicate_packets inc32 |>)
  else (false, mt).

Definition dup_add `{Kconfig} (src id : Z) (mt : context) : context :=
  mt <| mt_dup_cache ::= <[mt_dup_head mt := (src, id)]> |>
     <| mt_dup_head := ((mt_dup_head mt + 1) mod CONFIG_DUP_CACHE_SIZE)%nat |>.

(** ** Lemmas *)

Lemma next_nonzero_spec c :
  is_u32 c →
  (next_nonzero c).1 ≠ 0 ∧ is_u32 (next_nonzero c).1 ∧ is_u32 (next_nonzero c).2 ∧
  ((next_nonzero c).1 = c ∨ c = 0 ∧ (next_nonzero c).1 = 1) ∧
  (next_nonzero c).2 = u32 ((next_nonzero c).1 + 1).
Proof.
  intros Hc. unfold next_nonzero, inc32.
  destruct (Z.eqb_spec c 0) as [->|]; cbn; split_and!; auto using u32_is_u32; try (vm_compute; intuition congruence).
Qed.

(** The identifiers of [n] successive calls. *)
Fixpoint allocate_many (n : nat) (mt : context) : list Z * context :=
  match n with
  | O => ([], mt)
  | S n => let '(id, mt) := meshtastic_allocate_packet_id mt in
           let '(ids, mt) := allocate_many n mt in
           (id :: ids, mt)
  end.

(** Positions on the cycle 1 .. 2^32 - 1 the counter runs through. *)
Definition id_after (c : Z) (k : Z) : Z := (c - 1 + k) `mod` 4294967295 + 1.

Lemma allocate_many_ids n mt c :
  is_u32 c → mt_next_pkt_id mt = c →
  (allocate_many n mt).1 =
    (λ k, id_after (if c =? 0 then 1 else c) (Z.of_nat k)) <$> seq 0 n.
Proof.
  revert mt c. induction n as [|n IH]; intros mt c Hc Hmt; [done|].
  cbn [allocate_many]. unfold meshtastic_allocate_packet_id. rewrite Hmt.
  destruct (next_nonzero_spec c Hc) as (Hnz & Hu1 & Hu2 & Hid & Hnx).
  destruct (next_nonzero c) as [id nx]; cbn in *.
  specialize (IH (mt <| mt_next_pkt_id := nx |>) nx Hu2 eq_refl).
  destruct (allocate_many n _) as [ids mt']; cbn in *.
  assert ((if c =? 0 then 1 else c) = id) as ->.
  { destruct (Z.eqb_spec c 0); lia. }
  f_equal; [unfold id_after; zmod|].
  rewrite IH, <-fmap_S_seq, <-list_fmap_compose. apply list_fmap_ext. intros i k _. cbn.
  unfold id_after. subst nx. destruct (Z.eqb_spec (u32 (id + 1)) 0) as [H0|H0].
  - assert (id = 4294967295) as -> by zmod. f_equal.
    rewrite <-(Z_mod_plus_full (1 - 1 + Z.of_nat k) 1). f_equal. lia.
  - rewrite u32_id by zmod. do 2 f_equal. lia.
Qed.

Lemma id_after_inj c k1 k2 :
  is_u32 c → 0 ≤ k1 < 4294967295 → 0 ≤ k2 < 4294967295 →
  id_after c k1 = id_after c k2 → k1 = k2.
Proof. intros Hc H1 H2. unfold id_after. zmod. Qed.

Lemma id_after_range c k : 1 ≤ id_after c k < 4294967296.
Proof. unfold id_after. pose proof (Z.mod_pos_bound (c - 1 + k) 4294967295). lia. Qed.

(** ** The duplicate cache as a window *)

(** The cached pairs, oldest first. *)
Definition dup_recent (mt : context) : list (Z * Z) :=
  drop (mt_dup_head mt) (mt_dup_cache mt) ++ take (mt_dup_head mt) (mt_dup_cache mt).

Record dup_wf `{Kconfig} (mt : context) : Prop := {
  dup_length : length (mt_dup_cache mt) = CONFIG_DUP_CACHE_SIZE;
  dup_head_lt : (mt_dup_head mt < CONFIG_DUP_CACHE_SIZE)%nat
}.

Lemma dup_recent_elem mt x : x ∈ dup_recent mt ↔ x ∈ mt_dup_cache mt.
Proof.
  unfold dup_recent. rewrite elem_of_app, (comm or), <- elem_of_app. by rewrite take_drop.
Qed.

Lemma dup_add_recent `{KconfigRanges} src id mt :
  dup_wf mt →
  dup_wf (dup_add src id mt) ∧
  dup_recent (dup_add src id mt) = tail (dup_recent mt) ++ [(src, id)].
Proof.
  intros [Hl Hh]. pose proof dup_cache_range. split.
  { constructor; cbn; [by rewrite length_insert|apply Nat.mod_upper_bound; lia]. }
  unfold dup_recent, dup_add. cbn. set (h := mt_dup_head mt) in *. set (c := mt_dup_cache mt) in *.
  assert (∃ y, c !! h = Some y) as [y Hy] by (apply lookup_lt_is_Some; lia).
  rewrite (drop_S c y h) by done. cbn [tail app].
  rewrite insert_take_drop by lia.
  assert (length (take h c) = h) as Ht by (rewrite length_take; lia).
  destruct (decide (h + 1 = CONFIG_DUP_CACHE_SIZE)%nat) as [Heq|Hne].
  - rewrite Heq, Nat.Div0.mod_same. cbn. rewrite app_nil_r.
    rewrite (drop_ge c) by lia. done.
  - rewrite Nat.mod_small by lia. rewrite Nat.add_1_r.
    rewrite drop_app_ge, take_app_ge by lia. rewrite Ht.
    replace (S h - h)%nat with 1%nat by lia. cbn. by rewrite <- app_assoc.
Qed.

Lemma dup_add_window `{KconfigRanges} pkts : ∀ mt,
  dup_wf mt →
  let mt' := foldl (λ mt x, dup_add x.1 x.2 mt) mt pkts in
  dup_wf mt' ∧ dup_recent mt' = drop (length pkts) (dup_recent mt ++ pkts).
Proof.
  induction pkts as [|[src id] pkts IH]; intros mt Hwf; cbn; [by rewrite app_nil_r|].
  destruct (dup_add_recent src id mt Hwf) as [Hwf' Hr]. destruct (IH _ Hwf') as [Hwf2 Hr2].
  split; [done|]. rewrite Hr2, Hr, <- app_assoc. cbn.
  assert (length (dup_recent mt) = CONFIG_DUP_CACHE_SIZE) as Hlen.
  { unfold dup_recent. rewrite length_app, length_drop, length_take. destruct Hwf. lia. }
  pose proof dup_cache_range. by destruct (dup_recent mt); cbn in Hlen; [lia|].
Qed.

(** ** Properties *)

(** C36: the identifiers of any 2^32 - 1 successive allocations are pairwise
    distinct, none is the reserved value 0, and all fit in 32 bits, whatever
    the counter starts from: a packet identifier is not reused before the
    counter has gone round. *)
Theorem allocate_packet_id_unique n mt :
  is_u32 (mt_next_pkt_id mt) → Z.of_nat n ≤ 4294967295 →
  NoDup (allocate_many n mt).1 ∧ Forall (λ id, id ≠ 0 ∧ is_u32 id) (allocate_many n mt).1.
Proof.
  intros Hc Hn. rewrite (allocate_many_ids n mt (mt_next_pkt_id mt)) by done.
  set (c := if mt_next_pkt_id mt =? 0 then 1 else mt_next_pkt_id mt).
  assert (is_u32 c) as Hc' by (unfold c; case_if; [done|done]).
  split.
  - apply NoDup_fmap_2_strong; [|apply NoDup_seq].
    intros k1 k2 [_ H1]%elem_of_seq [_ H2]%elem_of_seq E.
    apply id_after_inj in E; [lia|done|lia..].
  - apply Forall_fmap, Forall_true. intros k. cbn.
    pose proof (id_after_range c (Z.of_nat k)). split; [lia|zmod].
Qed.

(** the node number derived from a hardware identifier is the last four
    bytes of a MAC address (or of a 4- or 5-byte identifier, or the whole of a
    shorter one) in big-endian order, and initialisation refuses a device
    whose number would be 0. *)
Theorem node_id_from_hwinfo_spec hwid n :
  bytes_ok hwid →
  node_id_from_hwinfo (Some hwid) = Ok n →
  is_u32 n ∧ n ≠ 0 ∧
  (length hwid = 6%nat → n = get_be32 (drop 2 hwid)) ∧
  ((length hwid < 6)%nat → n = foldl (λ acc b, 256 * acc + b) 0 (drop (length hwid - 4) hwid)).
Proof.
  intros Hok. unfold node_id_from_hwinfo. destruct hwid as [|b0 hwid]; [done|].
  set (l := b0 :: hwid) in *. destruct (Z.eqb_spec (node_id_from_bytes l) 0); [done|].
  intros [= <-].
  assert (∀ bs, bytes_ok bs → is_u32 (get_be32 bs)) as Hbe.
  { intros bs Hbs. destruct bs as [|x0 [|x1 [|x2 [|x3 bs]]]]; cbn; try zmod.
    unfold bytes_ok in Hbs. rewrite !Forall_cons in Hbs. destruct_and!. zmod. }
  split_and!; [|done|..].
  - unfold node_id_from_bytes, be32_at. repeat case_if; try apply Hbe; try (by apply Forall_drop).
    + zmod.
    + apply Forall_app. split; [|done]. apply Forall_replicate. zmod.
  - intros Hl. unfold node_id_from_bytes. by rewrite Hl.
  - intros Hl. subst l. destruct hwid as [|b1 [|b2 [|b3 [|b4 [|b5 hwid]]]]];
      cbn in Hl |- *; unfold node_id_from_bytes, be32_at; cbn; lia.
Qed.

(** C5: the duplicate cache is a sliding window: after the router has recorded
    any sequence of packets, a (sender, identifier) pair counts as a duplicate
    exactly if it is among the last CONFIG_DUP_CACHE_SIZE pairs recorded
    (counting what the cache held before). *)
Theorem dup_cache_window `{KconfigRanges} mt pkts src id
    (mt' := foldl (λ mt x, dup_add x.1 x.2 mt) mt pkts)
    (window := drop (length pkts) (dup_recent mt ++ pkts)) :
  dup_wf mt →
  dup_wf mt' ∧ length window = CONFIG_DUP_CACHE_SIZE ∧
  (dup_check src id mt').1 = bool_decide ((src, id) ∈ window).
Proof.
  intros Hwf. destruct (dup_add_window pkts mt Hwf) as [Hwf' Hr]. fold mt' window in Hr, Hwf'.
  split_and!; [done| |].
  - rewrite <- Hr. unfold dup_recent. rewrite length_app, length_drop, length_take.
    destruct Hwf'. lia.
  - unfold dup_check. rewrite <- Hr. case_bool_decide as Hd; rewrite <- dup_recent_elem in Hd;
      symmetry; [by apply bool_decide_eq_true|by apply bool_decide_eq_false].
Qed.

Lemma allocate_packet_id_unique_witness :
  (allocate_many 3 (mk_context true 1 3 17 0 "" "" false false 4294967295 1 [] 0 status_zero
     true false)).1 = [4294967295; 1; 2] ∧
  NoDup (allocate_many 3 (mk_context true 1 3 17 0 "" "" false false 4294967295 1 [] 0
     status_zero true false)).1.
Proof.
  split; [done|]. apply allocate_packet_id_unique; [by vm_compute|lia].
Defined.

Lemma node_id_from_hwinfo_spec_witness :
  node_id_from_hwinfo (Some [0x02; 0x00; 0xDE; 0xAD; 0xBE; 0xEF]) = Ok 0xDEADBEEF ∧
  is_u32 0xDEADBEEF.
Proof.
  split; [done|].
  apply (node_id_from_hwinfo_spec [0x02; 0x00; 0xDE; 0xAD; 0xBE; 0xEF]); [|done].
  apply (bool_decide_unpack _). by vm_compute.
Defined.

Lemma dup_cache_window_witness
    (mt := mk_context true 1 3 17 0 "" "" false false 1 1
       (replicate (@CONFIG_DUP_CACHE_SIZE default_kconfig) (0, 0)) 0 status_zero true false)
    (mt' := dup_add (H:=default_kconfig) 9 55 mt) :
  dup_wf (H:=default_kconfig) mt ∧ (dup_check 9 55 mt').1 = true.
Proof.
  assert (dup_wf (H:=default_kconfig) mt) as Hwf by (constructor; cbn; [done|lia]).
  split; [done|].
  destruct (@dup_cache_window default_kconfig default_kconfig_ranges mt [(9, 55)] 9 55 Hwf)
    as (_ & _ & Hd). cbn [foldl fst snd] in Hd. unfold mt'. rewrite Hd. by vm_compute.
Defined.
