(* ===== verification/Airtime.v ===== *)
(** * Airtime accounting (src/meshtastic_airtime.c)

    Two rings of counters, six ten-second periods for the channel and sixty
    minutes for our own transmissions, advanced by a one-second timer.  The
    counters are atomics read back as [uint32_t]: values are kept modulo
    2^32. *)

From Stdlib Require Import SpecFloat.
From S2P Require Import Prelude Types.

Definition MESHTASTIC_CHANNEL_UTILIZATION_PERIODS : Z := 6.
Definition MESHTASTIC_MINUTES_IN_HOUR : Z := 60.
Definition MESHTASTIC_MS_IN_HOUR : Z := 3600 * 1000.

Inductive airtime_type := AIRTIME_TX | AIRTIME_RX | AIRTIME_RX_ALL.

(** [struct meshtastic_airtime_state]. *)
Record airtime_state := mk_airtime {
  channel_utilization : list Z; utilization_tx : list Z; sec_since_boot : Z;
  last_util_period : Z; last_util_period_tx : Z; first_tick : bool
}.
#[export] Instance airtime_set : Settable airtime_state := λ x,
  mk_airtime (channel_utilization x) (utilization_tx x) (sec_since_boot x)
    (last_util_period x) (last_util_period_tx x) (first_tick x).

Definition period_util_minute (a : airtime_state) : Z :=
  (u32 (sec_since_boot a) `div` 10) `mod` MESHTASTIC_CHANNEL_UTILIZATION_PERIODS.
Definition period_util_hour (a : airtime_state) : Z :=
  (u32 (sec_since_boot a) `div` 60) `mod` MESHTASTIC_MINUTES_IN_HOUR.

(** [atomic_add(&ring\[idx\], ms)]. *)
Definition ring_add (idx ms : Z) (ring : list Z) : list Z :=
  alter (λ v, u32 (v + ms)) (Z.to_nat idx) ring.

Definition channel_util_add (ms : Z) (a : airtime_state) : airtime_state :=
  a <| channel_utilization ::= ring_add (period_util_minute a) ms |>.

Definition meshtastic_airtime_log (type : airtime_type) (ms : Z) (a : airtime_state)
    : airtime_state :=
  match type with
  | AIRTIME_TX =>
      channel_util_add ms (a <| utilization_tx ::= ring_add (period_util_hour a) ms |>)
  | AIRTIME_RX | AIRTIME_RX_ALL => channel_util_add ms a
  end.

Definition ring_sum (ring : list Z) : Z := foldl (λ sum v, u32 (sum + v)) 0 ring.

(** ** The percentages, in IEEE single precision *)

Definition float32_of_Z (z : Z) : spec_float := binary_normalize 24 128 z 0 false.
Definition percent_of (sum whole : Z) : spec_float :=
  SFmul 24 128 (SFdiv 24 128 (float32_of_Z sum) (float32_of_Z whole)) (float32_of_Z 100).

Definition meshtastic_airtime_channel_util_percent (a : airtime_state) : spec_float :=
  percent_of (ring_sum (channel_utilization a))
    (MESHTASTIC_CHANNEL_UTILIZATION_PERIODS * 10 * 1000).
Definition meshtastic_airtime_tx_util_percent (a : airtime_state) : spec_float :=
  percent_of (ring_sum (utilization_tx a)) MESHTASTIC_MS_IN_HOUR.

Definition meshtastic_airtime_tick (a : airtime_state) : airtime_state :=
  let a := a <| sec_since_boot ::= λ s, u32 (s + 1) |> in
  let util_period := period_util_minute a in
  let util_period_tx := period_util_hour a in
  if first_tick a then
    a <| first_tick := false |> <| last_util_period := util_period |>
      <| last_util_period_tx := util_period_tx |>
  else
    let a := if negb (last_util_period a =? util_period) then
               a <| last_util_period := util_period |>
                 <| channel_utilization ::= <[Z.to_nat util_period := 0]> |>
             else a in
    if negb (last_util_period_tx a =? util_period_tx) then
      a <| last_util_period_tx := util_period_tx |>
        <| utilization_tx ::= <[Z.to_nat util_period_tx := 0]> |>
    else a.

Definition meshtastic_airtime_init : airtime_state :=
  mk_airtime (replicate 6 0) (replicate 60 0) 0 0 0 true.

(** ** Specification

    A history of logged transmissions, each with the period it fell in.  Ring
    slot [j] stands for the logs of the one period among the last [n] that is
    congruent to [j]. *)

Definition in_window (n cur : Z) (e : Z * Z) : bool := (cur - n <? e.1) && (e.1 <=? cur).
Definition logged (f : Z * Z → bool) (hist : list (Z * Z)) : Z :=
  foldr (λ e acc, if f e then e.2 + acc else acc) 0 hist.
Definition slot_total (n cur j : Z) (hist : list (Z * Z)) : Z :=
  logged (λ e, in_window n cur e && (e.1 `mod` n =? j)) hist.

Definition ring_repr (n cur : Z) (ring : list Z) (hist : list (Z * Z)) : Prop :=
  length ring = Z.to_nat n ∧ Forall (λ e, e.1 ≤ cur) hist ∧
  ∀ j, 0 ≤ j < n → ring !! Z.to_nat j = Some (u32 (slot_total n cur j hist)).

Section ring.
Context (n : Z) (Hn : 0 < n).

Lemma logged_ext f g hist :
  (∀ e, e ∈ hist → f e = g e) → logged f hist = logged g hist.
Proof.
  unfold logged. induction hist as [|e hist IH]; intros Hfg; cbn; [done|].
  rewrite Hfg by (by left). rewrite IH by (intros; apply Hfg; by right). done.
Qed.

Lemma ring_repr_add cur ring hist ms :
  ring_repr n cur ring hist →
  ring_repr n cur (ring_add (cur `mod` n) ms ring) ((cur, ms) :: hist).
Proof.
  intros (Hl & Hh & Hr). unfold ring_add. pose proof (Z.mod_pos_bound cur n Hn) as Hm.
  split_and!.
  - by rewrite length_alter.
  - constructor; [cbn; lia|done].
  - intros j Hj.
    assert (slot_total n cur j ((cur, ms) :: hist) =
      (if cur `mod` n =? j then ms + slot_total n cur j hist else slot_total n cur j hist)) as ->.
    { unfold slot_total, logged. cbn [foldr fst snd].
      assert (in_window n cur (cur, ms) = true) as ->; [|done].
      unfold in_window; cbn [fst]. apply andb_true_iff. rewrite Z.ltb_lt, Z.leb_le. lia. }
    rewrite list_lookup_alter. destruct (Z.eqb_spec (cur `mod` n) j) as [<-|Hne].
    + rewrite decide_True, Hr by done. cbn [fmap option_fmap option_map]. f_equal. unfold u32.
      rewrite Zplus_mod_idemp_l. f_equal. lia.
    + rewrite decide_False by (intros E; apply Hne; lia). by apply Hr.
Qed.

(** A new period: its slot, holding the period that leaves the window, is
    cleared. *)
Lemma ring_repr_advance cur ring hist :
  ring_repr n cur ring hist →
  ring_repr n (cur + 1) (<[Z.to_nat ((cur + 1) `mod` n) := 0]> ring) hist.
Proof.
  intros (Hl & Hh & Hr). pose proof (Z.mod_pos_bound (cur + 1) n Hn) as Hm. split_and!.
  - by rewrite length_insert.
  - eapply Forall_impl; [done|]. intros e He. cbn in *. lia.
  - intros j Hj. rewrite list_lookup_insert.
    rewrite Forall_forall in Hh.
    assert (∀ e, e ∈ hist → j = (cur + 1) `mod` n →
      in_window n (cur + 1) e && (e.1 `mod` n =? j) = false) as Hout.
    { intros e He ->. specialize (Hh e He). cbn in Hh. unfold in_window.
      destruct (Z.ltb_spec (cur + 1 - n) e.1), (Z.leb_spec e.1 (cur + 1)); try done. cbn.
      apply Z.eqb_neq. intros E. assert ((cur + 1 - e.1) `mod` n = 0) as Hz.
      { rewrite Zminus_mod, E, Z.sub_diag. by apply Z.mod_0_l; lia. }
      rewrite Z.mod_small in Hz by lia. lia. }
    destruct (decide (Z.to_nat ((cur + 1) `mod` n) = Z.to_nat j ∧
      (Z.to_nat ((cur + 1) `mod` n) < length ring)%nat)) as [[E _]|Hd].
    + f_equal. unfold slot_total. rewrite (logged_ext _ (λ _, false)).
      * clear. by induction hist as [|e hist IH]; cbn.
      * intros e He. apply Hout; [done|]. lia.
    + rewrite Hr by done. do 2 f_equal. unfold slot_total. apply logged_ext. intros e He.
      destruct (decide (j = (cur + 1) `mod` n)) as [Ej|Hne].
      { destruct Hd. rewrite Hl. lia. }
      specialize (Hh e He). cbn in Hh. unfold in_window.
      destruct (Z.eqb_spec (e.1 `mod` n) j) as [Ej|]; [|by rewrite !andb_false_r].
      rewrite !andb_true_r. rewrite !(proj2 (Z.leb_le _ _)), !andb_true_r by lia.
      apply eq_true_iff_eq. rewrite !Z.ltb_lt. split; [|lia]. intros Hlt.
      destruct (decide (cur + 1 - n < e.1)); [done|]. exfalso. apply Hne.
      rewrite <-Ej. assert (e.1 = cur + 1 + (-1) * n) as -> by lia. by rewrite Z_mod_plus_full.
Qed.

Lemma ring_sum_mod ring a :
  foldl (λ sum v, u32 (sum + v)) (u32 a) ring = u32 (a + foldr Z.add 0 ring).
Proof.
  revert a. induction ring as [|v ring IH]; intros a; cbn -[u32]; [f_equal; lia|].
  replace (u32 (u32 a + v)) with (u32 (a + v)) by (unfold u32; by rewrite Zplus_mod_idemp_l).
  rewrite IH. f_equal. lia.
Qed.

Lemma ring_repr_sum cur ring hist :
  ring_repr n cur ring hist → ring_sum ring = u32 (logged (in_window n cur) hist).
Proof.
  intros (Hl & Hh & Hr). unfold ring_sum. etrans; [apply (ring_sum_mod ring 0)|].
  assert (ring = (λ j, u32 (slot_total n cur (Z.of_nat j) hist)) <$> seq 0 (Z.to_nat n)) as ->.
  { apply list_eq. intros i. rewrite list_lookup_fmap.
    destruct (decide (i < Z.to_nat n)%nat) as [Hi|Hi].
    - rewrite lookup_seq_lt by done. rewrite <-(Nat2Z.id i) at 1. apply Hr. lia.
    - rewrite lookup_ge_None_2, lookup_seq_ge; [done|lia|lia]. }
  cbn [Z.add].
  assert (∀ js, u32 (foldr Z.add 0 ((λ j, u32 (slot_total n cur (Z.of_nat j) hist)) <$> js)) =
    u32 (foldr Z.add 0 ((λ j, slot_total n cur (Z.of_nat j) hist) <$> js))) as Hred.
  { induction js as [|j js IH]; [done|]. cbn -[u32]. unfold u32 in *.
    rewrite <-Z.add_mod_idemp_l, Zmod_mod, Z.add_mod_idemp_l by done.
    rewrite <-Z.add_mod_idemp_r, IH, Z.add_mod_idemp_r by done. done. }
  etrans; [apply Hred|]. f_equal. clear Hred Hl Hr Hh.
  induction hist as [|e hist IH].
  { clear. induction (seq 0 (Z.to_nat n)) as [|j js IH]; cbn in *; [done|]. by rewrite IH. }
  unfold slot_total, logged. cbn -[Z.add].
  fold (logged (in_window n cur) hist).
  transitivity ((if in_window n cur e then e.2 else 0) +
    foldr Z.add 0 ((λ j, slot_total n cur (Z.of_nat j) hist) <$> seq 0 (Z.to_nat n))).
  2: { rewrite IH. by case_if. }
  clear IH. pose proof (Z.mod_pos_bound e.1 n Hn) as Hm.
  assert (∀ js, foldr Z.add 0 ((λ j, if in_window n cur e && (e.1 `mod` n =? Z.of_nat j)
      then e.2 + slot_total n cur (Z.of_nat j) hist else slot_total n cur (Z.of_nat j) hist)
      <$> js) =
    (if in_window n cur e
     then e.2 * Z.of_nat (length (filter (λ j, e.1 `mod` n = Z.of_nat j) js)) else 0) +
    foldr Z.add 0 ((λ j, slot_total n cur (Z.of_nat j) hist) <$> js)) as Hsplit.
  { induction js as [|j js IHj]; [by case_if; cbn; lia|]. cbn [fmap list_fmap foldr].
    rewrite IHj, filter_cons. destruct (in_window n cur e); cbn [andb]; [|lia].
    destruct (Z.eqb_spec (e.1 `mod` n) (Z.of_nat j)).
    - rewrite decide_True by done. cbn [length]. lia.
    - rewrite decide_False by done. lia. }
  etrans; [apply Hsplit|]. f_equal. case_if; [|done].
  rewrite <-(Z.mul_1_r e.2) at 2. f_equal. f_equal.
  replace (Z.to_nat n) with (Z.to_nat (e.1 `mod` n) + S (Z.to_nat n - 1 - Z.to_nat (e.1 `mod` n)))%nat
    by lia.
  rewrite seq_app, filter_app, length_app. cbn [seq plus]. rewrite filter_cons.
  rewrite decide_True by lia. cbn [length].
  assert (∀ js, Forall (λ j, e.1 `mod` n ≠ Z.of_nat j) js →
    length (filter (λ j, e.1 `mod` n = Z.of_nat j) js) = 0%nat) as Hnone.
  { induction 1 as [|j js Hj _ IHj]; [done|]. by rewrite filter_cons, decide_False by done. }
  rewrite !Hnone; [done|..]; apply Forall_forall; intros j Hj%elem_of_seq; lia.
Qed.
End ring.

(** ** Runs *)

Inductive airtime_event := Tick | Logged (type : airtime_type) (ms : Z).
#[export] Instance airtime_event_eq_dec : EqDecision airtime_event.
Proof. intros x y. unfold Decision. repeat decide equality. Defined.

Definition airtime_step (a : airtime_state) (ev : airtime_event) : airtime_state :=
  match ev with
  | Tick => meshtastic_airtime_tick a
  | Logged type ms => meshtastic_airtime_log type ms a
  end.

(** What happened: seconds elapsed, and the logs with the ten-second period
    and the minute they fell in. *)
Record airtime_history := mk_history {
  elapsed : Z; chan_log : list (Z * Z); tx_log : list (Z * Z)
}.
Definition record_event (h : airtime_history) (ev : airtime_event) : airtime_history :=
  match ev with
  | Tick => mk_history (elapsed h + 1) (chan_log h) (tx_log h)
  | Logged type ms =>
      mk_history (elapsed h) ((elapsed h `div` 10, ms) :: chan_log h)
        (match type with
         | AIRTIME_TX => (elapsed h `div` 60, ms) :: tx_log h
         | _ => tx_log h
         end)
  end.
Definition history_of (evs : list airtime_event) : airtime_history :=
  foldl record_event (mk_history 0 [] []) evs.

Record airtime_repr (h : airtime_history) (a : airtime_state) : Prop := {
  ar_sec : sec_since_boot a = elapsed h;
  ar_range : is_u32 (elapsed h);
  ar_chan : ring_repr 6 (elapsed h `div` 10) (channel_utilization a) (chan_log h);
  ar_tx : ring_repr 60 (elapsed h `div` 60) (utilization_tx a) (tx_log h);
  ar_last : if first_tick a then elapsed h = 0
            else last_util_period a = (elapsed h `div` 10) `mod` 6 ∧
                 last_util_period_tx a = (elapsed h `div` 60) `mod` 60
}.

Lemma airtime_repr_log h a type ms :
  airtime_repr h a →
  airtime_repr (record_event h (Logged type ms)) (meshtastic_airtime_log type ms a).
Proof.
  intros [Hs Hr Hc Ht Hl].
  assert (∀ b, sec_since_boot b = elapsed h →
    period_util_minute b = (elapsed h `div` 10) `mod` 6 ∧
    period_util_hour b = (elapsed h `div` 60) `mod` 60) as Hp.
  { intros b Hb. unfold period_util_minute, period_util_hour.
    rewrite Hb, u32_id by done. done. }
  assert (∀ b, sec_since_boot b = elapsed h → channel_utilization b = channel_utilization a →
    ring_repr 6 (elapsed h `div` 10) (channel_utilization (channel_util_add ms b))
      ((elapsed h `div` 10, ms) :: chan_log h)) as Hchan.
  { intros b Hb Eb. destruct (Hp b Hb) as [Hm _].
    change (channel_utilization (channel_util_add ms b))
      with (ring_add (period_util_minute b) ms (channel_utilization b)).
    rewrite Hm, Eb. apply ring_repr_add; [lia|done]. }
  destruct type; constructor; try done; try by apply Hchan.
  change (utilization_tx (meshtastic_airtime_log AIRTIME_TX ms a))
    with (ring_add (period_util_hour a) ms (utilization_tx a)).
  destruct (Hp a Hs) as [_ ->]. apply ring_repr_add; [lia|done].
Qed.

(** One ring over a tick: either the period stays or it is the next one. *)
Lemma ring_repr_tick n d cur ring hist :
  0 < n → 1 < d → 0 ≤ cur →
  ring_repr n (cur `div` d) ring hist →
  (cur + 1) `div` d = cur `div` d ∧ ring_repr n ((cur + 1) `div` d) ring hist ∨
  (cur + 1) `div` d = cur `div` d + 1 ∧
  ring_repr n ((cur + 1) `div` d) (<[Z.to_nat (((cur + 1) `div` d) `mod` n) := 0]> ring) hist.
Proof.
  intros Hn Hd Hc Hr.
  assert ((cur + 1) `div` d = cur `div` d ∨ (cur + 1) `div` d = cur `div` d + 1) as [E|E].
  { Z.to_euclidean_division_equations. nia. }
  - left. by rewrite E.
  - right. rewrite E. split; [done|]. by apply ring_repr_advance.
Qed.

Lemma mod_next_ne n c : 1 < n → c `mod` n ≠ (c + 1) `mod` n.
Proof.
  intros Hn E. assert ((c + 1 - c) `mod` n = 0) as Hz.
  { rewrite Zminus_mod, <-E, Z.sub_diag. by apply Z.mod_0_l; lia. }
  replace (c + 1 - c) with 1 in Hz by lia. rewrite Z.mod_small in Hz by lia. done.
Qed.

Lemma airtime_repr_tick h a :
  airtime_repr h a → elapsed h + 1 < 4294967296 →
  airtime_repr (record_event h Tick) (meshtastic_airtime_tick a).
Proof.
  intros [Hs Hr Hc Ht Hl] Hlt. unfold meshtastic_airtime_tick.
  set (a1 := a <| sec_since_boot ::= λ s, u32 (s + 1) |>).
  assert (sec_since_boot a1 = elapsed h + 1) as Hs1.
  { unfold a1. cbn. rewrite Hs. apply u32_id. zmod. }
  assert (period_util_minute a1 = ((elapsed h + 1) `div` 10) `mod` 6 ∧
    period_util_hour a1 = ((elapsed h + 1) `div` 60) `mod` 60) as [Hpm Hph].
  { unfold period_util_minute, period_util_hour. rewrite Hs1, u32_id by zmod. done. }
  rewrite Hpm, Hph. change (first_tick a1) with (first_tick a).
  assert (is_u32 (elapsed h + 1)) as Hr1 by zmod.
  assert (0 ≤ elapsed h) as Hnn by zmod.
  pose proof (ring_repr_tick 6 10 _ _ _ ltac:(lia) ltac:(lia) Hnn Hc) as Hc1.
  pose proof (ring_repr_tick 60 60 _ _ _ ltac:(lia) ltac:(lia) Hnn Ht) as Ht1.
  destruct (first_tick a) eqn:Ef.
  - rewrite Hl in Hc1, Ht1. constructor; cbn [elapsed record_event]; try done; rewrite ?Hl; try done.
    + destruct Hc1 as [[_ Hc1]|[E _]]; [exact Hc1|done].
    + destruct Ht1 as [[_ Ht1]|[E _]]; [exact Ht1|done].
  - destruct Hl as [Hl1 Hl2]. change (last_util_period a1) with (last_util_period a).
    rewrite Hl1. set (a2 := if negb _ then _ else a1).
    assert (sec_since_boot a2 = elapsed h + 1 ∧ first_tick a2 = false ∧
      utilization_tx a2 = utilization_tx a ∧ last_util_period_tx a2 = last_util_period_tx a ∧
      ring_repr 6 ((elapsed h + 1) `div` 10) (channel_utilization a2) (chan_log h) ∧
      last_util_period a2 = ((elapsed h + 1) `div` 10) `mod` 6) as (E1 & E2 & E3 & E4 & E5 & E6).
    { unfold a2. destruct Hc1 as [[E Hc1]|[E Hc1]].
      - rewrite E, Z.eqb_refl. cbn [negb]. rewrite E in Hc1. done.
      - rewrite (proj2 (Z.eqb_neq _ _)) by (rewrite E; apply mod_next_ne; lia).
        cbn [negb]. done. }
    clearbody a2. rewrite E4, Hl2. destruct Ht1 as [[E Ht1]|[E Ht1]].
    + rewrite E, Z.eqb_refl. cbn [negb]. rewrite E in Ht1. constructor; try done.
      * cbn [elapsed record_event]. by rewrite E, E3.
      * rewrite E2. cbn [elapsed record_event]. by rewrite E, E4.
    + rewrite (proj2 (Z.eqb_neq _ _)) by (rewrite E; apply mod_next_ne; lia).
      cbn [negb]. constructor; try done.
      * change (ring_repr 60 ((elapsed h + 1) `div` 60)
          (<[Z.to_nat (((elapsed h + 1) `div` 60) `mod` 60) := 0]> (utilization_tx a2)) (tx_log h)).
        by rewrite E3.
      * change (first_tick (a2 <| last_util_period_tx := ((elapsed h + 1) `div` 60) `mod` 60 |>
          <| utilization_tx ::= <[Z.to_nat (((elapsed h + 1) `div` 60) `mod` 60) := 0]> |>))
          with (first_tick a2). by rewrite E2.
Qed.

Lemma airtime_init_repr : airtime_repr (history_of []) meshtastic_airtime_init.
Proof.
  assert (∀ n, 0 < n → ring_repr n 0 (replicate (Z.to_nat n) 0) []) as Hz.
  { intros n Hn. split_and!; [by rewrite length_replicate|constructor|].
    intros j Hj. apply lookup_replicate_2. lia. }
  constructor; [done|done|by apply (Hz 6)|by apply (Hz 60)|done].
Qed.

(** ** Properties *)

(** C40: after any history of at most 2^32 - 1 seconds the channel counters add
    up to the airtime logged in the current and the five preceding ten-second
    periods, and the transmit counters to the airtime of our own packets in
    the current and the 59 preceding minutes: each ring is a sliding window
    over the log, whatever the order of ticks and packets. *)
Theorem airtime_sliding_window evs :
  Z.of_nat (length (filter (λ ev, ev = Tick) evs)) < 4294967296 →
  let h := history_of evs in
  let a := foldl airtime_step meshtastic_airtime_init evs in
  ring_sum (channel_utilization a) =
    u32 (logged (in_window 6 (elapsed h `div` 10)) (chan_log h)) ∧
  ring_sum (utilization_tx a) =
    u32 (logged (in_window 60 (elapsed h `div` 60)) (tx_log h)).
Proof.
  intros Hn.
  assert (airtime_repr (history_of evs) (foldl airtime_step meshtastic_airtime_init evs) ∧
    elapsed (history_of evs) = Z.of_nat (length (filter (λ ev, ev = Tick) evs))) as [[] _].
  { induction evs as [|ev evs IH] using rev_ind; [split; [apply airtime_init_repr|done]|].
    unfold history_of in *. rewrite !foldl_app. cbn [foldl].
    rewrite filter_app, length_app in *. destruct IH as [IH He]; [lia|].
    destruct ev as [|type ms].
    - assert (length (filter (λ ev, ev = Tick) [Tick]) = 1%nat) as E1 by done.
      rewrite E1 in *. split; [apply airtime_repr_tick; [done|lia]|].
      cbn [record_event elapsed]. lia.
    - split; [by apply airtime_repr_log|]. cbn [record_event elapsed]. rewrite He.
      change (filter (λ ev, ev = Tick) [Logged type ms]) with (@nil airtime_event). cbn. lia. }
  split; eapply ring_repr_sum; try done; lia.
Qed.

Lemma airtime_sliding_window_witness :
  let evs := [Logged AIRTIME_TX 100; Tick; Tick; Logged AIRTIME_RX 50] in
  ring_sum (channel_utilization (foldl airtime_step meshtastic_airtime_init evs)) = 150 ∧
  ring_sum (utilization_tx (foldl airtime_step meshtastic_airtime_init evs)) = 100.
Proof.
  apply (airtime_sliding_window [Logged AIRTIME_TX 100; Tick; Tick; Logged AIRTIME_RX 50]). done.
Defined.

