(* ===== verification/Channels.v ===== *)
(** * Channel table (src/meshtastic_channels.c)

    The eight channel slots, their cached wire hashes, the primary index and
    the two device policies, with every operation of the file.  The fields
    [mt.ch_hash] and [mt.channel_name] of the global context live here too:
    this file is the only one that writes them. *)

From S2P Require Import Prelude Types External.

(** What the channel table needs to know of the node database
    ([meshtastic_nodedb_get], of which it reads success and [node.channel]).
    A build without CONFIG_MESHTASTIC_NODEDB is the instance that knows no
    node. *)
Class PeerDirectory (D : Type) := peer_channel : D → Z → option Z.

#[export] Instance no_directory : PeerDirectory () := λ _ _, None.

(** [struct meshtastic_channel_key]: a 32-byte array and a length. *)
Record channel_key := mk_key { k_bytes : list Z; k_len : nat }.
#[export] Instance channel_key_eq_dec : EqDecision channel_key.
Proof. solve_decision. Defined.

(** A [const char *] into the table or to a literal. *)
Inductive name_ref := NR_literal (s : string) | NR_slot (i : Z).

Record channels := mk_channels {
  channel_slots : list Channel;
  channel_hashes : list Z;
  primary_index : Z;
  device_role : Z;
  rebroadcast_mode : Z;
  mt_ch_hash : Z;
  mt_channel_name : option name_ref
}.
#[export] Instance channels_set : Settable channels := λ x,
  mk_channels (channel_slots x) (channel_hashes x) (primary_index x) (device_role x)
    (rebroadcast_mode x) (mt_ch_hash x) (mt_channel_name x).

(** The table before [meshtastic_channels_init_defaults]: static storage. *)
Definition channels_bss : channels :=
  mk_channels (replicate 8 Channel_zero) (replicate 8 0) 0 DeviceRole_CLIENT
    Rebroadcast_ALL 0 None.

(** meshtastic.c *)
Definition meshtastic_default_psk : list Z :=
  [0xd4; 0xf1; 0xbb; 0x3a; 0x20; 0x29; 0x07; 0x59;
   0xf0; 0xbc; 0xff; 0xab; 0xcf; 0x4e; 0x69; 0x01].

(** The part of [struct meshtastic_config] the channel table reads. *)
Record channel_config := mk_channel_config {
  cc_channel_name : option string; cc_psk : option (list Z); cc_psk_len : nat
}.

Definition xor_hash_bytes (data : list Z) : Z := foldl Z.lxor 0 data.

Definition channel_key_invalid (k : channel_key) : bool := (k_len k =? 0)%nat.

(** [memset(bytes, 0, 32)] then [memcpy(bytes, src, len)]. *)
Definition pad32 (bs : list Z) : list Z := bs ++ replicate (32 - length bs) 0.

Definition expand_short_psk (psk_index : Z) : channel_key :=
  let bytes := pad32 meshtastic_default_psk in
  mk_key
    (if 1 <? psk_index
     then <[15%nat := u8 (0x01 + (psk_index - 1))]> bytes
     else bytes)
    16.

(** The zero-padding to the next AES key size at the end of the C function. *)
Definition pad_key_len (len : nat) : nat :=
  if (len <? 16)%nat then 16%nat
  else if (16 <? len)%nat && (len <? 32)%nat then 32%nat
  else len.

(** [channel_get_key] calls itself on the primary slot; [fuel] bounds the
    depth of the calls, [None] is a copy past [key->bytes], an index out of
    the table, or more than [fuel] nested calls. *)
Fixpoint channel_get_key_ (fuel : nat) (st : channels) (index : Z)
    : option (result channel_key) :=
  match fuel with
  | O => None
  | S fuel =>
      if negb (index <? MESHTASTIC_MAX_CHANNELS) then Some (Err EINVAL)
      else
        ch ← channel_slots st !! Z.to_nat index;
        if negb (c_has_settings ch) || (c_role ch =? Role_DISABLED)
        then Some (Err ENOENT)
        else
          let psk := cs_psk (c_settings ch) in
          if (32 <? length psk)%nat then None
          else
            let bytes := pad32 psk in
            match psk with
            | [] =>
                if c_role ch =? Role_SECONDARY
                then channel_get_key_ fuel st (primary_index st)
                else Some (Ok (mk_key bytes 0))
            | [psk_index] =>
                if psk_index =? 0 then Some (Ok (mk_key bytes 0))
                else Some (Ok (expand_short_psk psk_index))
            | _ => Some (Ok (mk_key bytes (pad_key_len (length psk))))
            end
  end.

(** The recursion goes to the primary slot and no further unless it never
    ends ([channel_get_key_total], [channel_get_key_diverges]). *)
Definition channel_get_key (st : channels) (index : Z) : option (result channel_key) :=
  channel_get_key_ 2 st index.

Definition meshtastic_channels_get_key := channel_get_key.

Definition name_of (st : channels) (r : name_ref) : string :=
  match r with
  | NR_literal s => s
  | NR_slot i =>
      match channel_slots st !! Z.to_nat i with
      | Some ch => cs_name (c_settings ch)
      | None => ""
      end
  end.

Definition meshtastic_channels_get_name (st : channels) (index : Z) : name_ref :=
  if MESHTASTIC_MAX_CHANNELS <=? index then NR_literal ""
  else
    match channel_slots st !! Z.to_nat index with
    | Some ch =>
        if negb (c_has_settings ch) || bool_decide (cs_name (c_settings ch) = "")
        then NR_literal MESHTASTIC_CHANNEL_LONGFAST
        else NR_slot index
    | None => NR_literal ""
    end.

Definition channel_name (st : channels) (index : Z) : string :=
  name_of st (meshtastic_channels_get_name st index).

Definition channel_generate_hash (st : channels) (index : Z) : option Z :=
  r ← channel_get_key st index;
  match r with
  | Err _ => Some 0
  | Ok key =>
      let h := xor_hash_bytes (str_bytes (channel_name st index)) in
      Some (if channel_key_invalid key then h
            else Z.lxor h (xor_hash_bytes (take (k_len key) (k_bytes key))))
  end.

(** The assignments of [channel_fixup] before the hash is recomputed. *)
Definition fixup_slot (index : Z) (ch : Channel) : Channel :=
  let ch := ch <| c_index := index |> in
  let ch := if c_has_settings ch then ch
            else ch <| c_role := Role_DISABLED |> <| c_settings := ChannelSettings_zero |>
                    <| c_has_settings := true |> in
  if bool_decide (cs_name (c_settings ch) = "Default")
  then ch <| c_settings ::= set cs_name (λ _, "") |>
  else ch.

Definition channel_fixup (index : Z) : M channels () := λ st,
  ch ← channel_slots st !! Z.to_nat index;
  let st := st <| channel_slots ::= <[Z.to_nat index := fixup_slot index ch]> |> in
  h ← channel_generate_hash st index;
  Some ((), st <| channel_hashes ::= <[Z.to_nat index := h]> |>).

(** [for (i = 0; i < MESHTASTIC_MAX_CHANNELS; i++)]. *)
Definition channel_indices : list Z := [0; 1; 2; 3; 4; 5; 6; 7].

Definition demote_one (index i : Z) : M channels () := λ st,
  if i =? index then Some ((), st)
  else
    ch ← channel_slots st !! Z.to_nat i;
    if c_role ch =? Role_PRIMARY then
      channel_fixup i
        (st <| channel_slots ::= <[Z.to_nat i := ch <| c_role := Role_SECONDARY |>]> |>)
    else Some ((), st).

Definition demote_other_primary (index : Z) : M channels () :=
  mapM_ (demote_one index) channel_indices.

Definition meshtastic_channels_count : Z := MESHTASTIC_MAX_CHANNELS.
Definition meshtastic_channels_primary_index (st : channels) : Z := primary_index st.

Definition meshtastic_channels_get (st : channels) (index : Z) : option Channel :=
  if MESHTASTIC_MAX_CHANNELS <=? index then None
  else channel_slots st !! Z.to_nat index.

Definition meshtastic_channels_get_hash (st : channels) (index : Z) : Z :=
  if MESHTASTIC_MAX_CHANNELS <=? index then 0
  else default 0 (channel_hashes st !! Z.to_nat index).

(** [channel_hashes[primary_index]], without a bound check. *)
Definition meshtastic_channels_primary_hash : M channels Z := λ st,
  h ← channel_hashes st !! Z.to_nat (primary_index st);
  Some (h, st).

Definition meshtastic_channels_primary_name (st : channels) : name_ref :=
  meshtastic_channels_get_name st (primary_index st).

Definition meshtastic_channels_primary_key (st : channels) : option (result channel_key) :=
  channel_get_key st (primary_index st).

(** [mt.ch_hash = ...primary_hash(); mt.channel_name = ...primary_name();] *)
Definition refresh_mt : M channels () :=
  h ← meshtastic_channels_primary_hash;
  modify (λ st, st <| mt_ch_hash := h |>
                   <| mt_channel_name := Some (meshtastic_channels_primary_name st) |>).

Definition meshtastic_channels_init_defaults : M channels (result ()) :=
  modify (λ st, st <| channel_slots := replicate 8 Channel_zero |>
                   <| channel_hashes := replicate 8 0 |>
                   <| primary_index := 0 |>) ;;
  let longfast :=
    Channel_zero
      <| c_role := Role_PRIMARY |> <| c_has_settings := true |>
      <| c_settings :=
           mk_ChannelSettings meshtastic_default_psk
             (strncpy 11 MESHTASTIC_CHANNEL_LONGFAST) true true (Some 13) |> in
  modify (set channel_slots <[0%nat := longfast]>) ;;
  mapM_ (λ i,
      modify (set channel_slots
        <[Z.to_nat i := Channel_zero <| c_role := Role_DISABLED |>
                                     <| c_has_settings := true |>]>) ;;
      channel_fixup i)
    [1; 2; 3; 4; 5; 6; 7] ;;
  channel_fixup 0 ;;
  mret (Ok ()).

(** The [memcpy] of the key and the name of [cfg] into slot 0. *)
Definition configure_primary (cfg : channel_config) (ch : Channel) : option Channel :=
  let s := c_settings ch in
  let s := match cc_channel_name cfg with
           | Some n => s <| cs_name := strncpy 11 n |>
           | None => s
           end in
  src ← cc_psk cfg;
  if (32 <? cc_psk_len cfg)%nat || (length src <? cc_psk_len cfg)%nat then None
  else Some (ch <| c_settings := s <| cs_psk := take (cc_psk_len cfg) src |> |>).

Definition meshtastic_channels_init_from_config (cfg : option channel_config)
    : M channels (result ()) :=
  ret ← meshtastic_channels_init_defaults;
  match ret, cfg with
  | Err _, _ | _, None => mret ret
  | Ok _, Some cfg =>
      (λ st,
        ch ← channel_slots st !! 0%nat;
        ch ← configure_primary cfg ch;
        Some ((), st <| channel_slots ::= <[0%nat := ch]> |>)) ;;
      channel_fixup 0 ;;
      refresh_mt ;;
      mret (Ok ())
  end.

Definition meshtastic_channels_set_slot (index : Z) (channel : option Channel)
    : M channels (result ()) :=
  match channel with
  | None => mret (Err EINVAL)
  | Some ch =>
      if MESHTASTIC_MAX_CHANNELS <=? index then mret (Err EINVAL)
      else
        modify (set channel_slots <[Z.to_nat index := ch <| c_index := index |>]>) ;;
        (if c_role ch =? Role_PRIMARY then
           modify (λ st, st <| primary_index := index |>) ;;
           demote_other_primary index
         else mret ()) ;;
        channel_fixup index ;;
        primary ← gets primary_index;
        (if index =? primary then refresh_mt else mret ()) ;;
        mret (Ok ())
  end.

Definition meshtastic_channels_decrypt_for_hash (st : channels) (index wire_hash : Z) : bool :=
  if MESHTASTIC_MAX_CHANNELS <=? index then false
  else default 0 (channel_hashes st !! Z.to_nat index) =? wire_hash.

(** [channel_slots[i].role != DISABLED] for an [i] the code has bounded. *)
Definition slot_enabled (st : channels) (i : Z) : bool :=
  match channel_slots st !! Z.to_nat i with
  | Some ch => negb (c_role ch =? Role_DISABLED)
  | None => false
  end.

Definition meshtastic_channels_resolve_send_index `{PeerDirectory D} (db : D)
    (st : channels) (dest channel_index wire_hash : Z) : Z :=
  if (channel_index <? MESHTASTIC_MAX_CHANNELS) && slot_enabled st channel_index
  then channel_index
  else
    let by_hash :=
      if negb (wire_hash =? 0)
      then find_index (λ i, meshtastic_channels_decrypt_for_hash st i wire_hash)
             channel_indices
      else None in
    match by_hash with
    | Some i => Z.of_nat i
    | None =>
        let by_peer :=
          if negb (dest =? 0) && negb (dest =? MESHTASTIC_NODE_BROADCAST)
          then peer_channel db dest else None in
        match by_peer with
        | Some peer_ch =>
            if negb (peer_ch =? 0) && (peer_ch <? MESHTASTIC_MAX_CHANNELS)
               && slot_enabled st peer_ch
            then peer_ch
            else primary_index st
        | None => primary_index st
        end
    end.

Definition meshtastic_channels_uplink_enabled (st : channels) (index : Z) : bool :=
  match meshtastic_channels_get st index with
  | None => false
  | Some ch =>
      if (c_role ch =? Role_DISABLED) || negb (c_has_settings ch) then false
      else cs_uplink_enabled (c_settings ch)
  end.

Definition meshtastic_channels_downlink_enabled (st : channels) (index : Z) : bool :=
  match meshtastic_channels_get st index with
  | None => false
  | Some ch =>
      if (c_role ch =? Role_DISABLED) || negb (c_has_settings ch) then false
      else cs_downlink_enabled (c_settings ch)
  end.

Definition meshtastic_channels_matches_mqtt_name (st : channels) (channel_id : option string)
    : bool :=
  match channel_id with
  | None => false
  | Some id =>
      existsb (λ i, slot_enabled st i && bool_decide (id = channel_name st i))
        channel_indices
  end.

Definition meshtastic_device_role (st : channels) : Z := device_role st.
Definition meshtastic_rebroadcast_mode (st : channels) : Z := rebroadcast_mode st.
Definition meshtastic_set_device_role (role : Z) (st : channels) : channels :=
  st <| device_role := role |>.
Definition meshtastic_set_rebroadcast_mode (mode : Z) (st : channels) : channels :=
  st <| rebroadcast_mode := mode |>.

Definition meshtastic_is_rebroadcaster (st : channels) : bool :=
  negb (device_role st =? DeviceRole_CLIENT_MUTE)
  && negb (rebroadcast_mode st =? Rebroadcast_NONE).

Definition meshtastic_decode_known_only `{PeerDirectory D} (db : D) (st : channels) (from : Z)
    : bool :=
  if negb (rebroadcast_mode st =? Rebroadcast_KNOWN_ONLY) then true
  else bool_decide (is_Some (peer_channel db from)).

(** ** Specification *)

(** A slot whose key is the primary's: SECONDARY with an empty PSK. *)
Definition inherits (ch : Channel) : bool :=
  c_has_settings ch && (c_role ch =? Role_SECONDARY)
  && bool_decide (cs_psk (c_settings ch) = []).

(** The key a slot holds itself, inheritance apart. *)
Definition own_key (ch : Channel) : result channel_key :=
  if negb (c_has_settings ch) || (c_role ch =? Role_DISABLED) then Err ENOENT
  else
    match cs_psk (c_settings ch) with
    | [] => Ok (mk_key (pad32 []) 0)
    | [0] => Ok (mk_key (pad32 [0]) 0)
    | [k] => Ok (expand_short_psk k)
    | psk => Ok (mk_key (pad32 psk) (pad_key_len (length psk)))
    end.

(** The slot whose own key slot [i] uses. *)
Definition key_owner (st : channels) (i : nat) : nat :=
  match channel_slots st !! i with
  | Some ch => if inherits ch then Z.to_nat (primary_index st) else i
  | None => i
  end.

Definition psk_ok (ch : Channel) : Prop :=
  (length (cs_psk (c_settings ch)) ≤ 32)%nat ∧ bytes_ok (cs_psk (c_settings ch)).

#[export] Instance psk_ok_dec ch : Decision (psk_ok ch) := _.

(** What holds of the table between any two statements that change it. *)
Record chan_base (st : channels) : Prop := {
  base_slots : length (channel_slots st) = 8%nat;
  base_hashes : length (channel_hashes st) = 8%nat;
  base_hash_u8 : Forall is_u8 (channel_hashes st);
  base_primary : 0 ≤ primary_index st < 8;
  base_psk : Forall psk_ok (channel_slots st);
  base_anchored : ∀ ch,
    channel_slots st !! Z.to_nat (primary_index st) = Some ch → inherits ch = false
}.

(** The invariant between operations. *)
(** The cached hash of slot [i] is the one its fields give. *)
Definition hash_coherent (st : channels) (i : nat) : Prop :=
  channel_hashes st !! i = channel_generate_hash st (Z.of_nat i).

(** The invariant between operations: one PRIMARY slot at most, where
    [primary_index] says, and a current hash for every slot that has its own
    key. *)
Record chan_wf (st : channels) : Prop := {
  wf_base : chan_base st;
  wf_unique : ∀ i ch, channel_slots st !! i = Some ch →
    c_role ch = Role_PRIMARY → i = Z.to_nat (primary_index st);
  wf_own_hash : ∀ i ch, channel_slots st !! i = Some ch → inherits ch = false →
    hash_coherent st i
}.

(** ** Keys *)

Lemma pad32_length bs : (length bs ≤ 32)%nat → length (pad32 bs) = 32%nat.
Proof. intros. unfold pad32. rewrite length_app, length_replicate. lia. Qed.

Lemma get_key_own n st i ch :
  (i < 8)%nat → channel_slots st !! i = Some ch → psk_ok ch → inherits ch = false →
  channel_get_key_ (S n) st (Z.of_nat i) = Some (own_key ch).
Proof.
  intros Hi Hch [Hlen _] Hinh. cbn [channel_get_key_].
  rewrite (proj2 (Z.ltb_lt _ _)) by (unfold MESHTASTIC_MAX_CHANNELS; lia).
  rewrite Nat2Z.id, Hch. cbn [mbind option_bind negb].
  rewrite (proj2 (Nat.ltb_ge _ _)) by done. unfold own_key, inherits in *.
  destruct (c_has_settings ch); cbn in *; [|done].
  destruct (c_role ch =? Role_DISABLED); cbn; [done|].
  destruct (cs_psk (c_settings ch)) as [|[] [|k' psk]]; cbn in *; try done.
  by destruct (c_role ch =? Role_SECONDARY).
Qed.

Lemma get_key_inherit n st i ch :
  (i < 8)%nat → channel_slots st !! i = Some ch → inherits ch = true →
  channel_get_key_ (S n) st (Z.of_nat i) = channel_get_key_ n st (primary_index st).
Proof.
  intros Hi Hch Hinh. cbn [channel_get_key_].
  rewrite (proj2 (Z.ltb_lt _ _)) by (unfold MESHTASTIC_MAX_CHANNELS; lia).
  rewrite Nat2Z.id, Hch. cbn. unfold inherits in Hinh. boolp. rewrite H.
  rewrite H1, H0. cbn. done.
Qed.

Lemma key_owner_spec st i :
  chan_base st → (i < 8)%nat →
  (key_owner st i < 8)%nat ∧
  ∃ ch, channel_slots st !! key_owner st i = Some ch ∧ psk_ok ch ∧ inherits ch = false.
Proof.
  intros [Hs Hh _ Hp Hpsk Ha] Hi.
  assert (∀ j, (j < 8)%nat → ∃ ch, channel_slots st !! j = Some ch ∧ psk_ok ch) as Hget.
  { intros j Hj. destruct (lookup_lt_is_Some_2 (channel_slots st) j) as [ch Hch]; [lia|].
    exists ch. split; [done|]. rewrite Forall_forall in Hpsk.
    apply Hpsk. by eapply list_elem_of_lookup_2. }
  unfold key_owner. destruct (Hget i Hi) as (ch & Hch & Hok). rewrite Hch.
  destruct (inherits ch) eqn:E; [|eauto 6].
  destruct (Hget (Z.to_nat (primary_index st))) as (pch & Hpch & Hpok); [lia|].
  split; [lia|]. eauto 6.
Qed.

(** With enough fuel the C recursion is the key of the owning slot. *)
Lemma get_key_fuel n st i :
  chan_base st → (i < 8)%nat → (2 ≤ n)%nat →
  ∃ ch, channel_slots st !! key_owner st i = Some ch ∧
        channel_get_key_ n st (Z.of_nat i) = Some (own_key ch).
Proof.
  intros Hb Hi Hn. destruct n as [|[|n]]; [lia..|].
  destruct (key_owner_spec st i Hb Hi) as (Ho & ch & Hch & Hok & Hinh).
  exists ch. split; [done|]. unfold key_owner in *.
  destruct (lookup_lt_is_Some_2 (channel_slots st) i) as [ch' Hch'].
  { rewrite base_slots; done. }
  rewrite Hch' in *. destruct (inherits ch') eqn:E.
  - rewrite (get_key_inherit _ _ _ ch') by done.
    rewrite <-(Z2Nat.id (primary_index st)) by (apply Hb). by apply get_key_own.
  - rewrite Hch' in Hch. simplify_eq. by apply get_key_own.
Qed.

Lemma own_key_fixup i ch : own_key (fixup_slot i ch) = own_key ch.
Proof. destruct ch as [? [] [] ?]; unfold own_key, fixup_slot; rgoal; case_decide; done. Qed.
Lemma inherits_fixup i ch : inherits (fixup_slot i ch) = inherits ch.
Proof. destruct ch as [? [] [] ?]; unfold inherits, fixup_slot; rgoal; case_decide; done. Qed.
Lemma psk_ok_fixup i ch : psk_ok ch → psk_ok (fixup_slot i ch).
Proof.
  destruct ch as [? [] []]; unfold psk_ok, fixup_slot; rgoal; case_decide; cbn; try done.
  all: intros; split; [lia|constructor].
Qed.

(** ** Hashes *)

(** [meshtastic_channels_get_name] on the fields of one slot. *)
Definition slot_name (ch : Channel) : string :=
  if negb (c_has_settings ch) || bool_decide (cs_name (c_settings ch) = "")
  then MESHTASTIC_CHANNEL_LONGFAST else cs_name (c_settings ch).

(** The documented hash: XOR of the name bytes and the effective key bytes. *)
Definition hash_of (key : result channel_key) (name : string) : Z :=
  match key with
  | Err _ => 0
  | Ok k => Z.lxor (xor_hash_bytes (str_bytes name))
                   (xor_hash_bytes (take (k_len k) (k_bytes k)))
  end.

Lemma slot_name_spec st i ch :
  (i < 8)%nat → channel_slots st !! i = Some ch → channel_name st (Z.of_nat i) = slot_name ch.
Proof.
  intros Hi Hch. unfold channel_name, meshtastic_channels_get_name, slot_name.
  rewrite (proj2 (Z.leb_gt _ _)) by (unfold MESHTASTIC_MAX_CHANNELS; lia).
  rewrite Nat2Z.id, Hch.
  destruct (negb _ || _); cbn; [done|]. by rewrite Nat2Z.id, Hch.
Qed.

Lemma generate_hash_spec st i :
  chan_base st → (i < 8)%nat →
  ∃ ch ow, channel_slots st !! i = Some ch ∧ channel_slots st !! key_owner st i = Some ow ∧
    channel_generate_hash st (Z.of_nat i) = Some (hash_of (own_key ow) (slot_name ch)).
Proof.
  intros Hb Hi. destruct (get_key_fuel 2 st i Hb Hi) as (ow & How & Hk); [done|].
  destruct (lookup_lt_is_Some_2 (channel_slots st) i) as [ch Hch]; [rewrite base_slots; done|].
  exists ch, ow. split_and!; [done..|].
  unfold channel_generate_hash, channel_get_key. rewrite Hk, (slot_name_spec _ _ ch) by done.
  cbn. destruct (own_key ow) as [[bs len]|]; [|done]. cbn.
  destruct len; cbn; [|done]. by rewrite Z.lxor_0_r.
Qed.

Lemma xor_hash_u8 bs : bytes_ok bs → is_u8 (xor_hash_bytes bs).
Proof.
  unfold xor_hash_bytes. assert (is_u8 0) as H0 by zmod. revert H0. generalize 0.
  induction bs as [|b bs IH]; intros a Ha Hbs; cbn; [done|].
  apply Forall_cons in Hbs as [Hb Hbs]. apply IH; [by apply lxor_u8|done].
Qed.

Lemma own_key_bytes ch k : psk_ok ch → own_key ch = Ok k → bytes_ok (k_bytes k).
Proof.
  intros [_ Hb]. unfold own_key. destruct (_ || _); [done|].
  assert (∀ bs, bytes_ok bs → bytes_ok (pad32 bs)) as Hpad.
  { intros bs Hbs. apply Forall_app. split; [done|]. apply Forall_replicate. zmod. }
  assert (∀ a, bytes_ok (k_bytes (expand_short_psk a))) as Hexp.
  { intros a. assert (bytes_ok (pad32 meshtastic_default_psk)) as Hd.
    { apply (bool_decide_unpack _). by vm_compute. }
    unfold expand_short_psk. cbn [k_bytes]. case_if; [|done].
    apply Forall_insert; [done|]. apply u8_is_u8. }
  destruct (cs_psk (c_settings ch)) as [|a [|b psk]].
  - intros [= <-]. by apply Hpad.
  - destruct a; intros [= <-]; try apply Hexp. by apply Hpad.
  - assert (Ok (mk_key (pad32 (a :: b :: psk)) (pad_key_len (length (a :: b :: psk)))) = Ok k →
      bytes_ok (k_bytes k)) by (intros [= <-]; by apply Hpad).
    by destruct a.
Qed.

Lemma hash_of_u8 ow name : psk_ok ow → is_u8 (hash_of (own_key ow) name).
Proof.
  intros Hok. unfold hash_of. destruct (own_key ow) as [k|] eqn:E; [|zmod].
  apply lxor_u8; apply xor_hash_u8; [apply bytes_ok_str|].
  apply Forall_take. by eapply own_key_bytes.
Qed.

(** The hash depends on two slots only, and not on the cached hashes. *)
Lemma generate_hash_ext st st' i :
  channel_slots st !! i = channel_slots st' !! i →
  channel_slots st !! Z.to_nat (primary_index st) = channel_slots st' !! Z.to_nat (primary_index st') →
  chan_base st → chan_base st' → (i < 8)%nat →
  channel_generate_hash st (Z.of_nat i) = channel_generate_hash st' (Z.of_nat i).
Proof.
  intros H1 H2 Hb Hb' Hi.
  destruct (generate_hash_spec st i) as (ch & ow & Hch & How & ->); [done..|].
  destruct (generate_hash_spec st' i) as (ch' & ow' & Hch' & How' & ->); [done..|].
  assert (ch' = ch) as -> by congruence.
  unfold key_owner in How, How'. rewrite Hch in How. rewrite Hch' in How'.
  destruct (inherits ch); do 2 f_equal; congruence.
Qed.

(** A slot that does not inherit has a hash of its own fields alone. *)
Lemma generate_hash_own st i ch :
  chan_base st → channel_slots st !! i = Some ch → inherits ch = false →
  channel_generate_hash st (Z.of_nat i) = Some (hash_of (own_key ch) (slot_name ch)).
Proof.
  intros Hb Hch Hinh.
  assert (i < 8)%nat by (rewrite <-(base_slots st) by done; by eapply lookup_lt_Some).
  destruct (generate_hash_spec st i) as (ch' & ow & Hch' & How & ->); [done..|].
  unfold key_owner in How. rewrite Hch, Hinh in How. by simplify_eq.
Qed.

(** ** Updates *)

Lemma chan_base_insert st i ch :
  chan_base st → psk_ok ch → (i = Z.to_nat (primary_index st) → inherits ch = false) →
  chan_base (st <| channel_slots ::= <[i := ch]> |>).
Proof.
  intros [? ? ? ? Hpsk Ha] Hok Hinh. constructor; rgoal; try done.
  - by rewrite length_insert.
  - by apply Forall_insert.
  - intros ch'. rewrite list_lookup_insert. case_decide as Hd; [|by apply Ha].
    intros [= <-]. by apply Hinh, Hd.
Qed.

Lemma chan_base_hashes st i h :
  chan_base st → is_u8 h → chan_base (st <| channel_hashes ::= <[i := h]> |>).
Proof.
  intros [] Hh. constructor; rgoal; rewrite ?length_insert; try done. by apply Forall_insert.
Qed.

(** The state [channel_fixup i] leaves. *)
Definition fixed (st : channels) (i : nat) (ch : Channel) (h : Z) : channels :=
  st <| channel_slots ::= <[i := fixup_slot (Z.of_nat i) ch]> |>
     <| channel_hashes ::= <[i := h]> |>.

Lemma channel_fixup_spec st i ch :
  chan_base st → channel_slots st !! i = Some ch →
  ∃ h, channel_fixup (Z.of_nat i) st = Some ((), fixed st i ch h) ∧
       chan_base (fixed st i ch h) ∧ hash_coherent (fixed st i ch h) i.
Proof.
  intros Hb Hch.
  assert (i < 8)%nat as Hi by (rewrite <-(base_slots st) by done; by eapply lookup_lt_Some).
  pose proof (Forall_lookup_1 _ _ _ _ (base_psk _ Hb) Hch) as Hok.
  set (s1 := st <| channel_slots ::= <[i := fixup_slot (Z.of_nat i) ch]> |>).
  assert (chan_base s1) as Hb1.
  { apply chan_base_insert; [done|by apply psk_ok_fixup|].
    intros ->. rewrite inherits_fixup. by apply Hb. }
  destruct (generate_hash_spec s1 i) as (? & ow & _ & How & Hg); [done..|].
  pose proof (Forall_lookup_1 _ _ _ _ (base_psk _ Hb1) How) as Hwok.
  eexists. unfold channel_fixup. rewrite Nat2Z.id, Hch. cbn [mbind option_bind].
  fold s1. rewrite Hg. split_and!; [done|by apply chan_base_hashes, hash_of_u8|].
  unfold hash_coherent, fixed. fold s1. etrans; [|symmetry; exact Hg].
  rgoal. rewrite list_lookup_insert_eq; [done|]. rewrite base_hashes; done.
Qed.

(** What the demotion loop does to slot [j]. *)
Definition demoted (index j : nat) (ch : Channel) : Channel :=
  if negb (j =? index)%nat && (c_role ch =? Role_PRIMARY)
  then fixup_slot (Z.of_nat j) (ch <| c_role := Role_SECONDARY |>) else ch.

(** State [s'] is [st] with the slots of [l] demoted. *)
Record demote_post (index : nat) (l : list nat) (st s' : channels) : Prop := {
  dp_base : chan_base s';
  dp_primary : primary_index s' = primary_index st;
  dp_slots : ∀ j, channel_slots s' !! j =
    (if decide (j ∈ l) then demoted index j <$> channel_slots st !! j
     else channel_slots st !! j);
  dp_hashes : ∀ j ch, channel_slots st !! j = Some ch →
    (j ∈ l ∧ j ≠ index ∧ c_role ch = Role_PRIMARY ∧ hash_coherent s' j) ∨
    ((j ∉ l ∨ j = index ∨ c_role ch ≠ Role_PRIMARY) ∧
     channel_hashes s' !! j = channel_hashes st !! j)
}.

Lemma demote_one_spec index i st :
  chan_base st → (i < 8)%nat → Z.to_nat (primary_index st) = index →
  wp (demote_one (Z.of_nat index) (Z.of_nat i)) (λ _, demote_post index [i] st) st.
Proof.
  intros Hb Hi Hidx. unfold demote_one.
  destruct (lookup_lt_is_Some_2 (channel_slots st) i) as [ch Hch]; [rewrite base_slots; done|].
  destruct (Z.eqb_spec (Z.of_nat i) (Z.of_nat index)) as [He|Hne].
  { apply Nat2Z.inj in He as ->. constructor; try done.
    - intros j. case_decide as Hj; [|done]. apply list_elem_of_singleton in Hj as ->.
      unfold demoted. rewrite Nat.eqb_refl. cbn. by rewrite option_fmap_id.
    - intros j ch' Hch'. right. split; [|done]. destruct (decide (j = index)); [auto|].
      left. by rewrite list_elem_of_singleton. }
  assert (i ≠ index) by lia. unfold wp. rewrite Nat2Z.id, Hch. cbn [mbind option_bind].
  destruct (Z.eqb_spec (c_role ch) Role_PRIMARY) as [Hr|Hr].
  - pose proof (Forall_lookup_1 _ _ _ _ (base_psk _ Hb) Hch) as Hok.
    set (ch2 := ch <| c_role := Role_SECONDARY |>).
    set (s1 := st <| channel_slots ::= <[i := ch2]> |>).
    assert (chan_base s1) as Hb1 by (by apply chan_base_insert; [..|lia]).
    assert (channel_slots s1 !! i = Some ch2) as Hch2.
    { unfold s1; rgoal. apply list_lookup_insert_eq. by eapply lookup_lt_Some. }
    destruct (channel_fixup_spec s1 i ch2 Hb1 Hch2) as (h & Hrun & Hb2 & Hco).
    fold s1. cbn [mbind option_bind] in *. fold ch2. fold s1. rewrite Hrun. constructor; [done|done|..].
    + intros j. unfold fixed, s1; rgoal. rewrite list_insert_insert_eq, list_lookup_insert.
      case_decide as Hj; case_decide as Hj'; rewrite list_elem_of_singleton in Hj'.
      * destruct Hj as [<- _]. rewrite Hch. cbn. unfold demoted.
        rewrite (proj2 (Nat.eqb_neq _ _)) by done. rewrite Hr. cbn.
        done.
      * naive_solver.
      * subst. destruct Hj. split; [done|]. rewrite base_slots; done.
      * done.
    + intros j ch' Hch'. destruct (decide (j = i)) as [->|].
      * left. rewrite list_elem_of_singleton. simplify_eq. done.
      * right. rewrite list_elem_of_singleton. split; [auto|]. unfold fixed, s1; rgoal.
        by rewrite list_lookup_insert_ne.
  - constructor; try done.
    + intros j. case_decide as Hj; [|done]. apply list_elem_of_singleton in Hj as ->.
      unfold demoted. rewrite Hch. cbn. rewrite (proj2 (Z.eqb_neq _ _)) by done.
      by rewrite andb_false_r.
    + intros j ch' Hch'. right. split; [|done]. rewrite list_elem_of_singleton.
      destruct (decide (j = i)) as [->|]; [|auto]. simplify_eq. auto.
Qed.

Lemma demote_post_trans index i l st s1 s2 :
  i ∉ l → demote_post index [i] st s1 → demote_post index l s1 s2 →
  Z.to_nat (primary_index st) = index →
  demote_post index (i :: l) st s2.
Proof.
  intros Hil [Hb1 Hp1 Hs1 Hh1] [Hb2 Hp2 Hs2 Hh2] Hidx.
  assert (∀ j, j ∉ l → channel_slots s2 !! j = channel_slots s1 !! j) as Hsame.
  { intros j Hj. rewrite Hs2. by rewrite decide_False. }
  assert (∀ j, j ≠ i → channel_slots s1 !! j = channel_slots st !! j) as Hsame1.
  { intros j Hj. rewrite Hs1. rewrite decide_False; [done|].
    by rewrite list_elem_of_singleton. }
  constructor; [done|congruence|..].
  - intros j. destruct (decide (j = i)) as [->|Hne].
    + rewrite Hsame, Hs1 by done. rewrite !decide_True by (by left). done.
    + rewrite Hs2, (Hsame1 j Hne). destruct (decide (j ∈ l)).
      * by rewrite decide_True by (by right).
      * rewrite decide_False; [done|]. rewrite elem_of_cons. tauto.
  - intros j ch Hch. destruct (decide (j = i)) as [->|Hne].
    + assert (is_Some (channel_slots s1 !! i)) as [ch1 Hch1].
      { rewrite Hs1, Hch. case_decide; eauto. }
      assert (channel_hashes s2 !! i = channel_hashes s1 !! i) as Hhs.
      { destruct (Hh2 i ch1 Hch1) as [(? & _)|[_ ?]]; done. }
      rewrite Hhs. destruct (Hh1 i ch Hch) as [(_ & Hi & Hr & Hco)|[Hn Hh]].
      * left. split_and!; [by left|done..|].
        unfold hash_coherent in *. rewrite Hhs, Hco.
        assert ((i < 8)%nat) by (rewrite <-(base_slots s1) by done; by eapply lookup_lt_Some).
        apply generate_hash_ext; [by rewrite Hsame| |done..].
        rewrite Hp2, Hp1, Hidx, Hs2. case_decide; [|done].
        unfold demoted. rewrite Nat.eqb_refl. cbn. by rewrite option_fmap_id.
      * right. split; [|done]. rewrite list_elem_of_singleton in Hn. tauto.
    + assert (channel_hashes s1 !! j = channel_hashes st !! j) as <-.
      { destruct (Hh1 j ch Hch) as [(Hj & _)|[_ ?]]; [|done].
        by apply list_elem_of_singleton in Hj. }
      rewrite elem_of_cons.
      destruct (Hh2 j ch) as [H|H]; [by rewrite Hsame1|tauto..].
Qed.

Lemma demote_other_primary_spec index st :
  chan_base st → Z.to_nat (primary_index st) = index →
  wp (demote_other_primary (Z.of_nat index)) (λ _, demote_post index (seq 0 8) st) st.
Proof.
  intros Hb Hidx. unfold demote_other_primary.
  change channel_indices with (Z.of_nat <$> seq 0 8).
  assert (∀ i, i ∈ seq 0 8 → (i < 8)%nat) as Hlt by (intros i; rewrite elem_of_seq; lia).
  assert (NoDup (seq 0 8)) as Hnd by apply NoDup_seq.
  revert Hlt Hnd. generalize (seq 0 8) as l. intros l.
  revert st Hb Hidx. induction l as [|i l IH]; intros st Hb Hidx Hlt Hnd; cbn.
  { constructor; try done.
    intros j ch Hch. right. split; [|done]. left. apply not_elem_of_nil. }
  apply NoDup_cons in Hnd as [Hni Hnd]. wps.
  eapply wp_mono; [apply demote_one_spec; [done| |done]; apply Hlt; by left|].
  intros [] s1 Hs1. eapply wp_mono.
  { apply IH; [apply Hs1| |intros; apply Hlt; by right|done].
    by rewrite (dp_primary _ _ _ _ Hs1). }
  intros [] s2 Hs2. by eapply demote_post_trans.
Qed.

(** ** [set_slot] *)

(** What [meshtastic_channels_set_slot] leaves. *)
Record set_slot_post (index : nat) (ch : Channel) (st st' : channels) : Prop := {
  ss_base : chan_base st';
  ss_primary : primary_index st' =
    if c_role ch =? Role_PRIMARY then Z.of_nat index else primary_index st;
  ss_slot : channel_slots st' !! index = Some (fixup_slot (Z.of_nat index) ch);
  ss_others : ∀ j, j ≠ index → channel_slots st' !! j =
    (if c_role ch =? Role_PRIMARY then demoted index j else id) <$> channel_slots st !! j;
  ss_hash : hash_coherent st' index;
  ss_hashes : ∀ j, (j < 8)%nat → j ≠ index →
    hash_coherent st' j ∨
    (channel_slots st' !! j = channel_slots st !! j ∧
     channel_hashes st' !! j = channel_hashes st !! j);
  ss_mt : Z.of_nat index = primary_index st' →
    Some (mt_ch_hash st') = channel_hashes st' !! index ∧
    mt_channel_name st' = Some (meshtastic_channels_primary_name st')
}.

(** The end of [set_slot], from the recomputation of the slot's hash on. *)
Record tail_post (index : nat) (ch : Channel) (s s' : channels) : Prop := {
  tp_base : chan_base s';
  tp_primary : primary_index s' = primary_index s;
  tp_slots : channel_slots s' = <[index := fixup_slot (Z.of_nat index) ch]> (channel_slots s);
  tp_hashes : ∀ j, j ≠ index → channel_hashes s' !! j = channel_hashes s !! j;
  tp_hash : hash_coherent s' index;
  tp_mt : Z.of_nat index = primary_index s' →
    Some (mt_ch_hash s') = channel_hashes s' !! index ∧
    mt_channel_name s' = Some (meshtastic_channels_primary_name s')
}.

Lemma fixup_refresh index ch s :
  chan_base s → channel_slots s !! index = Some ch → primary_index s = Z.of_nat index →
  wp (channel_fixup (Z.of_nat index) ;; refresh_mt ;; mret (Ok ()))
    (λ r s', r = Ok () ∧ tail_post index ch s s') s.
Proof.
  intros Hb Hch Hp. destruct (channel_fixup_spec s index ch Hb Hch) as (h & Hrun & Hb' & Hco).
  assert (index < 8)%nat as Hi by (rewrite <-(base_slots s) by done; by eapply lookup_lt_Some).
  rewrite wp_bind. unfold wp at 1. rewrite Hrun.
  unfold refresh_mt, meshtastic_channels_primary_hash. wps. unfold wp at 1.
  change (primary_index (fixed s index ch h)) with (primary_index s).
  assert (channel_hashes (fixed s index ch h) !! index = Some h) as Hh.
  { unfold fixed; rgoal. apply list_lookup_insert_eq. rewrite base_hashes; done. }
  rewrite Hp, Nat2Z.id, Hh. cbn [mbind option_bind]. wps.
  split; [done|]. constructor; try done; [destruct Hb'; constructor; done|].
  intros j Hj. unfold fixed; rgoal. by rewrite list_lookup_insert_ne.
Qed.

Lemma set_slot_tail index ch s :
  chan_base s → channel_slots s !! index = Some ch →
  wp (channel_fixup (Z.of_nat index) ;;
      primary ← gets primary_index;
      (if Z.of_nat index =? primary then refresh_mt else mret ()) ;;
      mret (Ok ()))
    (λ r s', r = Ok () ∧ tail_post index ch s s') s.
Proof.
  intros Hb Hch. destruct (channel_fixup_spec s index ch Hb Hch) as (h & Hrun & Hb' & Hco).
  destruct (Z.eqb_spec (Z.of_nat index) (primary_index s)) as [He|He].
  - pose proof (fixup_refresh index ch s Hb Hch (eq_sym He)) as Hr. rewrite wp_bind in Hr. unfold wp at 1 in Hr. rewrite Hrun in Hr.
    rewrite wp_bind. unfold wp at 1. rewrite Hrun. rewrite wp_bind, wp_gets.
    change (primary_index (fixed s index ch h)) with (primary_index s).
    by rewrite (proj2 (Z.eqb_eq _ _) He).
  - wps. unfold wp at 1. rewrite Hrun. wps.
    change (primary_index (fixed s index ch h)) with (primary_index s).
    rewrite (proj2 (Z.eqb_neq _ _)) by done. wps. split; [done|]. constructor; try done.
    intros j Hj. unfold fixed; rgoal. by rewrite list_lookup_insert_ne.
Qed.

Lemma fixup_slot_index i j ch : fixup_slot i (ch <| c_index := j |>) = fixup_slot i ch.
Proof. by destruct ch. Qed.

Lemma hash_coherent_ext st st' i :
  chan_base st → chan_base st' → (i < 8)%nat →
  channel_hashes st !! i = channel_hashes st' !! i →
  channel_slots st !! i = channel_slots st' !! i →
  (∀ ch, channel_slots st !! i = Some ch → inherits ch = true →
    ∃ ow ow', channel_slots st !! Z.to_nat (primary_index st) = Some ow ∧
      channel_slots st' !! Z.to_nat (primary_index st') = Some ow' ∧
      own_key ow = own_key ow') →
  hash_coherent st i → hash_coherent st' i.
Proof.
  intros Hb Hb' Hi Hh Hs Hk Hco. unfold hash_coherent in *. rewrite <-Hh, Hco.
  destruct (generate_hash_spec st i) as (ch & ow & Hch & How & ->); [done..|].
  destruct (generate_hash_spec st' i) as (ch' & ow' & Hch' & How' & ->); [done..|].
  assert (ch' = ch) as -> by congruence.
  unfold key_owner in *. rewrite Hch in How. rewrite Hch' in How'.
  destruct (inherits ch) eqn:E; [|do 2 f_equal; congruence].
  destruct (Hk ch) as (? & ? & ? & ? & ?); [done..|].
  do 2 f_equal. congruence.
Qed.

(** The table when the demotion loop of [set_slot] starts. *)
Definition promoted (index : nat) (ch : Channel) (st : channels) : channels :=
  st <| channel_slots ::= <[index := ch]> |> <| primary_index := Z.of_nat index |>.

Lemma promoted_base index ch st :
  chan_base st → (index < 8)%nat → psk_ok ch → c_role ch = Role_PRIMARY →
  chan_base (promoted index ch st).
Proof.
  intros Hb Hi Hok Hr.
  destruct Hb. constructor; unfold promoted; rgoal; rewrite ?length_insert; try done; [lia|..].
  - by apply Forall_insert.
  - intros c. rewrite Nat2Z.id, list_lookup_insert_eq by lia. intros [= <-].
    unfold inherits. rewrite Hr. by rewrite andb_false_r.
Qed.

Lemma set_slot_post_primary index ch st s3 s4 :
  chan_base st → (index < 8)%nat → c_role ch = Role_PRIMARY →
  let ch1 := ch <| c_index := Z.of_nat index |> in
  demote_post index (seq 0 8) (promoted index ch1 st) s3 →
  tail_post index ch1 s3 s4 →
  set_slot_post index ch st s4.
Proof.
  intros Hb Hi Hr ch1 [Hb3 Hp3 Hsl3 Hh3] [Hb4 Hp4 Hsl4 Hh4 Hco Hmt].
  change (primary_index (promoted index ch1 st)) with (Z.of_nat index) in Hp3.
  assert (∀ j, j ≠ index → channel_slots s3 !! j = channel_slots s4 !! j) as Hsame.
  { intros j Hj. by rewrite Hsl4, list_lookup_insert_ne. }
  assert (∀ j, j ≠ index →
    channel_slots (promoted index ch1 st) !! j = channel_slots st !! j) as Hsame1.
  { intros j Hj. unfold promoted; rgoal. by rewrite list_lookup_insert_ne. }
  assert (∀ j, j ∈ seq 0 8 ↔ (j < 8)%nat) as Hseq by (intros j; rewrite elem_of_seq; lia).
  assert (channel_slots s3 !! index = Some ch1) as Hs3.
  { rewrite Hsl3, decide_True by by apply Hseq. unfold promoted; rgoal.
    rewrite list_lookup_insert_eq by (rewrite base_slots; done).
    unfold demoted. by rewrite Nat.eqb_refl. }
  assert (channel_slots s4 !! index = Some (fixup_slot (Z.of_nat index) ch1)) as Hs4.
  { rewrite Hsl4. apply list_lookup_insert_eq. by rewrite base_slots. }
  constructor; try done.
  - rewrite Hr. cbn. congruence.
  - intros j Hj. rewrite Hr. cbn. rewrite <-Hsame, Hsl3, <-Hsame1 by done.
    case_decide as Hd; [done|]. rewrite Hseq in Hd.
    rewrite (Hsame1 j Hj), (lookup_ge_None_2 (channel_slots st)); [done|].
    rewrite base_slots by done. lia.
  - intros j Hj8 Hj. destruct (lookup_lt_is_Some_2 (channel_slots st) j) as [c Hc].
    { by rewrite base_slots. }
    destruct (Hh3 j c) as [(_ & _ & _ & Hcj)|[Hd Hhj]]; [by rewrite Hsame1|..].
    + left. eapply hash_coherent_ext, Hcj; try done; [by rewrite Hh4|by apply Hsame|].
      intros _ _ _. exists ch1, (fixup_slot (Z.of_nat index) ch1).
      rewrite Hp4, Hp3, Nat2Z.id, own_key_fixup. done.
    + right. rewrite Hh4 by done. split; [|done].
      rewrite <-Hsame, Hsl3, Hsame1 by done. rewrite decide_True by by apply Hseq.
      rewrite Hc. cbn. f_equal. unfold demoted.
      rewrite (proj2 (Nat.eqb_neq j index)) by done. cbn.
      destruct Hd as [Hd|[Hd|Hd]]; [by rewrite Hseq in Hd|done|].
      by rewrite (proj2 (Z.eqb_neq _ _)).
Qed.

Lemma set_slot_spec st index ch :
  chan_base st → (index < 8)%nat → psk_ok ch →
  (Z.of_nat index = primary_index st → inherits ch = false) →
  wp (meshtastic_channels_set_slot (Z.of_nat index) (Some ch))
    (λ r st', r = Ok () ∧ set_slot_post index ch st st') st.
Proof.
  intros Hb Hi Hok Hinh. unfold meshtastic_channels_set_slot.
  rewrite (proj2 (Z.leb_gt _ _)) by (unfold MESHTASTIC_MAX_CHANNELS; lia).
  set (ch1 := ch <| c_index := Z.of_nat index |>).
  assert (psk_ok ch1) as Hok1 by done.
  rewrite wp_bind, wp_modify, Nat2Z.id.
  destruct (Z.eqb_spec (c_role ch) Role_PRIMARY) as [Hr|Hr].
  - rewrite wp_bind, wp_bind, wp_modify.
    pose proof (promoted_base index ch1 st Hb Hi Hok1 Hr) as Hb2.
    eapply wp_mono; [apply demote_other_primary_spec; [done|apply Nat2Z.id]|].
    intros [] s3 Hs3. eapply wp_mono.
    { apply (set_slot_tail _ ch1); [apply Hs3|].
      rewrite (dp_slots _ _ _ _ Hs3), decide_True by (rewrite elem_of_seq; lia).
      rgoal. rewrite list_lookup_insert_eq by (rewrite base_slots; done).
      unfold demoted. by rewrite Nat.eqb_refl. }
    intros r s4 [-> Hs4]. split; [done|]. by eapply set_slot_post_primary.
  - rewrite wp_bind, wp_ret.
    set (s1 := set channel_slots <[index:=ch1]> st).
    assert (chan_base s1) as Hb1.
    { apply chan_base_insert; [done..|]. intros ->. apply Hinh. destruct Hb. lia. }
    eapply wp_mono.
    { apply (set_slot_tail _ ch1); [done|]. apply list_lookup_insert_eq. by rewrite base_slots. }
    intros r s4 (-> & [Hb4 Hp4 Hsl4 Hh4 Hco Hmt]). split; [done|].
    assert (∀ j, j ≠ index → channel_slots s4 !! j = channel_slots st !! j) as Hsame.
    { intros j Hj. rewrite Hsl4. unfold s1; rgoal. by rewrite !list_lookup_insert_ne. }
    constructor; try done.
    + by rewrite (proj2 (Z.eqb_neq _ _)).
    + rewrite Hsl4. apply list_lookup_insert_eq. by rewrite base_slots.
    + intros j Hj. rewrite (proj2 (Z.eqb_neq _ _)) by done. by rewrite option_fmap_id, Hsame.
    + intros j _ Hj. right. rewrite Hh4, Hsame by done. done.
Qed.

Lemma wf_hash_ext st st' i :
  chan_base st → chan_base st' →
  channel_slots st' !! i = channel_slots st !! i →
  channel_hashes st' !! i = channel_hashes st !! i →
  (∀ ch, channel_slots st !! i = Some ch → inherits ch = false) →
  (i < 8)%nat → hash_coherent st i → hash_coherent st' i.
Proof.
  intros Hb Hb' Hs Hh Hn Hi. apply hash_coherent_ext; try done.
  intros ch Hch. rewrite (Hn ch Hch). done.
Qed.

Lemma fixup_slot_primary i ch :
  c_role (fixup_slot i ch) = Role_PRIMARY → c_role ch = Role_PRIMARY.
Proof. destruct ch as [? [] [] ?]; unfold fixup_slot; rgoal; case_decide; done. Qed.

Lemma demoted_not_primary index j ch :
  j ≠ index → c_role (demoted index j ch) ≠ Role_PRIMARY.
Proof.
  intros Hj. unfold demoted. rewrite (proj2 (Nat.eqb_neq _ _)) by done. cbn.
  destruct (Z.eqb_spec (c_role ch) Role_PRIMARY); [|done].
  intros H%fixup_slot_primary. done.
Qed.

Lemma set_slot_post_wf index ch st st' :
  chan_wf st → set_slot_post index ch st st' → chan_wf st'.
Proof.
  intros [Hb Hu Ho] [Hb' Hp Hs Hoth Hh Hhs _]. constructor; [done|..].
  - intros i c Hc Hr. destruct (decide (i = index)) as [->|Hne].
    + rewrite Hs in Hc. simplify_eq. apply fixup_slot_primary in Hr.
      rewrite Hp, Hr. cbn. by rewrite Nat2Z.id.
    + rewrite (Hoth i Hne) in Hc. rewrite Hp.
      destruct (Z.eqb_spec (c_role ch) Role_PRIMARY) as [Hr'|Hr'].
      * apply fmap_Some in Hc as (c' & Hc' & ->). by apply demoted_not_primary in Hr.
      * rewrite option_fmap_id in Hc. eauto.
  - intros i c Hc Hn. assert (i < 8)%nat as Hi.
    { rewrite <-(base_slots st') by done. by eapply lookup_lt_Some. }
    destruct (decide (i = index)) as [->|Hne]; [done|].
    destruct (Hhs i Hi Hne) as [|[Hsl Hhh]]; [done|].
    rewrite Hsl in Hc. eapply (wf_hash_ext st); try done; [|by eauto].
    intros c' Hc'. congruence.
Qed.

(** ** Defaults *)

Definition default_slots : list Channel :=
  mk_Channel 0 true
    (mk_ChannelSettings meshtastic_default_psk MESHTASTIC_CHANNEL_LONGFAST true true (Some 13))
    Role_PRIMARY
  :: ((λ i, mk_Channel i true ChannelSettings_zero Role_DISABLED) <$> [1; 2; 3; 4; 5; 6; 7]).
Definition default_hashes : list Z := [8; 0; 0; 0; 0; 0; 0; 0].

Lemma init_defaults_run st :
  meshtastic_channels_init_defaults st =
  Some (Ok (), st <| channel_slots := default_slots |> <| channel_hashes := default_hashes |>
                  <| primary_index := 0 |>).
Proof. by destruct st. Qed.

Lemma default_base st :
  channel_slots st = default_slots → channel_hashes st = default_hashes →
  primary_index st = 0 → chan_base st.
Proof.
  intros Hs Hh Hp. constructor; rewrite ?Hs, ?Hh, ?Hp; try done.
  - apply (bool_decide_unpack _). by vm_compute.
  - apply (bool_decide_unpack _). by vm_compute.
  - cbn. intros ch [= <-]. done.
Qed.

Lemma default_wf st :
  channel_slots st = default_slots → channel_hashes st = default_hashes →
  primary_index st = 0 → chan_wf st.
Proof.
  intros Hs Hh Hp. pose proof (default_base st Hs Hh Hp) as Hb. constructor; [done|..].
  - rewrite Hs, Hp. intros i ch. do 9 (destruct i as [|i]; [by intros [= <-]|]). done.
  - intros i ch Hi _. unfold hash_coherent. destruct st as [sl ha pr ? ? ? ?].
    cbn in Hs, Hh, Hp, Hi. subst. assert (i < 8)%nat as Hlt by (by eapply lookup_lt_Some in Hi).
    do 8 (destruct i as [|i]; [by vm_compute|]). lia.
Qed.

(** A configuration [meshtastic_init] can pass: a key of at most 32 bytes. *)
Definition channel_config_ok (cfg : channel_config) : Prop :=
  (cc_psk_len cfg ≤ 32)%nat ∧
  ∃ src, cc_psk cfg = Some src ∧ (cc_psk_len cfg ≤ length src)%nat ∧ bytes_ok src.

Lemma configure_primary_spec cfg ch :
  channel_config_ok cfg →
  ∃ ch', configure_primary cfg ch = Some ch' ∧ psk_ok ch' ∧ c_role ch' = c_role ch ∧
    c_has_settings ch' = c_has_settings ch ∧
    cs_psk (c_settings ch') = take (cc_psk_len cfg) (default [] (cc_psk cfg)) ∧
    cs_name (c_settings ch') =
      from_option (strncpy 11) (cs_name (c_settings ch)) (cc_channel_name cfg).
Proof.
  intros (Hl & src & Hs & Hsl & Hok). unfold configure_primary. rewrite Hs. cbn [mbind option_bind].
  rewrite (proj2 (Nat.ltb_ge _ _)), (proj2 (Nat.ltb_ge _ _)) by lia. cbn.
  eexists. split; [done|]. rgoal. split_and!; try done.
  - split; rgoal; [rewrite length_take; lia|]. by apply Forall_take.
  - by destruct (cc_channel_name cfg).
Qed.

Lemma init_from_config_run st cfg c1 :
  configure_primary cfg (mk_Channel 0 true
    (mk_ChannelSettings meshtastic_default_psk MESHTASTIC_CHANNEL_LONGFAST true true (Some 13))
    Role_PRIMARY) = Some c1 → psk_ok c1 → c_role c1 = Role_PRIMARY →
  wp (meshtastic_channels_init_from_config (Some cfg))
    (λ r st', r = Ok () ∧ ∃ s0, chan_wf s0 ∧ set_slot_post 0 c1 s0 st' ∧
       channel_slots s0 = default_slots) st.
Proof.
  intros Hc1 Hok Hr. unfold meshtastic_channels_init_from_config.
  rewrite wp_bind. unfold wp at 1. rewrite init_defaults_run.
  set (s0 := st <| channel_slots := default_slots |> <| channel_hashes := default_hashes |>
                <| primary_index := 0 |>).
  pose proof (default_base s0 eq_refl eq_refl eq_refl) as Hb0.
  rewrite wp_bind. unfold wp at 1.
  change (channel_slots s0 !! 0%nat) with (head default_slots). cbn [head default_slots].
  cbn [mbind option_bind]. rewrite Hc1. cbn [mbind option_bind].
  set (s1 := s0 <| channel_slots ::= <[0%nat := c1]> |>).
  assert (inherits c1 = false) as Hn.
  { unfold inherits. rewrite Hr. by rewrite andb_false_r. }
  eapply wp_mono; [apply (fixup_refresh 0 c1); [by apply chan_base_insert|done..]|].
  intros r s4 (-> & [Hb4 Hp4 Hsl4 Hh4 Hco Hmt]). split; [done|].
  exists s0. split; [by apply default_wf|]. split; [|done].
  constructor; try done.
  - by rewrite Hr.
  - by rewrite Hsl4.
  - intros j Hj. rewrite Hr, Hsl4. destruct j as [|j]; [done|].
    do 8 (destruct j as [|j]; [done|]). done.
  - intros j Hj8 Hj. right. rewrite Hh4, Hsl4 by done. by destruct j.
Qed.

Lemma init_from_config_spec st cfg :
  channel_config_ok cfg →
  wp (meshtastic_channels_init_from_config (Some cfg))
    (λ r st', r = Ok () ∧ chan_wf st' ∧ primary_index st' = 0 ∧
       ∃ ch, channel_slots st' = <[0%nat := ch]> default_slots ∧ c_role ch = Role_PRIMARY ∧
         cs_psk (c_settings ch) = take (cc_psk_len cfg) (default [] (cc_psk cfg))) st.
Proof.
  intros Hcfg.
  edestruct (configure_primary_spec cfg) as (c1 & Hc1 & Hok & Hr & Hhs & Hpsk & _); [done|].
  eapply wp_mono; [by eapply init_from_config_run; [apply Hc1|..]|].
  intros r st' (-> & s0 & Hwf & Hpost & Hs0). split; [done|].
  split; [by eapply set_slot_post_wf|]. destruct Hpost as [Hb' Hp Hs Hoth _ _ _].
  rewrite Hr in Hp. split; [done|]. exists (fixup_slot 0 c1). split_and!.
  - apply list_eq. intros [|j]; [done|].
    rewrite list_lookup_insert_ne, <-Hs0, Hoth by done. rewrite Hr, Hs0.
    do 8 (destruct j as [|j]; [done|]). done.
  - unfold fixup_slot. rgoal. rewrite Hhs. cbn. by case_decide.
  - rewrite <-Hpsk. unfold fixup_slot. rgoal. rewrite Hhs. cbn. by case_decide.
Qed.

Lemma pad_key_len_cases l : (l ≤ 32)%nat → (pad_key_len l = 16 ∨ pad_key_len l = 32)%nat.
Proof.
  intros Hl. unfold pad_key_len.
  destruct (Nat.ltb_spec l 16), (Nat.ltb_spec 16 l), (Nat.ltb_spec l 32); cbn; lia.
Qed.

Lemma own_key_length ch k :
  psk_ok ch → own_key ch = Ok k →
  length (k_bytes k) = 32%nat ∧ (k_len k = 0 ∨ k_len k = 16 ∨ k_len k = 32)%nat.
Proof.
  intros [Hl _]. unfold own_key. destruct (_ || _); [done|].
  destruct (cs_psk (c_settings ch)) as [|a [|b psk]] eqn:E.
  - intros [= <-]. cbn. auto.
  - assert (Ok (expand_short_psk a) = Ok k →
      length (k_bytes k) = 32%nat ∧ (k_len k = 0 ∨ k_len k = 16 ∨ k_len k = 32)%nat).
    { intros [= <-]. unfold expand_short_psk. case_if; rewrite ?length_insert; cbn; auto. }
    destruct a; [|done..]. intros [= <-]. cbn. auto.
  - assert (Ok (mk_key (pad32 (a :: b :: psk)) (pad_key_len (length (a :: b :: psk)))) = Ok k →
      length (k_bytes k) = 32%nat ∧ (k_len k = 0 ∨ k_len k = 16 ∨ k_len k = 32)%nat).
    { intros [= <-]. cbn [k_bytes k_len]. rewrite pad32_length by done. split; [done|].
      right. by apply pad_key_len_cases. }
    by destruct a.
Qed.

(** A primary slot without a key of its own. *)
Lemma get_key_diverges st c n :
  0 ≤ primary_index st < 8 → inherits c = true →
  channel_slots st !! Z.to_nat (primary_index st) = Some c →
  channel_get_key_ n st (primary_index st) = None.
Proof.
  intros Hp Hc Hch. induction n as [|n IH]; [done|].
  rewrite <-(Z2Nat.id (primary_index st)) by lia.
  by rewrite (get_key_inherit _ _ _ c) by (done || lia).
Qed.
Lemma set_slot_diverges st ch :
  0 ≤ primary_index st < 8 → length (channel_slots st) = 8%nat → inherits ch = true →
  meshtastic_channels_set_slot (primary_index st) (Some ch) st = None.
Proof.
  intros Hp Hl Hinh.
  assert (c_role ch = Role_SECONDARY) as Hr.
  { unfold inherits in Hinh. apply andb_true_iff in Hinh as [[_ ?%Z.eqb_eq]%andb_true_iff _]. done. }
  set (i := primary_index st) in *. set (ch1 := ch <| c_index := i |>).
  set (s1 := set channel_slots <[Z.to_nat i := ch1]> st).
  assert (channel_fixup i s1 = None) as Hfix.
  { unfold channel_fixup.
    assert (channel_slots s1 !! Z.to_nat i = Some ch1) as -> by (apply list_lookup_insert_eq; lia).
    cbn [mbind option_bind]. unfold channel_generate_hash, channel_get_key.
    set (s2 := s1 <| channel_slots ::= <[Z.to_nat i := fixup_slot i ch1]> |>).
    change i with (primary_index s2).
    rewrite (get_key_diverges s2 (fixup_slot i ch1)); [done|done|by rewrite inherits_fixup|].
    apply list_lookup_insert_eq. unfold s1; rgoal. rewrite length_insert. lia. }
  unfold meshtastic_channels_set_slot.
  rewrite (proj2 (Z.leb_gt _ _)) by (unfold MESHTASTIC_MAX_CHANNELS; lia).
  rewrite Hr. change (Role_SECONDARY =? Role_PRIMARY) with false.
  unfold modify, mret, M_ret, mbind, M_bind. fold ch1. fold s1. by rewrite Hfix.
Qed.

(** ** Properties *)

(** Storing a slot keeps the table well formed: a valid slot stored at a
    valid index is accepted, there is one PRIMARY slot at most and
    [primary_index] points at it, and every slot with a key of its own has
    the hash its fields give.  The stored slot is normalised, and a new
    PRIMARY demotes the old one. *)
Theorem set_slot_wf st index ch :
  chan_wf st → (index < 8)%nat → psk_ok ch →
  (Z.of_nat index = primary_index st → inherits ch = false) →
  wp (meshtastic_channels_set_slot (Z.of_nat index) (Some ch))
    (λ r st', r = Ok () ∧ chan_wf st' ∧
       channel_slots st' !! index = Some (fixup_slot (Z.of_nat index) ch) ∧
       primary_index st' =
         (if c_role ch =? Role_PRIMARY then Z.of_nat index else primary_index st) ∧
       (Z.of_nat index = primary_index st' →
          Some (mt_ch_hash st') = channel_hashes st' !! index)) st.
Proof.
  intros Hwf Hi Hok Hinh.
  eapply wp_mono; [apply set_slot_spec; by try apply Hwf|].
  intros r st' [-> Hpost]. split; [done|]. split; [by eapply set_slot_post_wf|].
  destruct Hpost as [? ? ? ? ? ? Hmt]. split_and!; try done. by intros [? _]%Hmt.
Qed.

(** initialisation from a configuration with a key of at most 32 bytes
    returns 0 and establishes the invariant: slot 0 is PRIMARY with the
    configured key, every other slot is DISABLED. *)
Theorem init_from_config_wf st cfg :
  channel_config_ok cfg →
  wp (meshtastic_channels_init_from_config (Some cfg))
    (λ r st', r = Ok () ∧ chan_wf st' ∧ primary_index st' = 0 ∧
       (∃ ch, channel_slots st' !! 0%nat = Some ch ∧ c_role ch = Role_PRIMARY ∧
         cs_psk (c_settings ch) = take (cc_psk_len cfg) (default [] (cc_psk cfg))) ∧
       ∀ i, (1 ≤ i < 8)%nat → slot_enabled st' (Z.of_nat i) = false) st.
Proof.
  intros Hcfg. eapply wp_mono; [by apply init_from_config_spec|].
  intros r st' (-> & Hwf & Hp & ch & Hs & Hr & Hk). split_and!; try done.
  - exists ch. rewrite Hs. done.
  - intros i Hi. unfold slot_enabled. rewrite Nat2Z.id, Hs.
    destruct i as [|i]; [lia|]. do 7 (destruct i as [|i]; [done|]). lia.
Qed.

(** the recursive key lookup terminates on every well-formed table and
    implements its contract: the key of slot [index] is the own key of the
    slot that owns it (the primary for a SECONDARY slot with an empty PSK),
    padded to exactly 0, 16 or 32 bytes of a 32-byte buffer; more depth
    changes nothing. *)
Theorem get_key_refines st index n :
  chan_wf st → (index < 8)%nat →
  ∃ ow, channel_slots st !! key_owner st index = Some ow ∧
    channel_get_key st (Z.of_nat index) = Some (own_key ow) ∧
    channel_get_key_ (2 + n) st (Z.of_nat index) = Some (own_key ow) ∧
    ∀ k, own_key ow = Ok k →
      length (k_bytes k) = 32%nat ∧ (k_len k = 0 ∨ k_len k = 16 ∨ k_len k = 32)%nat.
Proof.
  intros [Hb _ _] Hi.
  destruct (get_key_fuel 2 st index Hb Hi) as (ow & How & Hk); [done|].
  destruct (get_key_fuel (2 + n) st index Hb Hi) as (ow' & How' & Hk'); [lia|].
  assert (ow' = ow) as -> by congruence. exists ow. split_and!; try done.
  intros k. apply own_key_length. eapply Forall_lookup_1; [apply Hb|done].
Qed.

(** when the primary slot itself becomes SECONDARY with an empty PSK the
    lookup recurses on the primary slot for ever: no recursion depth
    suffices.  [meshtastic_channels_set_slot] accepts such a slot and then
    does not return. *)
Theorem channel_get_key_diverges st ch :
  0 ≤ primary_index st < 8 → length (channel_slots st) = 8%nat →
  c_has_settings ch = true → c_role ch = Role_SECONDARY → cs_psk (c_settings ch) = [] →
  (channel_slots st !! Z.to_nat (primary_index st) = Some ch →
     ∀ n, channel_get_key_ n st (primary_index st) = None) ∧
  meshtastic_channels_set_slot (primary_index st) (Some ch) st = None.
Proof.
  intros Hp Hl Hhs Hr Hpsk.
  assert (inherits ch = true) as Hinh by (unfold inherits; by rewrite Hhs, Hr, Hpsk).
  split; [intros Hch n; by eapply get_key_diverges|by apply set_slot_diverges].
Qed.

(** changing a slot that is not the primary and stays so leaves every
    cached hash current, inheriting slots included. *)
Theorem set_slot_hashes st index ch :
  chan_wf st → (∀ i, (i < 8)%nat → hash_coherent st i) →
  (index < 8)%nat → psk_ok ch → Z.of_nat index ≠ primary_index st →
  c_role ch ≠ Role_PRIMARY →
  wp (meshtastic_channels_set_slot (Z.of_nat index) (Some ch))
    (λ _ st', ∀ i, (i < 8)%nat → hash_coherent st' i) st.
Proof.
  intros [Hb _ _] Hall Hi Hok Hne Hr.
  eapply wp_mono; [by apply set_slot_spec|]. intros r st' [_ [Hb' Hp Hs Hoth Hh Hhs _]] i Hi'.
  destruct (decide (i = index)) as [->|Hni]; [done|].
  destruct (Hhs i Hi' Hni) as [|[Hsl Hhh]]; [done|].
  eapply hash_coherent_ext, Hall; try done. intros c _ _.
  rewrite (proj2 (Z.eqb_neq _ _)) in Hp by done.
  assert (Z.to_nat (primary_index st) ≠ index) by (destruct Hb; lia).
  destruct (lookup_lt_is_Some_2 (channel_slots st) (Z.to_nat (primary_index st))) as [ow How].
  { rewrite base_slots by done. destruct Hb; lia. }
  exists ow, ow. split_and!; try done. rewrite Hp, Hoth by done.
  rewrite (proj2 (Z.eqb_neq _ _)) by done. by rewrite How.
Qed.

(** The history behind [stale_secondary_hash]: a SECONDARY slot that inherits
    the primary key, then a new key for the primary slot. *)
Definition inheriting_slot : Channel :=
  mk_Channel 1 true (mk_ChannelSettings [] "team" false false None) Role_SECONDARY.
Definition rekeyed_primary : Channel :=
  mk_Channel 0 true (mk_ChannelSettings (replicate 16 7) "LongFast" true true None) Role_PRIMARY.
Definition rekey_history : M channels (result ()) :=
  meshtastic_channels_init_defaults ;;
  meshtastic_channels_set_slot 1 (Some inheriting_slot) ;;
  meshtastic_channels_set_slot 0 (Some rekeyed_primary).

(** the hash of an inheriting SECONDARY slot is not recomputed when the
    primary slot gets another key: every call succeeds, and the hash the slot
    announces is no longer the one of its name and effective key. *)
Theorem stale_secondary_hash st :
  ∃ st', rekey_history st = Some (Ok (), st') ∧ ¬ hash_coherent st' 1.
Proof.
  destruct st as [? ? ? ? ? ? ?]. eexists. split; [by vm_compute|]. by vm_compute.
Qed.

(** the slot a packet is sent on is a slot of the table; it is the
    requested slot when that one is enabled, else a slot announcing the
    requested wire hash, else the enabled slot the peer was last heard on,
    else the primary. *)
Theorem resolve_send_index_spec `{PeerDirectory D} (db : D) st dest channel_index wire_hash :
  chan_wf st → 0 ≤ channel_index → (∀ n c, peer_channel db n = Some c → 0 ≤ c) →
  let i := meshtastic_channels_resolve_send_index db st dest channel_index wire_hash in
  0 ≤ i < 8 ∧
  (channel_index < 8 ∧ slot_enabled st channel_index = true ∧ i = channel_index
   ∨ ¬ (channel_index < 8 ∧ slot_enabled st channel_index = true) ∧
     (wire_hash ≠ 0 ∧ channel_hashes st !! Z.to_nat i = Some wire_hash
      ∨ dest ≠ 0 ∧ dest ≠ MESHTASTIC_NODE_BROADCAST ∧ peer_channel db dest = Some i ∧
        i ≠ 0 ∧ slot_enabled st i = true
      ∨ i = primary_index st)).
Proof.
  intros [Hb _ _] Hc Hpeer i. subst i. unfold meshtastic_channels_resolve_send_index.
  unfold MESHTASTIC_MAX_CHANNELS in *. pose proof (base_primary _ Hb) as Hp.
  destruct (channel_index <? 8) eqn:E1; cbn [andb]; boolp;
    [destruct (slot_enabled st channel_index) eqn:E2|]; [tauto|..].
  all: match goal with |- context [match ?x with Some _ => _ | None => _ end] =>
         destruct x as [k|] eqn:E end.
  all: match type of E with
       | _ = Some _ =>
           destruct (wire_hash =? 0) eqn:E3; cbn [negb] in E; [done|]; boolp;
           pose proof (find_index_lt _ _ _ E) as Hk; change (length channel_indices) with 8%nat in Hk;
           apply find_index_Some in E as [(z & Hz & Hd) _];
           assert (z = Z.of_nat k) as -> by
             (do 8 (destruct k as [|k]; [by injection Hz|]); lia);
           split; [lia|]; right; split; [intros [? ?]; first [done|lia]|]; left; split; [done|];
           unfold meshtastic_channels_decrypt_for_hash, MESHTASTIC_MAX_CHANNELS in Hd;
           rewrite (proj2 (Z.leb_gt _ _)) in Hd by lia;
           destruct (lookup_lt_is_Some_2 (channel_hashes st) (Z.to_nat (Z.of_nat k))) as [h Hh];
             [rewrite base_hashes by done; lia|];
           rewrite Hh in *; cbn in Hd; boolp; congruence
       | _ => idtac
       end.
  all: assert (∀ P, P ∨ primary_index st = primary_index st) as Hprim by (intros; by right).
  all: destruct (dest =? 0) eqn:E4; destruct (dest =? MESHTASTIC_NODE_BROADCAST) eqn:E5;
    cbn [negb andb]; boolp; try (split; [lia|]; right; split; [intros [? ?]; first [done|lia]|]; tauto).
  all: destruct (peer_channel db dest) as [pc|] eqn:E6;
    try (split; [lia|]; right; split; [intros [? ?]; first [done|lia]|]; tauto).
  all: destruct (negb (pc =? 0) && (pc <? 8) && slot_enabled st pc) eqn:E7; boolp;
    (split; [first [lia|specialize (Hpeer _ _ E6); lia]|]; right;
     split; [intros [? ?]; first [done|lia|congruence]|]; tauto).
Qed.

(** ** Witnesses *)

Definition default_table : channels :=
  mk_channels default_slots default_hashes 0 DeviceRole_CLIENT Rebroadcast_ALL 8
    (Some (NR_slot 0)).

Lemma default_table_wf : chan_wf default_table.
Proof. by apply default_wf. Qed.

Lemma default_table_hashes i : (i < 8)%nat → hash_coherent default_table i.
Proof. intros Hi. unfold hash_coherent. do 8 (destruct i as [|i]; [by vm_compute|]). lia. Qed.

(** A new PRIMARY in slot 3. *)
Definition team_primary : Channel :=
  mk_Channel 0 true (mk_ChannelSettings [1] "team" false false None) Role_PRIMARY.

Lemma set_slot_wf_witness :
  wp (meshtastic_channels_set_slot 3 (Some team_primary))
    (λ r st', r = Ok () ∧ chan_wf st' ∧
       channel_slots st' !! 3%nat = Some (fixup_slot 3 team_primary) ∧
       primary_index st' = 3 ∧
       (3 = primary_index st' → Some (mt_ch_hash st') = channel_hashes st' !! 3%nat))
    default_table.
Proof.
  apply (set_slot_wf default_table 3 team_primary);
    [apply default_table_wf|lia|apply (bool_decide_unpack _); by vm_compute|done].
Defined.

Definition home_config : channel_config :=
  mk_channel_config (Some "HomeNet") (Some meshtastic_default_psk) 16.

Lemma home_config_ok : channel_config_ok home_config.
Proof.
  split; [cbn; lia|]. exists meshtastic_default_psk. split_and!; [done|cbn; lia|].
  apply (bool_decide_unpack _). by vm_compute.
Qed.

Lemma init_from_config_wf_witness :
  wp (meshtastic_channels_init_from_config (Some home_config))
    (λ r st', r = Ok () ∧ chan_wf st' ∧ primary_index st' = 0 ∧
       (∃ ch, channel_slots st' !! 0%nat = Some ch ∧ c_role ch = Role_PRIMARY ∧
         cs_psk (c_settings ch) = meshtastic_default_psk) ∧
       ∀ i, (1 ≤ i < 8)%nat → slot_enabled st' (Z.of_nat i) = false) channels_bss.
Proof. apply (init_from_config_wf channels_bss home_config home_config_ok). Defined.

Lemma get_key_refines_witness :
  ∃ ow, channel_slots default_table !! 0%nat = Some ow ∧
    channel_get_key default_table 0 = Some (own_key ow) ∧
    channel_get_key_ 5 default_table 0 = Some (own_key ow) ∧
    ∀ k, own_key ow = Ok k →
      length (k_bytes k) = 32%nat ∧ (k_len k = 0 ∨ k_len k = 16 ∨ k_len k = 32)%nat.
Proof. apply (get_key_refines default_table 0 3 default_table_wf). lia. Defined.

Lemma channel_get_key_diverges_witness :
  meshtastic_channels_set_slot 0 (Some (inheriting_slot <| c_index := 0 |>)) default_table = None.
Proof.
  apply (channel_get_key_diverges default_table (inheriting_slot <| c_index := 0 |>));
    [cbn; lia|done..].
Defined.

Lemma set_slot_hashes_witness :
  wp (meshtastic_channels_set_slot 1 (Some inheriting_slot))
    (λ _ st', ∀ i, (i < 8)%nat → hash_coherent st' i) default_table.
Proof.
  apply (set_slot_hashes default_table 1 inheriting_slot);
    [apply default_table_wf|apply default_table_hashes|lia| |done|done].
  apply (bool_decide_unpack _). by vm_compute.
Defined.

Lemma resolve_send_index_spec_witness :
  meshtastic_channels_resolve_send_index () default_table 7 255 8 = 0 ∧
  0 ≤ meshtastic_channels_resolve_send_index () default_table 7 255 8 < 8.
Proof.
  split; [done|].
  apply (resolve_send_index_spec () default_table 7 255 8 default_table_wf); [lia|done].
Defined.
