(* ===== verification/NodeDB.v ===== *)
(** * Node database (src/meshtastic_nodedb.c)

    The in-RAM table of known nodes: one array with a fill count, least
    recently heard eviction that spares the local node, and snapshots.  The
    mutex makes each operation atomic; decoding happens before it is taken. *)

From S2P Require Import Prelude Types External Mock Channels.

Definition NODEINFO_BITFIELD_VIA_MQTT_BIT : Z := 2.
Definition NODEINFO_BITFIELD_HAS_USER_BIT : Z := 5.
Definition NODEINFO_BITFIELD_IS_LICENSED_BIT : Z := 6.
Definition NODEINFO_BITFIELD_IS_UNMESSAGABLE_BIT : Z := 7.
Definition NODEINFO_BITFIELD_HAS_IS_UNMESSAGABLE_BIT : Z := 8.

Record StatusMessage := mk_StatusMessage { sm_status : string }.

(** [meshtastic_NodeInfoLite].  [snr] holds the integer the code converts to
    [float]. *)
Record NodeInfoLite := mk_NodeInfoLite {
  num : Z; snr : Z; last_heard : Z; channel : Z; hops_away : option Z; next_hop : Z;
  bitfield : Z; long_name : string; short_name : string; hw_model : Z; role : Z;
  public_key : list Z
}.
#[export] Instance NodeInfoLite_set : Settable NodeInfoLite := λ x,
  mk_NodeInfoLite (num x) (snr x) (last_heard x) (channel x) (hops_away x) (next_hop x)
    (bitfield x) (long_name x) (short_name x) (hw_model x) (role x) (public_key x).
Definition NodeInfoLite_zero : NodeInfoLite := mk_NodeInfoLite 0 0 0 0 None 0 0 "" "" 0 0 [].

(** [meshtastic_PositionLite]. *)
Record PositionLite := mk_PositionLite {
  pl_latitude_i : Z; pl_longitude_i : Z; pl_altitude : Z; pl_time : Z;
  pl_location_source : Z; pl_precision_bits : Z
}.
#[export] Instance PositionLite_set : Settable PositionLite := λ x,
  mk_PositionLite (pl_latitude_i x) (pl_longitude_i x) (pl_altitude x) (pl_time x)
    (pl_location_source x) (pl_precision_bits x).

(** [struct nodedb_entry]; an optional component is its [has_x] flag. *)
Record nodedb_entry := mk_entry {
  used : bool; node : NodeInfoLite; position : option PositionLite;
  device_metrics : option DeviceMetrics; environment_metrics : option EnvironmentMetrics;
  ndb_status : option StatusMessage
}.
#[export] Instance nodedb_entry_set : Settable nodedb_entry := λ x,
  mk_entry (used x) (node x) (position x) (device_metrics x) (environment_metrics x)
    (ndb_status x).
Definition entry_zero : nodedb_entry := mk_entry false NodeInfoLite_zero None None None None.

Record nodedb := mk_nodedb { nodedb_entries : list nodedb_entry; nodedb_entry_count : nat }.
#[export] Instance nodedb_set : Settable nodedb := λ x,
  mk_nodedb (nodedb_entries x) (nodedb_entry_count x).

Definition uptime_seconds (now_ms : Z) : Z := u32 (now_ms `quot` 1000).

(** [dst] is what an empty destination keeps; [src] is [None] for NULL. *)
Definition copy_string (dst : string) (dst_len : nat) (src : option string) : string :=
  if (dst_len =? 0)%nat then dst
  else match src with Some s => strncpy (dst_len - 1) s | None => "" end.

Definition apply_user (user : User) (entry : nodedb_entry) : nodedb_entry :=
  let n := node entry in
  let n := n <| long_name := copy_string (long_name n) 25 (Some (u_long_name user)) |>
             <| short_name := copy_string (short_name n) 5 (Some (u_short_name user)) |>
             <| hw_model := u8 (u_hw_model user) |>
             <| role := u8 (u_role user) |>
             <| public_key := take 32 (u_public_key user) |> in
  let has_unm := bool_decide (is_Some (u_is_unmessagable user)) in
  let bf := WRITE_BIT (bitfield n) NODEINFO_BITFIELD_HAS_USER_BIT true in
  let bf := WRITE_BIT bf NODEINFO_BITFIELD_IS_LICENSED_BIT (u_is_licensed user) in
  let bf := WRITE_BIT bf NODEINFO_BITFIELD_HAS_IS_UNMESSAGABLE_BIT has_unm in
  let bf := WRITE_BIT bf NODEINFO_BITFIELD_IS_UNMESSAGABLE_BIT
              (has_unm && default false (u_is_unmessagable user)) in
  entry <| node := n <| bitfield := bf |> |>.

Definition apply_position (p : Position) (entry : nodedb_entry) : nodedb_entry :=
  entry <| position := Some
    (mk_PositionLite (default 0 (pos_latitude_i p)) (default 0 (pos_longitude_i p))
       (default 0 (pos_altitude p)) (pos_time p) (pos_location_source p)
       (pos_precision_bits p)) |>.

(** The entries the search loops visit. *)
Definition visited (db : nodedb) : list nodedb_entry :=
  take (nodedb_entry_count db) (nodedb_entries db).

Definition find_entry_locked (node_num : Z) (db : nodedb) : option nat :=
  find_index (λ e, used e && (num (node e) =? node_num)) (visited db).

(** The loop of [oldest_evictable_index_locked]: [oldest] and [oldest_index]
    ([None] for SIZE_MAX) from index [i] on. *)
Fixpoint oldest_evictable_loop (local : Z) (es : list nodedb_entry) (i : nat)
    (oldest : Z) (oldest_index : option nat) : option nat :=
  match es with
  | [] => oldest_index
  | e :: es =>
      if negb (used e) || (num (node e) =? local)
      then oldest_evictable_loop local es (S i) oldest oldest_index
      else if last_heard (node e) <? oldest
      then oldest_evictable_loop local es (S i) (last_heard (node e)) (Some i)
      else oldest_evictable_loop local es (S i) oldest oldest_index
  end.

Definition oldest_evictable_index_locked (local : Z) (db : nodedb) : option nat :=
  oldest_evictable_loop local (visited db) 0 UINT32_MAX None.

Definition new_entry (node_num : Z) : nodedb_entry :=
  entry_zero <| used := true |> <| node := NodeInfoLite_zero <| num := node_num |> |>.

(** The slot of [node_num], created if there is room or something to evict. *)
Definition get_or_create_entry_locked `{Kconfig} (local node_num : Z) (db : nodedb)
    : option nat * nodedb :=
  if node_num =? 0 then (None, db)
  else
    match find_entry_locked node_num db with
    | Some i => (Some i, db)
    | None =>
        let create i db :=
          (Some i, db <| nodedb_entries ::= <[i := new_entry node_num]> |>) in
        if (nodedb_entry_count db <? CONFIG_NODEDB_MAX_NODES)%nat
        then create (nodedb_entry_count db)
               (db <| nodedb_entry_count := S (nodedb_entry_count db) |>)
        else
          match oldest_evictable_index_locked local db with
          | None => (None, db)
          | Some index => create index db
          end
    end.

(** The four [decode_*_payload] functions: the same text for each message. *)
Definition decode_payload {X} `{Pb X} (p : packet) : option X :=
  match p_payload p with
  | None => None
  | Some _ => if (p_payload_len p =? 0)%nat then None else pb_decode (payload_bytes p)
  end.

Definition packet_hops_away (p : packet) : option Z :=
  if (p_hop_start p =? 0) || (p_hop_start p <? p_hop_limit p) then None
  else Some (p_hop_start p - p_hop_limit p).

Definition apply_basic_packet (p : packet) (now_sec : Z) (entry : nodedb_entry)
    : nodedb_entry :=
  let n := node entry in
  let n := n <| last_heard := now_sec |>
             <| snr := p_snr p |>
             <| channel := if negb (p_channel_index p =? MESHTASTIC_CHANNEL_INDEX_INVALID)
                           then p_channel_index p else 0 |>
             <| next_hop := p_next_hop p |>
             <| bitfield ::= λ bf, WRITE_BIT bf NODEINFO_BITFIELD_VIA_MQTT_BIT (p_via_mqtt p) |> in
  entry <| node := match packet_hops_away p with
                   | Some h => n <| hops_away := Some h |>
                   | None => n
                   end |>.

(** What the port switch decoded from the packet. *)
Record decoded_parts := mk_parts {
  dp_user : option User; dp_position : option Position;
  dp_telemetry : option Telemetry; dp_status : option StatusMessage
}.

Section on_packet.
Context `{Kconfig} `{Pb User} `{Pb Position} `{Pb Telemetry} `{Pb StatusMessage}.

Definition decode_parts (p : packet) : decoded_parts :=
  if p_portnum p =? MESHTASTIC_PORT_NODEINFO
  then mk_parts (decode_payload p) None None None
  else if p_portnum p =? MESHTASTIC_PORT_POSITION
  then mk_parts None (if negb (p_want_response p) then decode_payload p else None) None None
  else if p_portnum p =? MESHTASTIC_PORT_TELEMETRY
  then mk_parts None None (decode_payload p) None
  else if p_portnum p =? MESHTASTIC_PORT_NODE_STATUS
  then mk_parts None None None (decode_payload p)
  else mk_parts None None None None.

(** What the handler does to the sender's entry. *)
Definition update_entry (p : packet) (parts : decoded_parts) (now_sec : Z)
    (e : nodedb_entry) : nodedb_entry :=
  let e := apply_basic_packet p now_sec e in
  let e := match dp_user parts with Some u => apply_user u e | None => e end in
  let e := match dp_position parts with Some x => apply_position x e | None => e end in
  let e := match dp_telemetry parts with
           | Some (Tel_device_metrics m) => e <| device_metrics := Some m |>
           | Some (Tel_environment_metrics m) => e <| environment_metrics := Some m |>
           | Some (Tel_other _) | None => e
           end in
  match dp_status parts with Some s => e <| ndb_status := Some s |> | None => e end.

Definition meshtastic_module_nodedb_on_packet (local : Z) (packet : option packet)
    (now_ms : Z) (db : nodedb) : nodedb :=
  match packet with
  | None => db
  | Some p =>
      if (p_from p =? 0) || (p_from p =? local) then db
      else
        let parts := decode_parts p in
        let now_sec := uptime_seconds now_ms in
        match get_or_create_entry_locked local (p_from p) db with
        | (None, db) => db
        | (Some i, db) => db <| nodedb_entries ::= alter (update_entry p parts now_sec) i |>
        end
  end.
End on_packet.

(** ** Snapshots *)

(** [struct meshtastic_nodedb_node]. *)
Record nodedb_node := mk_node {
  out_num : Z; out_last_heard_uptime_sec : Z; out_snr : Z; out_channel : Z; out_next_hop : Z;
  out_via_mqtt : bool; out_hops_away : option Z;
  out_has_user : bool; out_long_name : string; out_short_name : string;
  out_hw_model : Z; out_role : Z; out_is_licensed : bool;
  out_has_is_unmessagable : bool; out_is_unmessagable : bool; out_public_key : list Z;
  out_position : option PositionLite; out_device_metrics : option DeviceMetrics;
  out_environment_metrics : option EnvironmentMetrics; out_status : option string
}.

(** [iaq], [wind_direction] and [soil_moisture] are narrower in the snapshot,
    whose temperature array holds 8 elements. *)
Definition copy_environment_metrics (src : EnvironmentMetrics) : EnvironmentMetrics :=
  mk_EnvironmentMetrics (em_temperature src) (em_relative_humidity src)
    (em_barometric_pressure src) (em_gas_resistance src) (em_voltage src) (em_current src)
    (u16 <$> em_iaq src) (em_distance src) (em_lux src) (em_white_lux src) (em_ir_lux src)
    (em_uv_lux src) (u16 <$> em_wind_direction src) (em_wind_speed src) (em_weight src)
    (em_wind_gust src) (em_wind_lull src) (em_radiation src) (em_rainfall_1h src)
    (em_rainfall_24h src) (u8 <$> em_soil_moisture src) (em_soil_temperature src)
    (take 8 (em_one_wire_temperature src)).

Definition copy_device_metrics (src : DeviceMetrics) : DeviceMetrics :=
  mk_DeviceMetrics (dm_battery_level src) (dm_voltage src) (dm_channel_utilization src)
    (dm_air_util_tx src) (dm_uptime_seconds src).

Definition fill_snapshot (e : nodedb_entry) : nodedb_node :=
  let n := node e in
  mk_node (num n) (last_heard n) (snr n) (channel n) (next_hop n)
    (IS_BIT_SET (bitfield n) NODEINFO_BITFIELD_VIA_MQTT_BIT)
    (hops_away n)
    (IS_BIT_SET (bitfield n) NODEINFO_BITFIELD_HAS_USER_BIT)
    (copy_string "" 25 (Some (long_name n))) (copy_string "" 5 (Some (short_name n)))
    (hw_model n) (role n)
    (IS_BIT_SET (bitfield n) NODEINFO_BITFIELD_IS_LICENSED_BIT)
    (IS_BIT_SET (bitfield n) NODEINFO_BITFIELD_HAS_IS_UNMESSAGABLE_BIT)
    (IS_BIT_SET (bitfield n) NODEINFO_BITFIELD_IS_UNMESSAGABLE_BIT)
    (take 32 (public_key n))
    ((λ p, p <| pl_location_source ::= u8 |>) <$> position e)
    (copy_device_metrics <$> device_metrics e)
    (copy_environment_metrics <$> environment_metrics e)
    ((λ s, copy_string "" 80 (Some (sm_status s))) <$> ndb_status e).

Definition meshtastic_nodedb_count (db : nodedb) : nat := nodedb_entry_count db.

(** [out] is whether the caller's pointer is not NULL. *)
Definition meshtastic_nodedb_get (node_num : Z) (out : bool) (db : nodedb)
    : result nodedb_node :=
  if negb out then Err EINVAL
  else
    match find_entry_locked node_num db with
    | None => Err ENOENT
    | Some i => match nodedb_entries db !! i with
                | Some e => Ok (fill_snapshot e)
                | None => Err ENOENT
                end
    end.

Definition meshtastic_nodedb_get_by_index (index : nat) (out : bool) (db : nodedb)
    : result nodedb_node :=
  if negb out then Err EINVAL
  else if (nodedb_entry_count db <=? index)%nat then Err ENOENT
  else
    match nodedb_entries db !! index with
    | Some e => if negb (used e) then Err ENOENT else Ok (fill_snapshot e)
    | None => Err ENOENT
    end.

Definition meshtastic_nodedb_init `{Kconfig} (local : Z) (user : User) (now_ms : Z)
    (db : nodedb) : result () * nodedb :=
  let db := mk_nodedb (replicate CONFIG_NODEDB_MAX_NODES entry_zero) 0 in
  match get_or_create_entry_locked local local db with
  | (None, db) => (Err ENOMEM, db)
  | (Some i, db) =>
      (Ok (), db <| nodedb_entries ::=
        alter (λ e, apply_user user
                      (e <| node ::= set last_heard (λ _, uptime_seconds now_ms) |>)) i |>)
  end.

#[export] Instance nodedb_directory : PeerDirectory nodedb := λ db n,
  match meshtastic_nodedb_get n true db with
  | Ok node => Some (out_channel node)
  | Err _ => None
  end.

(** ** Invariant and abstraction *)

Definition entry_num (e : nodedb_entry) : Z := num (node e).

(** [used] marks exactly the entries below the count, whose node numbers are
    distinct and not 0. *)
Record nodedb_wf `{Kconfig} (db : nodedb) : Prop := {
  ndb_length : length (nodedb_entries db) = CONFIG_NODEDB_MAX_NODES;
  ndb_count : (nodedb_entry_count db ≤ CONFIG_NODEDB_MAX_NODES)%nat;
  ndb_used : Forall (λ e, used e = true ∧ entry_num e ≠ 0) (visited db);
  ndb_nodup : NoDup (entry_num <$> visited db)
}.

(** The finite map from node numbers to entries the table stands for. *)
Definition node_map (db : nodedb) : gmap Z nodedb_entry :=
  list_to_map ((λ e, (entry_num e, e)) <$> visited db).

Section invariant.
Context `{Kconfig}.
Implicit Types db : nodedb.

Lemma visited_length db : nodedb_wf db → length (visited db) = nodedb_entry_count db.
Proof. intros []. unfold visited. rewrite length_take. lia. Qed.

Lemma visited_lookup db i :
  (i < nodedb_entry_count db)%nat → visited db !! i = nodedb_entries db !! i.
Proof. intros. unfold visited. rewrite lookup_take. by rewrite decide_True. Qed.

Lemma visited_lookup_Some db i e :
  visited db !! i = Some e ↔ (i < nodedb_entry_count db)%nat ∧ nodedb_entries db !! i = Some e.
Proof. unfold visited. rewrite lookup_take_Some. tauto. Qed.

Lemma node_map_lookup db n e :
  nodedb_wf db →
  node_map db !! n = Some e ↔ ∃ i, visited db !! i = Some e ∧ entry_num e = n.
Proof.
  intros [_ _ _ Hnd]. unfold node_map. rewrite <-elem_of_list_to_map.
  2: { rewrite <-list_fmap_compose. exact Hnd. }
  rewrite list_elem_of_fmap. split.
  - intros (e' & [= -> ->] & Hin). apply list_elem_of_lookup in Hin as [i Hi]. eauto.
  - intros (i & Hi & <-). exists e. split; [done|]. by eapply list_elem_of_lookup_2.
Qed.

Lemma node_map_size db : nodedb_wf db → size (node_map db) = nodedb_entry_count db.
Proof.
  intros Hwf. unfold node_map. rewrite map_size_list_to_map.
  - rewrite length_fmap. by apply visited_length.
  - rewrite <-list_fmap_compose. apply Hwf.
Qed.

Lemma find_entry_Some db n i :
  nodedb_wf db → find_entry_locked n db = Some i →
  ∃ e, visited db !! i = Some e ∧ entry_num e = n.
Proof.
  intros Hwf [(e & He & Hf) _]%find_index_Some. boolp. eauto.
Qed.

Lemma find_entry_None db n :
  nodedb_wf db → find_entry_locked n db = None ↔ node_map db !! n = None.
Proof.
  intros Hwf. unfold find_entry_locked. rewrite find_index_None, eq_None_not_Some. split.
  - intros Hall [e He]. apply node_map_lookup in He as (i & Hi & Hn); [|done].
    rewrite Forall_lookup in Hall. specialize (Hall i e Hi).
    pose proof (Forall_lookup_1 _ _ _ _ (ndb_used _ Hwf) Hi) as [Hu _].
    rewrite Hu in Hall. cbn in Hall. boolp. done.
  - intros Hno. apply Forall_lookup. intros i e Hi. apply andb_false_iff. right.
    apply Z.eqb_neq. intros Hn. apply Hno. exists e. apply node_map_lookup; eauto.
Qed.

(** Rewriting slot [i], or taking the next free one. *)
Lemma nodedb_wf_insert db i old e :
  nodedb_wf db → visited db !! i = Some old → used e = true → entry_num e ≠ 0 →
  (entry_num e = entry_num old ∨ node_map db !! entry_num e = None) →
  nodedb_wf (db <| nodedb_entries ::= <[i := e]> |>).
Proof.
  intros Hwf Hi Hu Hnz Hfresh. pose proof Hwf as [Hl Hc Hus Hnd].
  apply visited_lookup_Some in Hi as Hi'. destruct Hi' as [Hic Hie].
  constructor; rgoal; unfold visited; rgoal; rewrite ?length_insert; try done.
  - rewrite take_insert_lt by done. by apply Forall_insert.
  - rewrite take_insert_lt by done. rewrite list_fmap_insert.
    apply NoDup_alt. intros a b x Ha Hb. rewrite list_lookup_insert in Ha, Hb.
    fold (visited db) in *.
    assert (∀ c, (entry_num <$> visited db) !! c = Some (entry_num e) → c = i) as Hone.
    { intros c Hc'. destruct Hfresh as [Hsame|Hnone].
      - rewrite NoDup_alt in Hnd. eapply Hnd; [done|]. rewrite list_lookup_fmap, Hi. cbn.
        by rewrite Hsame.
      - exfalso. rewrite list_lookup_fmap in Hc'. apply fmap_Some in Hc' as (e' & He' & Hn).
        assert (node_map db !! entry_num e = Some e') by (apply node_map_lookup; eauto).
        congruence. }
    do 2 case_decide; destruct_and?; simplify_eq; try done.
    + by apply Hone.
    + symmetry. by apply Hone.
    + rewrite NoDup_alt in Hnd. eauto.
Qed.

Lemma node_map_insert db i old e :
  nodedb_wf db → visited db !! i = Some old → used e = true → entry_num e ≠ 0 →
  (entry_num e = entry_num old ∨ node_map db !! entry_num e = None) →
  node_map (db <| nodedb_entries ::= <[i := e]> |>) =
    <[entry_num e := e]> (delete (entry_num old) (node_map db)).
Proof.
  intros Hwf Hi Hu Hnz Hfresh. pose proof (nodedb_wf_insert _ _ _ _ Hwf Hi Hu Hnz Hfresh) as Hwf'.
  assert (visited (db <| nodedb_entries ::= <[i := e]> |>) = <[i := e]> (visited db)) as Hv.
  { apply visited_lookup_Some in Hi as [Hic _]. unfold visited; rgoal.
    by rewrite take_insert_lt. }
  assert (i < length (visited db))%nat as Hlt by (by eapply lookup_lt_Some).
  apply map_eq. intros n. apply option_eq. intros e'. rewrite node_map_lookup, Hv by done.
  rewrite lookup_insert_Some, lookup_delete_Some, node_map_lookup by done. split.
  - intros (j & Hj & <-). apply list_lookup_insert_Some in Hj as [(<- & <- & _)|[Hji Hj]].
    + by left.
    + right. assert (entry_num old ≠ entry_num e') as Hne.
      { intros E. apply Hji. destruct Hwf as [_ _ _ Hnd]. rewrite NoDup_alt in Hnd.
        eapply (Hnd _ _ (entry_num e')); rewrite list_lookup_fmap; [rewrite Hi|rewrite Hj];
          cbn; congruence. }
      split_and!; [|done|by exists j].
      destruct Hfresh as [Hs|Hn]; [congruence|]. intros E.
      assert (node_map db !! entry_num e' = Some e') by (apply node_map_lookup; eauto).
      congruence.
  - intros [[<- <-]|(Hne & Hne' & j & Hj & <-)].
    + exists i. split; [|done]. by apply list_lookup_insert_eq.
    + exists j. split; [|done]. rewrite list_lookup_insert_ne; [done|]. intros ->. congruence.
Qed.

Definition pushed (e : nodedb_entry) db : nodedb :=
  db <| nodedb_entry_count := S (nodedb_entry_count db) |>
     <| nodedb_entries ::= <[nodedb_entry_count db := e]> |>.

Lemma visited_pushed db e :
  nodedb_wf db → (nodedb_entry_count db < CONFIG_NODEDB_MAX_NODES)%nat →
  visited (pushed e db) = visited db ++ [e].
Proof.
  intros [Hl _ _ _] Hlt. unfold visited, pushed; rgoal.
  rewrite (take_S_r _ _ e).
  - by rewrite take_insert_ge by lia.
  - apply list_lookup_insert_eq. lia.
Qed.

Lemma nodedb_wf_push db e :
  nodedb_wf db → (nodedb_entry_count db < CONFIG_NODEDB_MAX_NODES)%nat →
  used e = true → entry_num e ≠ 0 → node_map db !! entry_num e = None →
  nodedb_wf (pushed e db) ∧ node_map (pushed e db) = <[entry_num e := e]> (node_map db).
Proof.
  intros Hwf Hlt Hu Hnz Hn. pose proof (visited_pushed db e Hwf Hlt) as Hv.
  assert (nodedb_wf (pushed e db)) as Hwf'.
  { pose proof Hwf as [Hl Hc Hus Hnd].
    constructor; rewrite ?Hv; unfold pushed; rgoal; rewrite ?length_insert; try done.
    - apply Forall_app. split; [done|]. by constructor.
    - rewrite fmap_app. apply NoDup_app. split_and!; [done| |apply NoDup_singleton].
      intros n Hin Hin'. apply list_elem_of_singleton in Hin' as ->.
      apply list_elem_of_fmap in Hin as (e' & He' & Hin).
      apply list_elem_of_lookup in Hin as [i Hi].
      assert (node_map db !! entry_num e = Some e') by (apply node_map_lookup; eauto).
      congruence. }
  split; [done|]. apply map_eq. intros n. apply option_eq. intros e'.
  rewrite node_map_lookup, Hv, lookup_insert_Some, node_map_lookup by done. split.
  - intros (j & Hj & <-). apply lookup_app_Some in Hj as [Hj|[_ Hj]].
    + right. split; [|by exists j]. intros E.
      assert (node_map db !! entry_num e = Some e') by (apply node_map_lookup; eauto).
      congruence.
    + apply list_lookup_singleton_Some in Hj as [_ ->]. by left.
  - intros [[<- <-]|(Hne & j & Hj & <-)].
    + exists (length (visited db)). split; [|done]. by rewrite lookup_app_r, Nat.sub_diag.
    + exists j. split; [|done]. rewrite lookup_app_l; [done|]. by eapply lookup_lt_Some.
Qed.
End invariant.

(** ** Eviction *)

Definition evictable (local : Z) (e : nodedb_entry) : Prop :=
  used e = true ∧ entry_num e ≠ local.

Lemma oldest_evictable_loop_spec local es i oldest idx :
  match oldest_evictable_loop local es i oldest idx with
  | Some k =>
      (idx = Some k ∧ ∀ e, e ∈ es → evictable local e → oldest ≤ last_heard (node e)) ∨
      (∃ j v, k = (i + j)%nat ∧ es !! j = Some v ∧ evictable local v ∧
         last_heard (node v) < oldest ∧
         ∀ e, e ∈ es → evictable local e → last_heard (node v) ≤ last_heard (node e))
  | None => idx = None ∧ ∀ e, e ∈ es → evictable local e → oldest ≤ last_heard (node e)
  end.
Proof.
  revert i oldest idx. induction es as [|e es IH]; intros i oldest idx; cbn.
  { destruct idx; [left|]; (split; [done|]); intros e H; by apply elem_of_nil in H. }
  destruct (negb (used e) || (num (node e) =? local)) eqn:E1.
  - assert (¬ evictable local e) as Hne.
    { intros [H1 H2]. unfold entry_num in H2. apply orb_true_iff in E1 as [E1|E1]; boolp; congruence. }
    specialize (IH (S i) oldest idx). destruct (oldest_evictable_loop _ _ _ _ _) as [k|].
    + destruct IH as [[-> IH]|(j & v & -> & Hj & Hv & Hlt & IH)].
      * left. split; [done|]. intros e' [->|Hin]%elem_of_cons; [done|by apply IH].
      * right. exists (S j), v. split_and!; try done; [lia|].
        intros e' [->|Hin]%elem_of_cons; [done|by apply IH].
    + destruct IH as [-> IH]. split; [done|].
      intros e' [->|Hin]%elem_of_cons; [done|by apply IH].
  - boolp. destruct (Z.ltb_spec (last_heard (node e)) oldest) as [Hlt|Hge].
    + specialize (IH (S i) (last_heard (node e)) (Some i)).
      destruct (oldest_evictable_loop _ _ _ _ _) as [k|]; [|by destruct IH].
      right. destruct IH as [[[= ->] IH]|(j & v & -> & Hj & Hv & Hlt' & IH)].
      * exists 0%nat, e. split_and!; try done; [lia..|].
        intros e' [->|Hin]%elem_of_cons; [lia|by apply IH].
      * exists (S j), v. split_and!; try done; [lia|lia|].
        intros e' [->|Hin]%elem_of_cons; [lia|by apply IH].
    + specialize (IH (S i) oldest idx). destruct (oldest_evictable_loop _ _ _ _ _) as [k|].
      * destruct IH as [[-> IH]|(j & v & -> & Hj & Hv & Hlt & IH)].
        -- left. split; [done|]. intros e' [->|Hin]%elem_of_cons; [done|by apply IH].
        -- right. exists (S j), v. split_and!; try done; [lia|].
           intros e' [->|Hin]%elem_of_cons; [lia|by apply IH].
      * destruct IH as [-> IH]. split; [done|].
        intros e' [->|Hin]%elem_of_cons; [done|by apply IH].
Qed.

(** What the table promises its clients: a bounded map from node numbers to
    entries that, when full, forgets the node heard least recently and never
    the local one.  [lru_slot local n m e m0]: node [n] gets entry [e] to
    update, in the map [m0]. *)
Inductive lru_slot `{Kconfig} (local n : Z) (m : gmap Z nodedb_entry)
    : nodedb_entry → gmap Z nodedb_entry → Prop :=
  | lru_known e : m !! n = Some e → lru_slot local n m e m
  | lru_room : m !! n = None → (size m < CONFIG_NODEDB_MAX_NODES)%nat →
      lru_slot local n m (new_entry n) m
  | lru_evict v ev : m !! n = None → size m = CONFIG_NODEDB_MAX_NODES →
      m !! v = Some ev → v ≠ local →
      (∀ u eu, m !! u = Some eu → u ≠ local → last_heard (node ev) ≤ last_heard (node eu)) →
      lru_slot local n m (new_entry n) (delete v m).

(** No entry can be given up. *)
Definition lru_stuck `{Kconfig} (local n : Z) (m : gmap Z nodedb_entry) : Prop :=
  m !! n = None ∧ size m = CONFIG_NODEDB_MAX_NODES ∧
  ∀ u eu, m !! u = Some eu → u ≠ local → UINT32_MAX ≤ last_heard (node eu).

Section operations.
Context `{Kconfig} `{Pb User} `{Pb Position} `{Pb Telemetry} `{Pb StatusMessage}.
Implicit Types db : nodedb.

Lemma alter_slot db f i e :
  nodedb_entries db !! i = Some e →
  db <| nodedb_entries ::= alter f i |> = db <| nodedb_entries ::= <[i := f e]> |>.
Proof. destruct db; unfold set; cbn. intros. f_equal. by apply alter_as_insert. Qed.

(** [get_or_create] followed by an update of the entry, as the clients use
    it. *)
Lemma get_or_create_spec local n db (f : nodedb_entry → nodedb_entry) :
  nodedb_wf db → n ≠ 0 → (∀ e, used (f e) = used e ∧ entry_num (f e) = entry_num e) →
  match get_or_create_entry_locked local n db with
  | (Some i, db1) =>
      ∃ e m0, lru_slot local n (node_map db) e m0 ∧
        let db2 := db1 <| nodedb_entries ::= alter f i |> in
        nodedb_wf db2 ∧ node_map db2 = <[n := f e]> m0
  | (None, db1) => db1 = db ∧ lru_stuck local n (node_map db)
  end.
Proof.
  intros Hwf Hn Hf. unfold get_or_create_entry_locked.
  rewrite (proj2 (Z.eqb_neq _ _)) by done.
  destruct (find_entry_locked n db) as [i|] eqn:Ef.
  - destruct (find_entry_Some db n i Hwf Ef) as (e & He & Hen).
    pose proof (Forall_lookup_1 _ _ _ _ (ndb_used _ Hwf) He) as [Hu Hnz].
    destruct (Hf e) as [Hfu Hfn].
    exists e, (node_map db). split; [apply lru_known, node_map_lookup; eauto|].
    apply visited_lookup_Some in He as He'. destruct He' as [_ He'].
    rewrite (alter_slot db f i e) by done.
    cbn zeta. split; [eapply (nodedb_wf_insert db); try done; rewrite ?Hfu, ?Hfn; auto|].
    rewrite (node_map_insert db i e); try done; rewrite ?Hfu, ?Hfn; auto.
    by rewrite Hen, insert_delete_eq.
  - apply find_entry_None in Ef; [|done].
    destruct (Hf (new_entry n)) as [Hfu Hfn].
    change (entry_num (new_entry n)) with n in Hfn. change (used (new_entry n)) with true in Hfu.
    destruct (Nat.ltb_spec (nodedb_entry_count db) CONFIG_NODEDB_MAX_NODES) as [Hlt|Hge].
    + exists (new_entry n), (node_map db).
      split; [apply lru_room; [done|]; by rewrite node_map_size|].
      rewrite (alter_slot _ f _ (new_entry n))
        by (apply list_lookup_insert_eq; rgoal; destruct Hwf; lia).
      cbn zeta; match goal with |- nodedb_wf ?d ∧ _ => assert (d = pushed (f (new_entry n)) db) as -> end.
      { destruct db; unfold pushed, set; cbn. f_equal. apply list_insert_insert_eq. }
      destruct (nodedb_wf_push db (f (new_entry n))) as [Hw Hm]; rewrite ?Hfn; try done.
      split; [done|]. by rewrite Hm, Hfn.
    + assert (size (node_map db) = CONFIG_NODEDB_MAX_NODES) as Hsz.
      { rewrite node_map_size by done. destruct Hwf; lia. }
      pose proof (oldest_evictable_loop_spec local (visited db) 0 UINT32_MAX None) as Hold.
      fold (oldest_evictable_index_locked local db) in Hold.
      assert (∀ u eu, node_map db !! u = Some eu → u ≠ local →
        eu ∈ visited db ∧ evictable local eu) as Hmem.
      { intros u eu Hu Hul. apply node_map_lookup in Hu as (j & Hj & Hnum); [|done].
        split; [by eapply list_elem_of_lookup_2|].
        pose proof (Forall_lookup_1 _ _ _ _ (ndb_used _ Hwf) Hj) as [? _].
        split; [done|congruence]. }
      destruct (oldest_evictable_index_locked local db) as [k|].
      * destruct Hold as [[? _]|(j & v & -> & Hj & [Hvu Hvl] & _ & Hmin)]; [done|].
        exists (new_entry n), (delete (entry_num v) (node_map db)). split.
        { eapply (lru_evict local n _ _ v); try done.
          - apply node_map_lookup; eauto.
          - intros u eu Hu Hul. destruct (Hmem u eu); auto. }
        apply visited_lookup_Some in Hj as Hj'. destruct Hj' as [_ Hj'].
        rewrite (alter_slot _ f _ (new_entry n))
          by (apply list_lookup_insert_eq; by eapply lookup_lt_Some).
        cbn zeta; match goal with |- nodedb_wf ?d ∧ _ =>
          assert (d = db <| nodedb_entries ::= <[j := f (new_entry n)]> |>) as -> end.
        { destruct db; unfold set; cbn. f_equal. apply list_insert_insert_eq. }
        split; [eapply (nodedb_wf_insert db); try done; rewrite ?Hfn; auto|].
        rewrite (node_map_insert db j v); rewrite ?Hfn; auto.
      * destruct Hold as [_ Hold]. split; [done|]. split_and!; [done..|].
        intros u eu Hu Hul. destruct (Hmem u eu); auto.
Qed.
Lemma update_entry_keeps p parts now e :
  used (update_entry p parts now e) = used e ∧
  entry_num (update_entry p parts now e) = entry_num e.
Proof.
  unfold update_entry, apply_basic_packet.
  destruct parts as [[?|] [?|] [[?|?|?]|] [?|]], (packet_hops_away p), e as [? [] ? ? ? ?];
    done.
Qed.

Lemma update_entry_heard p parts now e :
  last_heard (node (update_entry p parts now e)) = now ∧
  channel (node (update_entry p parts now e)) =
    (if p_channel_index p =? MESHTASTIC_CHANNEL_INDEX_INVALID then 0 else p_channel_index p) ∧
  next_hop (node (update_entry p parts now e)) = p_next_hop p.
Proof.
  unfold update_entry, apply_basic_packet.
  destruct parts as [[?|] [?|] [[?|?|?]|] [?|]], (packet_hops_away p), e as [? [] ? ? ? ?];
    rgoal; by destruct (p_channel_index p =? MESHTASTIC_CHANNEL_INDEX_INVALID).
Qed.

Lemma lru_slot_local local n m e m0 :
  lru_slot local n m e m0 → n ≠ local → m0 !! local = m !! local.
Proof. destruct 1; intros; [done..|]. by rewrite lookup_delete_ne. Qed.

(** The lookup the API performs is the lookup in the map. *)
Lemma nodedb_get_spec db n :
  nodedb_wf db →
  meshtastic_nodedb_get n true db =
    match node_map db !! n with Some e => Ok (fill_snapshot e) | None => Err ENOENT end.
Proof.
  intros Hwf. unfold meshtastic_nodedb_get. cbn.
  destruct (find_entry_locked n db) as [i|] eqn:E.
  - destruct (find_entry_Some db n i Hwf E) as (e & He & Hn).
    assert (node_map db !! n = Some e) as -> by (apply node_map_lookup; eauto).
    apply visited_lookup_Some in He as [_ ->]. done.
  - apply find_entry_None in E as ->; done.
Qed.

Lemma on_packet_spec local p now_ms db :
  nodedb_wf db → p_from p ≠ 0 → p_from p ≠ local →
  let db' := meshtastic_module_nodedb_on_packet local (Some p) now_ms db in
  let upd := update_entry p (decode_parts p) (uptime_seconds now_ms) in
  nodedb_wf db' ∧
  ((∃ e m0, lru_slot local (p_from p) (node_map db) e m0 ∧
      node_map db' = <[p_from p := upd e]> m0) ∨
   (lru_stuck local (p_from p) (node_map db) ∧ db' = db)).
Proof.
  intros Hwf Hnz Hnl. unfold meshtastic_module_nodedb_on_packet.
  rewrite (proj2 (Z.eqb_neq (p_from p) 0)), (proj2 (Z.eqb_neq (p_from p) local)) by done.
  cbn [orb]. pose proof (get_or_create_spec local (p_from p) db
    (update_entry p (decode_parts p) (uptime_seconds now_ms)) Hwf Hnz
    (update_entry_keeps _ _ _)) as Hspec.
  destruct (get_or_create_entry_locked _ _ _) as [[i|] db1]; cbn zeta.
  - destruct Hspec as (e & m0 & Hslot & Hwf' & Hmap). split; [done|]. left. by exists e, m0.
  - destruct Hspec as [-> Hst]. split; [done|]. by right.
Qed.
End operations.

(** ** Properties *)

Section properties.
Context `{Kconfig} `{Pb User} `{Pb Position} `{Pb Telemetry} `{Pb StatusMessage}.


(** no packet, whatever its sender and contents, removes or changes the
    local node's entry, and the table never holds more than
    CONFIG_MESHTASTIC_NODEDB_MAX_NODES entries. *)
Theorem nodedb_local_survives local packet now_ms db :
  nodedb_wf db →
  let db' := meshtastic_module_nodedb_on_packet local packet now_ms db in
  node_map db' !! local = node_map db !! local ∧
  (meshtastic_nodedb_count db' ≤ CONFIG_NODEDB_MAX_NODES)%nat.
Proof.
  intros Hwf. destruct packet as [p|]; [|by split; [|apply Hwf]].
  destruct (decide (p_from p = 0 ∨ p_from p = local)) as [Hd|[Hnz Hnl]%Decidable.not_or].
  - cbn. assert ((p_from p =? 0) || (p_from p =? local) = true) as ->.
    { apply orb_true_iff. rewrite !Z.eqb_eq. done. }
    by split; [|apply Hwf].
  - destruct (on_packet_spec local p now_ms db Hwf Hnz Hnl) as [Hwf' Hmap]. cbn zeta in *.
    split; [|apply Hwf'].
    destruct Hmap as [(e & m0 & Hslot & ->)|[_ ->]]; [|done].
    rewrite lookup_insert_ne by done. by eapply lru_slot_local.
Qed.

(** after a packet from another node has been processed and the table
    was not stuck, a lookup of its sender succeeds and shows the packet: its
    time, channel index, next hop and hop count. *)
Theorem nodedb_get_after_packet local p now_ms db :
  nodedb_wf db → p_from p ≠ 0 → p_from p ≠ local →
  ¬ lru_stuck local (p_from p) (node_map db) →
  ∃ out, meshtastic_nodedb_get (p_from p) true
           (meshtastic_module_nodedb_on_packet local (Some p) now_ms db) = Ok out ∧
    out_num out = p_from p ∧
    out_last_heard_uptime_sec out = uptime_seconds now_ms ∧
    out_next_hop out = p_next_hop p ∧
    out_channel out =
      (if p_channel_index p =? MESHTASTIC_CHANNEL_INDEX_INVALID then 0 else p_channel_index p).
Proof.
  intros Hwf Hnz Hnl Hns.
  destruct (on_packet_spec local p now_ms db Hwf Hnz Hnl) as [Hwf' Hmap]. cbn zeta in *.
  destruct Hmap as [(e & m0 & Hslot & Hmap)|[? _]]; [|done].
  rewrite nodedb_get_spec, Hmap, lookup_insert_eq by done. eexists. split; [done|].
  cbn [out_num out_last_heard_uptime_sec out_next_hop out_channel fill_snapshot].
  destruct (update_entry_heard p (decode_parts p) (uptime_seconds now_ms) e) as (-> & -> & ->).
  destruct (update_entry_keeps p (decode_parts p) (uptime_seconds now_ms) e) as [_ Hn].
  unfold entry_num in Hn. rewrite Hn. split_and!; try done.
  destruct Hslot as [e Hk| |]; try done.
  apply node_map_lookup in Hk as (i & _ & Hi); done.
Qed.

(** initialisation leaves a well-formed table with one entry, the local
    node's, carrying the local user. *)
Theorem nodedb_init_spec local user now_ms db :
  KconfigRanges → local ≠ 0 →
  let '(r, db') := meshtastic_nodedb_init local user now_ms db in
  r = Ok () ∧ nodedb_wf db' ∧
  ∃ e, node_map db' = {[ local := e ]} ∧
    last_heard (node e) = uptime_seconds now_ms ∧
    long_name (node e) = strncpy 24 (u_long_name user) ∧
    short_name (node e) = strncpy 4 (u_short_name user).
Proof.
  intros HR Hnz. unfold meshtastic_nodedb_init.
  set (db0 := mk_nodedb (replicate CONFIG_NODEDB_MAX_NODES entry_zero) 0).
  assert (nodedb_wf db0) as Hwf.
  { constructor; cbn; [by rewrite length_replicate|lia|constructor..]. }
  set (f := λ e, apply_user user (e <| node ::= set last_heard (λ _, uptime_seconds now_ms) |>)).
  assert (∀ e, used (f e) = used e ∧ entry_num (f e) = entry_num e) as Hf.
  { intros [? [] ? ? ? ?]. done. }
  pose proof (get_or_create_spec local local db0 f Hwf Hnz Hf) as Hspec.
  destruct (get_or_create_entry_locked local local db0) as [[i|] db1].
  - destruct Hspec as (e & m0 & Hslot & Hwf' & Hmap). split; [done|]. split; [done|].
    exists (f e). change (node_map db0) with (∅ : gmap Z nodedb_entry) in Hslot.
    split.
    + cbn zeta in Hmap. rewrite Hmap. inversion Hslot as [? Hl| |? ? ? ? Hl]; subst;
        try (by rewrite lookup_empty in Hl). apply insert_empty.
    + by destruct e as [? [] ? ? ? ?].
  - destruct Hspec as [_ (_ & Hsz & _)].
    change (node_map db0) with (∅ : gmap Z nodedb_entry) in Hsz. rewrite map_size_empty in Hsz.
    pose proof nodedb_range. lia.
Qed.
End properties.

(** a snapshot taken after a NodeInfo was applied shows that user: names
    cut to the snapshot's arrays, key, and the three flags that travel through
    one bit field without disturbing each other or the via-MQTT flag. *)
Theorem user_snapshot user e :
  let out := fill_snapshot (apply_user user e) in
  out_has_user out = true ∧
  out_long_name out = strncpy 24 (u_long_name user) ∧
  out_short_name out = strncpy 4 (u_short_name user) ∧
  out_hw_model out = u8 (u_hw_model user) ∧
  out_public_key out = take 32 (u_public_key user) ∧
  out_is_licensed out = u_is_licensed user ∧
  out_has_is_unmessagable out = bool_decide (is_Some (u_is_unmessagable user)) ∧
  out_is_unmessagable out = default false (u_is_unmessagable user) ∧
  out_via_mqtt out = out_via_mqtt (fill_snapshot e) ∧
  out_num out = out_num (fill_snapshot e).
Proof.
  destruct e as [us [] ? ? ? ?]. unfold apply_user, fill_snapshot, IS_BIT_SET.
  cbn [set]; cbn -[WRITE_BIT Z.testbit take].
  unfold NODEINFO_BITFIELD_VIA_MQTT_BIT, NODEINFO_BITFIELD_HAS_USER_BIT,
    NODEINFO_BITFIELD_IS_LICENSED_BIT, NODEINFO_BITFIELD_IS_UNMESSAGABLE_BIT,
    NODEINFO_BITFIELD_HAS_IS_UNMESSAGABLE_BIT.
  rewrite !testbit_WRITE_BIT by lia. cbn -[Z.testbit take].
  split_and!; try done.
  - apply substring0_id, substring0_length.
  - apply substring0_id, substring0_length.
  - by rewrite take_take.
  - by destruct (u_is_unmessagable user) as [[]|].
Qed.

(** ** Witnesses *)

Section witnesses.
#[local] Existing Instance default_kconfig.
#[local] Instance no_User : Pb User := pb_silent User.
#[local] Instance no_Position : Pb Position := pb_silent Position.
#[local] Instance no_Telemetry : Pb Telemetry := pb_silent Telemetry.
#[local] Instance no_Status : Pb StatusMessage := pb_silent StatusMessage.

(** Sixteen slots: the local node 1 and the nodes 2 to 16, heard at the
    second of their number. *)
Definition full_db : nodedb :=
  mk_nodedb ((λ i, entry_zero <| used := true |>
                     <| node := NodeInfoLite_zero <| num := i |> <| last_heard := i |> |>)
             <$> (Z.of_nat <$> seq 1 16)) 16.

Lemma full_db_wf : nodedb_wf full_db.
Proof.
  constructor; [done|done| |].
  - apply (bool_decide_unpack _). by vm_compute.
  - apply (bool_decide_unpack _). by vm_compute.
Qed.

Definition hello : packet :=
  packet_zero <| p_from := 99 |> <| p_to := MESHTASTIC_NODE_BROADCAST |> <| p_portnum := 1 |>
    <| p_channel_index := 2 |>.


Lemma nodedb_local_survives_witness :
  node_map (meshtastic_module_nodedb_on_packet 1 (Some hello) 50000 full_db) !! 1 =
  node_map full_db !! 1.
Proof. apply (nodedb_local_survives 1 (Some hello) 50000 full_db full_db_wf). Defined.

Lemma nodedb_get_after_packet_witness :
  ∃ out, meshtastic_nodedb_get 99 true
           (meshtastic_module_nodedb_on_packet 1 (Some hello) 50000 full_db) = Ok out ∧
    out_num out = 99 ∧ out_last_heard_uptime_sec out = 50 ∧ out_next_hop out = 0 ∧
    out_channel out = 2.
Proof.
  apply (nodedb_get_after_packet 1 hello 50000 full_db full_db_wf); [done|done|].
  intros (_ & _ & Hst). specialize (Hst 2 (default entry_zero (node_map full_db !! 2))).
  assert (UINT32_MAX ≤ 2) by (apply Hst; by vm_compute). done.
Defined.

Lemma nodedb_init_spec_witness :
  let '(r, db') := meshtastic_nodedb_init 7 User_zero 3000 full_db in
  r = Ok () ∧ nodedb_wf db' ∧
  ∃ e, node_map db' = {[ 7 := e ]} ∧ last_heard (node e) = 3 ∧
    long_name (node e) = strncpy 24 "" ∧ short_name (node e) = strncpy 4 "".
Proof. apply (nodedb_init_spec 7 User_zero 3000 full_db default_kconfig_ranges). done. Defined.
End witnesses.
