(* ===== verification/Wire.v ===== *)
(** * Wire packets (src/meshtastic_packet.c, src/meshtastic_packet.h)

    The 16-byte header, AES-CTR through PSA, the conversions between the
    public packet structure, the protobuf MeshPacket and the frame, and the
    channel search of the receive path.  The operations run in [M K], [K] the
    crypto service; the channel table and the node directory are read only
    here.  The scratch buffers of [mt_ws] are overwritten before each use and
    are not kept as state; their sizes appear as bounds. *)

From S2P Require Import Prelude Types External Mock Core Channels.

Definition MESHTASTIC_FLAGS_HOP_LIMIT_MASK : Z := 0x07.
Definition MESHTASTIC_FLAGS_WANT_ACK : Z := BIT 3.
Definition MESHTASTIC_FLAGS_VIA_MQTT : Z := BIT 4.
Definition MESHTASTIC_FLAGS_HOP_START_SHIFT : Z := 5.
Definition MESHTASTIC_FLAGS_HOP_START_MASK : Z := Z.shiftl 0x07 MESHTASTIC_FLAGS_HOP_START_SHIFT.

(** [struct __packed meshtastic_wire_header] as the code reads it (each
    multi-byte field through [sys_le32_to_cpu]) and stores it. *)
Record wire_header := mk_header {
  h_dest : Z; h_src : Z; h_id : Z; h_flags : Z; h_channel : Z; h_next_hop : Z; h_relay_node : Z
}.
#[export] Instance wire_header_set : Settable wire_header := λ x,
  mk_header (h_dest x) (h_src x) (h_id x) (h_flags x) (h_channel x) (h_next_hop x)
    (h_relay_node x).

Definition header_bytes (h : wire_header) : list Z :=
  le32 (h_dest h) ++ le32 (h_src h) ++ le32 (h_id h)
  ++ [h_flags h; h_channel h; h_next_hop h; h_relay_node h].

(** [(const struct meshtastic_wire_header * )buf]. *)
Definition header_of (buf : list Z) : wire_header :=
  let byte i := default 0 (buf !! i) in
  mk_header (get_le32 buf) (get_le32 (drop 4 buf)) (get_le32 (drop 8 buf))
    (byte 12%nat) (byte 13%nat) (byte 14%nat) (byte 15%nat).

(** Reading the fields through that pointer: past the end of the frame it is
    undefined. *)
Definition read_header {S} (buf : list Z) : M S wire_header :=
  within MESHTASTIC_HDR_LEN (length buf) ;; mret (header_of buf).

(** The flag byte as the three frame builders compute it. *)
Definition header_flags (hop_limit hop_start : Z) (want_ack via_mqtt : bool) : Z :=
  let flags := Z.lor (Z.land hop_limit MESHTASTIC_FLAGS_HOP_LIMIT_MASK)
                 (Z.shiftl (Z.land hop_start 0x07) MESHTASTIC_FLAGS_HOP_START_SHIFT) in
  let flags := if want_ack then Z.lor flags MESHTASTIC_FLAGS_WANT_ACK else flags in
  if via_mqtt then Z.lor flags MESHTASTIC_FLAGS_VIA_MQTT else flags.

Definition flags_hop_limit (flags : Z) : Z := Z.land flags MESHTASTIC_FLAGS_HOP_LIMIT_MASK.
Definition flags_hop_start (flags : Z) : Z :=
  Z.shiftr (Z.land flags MESHTASTIC_FLAGS_HOP_START_MASK) MESHTASTIC_FLAGS_HOP_START_SHIFT.
Definition flags_want_ack (flags : Z) : bool :=
  negb (Z.land flags MESHTASTIC_FLAGS_WANT_ACK =? 0).
Definition flags_via_mqtt (flags : Z) : bool :=
  negb (Z.land flags MESHTASTIC_FLAGS_VIA_MQTT =? 0).

(** [memset(nonce, 0, 16); sys_put_le32(id, nonce); sys_put_le32(from, nonce + 8);] *)
Definition packet_nonce (id from : Z) : list Z :=
  le32 id ++ replicate 4 0 ++ le32 from ++ replicate 4 0.

(** [sizeof(mt_ws.rx_dec)]. *)
Definition MT_WS_RX_DEC : nat := MESHTASTIC_PAYLOAD_MAX + 16.

Section wire.
Context `{PSA K} `{PeerDirectory D} `{Pb Data}.

(** The output buffer receives what [update] returns and then what
    [finish] returns. *)
Definition ctr_crypt (key nonce input : list Z) : M K (result (list Z)) :=
  kid ← state (psa_import_key key);
  match kid with
  | None => mret (Err EIO)
  | Some kid =>
      ret ← (op ← state (psa_cipher_encrypt_setup kid);
             match op with
             | None => mret (Err EIO)
             | Some op =>
                 op' ← state (psa_cipher_set_iv op nonce);
                 match op' with
                 | None => modify (psa_cipher_abort op) ;; mret (Err EIO)
                 | Some op =>
                     out ← state (psa_cipher_update op input);
                     match out with
                     | None => modify (psa_cipher_abort op) ;; mret (Err EIO)
                     | Some (out, op) =>
                         fin ← state (psa_cipher_finish op);
                         match fin with
                         | None => mret (Err EIO)
                         | Some fin => mret (Ok (out ++ fin))
                         end
                     end
                 end
             end);
      modify (psa_destroy_key kid) ;;
      mret ret
  end.

(** The [meshtastic_Data] a packet carries. *)
Definition packet_data (p : packet) : Data :=
  mk_Data (p_portnum p) (payload_bytes p) (p_want_response p) (p_data_dest p)
    (p_data_source p) (p_request_id p) (p_reply_id p) 0 None.

Definition encode_packet_data (packet : option packet) (buf_len : nat) : result (list Z) :=
  match packet with
  | None => Err EINVAL
  | Some p =>
      if payload_invalid p then Err EINVAL
      else match pb_encode buf_len (packet_data p) with
           | None => Err ENOMEM
           | Some bs => Ok bs
           end
  end.

Definition meshtastic_encode_data (portnum : Z) (payload : option (list Z))
    (payload_len buf_len : nat) : result (list Z) :=
  encode_packet_data
    (Some (packet_zero <| p_portnum := portnum |> <| p_payload := payload |>
                       <| p_payload_len := payload_len |>)) buf_len.

Definition meshtastic_packet_to_mesh_pb (packet : option packet) : result MeshPacket :=
  match packet with
  | None => Err EINVAL
  | Some p =>
      if payload_invalid p then Err EINVAL
      else Ok
        (MeshPacket_zero
           <| m_from := p_from p |> <| m_to := p_to p |>
           <| m_channel := if negb (p_channel_index p =? MESHTASTIC_CHANNEL_INDEX_INVALID)
                           then p_channel_index p else 0 |>
           <| m_id := p_id p |> <| m_rx_snr := p_snr p |> <| m_rx_rssi := p_rssi p |>
           <| m_hop_limit := p_hop_limit p |> <| m_hop_start := p_hop_start p |>
           <| m_want_ack := p_want_ack p |> <| m_via_mqtt := p_via_mqtt p |>
           <| m_next_hop := p_next_hop p |> <| m_relay_node := p_relay_node p |>
           <| m_transport := if p_via_mqtt p then Transport_MQTT else Transport_LORA |>
           <| m_variant := PV_decoded (packet_data p) |>)
  end.

(** [meshtastic_mesh_packet_copy] copies the whole structure. *)
Definition meshtastic_mesh_packet_copy (src : MeshPacket) : MeshPacket := src.

Definition decrypt_mesh_encrypted_key (from id : Z) (enc : list Z) (key : channel_key)
    : M K (result Data) :=
  let enc_len := length enc in
  if (enc_len =? 0)%nat then mret (Err EINVAL)
  else if (MESHTASTIC_PAYLOAD_MAX <? enc_len)%nat then mret (Err EINVAL)
  else if negb (k_len key =? 0)%nat && negb (k_len key =? 16)%nat
          && negb (k_len key =? 32)%nat then mret (Err EINVAL)
  else
    within enc_len MT_WS_RX_DEC ;;
    rx_dec ← (if (k_len key =? 0)%nat then mret (Ok enc)
              else ctr_crypt (take (k_len key) (k_bytes key)) (packet_nonce id from) enc);
    match rx_dec with
    | Err e => mret (Err e)
    | Ok rx_dec =>
        match pb_decode rx_dec with
        | None => mret (Err EIO)
        | Some data =>
            if d_portnum data =? PortNum_UNKNOWN_APP then mret (Err EIO)
            else mret (Ok data)
        end
    end.

Definition meshtastic_packet_wire_hash_for_index (st : channels) (channel_index : Z) : Z :=
  meshtastic_channels_get_hash st channel_index.

(** The loop of [try_decrypt_wire_hash] over the slots still to try. *)
Fixpoint try_decrypt_slots (st : channels) (slots : list Z) (wire_hash from id : Z)
    (enc : list Z) : M K (result (Data * Z)) :=
  match slots with
  | [] => mret (Err EBADMSG)
  | ch :: slots =>
      let next := try_decrypt_slots st slots wire_hash from id enc in
      match meshtastic_channels_get st ch with
      | None => next
      | Some slot =>
          if c_role slot =? Role_DISABLED then next
          else if negb (meshtastic_channels_decrypt_for_hash st ch wire_hash) then next
          else
            match meshtastic_channels_get_key st ch with
            | None => ub
            | Some (Err _) => next
            | Some (Ok key) =>
                ret ← decrypt_mesh_encrypted_key from id enc key;
                match ret with
                | Ok data => mret (Ok (data, ch))
                | Err _ => next
                end
            end
      end
  end.

Definition try_decrypt_wire_hash (st : channels) (wire_hash from id : Z) (enc : list Z)
    : M K (result (Data * Z)) :=
  try_decrypt_slots st channel_indices wire_hash from id enc.

(** The mesh packet is the caller's: the tag may change on failure too. *)
Definition meshtastic_mesh_pb_try_decode (st : channels) (mesh : MeshPacket)
    : M K (result () * MeshPacket) :=
  match m_variant mesh with
  | PV_decoded _ => mret (Ok (), mesh)
  | PV_encrypted enc | PV_other enc =>
      let mesh' := mesh <| m_variant := PV_encrypted enc |> in
      if (length enc =? 0)%nat then
        mret (Err (if is_encrypted mesh then EINVAL else ENOTSUP), mesh)
      else
        let wire_hash := if negb (m_channel mesh =? 0) then u8 (m_channel mesh)
                         else mt_ch_hash st in
        ret ← try_decrypt_wire_hash st wire_hash (m_from mesh) (m_id mesh) enc;
        match ret with
        | Err e => mret (Err e, mesh')
        | Ok (data, ch_index) =>
            mret (Ok (), mesh' <| m_variant := PV_decoded data |> <| m_channel := ch_index |>)
        end
  end.

(** The caller's buffer is not NULL; [None] is the NULL packet payload. *)
Definition copy_data_payload (data : Data) (payload_len : nat) : M K (result (option (list Z))) :=
  if (length (d_payload data) =? 0)%nat then mret (Ok None)
  else if (payload_len <? length (d_payload data))%nat then mret (Err ENOMEM)
  else
    within (length (d_payload data)) payload_len ;;
    mret (Ok (Some (d_payload data))).

(** [meshtastic_mesh_pb_to_packet] on a decoded packet. *)
Definition mesh_decoded_to_packet (st : channels) (mesh : MeshPacket) (data : Data)
    (payload_len : nat) : M K (result packet) :=
  ret ← copy_data_payload data payload_len;
  match ret with
  | Err e => mret (Err e)
  | Ok packet_payload => mret (Ok
      (packet_zero
         <| p_from := m_from mesh |> <| p_to := m_to mesh |> <| p_id := m_id mesh |>
         <| p_portnum := d_portnum data |> <| p_payload := packet_payload |>
         <| p_payload_len := length (d_payload data) |>
         <| p_data_dest := d_dest data |> <| p_data_source := d_source data |>
         <| p_request_id := d_request_id data |> <| p_reply_id := d_reply_id data |>
         <| p_hop_limit := m_hop_limit mesh |> <| p_hop_start := m_hop_start mesh |>
         <| p_channel :=
              if m_channel mesh <? MESHTASTIC_MAX_CHANNELS
              then meshtastic_channels_get_hash st (u8 (m_channel mesh))
              else if negb (m_channel mesh =? 0) then u8 (m_channel mesh) else mt_ch_hash st |>
         <| p_channel_index :=
              if m_channel mesh <? MESHTASTIC_MAX_CHANNELS then u8 (m_channel mesh)
              else MESHTASTIC_CHANNEL_INDEX_INVALID |>
         <| p_next_hop := m_next_hop mesh |> <| p_relay_node := m_relay_node mesh |>
         <| p_want_ack := m_want_ack mesh |> <| p_via_mqtt := m_via_mqtt mesh |>
         <| p_want_response := d_want_response data |>))
  end.

Definition meshtastic_mesh_pb_to_packet (st : channels) (mesh : option MeshPacket)
    (payload_len : nat) : M K (result packet) :=
  match mesh with
  | None => mret (Err EINVAL)
  | Some mesh =>
      match m_variant mesh with
      | PV_decoded data => mesh_decoded_to_packet st mesh data payload_len
      | _ =>
          r ← meshtastic_mesh_pb_try_decode st (meshtastic_mesh_packet_copy mesh);
          match r with
          | (Err e, _) => mret (Err e)
          | (Ok _, work) =>
              match m_variant work with
              | PV_decoded data => mesh_decoded_to_packet st work data payload_len
              | _ => ub
              end
          end
      end
  end.

Definition fill_packet_from_header (hdr : wire_header) (rssi snr : Z) (p : packet) : packet :=
  p <| p_from := h_src hdr |> <| p_to := h_dest hdr |> <| p_id := h_id hdr |>
    <| p_hop_limit := flags_hop_limit (h_flags hdr) |>
    <| p_hop_start := flags_hop_start (h_flags hdr) |>
    <| p_channel := h_channel hdr |> <| p_channel_index := MESHTASTIC_CHANNEL_INDEX_INVALID |>
    <| p_next_hop := h_next_hop hdr |> <| p_relay_node := h_relay_node hdr |>
    <| p_want_ack := flags_want_ack (h_flags hdr) |>
    <| p_via_mqtt := flags_via_mqtt (h_flags hdr) |>
    <| p_rssi := rssi |> <| p_snr := snr |>.

(** [p0] is what the caller's packet structure holds before the call: the
    fields a failed decode leaves alone. *)
Definition meshtastic_try_decode_wire_packet (db : D) (st : channels) (p0 : packet)
    (buf : option (list Z)) (rssi snr : Z) (payload_len : nat)
    : M K (result (packet * bool)) :=
  match buf with
  | None => mret (Err EINVAL)
  | Some buf =>
      if (length buf <? MESHTASTIC_HDR_LEN)%nat then mret (Err EINVAL)
      else
        hdr ← read_header buf;
        let p := (fill_packet_from_header hdr rssi snr p0)
                   <| p_payload := None |> <| p_payload_len := 0%nat |> in
        if negb (meshtastic_decode_known_only db st (p_from p)) then mret (Ok (p, false))
        else
          ret ← try_decrypt_wire_hash st (h_channel hdr) (p_from p) (p_id p)
                  (drop MESHTASTIC_HDR_LEN buf);
          match ret with
          | Err _ => mret (Ok (p, false))
          | Ok (data, channel_index) =>
              ret ← copy_data_payload data payload_len;
              match ret with
              | Err e => mret (Err e)
              | Ok packet_payload => mret (Ok
                  (p <| p_portnum := d_portnum data |> <| p_payload := packet_payload |>
                     <| p_payload_len := length (d_payload data) |>
                     <| p_data_dest := d_dest data |> <| p_data_source := d_source data |>
                     <| p_request_id := d_request_id data |>
                     <| p_reply_id := d_reply_id data |>
                     <| p_want_response := d_want_response data |>
                     <| p_channel_index := channel_index |>, true))
              end
          end
  end.

Definition meshtastic_decode_wire_packet (db : D) (st : channels) (p0 : packet)
    (buf : option (list Z)) (rssi snr : Z) (payload_len : nat) : M K (result packet) :=
  ret ← meshtastic_try_decode_wire_packet db st p0 buf rssi snr payload_len;
  match ret with
  | Err e => mret (Err e)
  | Ok (_, false) => mret (Err EBADMSG)
  | Ok (p, true) => mret (Ok p)
  end.

Definition meshtastic_build_wire_packet (db : D) (st : channels) (p : packet)
    : M K (result (list Z)) :=
  match encode_packet_data (Some p) MESHTASTIC_PAYLOAD_MAX with
  | Err e => mret (Err e)
  | Ok pb_buf =>
      let ch_index := meshtastic_channels_resolve_send_index db st (p_to p)
                        (p_channel_index p) (p_channel p) in
      match meshtastic_channels_get_key st ch_index with
      | None => ub
      | Some (Err e) => mret (Err e)
      | Some (Ok key) =>
          let wire_hash := meshtastic_channels_get_hash st ch_index in
          enc_buf ← (if (k_len key =? 0)%nat then mret (Ok pb_buf)
                     else ctr_crypt (take (k_len key) (k_bytes key))
                            (packet_nonce (p_id p) (p_from p)) pb_buf);
          match enc_buf with
          | Err e => mret (Err e)
          | Ok enc_buf =>
              let hdr := mk_header (p_to p) (p_from p) (p_id p)
                (header_flags (p_hop_limit p) (p_hop_start p) (p_want_ack p) (p_via_mqtt p))
                wire_hash (p_next_hop p) (p_relay_node p) in
              mret (Ok (header_bytes hdr ++ enc_buf))
          end
      end
  end.
End wire.

(** ** Accesses in bounds *)

Lemma read_header_bind {S A} buf (f : wire_header → M S A) :
  (MESHTASTIC_HDR_LEN ≤ length buf)%nat → (read_header buf ≫= f) = f (header_of buf).
Proof. intros Hlen. unfold read_header. by rewrite within_bind. Qed.

Lemma copy_data_payload_eq `{PSA K} data n :
  copy_data_payload data n = mret (M:=M K)
    (if (length (d_payload data) =? 0)%nat then Ok None
     else if (n <? length (d_payload data))%nat then Err ENOMEM
     else Ok (Some (d_payload data))).
Proof.
  unfold copy_data_payload. case_if; [done|].
  destruct (Nat.ltb_spec n (length (d_payload data))); [done|]. by rewrite within_bind.
Qed.

(** Every frame that passes the length test fits the decryption buffer. *)
Lemma rx_dec_room n : (MESHTASTIC_PAYLOAD_MAX <? n)%nat = false → (n ≤ MT_WS_RX_DEC)%nat.
Proof. intros Hn%Nat.ltb_ge. unfold MT_WS_RX_DEC. lia. Qed.

(** Every payload within the limit fits the frame buffer behind the header. *)
Lemma wire_room n :
  (MESHTASTIC_PAYLOAD_MAX <? n)%nat = false → (MESHTASTIC_HDR_LEN + n ≤ MESHTASTIC_PKT_MAX)%nat.
Proof.
  intros Hn%Nat.ltb_ge. unfold MESHTASTIC_PAYLOAD_MAX, MESHTASTIC_PKT_MAX, MESHTASTIC_HDR_LEN in *. lia.
Qed.

(** ** The header *)

Lemma flags_hop_limit_range f : 0 ≤ flags_hop_limit f < 8.
Proof.
  unfold flags_hop_limit. change MESHTASTIC_FLAGS_HOP_LIMIT_MASK with (Z.ones 3).
  rewrite Z.land_ones by lia. by apply Z.mod_pos_bound.
Qed.
Lemma flags_hop_start_range f : 0 ≤ flags_hop_start f < 8.
Proof.
  unfold flags_hop_start. rewrite Z.shiftr_land.
  change (Z.shiftr MESHTASTIC_FLAGS_HOP_START_MASK MESHTASTIC_FLAGS_HOP_START_SHIFT) with (Z.ones 3).
  rewrite Z.land_ones by lia. by apply Z.mod_pos_bound.
Qed.
Lemma get_le32_range bs : bytes_ok bs → is_u32 (get_le32 bs).
Proof.
  unfold get_le32. intros Hok. destruct bs as [|b0 [|b1 [|b2 [|b3 bs]]]]; try (unfold is_u32; lia).
  do 4 (apply Forall_cons in Hok as [? Hok]). zmod.
Qed.

Definition header_ok (h : wire_header) : Prop :=
  is_u32 (h_dest h) ∧ is_u32 (h_src h) ∧ is_u32 (h_id h) ∧
  is_u8 (h_flags h) ∧ is_u8 (h_channel h) ∧ is_u8 (h_next_hop h) ∧ is_u8 (h_relay_node h).

Lemma header_bytes_length h : length (header_bytes h) = MESHTASTIC_HDR_LEN.
Proof. done. Qed.

Lemma header_of_bytes h rest : header_ok h → header_of (header_bytes h ++ rest) = h.
Proof.
  intros (Hd & Hs & Hi & _). unfold header_of, header_bytes.
  rewrite <-!app_assoc, get_le32_le32 by done.
  rewrite (drop_app_length' (le32 (h_dest h))) by done.
  rewrite get_le32_le32 by done. change 8%nat with (4 + 4)%nat. rewrite <-drop_drop.
  rewrite (drop_app_length' (le32 (h_dest h))) by done.
  rewrite (drop_app_length' (le32 (h_src h))) by done.
  rewrite get_le32_le32 by done. by destruct h.
Qed.

Lemma drop_header h rest : drop MESHTASTIC_HDR_LEN (header_bytes h ++ rest) = rest.
Proof. by apply drop_app_length'. Qed.

Lemma bytes_ok_header h : header_ok h → bytes_ok (header_bytes h).
Proof.
  intros (_ & _ & _ & ? & ? & ? & ?). unfold header_bytes.
  unfold bytes_ok. rewrite !Forall_app. split_and!; try apply bytes_ok_le32. by rewrite !Forall_cons.
Qed.

(** ** The flag byte

    Hop limit in bits 0-2, WANT_ACK and VIA_MQTT in bits 3 and 4, hop start in
    bits 5-7: four fields that do not disturb each other. *)
Lemma testbit_header_flags hl hs wa vm k :
  0 ≤ k →
  Z.testbit (header_flags hl hs wa vm) k =
    if k <? 3 then Z.testbit hl k
    else if k =? 3 then wa
    else if k =? 4 then vm
    else (k <? 8) && Z.testbit hs (k - 5).
Proof.
  intros Hk. unfold header_flags, MESHTASTIC_FLAGS_HOP_LIMIT_MASK,
    MESHTASTIC_FLAGS_HOP_START_SHIFT.
  set (base := Z.lor (Z.land hl 7) (Z.shiftl (Z.land hs 7) 5)).
  assert (Z.testbit base k =
    if k <? 3 then Z.testbit hl k else (5 <=? k) && (k <? 8) && Z.testbit hs (k - 5)) as Hb.
  { unfold base. change 7 with (Z.ones 3).
    rewrite Z.lor_spec, Z.land_spec, Z.shiftl_spec, Z.land_spec by done.
    destruct (Z.ltb_spec k 3).
    - rewrite Z.ones_spec_low by lia. rewrite (Z.testbit_neg_r hs (k - 5)) by lia.
      by rewrite andb_true_r, orb_false_r.
    - rewrite (Z.ones_spec_high 3 k), andb_false_r by lia. cbn [orb].
      destruct (Z.leb_spec 5 k); cbn [andb].
      + destruct (Z.ltb_spec k 8).
        * rewrite Z.ones_spec_low by lia. by rewrite andb_true_r.
        * by rewrite Z.ones_spec_high, andb_false_r by lia.
      + by rewrite Z.testbit_neg_r by lia. }
  assert (∀ n, 0 ≤ n → Z.testbit (BIT n) k = (k =? n)) as Hbit.
  { intros n Hn. unfold BIT. rewrite Z.shiftl_spec by lia.
    destruct (Z.eqb_spec k n) as [->|Hne]; [by rewrite Z.sub_diag|].
    destruct (decide (k < n)); [by rewrite Z.testbit_neg_r by lia|].
    by apply (testbit_above 1 1); lia. }
  unfold MESHTASTIC_FLAGS_WANT_ACK, MESHTASTIC_FLAGS_VIA_MQTT.
  destruct wa, vm; rewrite ?Z.lor_spec, ?Hbit, Hb by lia;
    destruct (Z.ltb_spec k 3), (Z.eqb_spec k 3), (Z.eqb_spec k 4), (Z.leb_spec 5 k); subst;
    rewrite ?orb_true_r, ?orb_false_r; try lia; done.
Qed.

Lemma header_flags_fields hl hs wa vm :
  flags_hop_limit (header_flags hl hs wa vm) = Z.land hl 7 ∧
  flags_hop_start (header_flags hl hs wa vm) = Z.land hs 7 ∧
  flags_want_ack (header_flags hl hs wa vm) = wa ∧
  flags_via_mqtt (header_flags hl hs wa vm) = vm.
Proof.
  assert (∀ n, 0 ≤ n → ∀ v, Z.land v (BIT n) = if Z.testbit v n then BIT n else 0) as Hsel.
  { intros n Hn v. apply Z.bits_inj'. intros k Hk. unfold BIT.
    rewrite Z.land_spec, Z.shiftl_spec by lia. destruct (Z.eq_dec k n) as [->|Hne].
    - rewrite Z.sub_diag. cbn [Z.testbit]. rewrite andb_true_r. destruct (Z.testbit v n).
      + by rewrite Z.shiftl_spec, Z.sub_diag by lia.
      + by rewrite Z.bits_0.
    - assert (Z.testbit 1 (k - n) = false) as Hz.
      { destruct (decide (k < n)); [by rewrite Z.testbit_neg_r by lia|].
        by apply (testbit_above 1 1); lia. }
      rewrite Hz, andb_false_r. destruct (Z.testbit v n); [|by rewrite Z.bits_0].
      by rewrite Z.shiftl_spec by lia. }
  split_and!.
  - apply Z.bits_inj'. intros k Hk. unfold flags_hop_limit, MESHTASTIC_FLAGS_HOP_LIMIT_MASK.
    rewrite !Z.land_spec, testbit_header_flags by done. change 7 with (Z.ones 3).
    destruct (Z.ltb_spec k 3); [done|]. by rewrite Z.ones_spec_high, !andb_false_r by lia.
  - apply Z.bits_inj'. intros k Hk.
    unfold flags_hop_start, MESHTASTIC_FLAGS_HOP_START_MASK, MESHTASTIC_FLAGS_HOP_START_SHIFT.
    rewrite Z.shiftr_spec, !Z.land_spec, testbit_header_flags, Z.shiftl_spec by lia.
    replace (k + 5 - 5) with k by lia. change 7 with (Z.ones 3).
    destruct (Z.ltb_spec (k + 5) 3), (Z.eqb_spec (k + 5) 3), (Z.eqb_spec (k + 5) 4); try lia.
    destruct (Z.ltb_spec (k + 5) 8); [done|]. by rewrite Z.ones_spec_high, !andb_false_r by lia.
  - unfold flags_want_ack, MESHTASTIC_FLAGS_WANT_ACK. rewrite Hsel by lia.
    rewrite testbit_header_flags by lia. by destruct wa.
  - unfold flags_via_mqtt, MESHTASTIC_FLAGS_VIA_MQTT. rewrite Hsel by lia.
    rewrite testbit_header_flags by lia. by destruct vm.
Qed.

Lemma header_flags_u8 hl hs wa vm : is_u8 (header_flags hl hs wa vm).
Proof.
  set (f := header_flags hl hs wa vm).
  assert (Z.land f (Z.ones 8) = f) as <-.
  { apply Z.bits_inj'. intros k Hk. rewrite Z.land_spec. unfold f.
    destruct (decide (k < 8)).
    - by rewrite Z.ones_spec_low, andb_true_r by lia.
    - rewrite Z.ones_spec_high, andb_false_r by lia. symmetry.
      rewrite testbit_header_flags by done.
      destruct (Z.ltb_spec k 3), (Z.eqb_spec k 3), (Z.eqb_spec k 4), (Z.ltb_spec k 8); lia || done. }
  rewrite Z.land_ones by lia. apply (Z.mod_pos_bound f (2 ^ 8)). lia.
Qed.

(** ** Encryption *)

Section crypto.
Context `{PSALaws K} `{PeerDirectory D} `{Pb Data}.

Definition ctr (key nonce input : list Z) : list Z :=
  xor_bytes input (ctr_stream key nonce (length input)).

Lemma ctr_length key nonce input : length (ctr key nonce input) = length input.
Proof. unfold ctr. apply xor_bytes_length. by rewrite ctr_stream_length. Qed.

Lemma ctr_involutive key nonce input : ctr key nonce (ctr key nonce input) = input.
Proof.
  unfold ctr at 1. rewrite ctr_length. unfold ctr. apply xor_bytes_involutive.
  by rewrite ctr_stream_length.
Qed.

Lemma ctr_ok key nonce input : bytes_ok input → bytes_ok (ctr key nonce input).
Proof. intros. apply xor_bytes_ok; [done|apply ctr_stream_bytes]. Qed.

(** Every path of [ctr_crypt] destroys the key it imported; an operation is
    left open only when [psa_cipher_finish] fails. *)
Definition ctr_post (key nonce input : list Z) (k : K) (r : result (list Z)) (k' : K) : Prop :=
  psa_keys k' = psa_keys k ∧
  (r = Ok (ctr key nonce input) ∧ psa_ops k' = psa_ops k ∨
   r = Err EIO ∧ psa_ops k ≤ psa_ops k' ≤ S (psa_ops k))%nat.

Lemma ctr_crypt_spec key nonce input k :
  wp (ctr_crypt key nonce input) (ctr_post key nonce input k) k.
Proof.
  unfold ctr_crypt, ctr_post. rewrite wp_bind, wp_state. pose proof (import_spec key k) as Hi.
  destruct (psa_import_key key k) as [[kid|] k1]; cbn [fst snd].
  2: { wps. destruct Hi as [-> ->]. split; [done|]. right. split; [done|lia]. }
  destruct Hi as (Hfresh & Hk1 & Ho1). rewrite !wp_bind, wp_state.
  assert (∀ r k2, psa_keys k2 = psa_keys k1 →
    (r = Ok (ctr key nonce input) ∧ psa_ops k2 = psa_ops k1 ∨
     r = Err EIO ∧ psa_ops k1 ≤ psa_ops k2 ≤ S (psa_ops k1))%nat →
    wp (modify (psa_destroy_key kid) ;; mret r) (ctr_post key nonce input k) k2) as Hend.
  { intros r k2 Hk2 Ho2. wps. unfold ctr_post. destruct (destroy_spec kid k2) as [-> ->].
    rewrite Hk2, Hk1, <-Ho1. split; [by apply delete_insert_id|done]. }
  pose proof (setup_spec kid k1) as Hs.
  destruct (psa_cipher_encrypt_setup kid k1) as [[op|] k2]; cbn [fst snd].
  2: { wps. destruct Hs as [Hk2 Ho2]. apply Hend; [done|]. right. split; [done|lia]. }
  destruct Hs as (Hkey & Hk2 & Ho2). rewrite !wp_bind, wp_state.
  pose proof (set_iv_spec op nonce k2) as Hv.
  destruct (psa_cipher_set_iv op nonce k2) as [[op'|] k3]; cbn [fst snd].
  2: { wps. destruct Hv as [Hk3 Ho3]. destruct (abort_spec op k3) as [Hk4 Ho4].
       apply Hend; [congruence|]. right. split; [done|lia]. }
  destruct Hv as (Hok & Hiv & Hk3 & Ho3). rewrite !wp_bind, wp_state.
  pose proof (update_spec op' input k3) as Hu.
  destruct (psa_cipher_update op' input k3) as [[[out op'']|] k4]; cbn [fst snd].
  2: { wps. destruct Hu as [Hk4 Ho4]. destruct (abort_spec op' k4) as [Hk5 Ho5].
       apply Hend; [congruence|]. right. split; [done|lia]. }
  destruct Hu as (-> & Hk4 & Ho4). rewrite !wp_bind, wp_state.
  pose proof (finish_spec op'' k4) as Hf.
  destruct (psa_cipher_finish op'' k4) as [[fin|] k5]; cbn [fst snd].
  - destruct Hf as (-> & Hk5 & Ho5). rewrite wp_ret. apply Hend; [congruence|]. left.
    split; [|lia]. rewrite app_nil_r, Hiv, Hok.
    rewrite Hk1, lookup_insert_eq in Hkey. by injection Hkey as <-.
  - destruct Hf as [Hk5 Ho5]. rewrite wp_ret. apply Hend; [congruence|]. right.
    split; [done|lia].
Qed.

Lemma ctr_crypt_no_err key nonce input k :
  PSATotal K → wp (ctr_crypt key nonce input) (λ r _, ∃ o, r = Ok o) k.
Proof.
  intros HT.
  unfold ctr_crypt. rewrite wp_bind, wp_state.
  pose proof (import_spec key k) as Hi. pose proof (import_total key k) as Ht.
  destruct (psa_import_key key k) as [[kid|] k1]; cbn [fst snd] in *; [|by destruct Ht].
  destruct Hi as (_ & Hk1 & _). rewrite !wp_bind, wp_state.
  pose proof (setup_spec kid k1) as Hs.
  assert (is_Some (psa_keys k1 !! kid)) as Hlive%setup_total.
  { rewrite Hk1, lookup_insert_eq. eauto. }
  destruct (psa_cipher_encrypt_setup kid k1) as [[op|] k2]; cbn [fst snd] in *;
    [|by destruct Hlive].
  rewrite !wp_bind, wp_state. pose proof (set_iv_total op nonce k2) as Hv.
  destruct (psa_cipher_set_iv op nonce k2) as [[op'|] k3]; cbn [fst snd] in *; [|by destruct Hv].
  rewrite !wp_bind, wp_state. pose proof (update_total op' input k3) as Hu.
  destruct (psa_cipher_update op' input k3) as [[[out op'']|] k4]; cbn [fst snd] in *;
    [|by destruct Hu].
  rewrite !wp_bind, wp_state. pose proof (finish_total op'' k4) as Hf.
  destruct (psa_cipher_finish op'' k4) as [[fin|] k5]; cbn [fst snd] in *; [|by destruct Hf].
  wps. eauto.
Qed.
(** With a crypto service that does not fail the result is the CTR stream. *)
Lemma ctr_crypt_total key nonce input k :
  PSATotal K →
  wp (ctr_crypt key nonce input)
    (λ r k', r = Ok (ctr key nonce input) ∧ psa_keys k' = psa_keys k) k.
Proof.
  intros HT. eapply wp_mono; [apply wp_and; [apply ctr_crypt_spec|by apply ctr_crypt_no_err]|].
  intros r k' [[Hk [[-> _]|[-> _]]] [o Ho]]; done.
Qed.
End crypto.

(** ** Receiving and sending *)

(** The slot the receive loop stops at for a packet announcing [hash]. *)
Definition first_slot (st : channels) (hash : Z) (ch : nat) : Prop :=
  (ch < 8)%nat ∧ slot_enabled st (Z.of_nat ch) = true ∧
  meshtastic_channels_get_hash st (Z.of_nat ch) = hash ∧
  ∀ j, (j < ch)%nat → slot_enabled st (Z.of_nat j) = true →
    meshtastic_channels_get_hash st (Z.of_nat j) ≠ hash.

(** What nanopb guarantees of the Data message. *)
Class PbData `{Pb Data} := {
  pb_data_laws :: PbLaws Data Data_ok;
  pb_data_nil d : pb_decode [] = Some d → d = Data_zero
}.

Section wire_lemmas.
Context `{PSALaws K} `{PeerDirectory D} `{Pb Data}.
Implicit Types st : channels.

Definition encrypt (key : channel_key) (id from : Z) (bs : list Z) : list Z :=
  if (k_len key =? 0)%nat then bs
  else ctr (take (k_len key) (k_bytes key)) (packet_nonce id from) bs.

Lemma encrypt_involutive key id from bs : encrypt key id from (encrypt key id from bs) = bs.
Proof. unfold encrypt. case_if; [done|]. apply ctr_involutive. Qed.
Lemma encrypt_length key id from bs : length (encrypt key id from bs) = length bs.
Proof. unfold encrypt. case_if; [done|]. apply ctr_length. Qed.
Lemma encrypt_ok key id from bs : bytes_ok bs → bytes_ok (encrypt key id from bs).
Proof. unfold encrypt. case_if; [done|]. apply ctr_ok. Qed.

Lemma decrypt_keys from id enc key k :
  wp (decrypt_mesh_encrypted_key from id enc key)
    (λ r k', psa_keys k' = psa_keys k ∧ ∀ d, r = Ok d → d_portnum d ≠ 0) k.
Proof.
  unfold decrypt_mesh_encrypted_key. case_if; [by wps|]. case_if; [by wps|].
  case_if; [by wps|]. rewrite within_bind by by apply rx_dec_room. rewrite wp_bind.
  assert (wp (if (k_len key =? 0)%nat then mret (Ok enc)
              else ctr_crypt (take (k_len key) (k_bytes key)) (packet_nonce id from) enc)
            (λ _ k', psa_keys k' = psa_keys k) k) as Hc.
  { case_if; [by wps|]. eapply wp_mono; [apply ctr_crypt_spec|]. by intros r k' [? _]. }
  eapply wp_mono; [exact Hc|]. intros [dec|e] k' Hk; [|by wps].
  destruct (pb_decode dec) as [d|]; [|by wps].
  unfold PortNum_UNKNOWN_APP. destruct (Z.eqb_spec (d_portnum d) 0); wps; [done|].
  split; [done|]. by intros ? [= <-].
Qed.

Lemma decrypt_encrypt from id key d bs k n :
  PSATotal K → PbData → (k_len key = 0 ∨ k_len key = 16 ∨ k_len key = 32)%nat →
  Data_ok d → d_portnum d ≠ 0 → (n ≤ MESHTASTIC_PAYLOAD_MAX)%nat → pb_encode n d = Some bs →
  wp (decrypt_mesh_encrypted_key from id (encrypt key id from bs) key)
    (λ r k', r = Ok d ∧ psa_keys k' = psa_keys k) k.
Proof.
  intros HT HP Hlen Hd Hport Hn Henc.
  pose proof (pb_decode_encode n d bs Hd Henc) as Hdec.
  pose proof (pb_encode_length n d bs Henc) as Hbl.
  unfold decrypt_mesh_encrypted_key. rewrite encrypt_length.
  destruct (Nat.eqb_spec (length bs) 0) as [Hnil|_].
  { apply nil_length_inv in Hnil. subst bs. apply pb_data_nil in Hdec. by subst d. }
  rewrite (proj2 (Nat.ltb_ge _ _)) by lia.
  assert (negb (k_len key =? 0)%nat && negb (k_len key =? 16)%nat
          && negb (k_len key =? 32)%nat = false) as ->.
  { by destruct Hlen as [->|[->| ->]]. }
  rewrite within_bind by (apply rx_dec_room, Nat.ltb_ge; lia). rewrite wp_bind.
  assert (wp (if (k_len key =? 0)%nat then mret (Ok (encrypt key id from bs))
              else ctr_crypt (take (k_len key) (k_bytes key)) (packet_nonce id from)
                     (encrypt key id from bs))
            (λ r k', r = Ok bs ∧ psa_keys k' = psa_keys k) k) as Hc.
  { pose proof (encrypt_involutive key id from bs) as Hinv. unfold encrypt in *.
    case_if; [by wps|]. eapply wp_mono; [by apply ctr_crypt_total|].
    intros r k' [-> Hk]. by rewrite Hinv. }
  eapply wp_mono; [exact Hc|]. intros r k' [-> Hk]. rewrite Hdec.
  unfold PortNum_UNKNOWN_APP. rewrite (proj2 (Z.eqb_neq _ _)) by done. by wps.
Qed.

Lemma slot_lookup st i :
  chan_base st → (i < 8)%nat →
  ∃ c, channel_slots st !! i = Some c ∧ meshtastic_channels_get st (Z.of_nat i) = Some c ∧
    slot_enabled st (Z.of_nat i) = negb (c_role c =? Role_DISABLED).
Proof.
  intros Hb Hi. destruct (lookup_lt_is_Some_2 (channel_slots st) i) as [c Hc].
  { by rewrite base_slots. }
  exists c. unfold meshtastic_channels_get, slot_enabled, MESHTASTIC_MAX_CHANNELS.
  rewrite (proj2 (Z.leb_gt _ _)), Nat2Z.id, Hc by lia. done.
Qed.

Lemma get_hash_match st i h :
  (i < 8)%nat →
  meshtastic_channels_decrypt_for_hash st (Z.of_nat i) h =
    (meshtastic_channels_get_hash st (Z.of_nat i) =? h).
Proof.
  intros Hi. unfold meshtastic_channels_decrypt_for_hash, meshtastic_channels_get_hash,
    MESHTASTIC_MAX_CHANNELS. by rewrite (proj2 (Z.leb_gt _ _)) by lia.
Qed.

Lemma get_hash_u8 st i : chan_base st → is_u8 (meshtastic_channels_get_hash st i).
Proof.
  intros Hb. unfold meshtastic_channels_get_hash. case_if; [zmod|].
  destruct (channel_hashes st !! Z.to_nat i) eqn:Eh; [|cbn; zmod]. cbn.
  eapply Forall_lookup_1; [by apply base_hash_u8|done].
Qed.

(** Whatever the frame, the search returns, keeps the key store, and
    accepts only on an enabled slot announcing the packet's hash. *)
Lemma try_slots_safe st slots h from id enc k :
  chan_base st → Forall (λ i, (i < 8)%nat) slots →
  wp (try_decrypt_slots st (Z.of_nat <$> slots) h from id enc)
    (λ r k', psa_keys k' = psa_keys k ∧
       (r = Err EBADMSG ∨
        ∃ d i, r = Ok (d, Z.of_nat i) ∧ (i < 8)%nat ∧ d_portnum d ≠ 0 ∧
          slot_enabled st (Z.of_nat i) = true ∧
          meshtastic_channels_get_hash st (Z.of_nat i) = h)) k.
Proof.
  intros Hb Hs. revert k. induction Hs as [|i slots Hi Hs IH]; intros k; cbn [fmap list_fmap try_decrypt_slots app].
  { wps. eauto. }
  destruct (slot_lookup st i Hb Hi) as (c & Hc & -> & Hen).
  destruct (c_role c =? Role_DISABLED); [apply IH|].
  rewrite get_hash_match by done.
  destruct (Z.eqb_spec (meshtastic_channels_get_hash st (Z.of_nat i)) h) as [Hh|Hh];
    cbn [negb]; [|apply IH].
  destruct (get_key_fuel 2 st i Hb Hi) as (ow & _ & Hk); [done|].
  unfold meshtastic_channels_get_key, channel_get_key. rewrite Hk.
  destruct (own_key ow) as [key|e]; [|apply IH]. rewrite wp_bind.
  eapply wp_mono; [apply decrypt_keys|]. intros [d|e] k' [Hk' Hd].
  - wps. split; [done|]. right. exists d, i. auto 10.
  - rewrite <-Hk'. apply IH.
Qed.

Lemma try_slots_first st pre i post h from id enc d key k :
  chan_base st → Forall (λ j, (j < 8)%nat) pre → (i < 8)%nat →
  Forall (λ j, slot_enabled st (Z.of_nat j) = true →
    meshtastic_channels_get_hash st (Z.of_nat j) ≠ h) pre →
  slot_enabled st (Z.of_nat i) = true →
  meshtastic_channels_get_hash st (Z.of_nat i) = h →
  meshtastic_channels_get_key st (Z.of_nat i) = Some (Ok key) →
  wp (decrypt_mesh_encrypted_key from id enc key)
    (λ r k', r = Ok d ∧ psa_keys k' = psa_keys k) k →
  wp (try_decrypt_slots st (Z.of_nat <$> (pre ++ i :: post)) h from id enc)
    (λ r k', r = Ok (d, Z.of_nat i) ∧ psa_keys k' = psa_keys k) k.
Proof.
  intros Hb Hpre Hi Hskip Hen Hh Hkey Hdec.
  induction pre as [|j pre IH]; cbn [fmap list_fmap try_decrypt_slots app].
  - destruct (slot_lookup st i Hb Hi) as (c & _ & -> & Hen'). rewrite Hen in Hen'.
    destruct (c_role c =? Role_DISABLED); [done|].
    rewrite get_hash_match, Hh, Z.eqb_refl by done. cbn [negb]. rewrite Hkey, wp_bind.
    eapply wp_mono; [exact Hdec|]. intros r k' [-> Hk']. by wps.
  - apply Forall_cons in Hpre as [Hj Hpre]. apply Forall_cons in Hskip as [Hsj Hskip].
    destruct (slot_lookup st j Hb Hj) as (c & _ & -> & Hen'). rewrite Hen' in Hsj.
    destruct (c_role c =? Role_DISABLED); [by apply IH|].
    rewrite get_hash_match by done.
    rewrite (proj2 (Z.eqb_neq _ _)) by by apply Hsj. cbn [negb]. by apply IH.
Qed.

Lemma try_decrypt_first st ch h from id enc d key k :
  chan_base st → first_slot st h ch →
  meshtastic_channels_get_key st (Z.of_nat ch) = Some (Ok key) →
  wp (decrypt_mesh_encrypted_key from id enc key)
    (λ r k', r = Ok d ∧ psa_keys k' = psa_keys k) k →
  wp (try_decrypt_wire_hash st h from id enc)
    (λ r k', r = Ok (d, Z.of_nat ch) ∧ psa_keys k' = psa_keys k) k.
Proof.
  intros Hb (Hch & Hen & Hh & Hfirst) Hkey Hdec. unfold try_decrypt_wire_hash.
  change channel_indices with (Z.of_nat <$> seq 0 8).
  assert (seq 0 8 = seq 0 ch ++ ch :: seq (S ch) (7 - ch)) as ->.
  { change (ch :: seq (S ch) (7 - ch)) with (seq (0 + ch) (S (7 - ch))).
    rewrite <-seq_app. f_equal. lia. }
  apply (try_slots_first _ _ _ _ _ _ _ _ _ key); try done.
  - apply Forall_forall. intros j Hj%elem_of_seq. lia.
  - apply Forall_forall. intros j Hj%elem_of_seq. apply Hfirst. lia.
Qed.
End wire_lemmas.

(** ** Properties *)

Section properties.
Context `{PSALaws K} `{PeerDirectory D} `{Pb Data}.
Implicit Types st : channels.

(** What the receiver of [p] on slot [ch] with wire hash [hash] sees: hop
    counts modulo 8, an empty payload as NULL. *)
Definition received (p : packet) (hash ch rssi snr : Z) : packet :=
  mk_packet (p_from p) (p_to p) (p_id p) (p_portnum p)
    (if (length (payload_bytes p) =? 0)%nat then None else Some (payload_bytes p))
    (length (payload_bytes p))
    (p_data_dest p) (p_data_source p) (p_request_id p) (p_reply_id p)
    (Z.land (p_hop_limit p) 7) (Z.land (p_hop_start p) 7) hash ch
    (p_next_hop p) (p_relay_node p) (p_want_ack p) (p_via_mqtt p) (p_want_response p)
    rssi snr.

Definition wire_packet_ok (p : packet) : Prop :=
  packet_ok p ∧ payload_invalid p = false ∧ is_u32 (p_portnum p) ∧ p_portnum p ≠ 0 ∧
  is_u32 (p_data_dest p) ∧ is_u32 (p_data_source p) ∧ is_u32 (p_request_id p) ∧
  is_u32 (p_reply_id p).

Lemma payload_bytes_ok p :
  packet_ok p → payload_invalid p = false →
  (length (payload_bytes p) ≤ MESHTASTIC_MAX_PAYLOAD_LEN)%nat ∧ bytes_ok (payload_bytes p).
Proof.
  intros (_ & _ & _ & _ & _ & _ & _ & _ & _ & Hpl) Hinv.
  unfold payload_invalid in Hinv. apply orb_false_iff in Hinv as [_ Hlen].
  apply Nat.ltb_ge in Hlen. unfold payload_bytes. rewrite length_take. split; [lia|].
  destruct (p_payload p) as [bs|]; cbn; [|rewrite take_nil; constructor].
  apply Forall_take, Hpl. done.
Qed.

Lemma packet_data_ok p : wire_packet_ok p → Data_ok (packet_data p).
Proof.
  intros (Hok & Hinv & Hp & _ & Hd & Hs & Hr & Hy).
  destruct (payload_bytes_ok p Hok Hinv). unfold Data_ok, packet_data; cbn. done.
Qed.

(** The header the builder writes. *)
Definition header_for (p : packet) (hash : Z) : wire_header :=
  mk_header (p_to p) (p_from p) (p_id p)
    (header_flags (p_hop_limit p) (p_hop_start p) (p_want_ack p) (p_via_mqtt p))
    hash (p_next_hop p) (p_relay_node p).

Lemma header_for_ok p hash : packet_ok p → is_u8 hash → header_ok (header_for p hash).
Proof.
  intros (? & ? & ? & ? & ? & ? & ? & ? & ? & _) Hh.
  unfold header_ok, header_for; cbn. split_and!; try done. apply header_flags_u8.
Qed.

Lemma build_spec (db : D) st p key bs k :
  PSATotal K → payload_invalid p = false →
  let i := meshtastic_channels_resolve_send_index db st (p_to p) (p_channel_index p)
             (p_channel p) in
  meshtastic_channels_get_key st i = Some (Ok key) →
  pb_encode MESHTASTIC_PAYLOAD_MAX (packet_data p) = Some bs →
  wp (meshtastic_build_wire_packet db st p)
    (λ r k', r = Ok (header_bytes (header_for p (meshtastic_channels_get_hash st i))
                       ++ encrypt key (p_id p) (p_from p) bs) ∧
             psa_keys k' = psa_keys k) k.
Proof.
  intros HT Hinv i Hkey Henc. unfold meshtastic_build_wire_packet, encode_packet_data.
  rewrite Hinv, Henc. fold i. rewrite Hkey, wp_bind. unfold encrypt.
  destruct (k_len key =? 0)%nat.
  - by wps.
  - eapply wp_mono; [by apply ctr_crypt_total|]. intros r k' [-> Hk]. by wps.
Qed.

Lemma decode_built (db : D) st p0 p ch hash key d bs rssi snr k :
  PSATotal K → PbData → chan_wf st → wire_packet_ok p → is_u8 hash →
  d = packet_data p → pb_encode MESHTASTIC_PAYLOAD_MAX d = Some bs →
  first_slot st hash ch → meshtastic_channels_get_key st (Z.of_nat ch) = Some (Ok key) →
  meshtastic_decode_known_only db st (p_from p) = true →
  wp (meshtastic_try_decode_wire_packet db st p0
        (Some (header_bytes (header_for p hash) ++ encrypt key (p_id p) (p_from p) bs))
        rssi snr MESHTASTIC_MAX_PAYLOAD_LEN)
    (λ r k', r = Ok (received p hash (Z.of_nat ch) rssi snr, true) ∧
             psa_keys k' = psa_keys k) k.
Proof.
  intros HT HP Hwf Hp Hh -> Henc Hfirst Hkey Hknown.
  pose proof Hp as (Hok & Hinv & Hport & Hnz & _).
  destruct (payload_bytes_ok p Hok Hinv) as [Hpl _].
  pose proof (wf_base _ Hwf) as Hb.
  unfold meshtastic_try_decode_wire_packet.
  rewrite length_app, header_bytes_length, (proj2 (Nat.ltb_ge _ _)) by lia.
  rewrite read_header_bind by (rewrite length_app, header_bytes_length; lia).
  rewrite header_of_bytes by by apply header_for_ok. rewrite drop_header.
  set (pk := fill_packet_from_header _ _ _ _).
  change (p_from (pk <| p_payload := None |> <| p_payload_len := 0%nat |>)) with (p_from p).
  change (p_id (pk <| p_payload := None |> <| p_payload_len := 0%nat |>)) with (p_id p).
  rewrite Hknown. cbn [negb]. change (h_channel (header_for p hash)) with hash.
  destruct (get_key_fuel 2 st ch Hb (proj1 Hfirst)) as (ow & How & Hgk); [done|].
  assert (own_key ow = Ok key) as Hown.
  { unfold meshtastic_channels_get_key, channel_get_key in Hkey. congruence. }
  destruct (own_key_length ow key) as [_ Hlen].
  { eapply Forall_lookup_1; [apply Hb|done]. }
  { done. }
  rewrite wp_bind. eapply wp_mono.
  { apply (try_decrypt_first st ch hash _ _ _ (packet_data p) key); try done.
    eapply decrypt_encrypt; try done. by apply packet_data_ok. }
  intros r k' [-> Hk']. cbn beta iota.
  rewrite copy_data_payload_eq. change (d_payload (packet_data p)) with (payload_bytes p).
  rewrite (proj2 (Nat.ltb_ge _ _)) by done.
  destruct (header_flags_fields (p_hop_limit p) (p_hop_start p) (p_want_ack p) (p_via_mqtt p))
    as (E1 & E2 & E3 & E4).
  assert (∀ pl, wp (S := K) (mret (Ok
    (pk <| p_payload := None |> <| p_payload_len := 0%nat |>
        <| p_portnum := p_portnum p |> <| p_payload := pl |>
        <| p_payload_len := length (payload_bytes p) |>
        <| p_data_dest := p_data_dest p |> <| p_data_source := p_data_source p |>
        <| p_request_id := p_request_id p |> <| p_reply_id := p_reply_id p |>
        <| p_want_response := p_want_response p |>
        <| p_channel_index := Z.of_nat ch |>, true)))
    (λ r k', r = Ok ((received p hash (Z.of_nat ch) rssi snr) <| p_payload := pl |>, true) ∧
             psa_keys k' = psa_keys k) k') as Hend.
  { intros pl. wps. split; [|done]. do 2 f_equal. unfold received, pk, fill_packet_from_header.
    change (h_flags (header_for p hash)) with
      (header_flags (p_hop_limit p) (p_hop_start p) (p_want_ack p) (p_via_mqtt p)).
    rewrite E1, E2, E3, E4. by destruct p0. }
  destruct (length (payload_bytes p) =? 0)%nat eqn:El; (eapply wp_mono; [apply Hend|]);
    intros r k2 [-> Hk2]; (split; [|done]); unfold received; rewrite El; reflexivity.
Qed.

(** C34: a packet built by the sender is decoded by any receiver that has the
    sender's key on the first enabled slot announcing the packet's hash:
    every field of the header and of the payload arrives, the hop counts
    modulo 8, and neither side leaves a key in its crypto service.  The
    frame fits the 255-byte radio buffer. *)
Theorem wire_roundtrip (db db' : D) st st' p p0 ch key bs rssi snr k :
  PSATotal K → PbData → chan_wf st → chan_wf st' → wire_packet_ok p →
  let i := meshtastic_channels_resolve_send_index db st (p_to p) (p_channel_index p)
             (p_channel p) in
  let hash := meshtastic_channels_get_hash st i in
  meshtastic_channels_get_key st i = Some (Ok key) →
  meshtastic_channels_get_key st' (Z.of_nat ch) = Some (Ok key) →
  first_slot st' hash ch →
  pb_encode MESHTASTIC_PAYLOAD_MAX (packet_data p) = Some bs →
  meshtastic_decode_known_only db' st' (p_from p) = true →
  wp (meshtastic_build_wire_packet db st p)
    (λ r k1, psa_keys k1 = psa_keys k ∧
       ∃ wire, r = Ok wire ∧ (length wire ≤ MESHTASTIC_PKT_MAX)%nat ∧ bytes_ok wire ∧
       ∀ kr, wp (meshtastic_try_decode_wire_packet db' st' p0 (Some wire) rssi snr
                   MESHTASTIC_MAX_PAYLOAD_LEN)
         (λ r' kr', r' = Ok (received p hash (Z.of_nat ch) rssi snr, true) ∧
                    psa_keys kr' = psa_keys kr) kr) k.
Proof.
  intros HT HP Hwf Hwf' Hp i hash Hkey Hkey' Hfirst Henc Hknown.
  assert (is_u8 hash) as Hh by (apply get_hash_u8, Hwf).
  pose proof Hp as (Hok & Hinv & _).
  eapply wp_mono; [by eapply build_spec|]. cbn zeta. fold i. fold hash.
  intros r k1 [-> Hk1]. split; [done|]. eexists. split; [done|].
  pose proof (pb_encode_length _ _ _ Henc) as Hl. split_and!.
  - rewrite length_app, header_bytes_length, encrypt_length.
    unfold MESHTASTIC_PAYLOAD_MAX, MESHTASTIC_PKT_MAX, MESHTASTIC_HDR_LEN in *. lia.
  - apply Forall_app. split; [by apply bytes_ok_header, header_for_ok|].
    apply encrypt_ok. by eapply pb_encode_bytes.
  - intros kr. by eapply decode_built.
Qed.

(** Decoding any byte string whatever, on a well-formed table, returns
    without undefined behaviour and leaves the key store as it was.  A frame
    shorter than the header is refused; otherwise sender, destination and
    identifier are the header's, and a packet reported as decoded has a
    known port, a payload within the caller's buffer, and the index of an
    enabled slot that announces the frame's hash. *)
Theorem try_decode_safe (db : D) st p0 buf rssi snr payload_len k :
  chan_wf st →
  wp (meshtastic_try_decode_wire_packet db st p0 (Some buf) rssi snr payload_len)
    (λ r k', psa_keys k' = psa_keys k ∧
       match r with
       | Err e => (length buf < MESHTASTIC_HDR_LEN)%nat ∧ e = EINVAL ∨ e = ENOMEM
       | Ok (p, decoded) =>
           p_from p = h_src (header_of buf) ∧ p_to p = h_dest (header_of buf) ∧
           p_id p = h_id (header_of buf) ∧
           p_hop_limit p = flags_hop_limit (h_flags (header_of buf)) ∧
           p_hop_start p = flags_hop_start (h_flags (header_of buf)) ∧
           p_want_ack p = flags_want_ack (h_flags (header_of buf)) ∧
           if decoded then
             p_portnum p ≠ 0 ∧ (p_payload_len p ≤ payload_len)%nat ∧
             0 ≤ p_channel_index p < 8 ∧ slot_enabled st (p_channel_index p) = true ∧
             meshtastic_channels_get_hash st (p_channel_index p) = h_channel (header_of buf)
           else p_payload p = None ∧ p_channel_index p = MESHTASTIC_CHANNEL_INDEX_INVALID
       end) k.
Proof.
  intros [Hb _ _]. unfold meshtastic_try_decode_wire_packet.
  destruct (Nat.ltb_spec (length buf) MESHTASTIC_HDR_LEN); [wps; auto|].
  rewrite read_header_bind by done. set (pk := fill_packet_from_header _ _ _ _).
  case_if; [by wps|]. rewrite wp_bind. unfold try_decrypt_wire_hash.
  change channel_indices with (Z.of_nat <$> seq 0 8).
  eapply wp_mono; [apply try_slots_safe; [done|]|].
  { apply Forall_forall. intros j Hj%elem_of_seq. lia. }
  intros r k' [Hk [->|(d & i & -> & Hi & Hport & Hen & Hh)]]; [by wps|].
  rewrite copy_data_payload_eq.
  destruct (Nat.eqb_spec (length (d_payload d)) 0) as [El|El].
  - wps. split; [done|]. split_and!; try done; rgoal; lia.
  - destruct (Nat.ltb_spec payload_len (length (d_payload d))); wps; [auto|].
    split; [done|]. split_and!; try done; rgoal; lia.
Qed.

(** one encryption imports one key and destroys it again on every path,
    errors included, and on success its result is the AES-CTR stream of the
    PSA interface, of the length of its input. *)
Theorem ctr_crypt_no_key_leak key nonce input k :
  wp (ctr_crypt key nonce input)
    (λ r k', psa_keys k' = psa_keys k ∧
       (r = Ok (ctr key nonce input) ∧ length (ctr key nonce input) = length input ∧
        psa_ops k' = psa_ops k
        ∨ r = Err EIO)) k.
Proof.
  eapply wp_mono; [apply ctr_crypt_spec|]. intros r k' [Hk [[-> Ho]|[-> _]]].
  - split; [done|]. left. by rewrite ctr_length.
  - split; [done|]. by right.
Qed.

(** an identifier and a sender that differ give different CTR nonces:
    as long as packet identifiers are not reused, neither is a keystream. *)
Theorem packet_nonce_inj id from id' from' :
  is_u32 id → is_u32 from → is_u32 id' → is_u32 from' →
  packet_nonce id from = packet_nonce id' from' → id = id' ∧ from = from'.
Proof.
  intros Hid Hfrom Hid' Hfrom' E. unfold packet_nonce in E.
  apply app_inj_1 in E as [E1 E]; [|done]. apply app_inj_1 in E as [_ E]; [|done].
  apply app_inj_1 in E as [E2 _]; [|done].
  rewrite <-(get_le32_le32 id []), <-(get_le32_le32 id' []) by done.
  rewrite <-(get_le32_le32 from []), <-(get_le32_le32 from' []) by done.
  by rewrite E1, E2.
Qed.
End properties.

(** ** Witnesses *)

#[export] Instance toy_pb_data : PbData.
Proof. constructor; [apply _|]. by intros d. Qed.

Definition toy_psa_empty : toy_psa := mk_toy_psa ∅ 0.

(** A text message from node 7 to node 9 that asks for an acknowledgement. *)
Definition ping : packet :=
  packet_zero <| p_from := 7 |> <| p_to := 9 |> <| p_id := 1001 |> <| p_portnum := 1 |>
    <| p_payload := Some [112; 105; 110; 103] |> <| p_payload_len := 4%nat |>
    <| p_hop_limit := 3 |> <| p_hop_start := 3 |> <| p_want_ack := true |>.

Lemma ping_ok : wire_packet_ok ping.
Proof.
  split; [|split_and!; done]. unfold packet_ok, ping; rgoal. split_and!; try done.
  intros bs [= <-]. split; [cbn; lia|]. apply (bool_decide_unpack _). by vm_compute.
Qed.

Definition longfast_key : channel_key := mk_key (pad32 meshtastic_default_psk) 16.

Definition ping_hash : Z := meshtastic_channels_get_hash default_table
  (meshtastic_channels_resolve_send_index () default_table (p_to ping) (p_channel_index ping)
     (p_channel ping)).

Lemma wire_roundtrip_witness :
  ping_hash = 8 ∧
  wp (meshtastic_build_wire_packet () default_table ping)
    (λ r k1, psa_keys k1 = psa_keys toy_psa_empty ∧
       ∃ wire, r = Ok wire ∧ (length wire ≤ MESHTASTIC_PKT_MAX)%nat ∧ bytes_ok wire ∧
       ∀ kr, wp (meshtastic_try_decode_wire_packet () default_table packet_zero (Some wire)
                   (-40) 7 MESHTASTIC_MAX_PAYLOAD_LEN)
         (λ r' kr', r' = Ok (received ping ping_hash (Z.of_nat 0) (-40) 7, true) ∧
                    psa_keys kr' = psa_keys kr) kr)
    toy_psa_empty.
Proof.
  split; [done|].
  apply (wire_roundtrip () () default_table default_table ping packet_zero 0 longfast_key
    (toy_Data (packet_data ping)) (-40) 7 toy_psa_empty);
    [apply _|apply _|apply default_table_wf|apply default_table_wf|apply ping_ok|done|done|
     |done|done].
  split_and!; [lia|done|done|]. intros j Hj. lia.
Defined.

Lemma try_decode_safe_witness :
  wp (meshtastic_try_decode_wire_packet () default_table packet_zero (Some [1; 2; 3]) 0 0 233)
    (λ r k', psa_keys k' = psa_keys toy_psa_empty ∧
       match r with
       | Err e => (3 < MESHTASTIC_HDR_LEN)%nat ∧ e = EINVAL ∨ e = ENOMEM
       | Ok (p, decoded) =>
           p_from p = h_src (header_of [1; 2; 3]) ∧ p_to p = h_dest (header_of [1; 2; 3]) ∧
           p_id p = h_id (header_of [1; 2; 3]) ∧
           if decoded then
             p_portnum p ≠ 0 ∧ (p_payload_len p ≤ 233)%nat ∧
             0 ≤ p_channel_index p < 8 ∧ slot_enabled default_table (p_channel_index p) = true ∧
             meshtastic_channels_get_hash default_table (p_channel_index p) =
               h_channel (header_of [1; 2; 3])
           else p_payload p = None ∧ p_channel_index p = MESHTASTIC_CHANNEL_INDEX_INVALID
       end) toy_psa_empty.
Proof.
  apply (try_decode_safe () default_table packet_zero [1; 2; 3] 0 0 233 toy_psa_empty
    default_table_wf).
Defined.

Lemma packet_nonce_inj_witness : 5 = 5 ∧ 6 = 6.
Proof. apply (packet_nonce_inj 5 6 5 6); try done. Defined.
