(* ===== verification/Store.v ===== *)
(** * Configuration store (src/meshtastic_config_store.c): data and records

    The persistent mirror of the owner, the channels, the configs and the
    module configs, the validity checks, and the settings records they are
    saved as.  Pushing the store into the running stack
    ([meshtastic_config_store_apply_core] and the setters that call it) is in
    StoreApply.v. *)

From Stdlib Require Import SpecFloat.
From S2P Require Import Prelude Types External Mock Channels NodeDB.

(** ** The protobuf configuration messages

    The fields the stack reads or writes; [rest] stands for the remaining
    fields of a message, which are only copied. *)

Record DeviceConfig := mk_DeviceConfig {
  dev_role : Z; dev_rebroadcast_mode : Z; dev_serial_enabled : bool; dev_rest : list Z
}.
#[export] Instance DeviceConfig_set : Settable DeviceConfig := λ x,
  mk_DeviceConfig (dev_role x) (dev_rebroadcast_mode x) (dev_serial_enabled x) (dev_rest x).
Definition DeviceConfig_zero : DeviceConfig := mk_DeviceConfig 0 0 false [].

Record LoRaConfig := mk_LoRaConfig {
  lora_use_preset : bool; lora_modem_preset : Z; lora_region : Z; lora_hop_limit : Z;
  lora_tx_enabled : bool; lora_tx_power : Z; lora_override_frequency : spec_float;
  lora_rest : list Z
}.
#[export] Instance LoRaConfig_set : Settable LoRaConfig := λ x,
  mk_LoRaConfig (lora_use_preset x) (lora_modem_preset x) (lora_region x) (lora_hop_limit x)
    (lora_tx_enabled x) (lora_tx_power x) (lora_override_frequency x) (lora_rest x).
Definition LoRaConfig_zero : LoRaConfig := mk_LoRaConfig false 0 0 0 false 0 (S754_zero false) [].

Record BluetoothConfig := mk_BluetoothConfig {
  bt_enabled : bool; bt_mode : Z; bt_fixed_pin : Z
}.
Definition BluetoothConfig_zero : BluetoothConfig := mk_BluetoothConfig false 0 0.

(** [meshtastic_Config]: the variant and its tag.  [CFG_other] is any tag but
    those of the variants above it. *)
Inductive Config :=
  | CFG_device (c : DeviceConfig)
  | CFG_position (gps_mode : Z) (rest : list Z)
  | CFG_lora (c : LoRaConfig)
  | CFG_bluetooth (c : BluetoothConfig)
  | CFG_other (tag : Z) (rest : list Z).

Definition Config_device_tag : Z := 1.
Definition Config_position_tag : Z := 2.
Definition Config_lora_tag : Z := 6.
Definition Config_bluetooth_tag : Z := 7.
Definition Config_device_ui_tag : Z := 10.

Definition config_tag (c : Config) : Z :=
  match c with
  | CFG_device _ => Config_device_tag
  | CFG_position _ _ => Config_position_tag
  | CFG_lora _ => Config_lora_tag
  | CFG_bluetooth _ => Config_bluetooth_tag
  | CFG_other tag _ => tag
  end.

(** [meshtastic_ModuleConfig_MapReportSettings] and [_MQTTConfig]; the [has_]
    flag of the settings is the [option]. *)
Record MapReportSettings := mk_MapReportSettings {
  mrs_publish_interval_secs : Z; mrs_position_precision : Z; mrs_should_report_location : bool
}.
Record MQTTConfig := mk_MQTTConfig {
  mqc_enabled : bool; mqc_address : string; mqc_username : string; mqc_password : string;
  mqc_encryption_enabled : bool; mqc_json_enabled : bool; mqc_tls_enabled : bool;
  mqc_root : string; mqc_proxy_to_client_enabled : bool; mqc_map_reporting_enabled : bool;
  mqc_map_report_settings : option MapReportSettings
}.
#[export] Instance MQTTConfig_set : Settable MQTTConfig := λ x,
  mk_MQTTConfig (mqc_enabled x) (mqc_address x) (mqc_username x) (mqc_password x)
    (mqc_encryption_enabled x) (mqc_json_enabled x) (mqc_tls_enabled x) (mqc_root x)
    (mqc_proxy_to_client_enabled x) (mqc_map_reporting_enabled x) (mqc_map_report_settings x).
Definition MQTTConfig_zero : MQTTConfig :=
  mk_MQTTConfig false "" "" "" false false false "" false false None.

(** [meshtastic_ModuleConfig]: of its variants the stack only fills MQTT's. *)
Inductive ModuleConfig :=
  | MOD_mqtt (c : MQTTConfig)
  | MOD_other (tag : Z) (rest : list Z).
Definition ModuleConfig_mqtt_tag : Z := 1.
Definition module_tag (m : ModuleConfig) : Z :=
  match m with MOD_mqtt _ => ModuleConfig_mqtt_tag | MOD_other tag _ => tag end.

(** [*_init_zero] with [which_payload_variant] set. *)
Definition config_zero (tag : Z) : Config :=
  if tag =? Config_device_tag then CFG_device DeviceConfig_zero
  else if tag =? Config_position_tag then CFG_position 0 []
  else if tag =? Config_lora_tag then CFG_lora LoRaConfig_zero
  else if tag =? Config_bluetooth_tag then CFG_bluetooth BluetoothConfig_zero
  else CFG_other tag [].
Definition module_zero (tag : Z) : ModuleConfig :=
  if tag =? ModuleConfig_mqtt_tag then MOD_mqtt MQTTConfig_zero else MOD_other tag [].

(** ** The store *)

Definition config_names : list (string * Z) :=
  [("device", 1); ("position", 2); ("power", 3); ("network", 4); ("display", 5);
   ("lora", 6); ("bluetooth", 7); ("security", 8); ("sessionkey", 9); ("device_ui", 10)].
Definition module_names : list (string * Z) :=
  [("mqtt", 1); ("serial", 2); ("external_notification", 3); ("store_forward", 4);
   ("range_test", 5); ("telemetry", 6); ("canned_message", 7); ("audio", 8);
   ("remote_hardware", 9); ("neighbor_info", 10); ("ambient_lighting", 11);
   ("detection_sensor", 12); ("paxcounter", 13); ("statusmessage", 14);
   ("traffic_management", 15); ("tak", 16)].

Definition OWNER_LONG_NAME_LEN : nat := 40.
Definition OWNER_SHORT_NAME_LEN : nat := 5.
Definition STORE_RECORD_VERSION : Z := 1.
Definition STORE_RECORD_HEADER_LEN : nat := 4.
Definition MESHTASTIC_STORE_VALUE_MAX : nat := 256.

Record store := mk_store {
  st_long_name : string; st_short_name : string;
  st_channels : list Channel; st_configs : list Config; st_modules : list ModuleConfig
}.
#[export] Instance store_set : Settable store := λ x,
  mk_store (st_long_name x) (st_short_name x) (st_channels x) (st_configs x) (st_modules x).

(** Static storage: before the seed every tag is 0. *)
Definition store_bss : store :=
  mk_store "" "" (replicate 8 Channel_zero) (replicate 10 (CFG_other 0 []))
    (replicate 16 (MOD_other 0 [])).

(** [index_for_config_tag] and [index_for_module_tag]. *)
Definition index_for_tag (names : list (string * Z)) (tag : Z) : option nat :=
  find_index (λ e, e.2 =? tag) names.
(** [index_for_config_name] and [index_for_module_name]. *)
Definition index_for_name (names : list (string * Z)) (name : string) : option nat :=
  find_index (λ e, bool_decide (e.1 = name)) names.

(** The bytes before the first NUL of an array of [src_len] characters, cut to
    the destination. *)
Definition copy_fixed_string (dst_len : nat) (src : string) : string :=
  strncpy (dst_len - 1) src.

Definition RegionCode_UNSET : Z := 0.
Definition RegionCode_US : Z := 1.
Definition RegionCode_EU_433 : Z := 2.
Definition RegionCode_EU_868 : Z := 3.

Definition lora_region_from_frequency (hz : Z) : Z :=
  if (902000000 <=? hz) && (hz <=? 928000000) then RegionCode_US
  else if (869000000 <=? hz) && (hz <=? 870000000) then RegionCode_EU_868
  else if (433000000 <=? hz) && (hz <=? 434000000) then RegionCode_EU_433
  else RegionCode_UNSET.

Definition MESHTASTIC_FREQ_US : Z := 906875000.
Definition MESHTASTIC_FREQ_EU : Z := 869525000.

Definition frequency_from_region (region : Z) : Z :=
  if region =? RegionCode_US then MESHTASTIC_FREQ_US
  else if region =? RegionCode_EU_868 then MESHTASTIC_FREQ_EU
  else if region =? RegionCode_EU_433 then 433175000
  else 0.

(** ** Validity *)

Definition DeviceRole_CLIENT_BASE : Z := 12.
Definition PairingMode_FIXED_PIN : Z := 1.
Definition PairingMode_NO_PIN : Z := 2.

Definition channel_is_valid (channel : option Channel) : bool :=
  match channel with
  | None => false
  | Some ch =>
      if Role_SECONDARY <? c_role ch then false
      else if (32 <? length (cs_psk (c_settings ch)))%nat then false
      else true
  end.

Definition config_is_valid (config : option Config) : bool :=
  match config with
  | None => false
  | Some c =>
      match index_for_tag config_names (config_tag c) with
      | None => false
      | Some _ =>
          match c with
          | CFG_device d =>
              (dev_role d <=? DeviceRole_CLIENT_BASE)
              && (dev_rebroadcast_mode d <=? Rebroadcast_CORE_PORTNUMS_ONLY)
          | CFG_lora l => lora_hop_limit l <=? 7
          | CFG_bluetooth b => bt_mode b <=? PairingMode_NO_PIN
          | _ => true
          end
      end
  end.

Definition module_is_valid (module : option ModuleConfig) : bool :=
  match module with
  | None => false
  | Some m => bool_decide (is_Some (index_for_tag module_names (module_tag m)))
  end.

(** ** Seeding *)

(** What the seed reads of the running stack and of the build. *)
Record seed_inputs := mk_seed {
  seed_long_name : option string; seed_short_name : option string; seed_frequency : Z;
  seed_channels : list Channel; seed_role : Z; seed_rebroadcast : Z;
  seed_hop_limit : Z; seed_tx_power : Z;
  seed_serial : bool; seed_gnss : bool; seed_ble : bool; seed_passkey : option Z
}.

Definition seed_config_defaults (s : seed_inputs) : list Config :=
  let configs := (λ e : string * Z, config_zero e.2) <$> config_names in
  let put tag c configs :=
    match index_for_tag config_names tag with Some i => <[i := c]> configs | None => configs end in
  let configs := put Config_device_tag (CFG_device
    (DeviceConfig_zero <| dev_role := seed_role s |>
       <| dev_rebroadcast_mode := seed_rebroadcast s |>
       <| dev_serial_enabled := seed_serial s |>)) configs in
  let configs := put Config_position_tag (CFG_position (if seed_gnss s then 1 else 2) []) configs in
  let configs := put Config_lora_tag (CFG_lora
    (LoRaConfig_zero <| lora_use_preset := true |> <| lora_modem_preset := 0 |>
       <| lora_region := lora_region_from_frequency (seed_frequency s) |>
       <| lora_hop_limit := seed_hop_limit s |> <| lora_tx_enabled := true |>
       <| lora_tx_power := seed_tx_power s |>)) configs in
  put Config_bluetooth_tag (CFG_bluetooth
    (match seed_passkey s with
     | Some pin => mk_BluetoothConfig (seed_ble s) PairingMode_FIXED_PIN pin
     | None => mk_BluetoothConfig (seed_ble s) PairingMode_NO_PIN 0
     end)) configs.

(** The sizes of the destinations are those of module_config.options. *)
Definition seed_mqtt `{Kconfig} `{MqttConfig} : MQTTConfig :=
  if CONFIG_MQTT then
    MQTTConfig_zero <| mqc_enabled := true |>
      <| mqc_address := copy_string "" 64 (Some CONFIG_MQTT_BROKER_HOST) |>
      <| mqc_username := copy_string "" 64 (Some CONFIG_MQTT_USERNAME) |>
      <| mqc_password := copy_string "" 32 (Some CONFIG_MQTT_PASSWORD) |>
      <| mqc_root := copy_string "" 32 (Some CONFIG_MQTT_ROOT) |>
      <| mqc_encryption_enabled := CONFIG_MQTT_ENCRYPTION_ENABLED |>
      <| mqc_map_reporting_enabled := CONFIG_MQTT_MAP_REPORT |>
      <| mqc_map_report_settings :=
           if CONFIG_MQTT_MAP_REPORT
           then Some (mk_MapReportSettings CONFIG_MQTT_MAP_REPORT_INTERVAL_SEC
                        CONFIG_MQTT_MAP_REPORT_POSITION_PRECISION true)
           else None |>
  else MQTTConfig_zero.

Definition seed_module_defaults `{Kconfig} `{MqttConfig} : list ModuleConfig :=
  let modules := (λ e : string * Z, module_zero e.2) <$> module_names in
  match index_for_tag module_names ModuleConfig_mqtt_tag with
  | Some i => <[i := MOD_mqtt seed_mqtt]> modules
  | None => modules
  end.

Definition meshtastic_config_store_seed `{Kconfig} `{MqttConfig} (cfg : option seed_inputs) (st : store)
    : result () * store :=
  match cfg with
  | None => (Err EINVAL, st)
  | Some s =>
      (Ok (), mk_store
        (copy_string "" OWNER_LONG_NAME_LEN
           (Some (default CONFIG_NODE_LONG_NAME (seed_long_name s))))
        (copy_string "" OWNER_SHORT_NAME_LEN
           (Some (default CONFIG_NODE_SHORT_NAME (seed_short_name s))))
        ((λ i, (default Channel_zero (seed_channels s !! i)) <| c_index := Z.of_nat i |>)
           <$> seq 0 8)
        (seed_config_defaults s) seed_module_defaults)
  end.

(** ** Accessors *)

Definition meshtastic_config_store_long_name (st : store) : string := st_long_name st.
Definition meshtastic_config_store_short_name (st : store) : string := st_short_name st.

Definition meshtastic_config_store_get_channel (index : Z) (st : store) : result Channel :=
  if MESHTASTIC_MAX_CHANNELS <=? index then Err EINVAL
  else match st_channels st !! Z.to_nat index with Some ch => Ok ch | None => Err EINVAL end.

Definition meshtastic_config_store_get_config (tag : Z) (st : store) : result Config :=
  match index_for_tag config_names tag with
  | None => Err EINVAL
  | Some idx => match st_configs st !! idx with Some c => Ok c | None => Err EINVAL end
  end.

Definition meshtastic_config_store_get_module (tag : Z) (st : store) : result ModuleConfig :=
  match index_for_tag module_names tag with
  | None => Err EINVAL
  | Some idx => match st_modules st !! idx with Some m => Ok m | None => Err EINVAL end
  end.

Definition meshtastic_config_store_get_device_ui (st : store) : result Config :=
  meshtastic_config_store_get_config Config_device_ui_tag st.

(** [schedule_save] is the only effect of the setter outside the store. *)
Definition meshtastic_config_store_set_module (module : option ModuleConfig) (st : store)
    : result () * store :=
  match module with
  | Some m =>
      if negb (module_is_valid (Some m)) then (Err EINVAL, st)
      else match index_for_tag module_names (module_tag m) with
           | Some idx => (Ok (), st <| st_modules ::= <[idx := m]> |>)
           | None => (Err EINVAL, st)
           end
  | None => (Err EINVAL, st)
  end.

(** ** Settings records *)

(** [sys_get_le16]. *)
Definition get_le16 (bs : list Z) : Z :=
  match bs with b0 :: b1 :: _ => b0 + 256 * b1 | _ => 0 end.

Definition encode_record {X} `{Pb X} (msg : X) (buf_len : nat) : result (list Z) :=
  if (buf_len <? STORE_RECORD_HEADER_LEN)%nat then Err EINVAL
  else match pb_encode (buf_len - STORE_RECORD_HEADER_LEN) msg with
       | None => Err ENOMEM
       | Some bs => Ok ([STORE_RECORD_VERSION; 0] ++ le16 (u16 (Z.of_nat (length bs))) ++ bs)
       end.

Definition decode_record {X} `{Pb X} (buf : list Z) : result X :=
  let len := length buf in
  if (len <? STORE_RECORD_HEADER_LEN)%nat then Err EINVAL
  else if negb (default 0 (buf !! 0%nat) =? STORE_RECORD_VERSION) then Err EINVAL
  else if negb (get_le16 (drop 2 buf) =? Z.of_nat (len - STORE_RECORD_HEADER_LEN))
  then Err EINVAL
  else match pb_decode (drop STORE_RECORD_HEADER_LEN buf) with
       | None => Err EINVAL
       | Some msg => Ok msg
       end.

(** A character array of [n] bytes holding a shorter string, zero padded. *)
Definition char_array (n : nat) (s : string) : list Z :=
  str_bytes s ++ replicate (n - String.length s) 0.

(** [struct store_owner_record], packed. *)
Definition setting_get_owner (buf_len : nat) (st : store) : result (list Z) :=
  let size := (1 + OWNER_LONG_NAME_LEN + OWNER_SHORT_NAME_LEN)%nat in
  if (buf_len <? size)%nat then Err ENOMEM
  else Ok ([STORE_RECORD_VERSION]
    ++ char_array OWNER_LONG_NAME_LEN
         (copy_string "" OWNER_LONG_NAME_LEN (Some (st_long_name st)))
    ++ char_array OWNER_SHORT_NAME_LEN
         (copy_string "" OWNER_SHORT_NAME_LEN (Some (st_short_name st)))).

Definition setting_set_owner (buf : list Z) (st : store) : result () * store :=
  let size := (1 + OWNER_LONG_NAME_LEN + OWNER_SHORT_NAME_LEN)%nat in
  if negb (length buf =? size)%nat || negb (default 0 (buf !! 0%nat) =? STORE_RECORD_VERSION)
  then (Err EINVAL, st)
  else
    let field i n := string_of_bytes (c_string (take n (drop i buf))) in
    (Ok (), st <| st_long_name := copy_fixed_string OWNER_LONG_NAME_LEN
                    (field 1%nat OWNER_LONG_NAME_LEN) |>
               <| st_short_name := copy_fixed_string OWNER_SHORT_NAME_LEN
                    (field (1 + OWNER_LONG_NAME_LEN)%nat OWNER_SHORT_NAME_LEN) |>).

(** ** Keys *)

(** The C locale's [isspace] and [isdigit]. *)
Definition is_space (b : Z) : bool := (b =? 32) || ((9 <=? b) && (b <=? 13)).
Definition is_digit (b : Z) : bool := (48 <=? b) && (b <=? 57).

Fixpoint skip_space (bs : list Z) : list Z :=
  match bs with b :: bs' => if is_space b then skip_space bs' else bs | [] => [] end.
Fixpoint digits (bs : list Z) (acc : Z) : Z * list Z :=
  match bs with
  | b :: bs' => if is_digit b then digits bs' (acc * 10 + (b - 48)) else (acc, bs)
  | [] => (acc, [])
  end.

Definition ULONG_MAX : Z := 4294967295.
(** [strtoul(name, &end, 10)] with a 32-bit [unsigned long]: the value and the
    characters from [end] on. *)
Definition strtoul (name : list Z) : Z * list Z :=
  let bs := skip_space name in
  let '(neg, bs) := match bs with
                    | 45 :: bs' => (true, bs')
                    | 43 :: bs' => (false, bs')
                    | _ => (false, bs)
                    end in
  match bs with
  | b :: _ =>
      if is_digit b then
        let '(v, rest) := digits bs 0 in
        (if ULONG_MAX <? v then ULONG_MAX else if neg then u32 (- v) else v, rest)
      else (0, name)
  | [] => (0, name)
  end.

Definition parse_channel_index (name : string) : result nat :=
  let bs := str_bytes name in
  match bs with
  | [] => Err EINVAL
  | _ =>
      let '(parsed, rest) := strtoul bs in
      if negb (bool_decide (rest = [])) || (MESHTASTIC_MAX_CHANNELS <=? parsed) then Err EINVAL
      else Ok (Z.to_nat parsed)
  end.

(** [strncmp(key, prefix, strlen(prefix)) == 0] and the rest of the key. *)
Fixpoint strip_prefix (prefix key : string) : option string :=
  match prefix, key with
  | EmptyString, _ => Some key
  | String a prefix, String b key =>
      if Ascii.eqb a b then strip_prefix prefix key else None
  | String _ _, EmptyString => None
  end.

Inductive setting_key :=
  | Key_owner | Key_channel (name : string) | Key_config (name : string)
  | Key_module (name : string) | Key_unknown.
Definition classify_key (key : string) : setting_key :=
  if bool_decide (key = "owner") then Key_owner
  else match strip_prefix "channel/" key with
       | Some n => Key_channel n
       | None =>
           match strip_prefix "config/" key with
           | Some n => Key_config n
           | None =>
               match strip_prefix "module/" key with
               | Some n => Key_module n
               | None => Key_unknown
               end
           end
       end.

Section settings.
Context `{Pb Channel} `{Pb Config} `{Pb ModuleConfig}.

Definition meshtastic_config_store_setting_get (key : string) (buf_len : nat) (st : store)
    : result (list Z) :=
  match classify_key key with
  | Key_owner => setting_get_owner buf_len st
  | Key_channel name =>
      match parse_channel_index name with
      | Err e => Err e
      | Ok index =>
          match st_channels st !! index with
          | Some ch => encode_record ch buf_len
          | None => Err EINVAL
          end
      end
  | Key_config name =>
      match index_for_name config_names name with
      | None => Err ENOENT
      | Some idx =>
          match st_configs st !! idx with
          | Some c => encode_record c buf_len
          | None => Err EINVAL
          end
      end
  | Key_module name =>
      match index_for_name module_names name with
      | None => Err ENOENT
      | Some idx =>
          match st_modules st !! idx with
          | Some m => encode_record m buf_len
          | None => Err EINVAL
          end
      end
  | Key_unknown => Err ENOENT
  end.

Definition meshtastic_config_store_setting_set (key : string) (buf : list Z) (st : store)
    : result () * store :=
  match classify_key key with
  | Key_owner => setting_set_owner buf st
  | Key_channel name =>
      match parse_channel_index name with
      | Err e => (Err e, st)
      | Ok index =>
          match decode_record buf with
          | Err _ => (Err EINVAL, st)
          | Ok ch =>
              if negb (channel_is_valid (Some ch)) then (Err EINVAL, st)
              else (Ok (), st <| st_channels ::=
                      <[index := ch <| c_index := Z.of_nat index |>]> |>)
          end
      end
  | Key_config name =>
      match index_for_name config_names name with
      | None => (Err ENOENT, st)
      | Some idx =>
          match decode_record buf with
          | Err _ => (Err EINVAL, st)
          | Ok c =>
              if negb (bool_decide (Some (config_tag c) = snd <$> config_names !! idx))
                 || negb (config_is_valid (Some c)) then (Err EINVAL, st)
              else (Ok (), st <| st_configs ::= <[idx := c]> |>)
          end
      end
  | Key_module name =>
      match index_for_name module_names name with
      | None => (Err ENOENT, st)
      | Some idx =>
          match decode_record buf with
          | Err _ => (Err EINVAL, st)
          | Ok m =>
              if negb (bool_decide (Some (module_tag m) = snd <$> module_names !! idx))
                 || negb (module_is_valid (Some m)) then (Err EINVAL, st)
              else (Ok (), st <| st_modules ::= <[idx := m]> |>)
          end
      end
  | Key_unknown => (Err ENOENT, st)
  end.

(** The keys [meshtastic_config_store_export] visits, in its order. *)
Definition decimal (i : nat) : string := string_of_bytes [48 + Z.of_nat i].
Definition export_keys : list string :=
  "owner" :: ((λ i, String.append "channel/" (decimal i)) <$> seq 0 8)
  ++ ((λ e : string * Z, String.append "config/" e.1) <$> config_names)
  ++ ((λ e : string * Z, String.append "module/" e.1) <$> module_names).

(** [meshtastic_config_store_export]: each record is read into a buffer of
    MESHTASTIC_STORE_VALUE_MAX bytes and passed to [export_func], whose state
    is [E]; the first error ends the loop. *)
Fixpoint export_loop {E} (export_func : string → list Z → E → result () * E)
    (keys : list string) (st : store) (e : E) : result () * E :=
  match keys with
  | [] => (Ok (), e)
  | key :: keys =>
      match meshtastic_config_store_setting_get key MESHTASTIC_STORE_VALUE_MAX st with
      | Err err => (Err err, e)
      | Ok buf =>
          match export_func key buf e with
          | (Err err, e) => (Err err, e)
          | (Ok _, e) => export_loop export_func keys st e
          end
      end
  end.
Definition meshtastic_config_store_export {E} (export_func : string → list Z → E → result () * E)
    (st : store) (e : E) : result () * E :=
  export_loop export_func export_keys st e.
End settings.

(** ** Invariant *)

(** Slot [i] of the configs holds a valid config with the [i]th tag, and so
    for the modules and channels: the unions are only read under their tag. *)
Record store_wf (st : store) : Prop := {
  sw_long : no_nul (st_long_name st) ∧ (String.length (st_long_name st) ≤ 39)%nat;
  sw_short : no_nul (st_short_name st) ∧ (String.length (st_short_name st) ≤ 4)%nat;
  sw_channels : length (st_channels st) = 8%nat ∧
    ∀ i ch, st_channels st !! i = Some ch →
      c_index ch = Z.of_nat i ∧ channel_is_valid (Some ch) = true;
  sw_configs : length (st_configs st) = 10%nat ∧
    ∀ i c, st_configs st !! i = Some c →
      Some (config_tag c) = snd <$> config_names !! i ∧ config_is_valid (Some c) = true;
  sw_modules : length (st_modules st) = 16%nat ∧
    ∀ i m, st_modules st !! i = Some m →
      Some (module_tag m) = snd <$> module_names !! i ∧ module_is_valid (Some m) = true
}.

Lemma str_bytes_strncpy n s : str_bytes (strncpy n s) = take n (str_bytes s).
Proof.
  unfold strncpy. revert s. induction n as [|n IH]; intros [|c s]; cbn; try done.
  f_equal. apply IH.
Qed.

Lemma no_nul_strncpy n s : no_nul s → no_nul (strncpy n s).
Proof. unfold no_nul. rewrite str_bytes_strncpy. apply Forall_take. Qed.

Lemma no_nul_c_string bs : bytes_ok bs → no_nul (string_of_bytes (c_string bs)).
Proof.
  intros Hbs. unfold no_nul.
  assert (Forall (λ b, b ≠ 0) (c_string bs) ∧ bytes_ok (c_string bs)) as [Hz Hok].
  { induction Hbs as [|b bs Hb Hbs [IH1 IH2]]; cbn; [split; constructor|].
    destruct (Z.eqb_spec b 0); [split; constructor|]. split; constructor; done. }
  assert (str_bytes (string_of_bytes (c_string bs)) = c_string bs) as ->; [|done].
  clear Hz. unfold string_of_bytes. induction Hok as [|b l Hb Hl IH]; cbn; [done|].
  rewrite IH. f_equal. unfold char_byte, byte_char.
  rewrite Ascii.N_ascii_embedding by zmod. apply Z2N.id. zmod.
Qed.

Lemma copy_string_bounds n s :
  no_nul s → no_nul (copy_string "" (S n) (Some s)) ∧
  (String.length (copy_string "" (S n) (Some s)) ≤ n)%nat.
Proof.
  intros Hs. unfold copy_string. cbn [Nat.eqb Nat.sub]. rewrite Nat.sub_0_r.
  split; [by apply no_nul_strncpy|apply substring0_length].
Qed.

Section settings_lemmas.
Context `{Pb Channel} `{Pb Config} `{Pb ModuleConfig}.

Lemma setting_set_owner_wf buf st :
  bytes_ok buf → store_wf st → store_wf (setting_set_owner buf st).2.
Proof.
  intros Hb [? ? ? ? ?]. unfold setting_set_owner. case_if; [done|].
  constructor; cbn [snd]; try done; unfold copy_fixed_string; rgoal.
  all: split; [apply no_nul_strncpy, no_nul_c_string, Forall_take|apply substring0_length].
  all: by apply Forall_drop.
Qed.

(** Updating slot [i] of an indexed table. *)
Lemma table_insert {A} (P : nat → A → Prop) (l : list A) i x :
  (∀ j y, l !! j = Some y → P j y) → P i x → ∀ j y, <[i := x]> l !! j = Some y → P j y.
Proof.
  intros Hl Hx j y. rewrite list_lookup_insert_Some. intros [(<- & <- & _)|[_ Hj]]; auto.
Qed.

(** loading a settings record, whatever its key and its bytes (a corrupt
    or foreign record included), keeps the store well formed: every slot holds
    a valid value of its own kind, and the names stay terminated. *)
Theorem setting_set_wf key buf st :
  bytes_ok buf → store_wf st →
  store_wf (meshtastic_config_store_setting_set key buf st).2.
Proof.
  intros Hb Hwf. unfold meshtastic_config_store_setting_set.
  destruct (classify_key key) as [|name|name|name|]; [by apply setting_set_owner_wf|..|done].
  - destruct (parse_channel_index name) as [index|e]; [|done].
    destruct (decode_record buf) as [ch|e]; [|done].
    destruct (channel_is_valid (Some ch)) eqn:Hv; [|done]. cbn [negb snd].
    destruct Hwf as [? ? [? ?] ? ?]. constructor; try done. rgoal.
    split; [by rewrite length_insert|]. by apply table_insert.
  - destruct (index_for_name config_names name) as [idx|]; [|done].
    destruct (decode_record buf) as [c|e]; [|done].
    destruct (_ || _) eqn:Hv; [done|]. boolp. cbn [snd].
    destruct Hwf as [? ? ? [? ?] ?]. constructor; try done. rgoal.
    split; [by rewrite length_insert|]. by apply table_insert.
  - destruct (index_for_name module_names name) as [idx|]; [|done].
    destruct (decode_record buf) as [m|e]; [|done].
    destruct (_ || _) eqn:Hv; [done|]. boolp. cbn [snd].
    destruct Hwf as [? ? ? ? [? ?]]. constructor; try done. rgoal.
    split; [by rewrite length_insert|]. by apply table_insert.
Qed.

(** ** Saving and loading *)

(** [settings_load_subtree] on a list of saved records. *)
Definition import_records (recs : list (string * list Z)) (st : store) : store :=
  foldl (λ st r, (meshtastic_config_store_setting_set r.1 r.2 st).2) st recs.

Definition collect (key : string) (val : list Z) (acc : list (string * list Z))
    : result () * list (string * list Z) := (Ok (), acc ++ [(key, val)]).

(** What loading the record of [key] changes. *)
Definition copy_key (src : store) (key : string) (st : store) : store :=
  match classify_key key with
  | Key_owner => st <| st_long_name := st_long_name src |> <| st_short_name := st_short_name src |>
  | Key_channel name =>
      match parse_channel_index name with
      | Ok i => match st_channels src !! i with
                | Some ch => st <| st_channels ::= <[i := ch]> |>
                | None => st
                end
      | Err _ => st
      end
  | Key_config name =>
      match index_for_name config_names name with
      | Some i => match st_configs src !! i with
                  | Some c => st <| st_configs ::= <[i := c]> |>
                  | None => st
                  end
      | None => st
      end
  | Key_module name =>
      match index_for_name module_names name with
      | Some i => match st_modules src !! i with
                  | Some m => st <| st_modules ::= <[i := m]> |>
                  | None => st
                  end
      | None => st
      end
  | Key_unknown => st
  end.

Context {okc : Channel → Prop} {okf : Config → Prop} {okm : ModuleConfig → Prop}.
Context `{!PbLaws Channel okc} `{!PbLaws Config okf} `{!PbLaws ModuleConfig okm}.

Lemma decode_encode_record {X} `{PbLaws X ok} (x : X) n bs :
  ok x → (n ≤ MESHTASTIC_STORE_VALUE_MAX)%nat → encode_record x n = Ok bs →
  decode_record bs = Ok x.
Proof.
  intros Hx Hn. unfold encode_record. destruct (Nat.ltb_spec n STORE_RECORD_HEADER_LEN); [done|].
  destruct (pb_encode _ x) as [pbs|] eqn:E; [|done]. intros [= <-].
  pose proof (pb_encode_length _ _ _ E) as Hl.
  unfold STORE_RECORD_HEADER_LEN, MESHTASTIC_STORE_VALUE_MAX in *.
  unfold decode_record, STORE_RECORD_HEADER_LEN.
  change ([STORE_RECORD_VERSION; 0] ++ le16 (u16 (Z.of_nat (length pbs))) ++ pbs)
    with (STORE_RECORD_VERSION :: 0 :: u16 (Z.of_nat (length pbs)) `mod` 256 ::
          (u16 (Z.of_nat (length pbs)) `div` 256) `mod` 256 :: pbs).
  cbn [length skipn]. rewrite (proj2 (Nat.ltb_ge _ _)) by lia.
  cbn [lookup list_lookup default from_option id]. rewrite Z.eqb_refl. cbn [negb get_le16].
  rewrite (proj2 (Z.eqb_eq _ _)) by zmod. cbn [negb].
  by rewrite drop_0, (pb_decode_encode _ _ _ Hx E).
Qed.

Lemma setting_set_owner_get src st buf n :
  store_wf src → setting_get_owner n src = Ok buf →
  setting_set_owner buf st =
    (Ok (), st <| st_long_name := st_long_name src |> <| st_short_name := st_short_name src |>).
Proof.
  intros [[Hl1 Hl2] [Hs1 Hs2] _ _ _]. unfold setting_get_owner. case_if; [done|]. intros [= <-].
  unfold copy_string, OWNER_LONG_NAME_LEN, OWNER_SHORT_NAME_LEN. cbn [Nat.eqb Nat.sub].
  rewrite !substring0_id by done.
  assert (∀ n s, (String.length s ≤ n)%nat → length (char_array n s) = n) as Hca.
  { intros k s Hs. unfold char_array. rewrite length_app, length_str_bytes, length_replicate. lia. }
  unfold setting_set_owner, OWNER_LONG_NAME_LEN, OWNER_SHORT_NAME_LEN.
  cbn [length app]. rewrite !length_app, !Hca by lia. cbn [length Nat.add Nat.eqb negb orb app].
  cbn [lookup list_lookup default from_option id]. rewrite Z.eqb_refl. cbn [negb].
  cbn [skipn Nat.add]. rewrite !drop_0.
  rewrite (take_app_length' (char_array 40 (st_long_name src))) by (rewrite Hca; lia).
  rewrite (drop_app_length' (char_array 40 (st_long_name src))) by (rewrite Hca; lia).
  rewrite (take_ge (char_array 5 _)) by (rewrite Hca; lia).
  unfold char_array. rewrite !c_string_app, !string_of_str_bytes by done.
  unfold copy_fixed_string. cbn [Nat.sub]. by rewrite !substring0_id by done.
Qed.

Lemma setting_set_get src st key buf :
  store_wf src → Forall okc (st_channels src) → Forall okf (st_configs src) →
  Forall okm (st_modules src) →
  meshtastic_config_store_setting_get key MESHTASTIC_STORE_VALUE_MAX src = Ok buf →
  meshtastic_config_store_setting_set key buf st = (Ok (), copy_key src key st).
Proof.
  intros Hwf Hc Hf Hm. unfold meshtastic_config_store_setting_get,
    meshtastic_config_store_setting_set, copy_key.
  destruct (classify_key key) as [|name|name|name|]; [by apply setting_set_owner_get|..|done].
  - destruct (parse_channel_index name) as [i|]; [|done].
    destruct (st_channels src !! i) as [ch|] eqn:E; [|done]. intros Henc.
    rewrite (decode_encode_record _ _ _ (Forall_lookup_1 _ _ _ _ Hc E) (le_n _) Henc).
    destruct (sw_channels _ Hwf) as [_ Hch]. destruct (Hch i ch E) as [Hi Hv].
    rewrite Hv. cbn [negb]. rewrite <-Hi. by destruct ch.
  - destruct (index_for_name config_names name) as [i|]; [|done].
    destruct (st_configs src !! i) as [c|] eqn:E; [|done]. intros Henc.
    rewrite (decode_encode_record _ _ _ (Forall_lookup_1 _ _ _ _ Hf E) (le_n _) Henc).
    destruct (sw_configs _ Hwf) as [_ Hcf]. destruct (Hcf i c E) as [Ht Hv].
    rewrite bool_decide_eq_true_2 by done. by rewrite Hv.
  - destruct (index_for_name module_names name) as [i|]; [|done].
    destruct (st_modules src !! i) as [m|] eqn:E; [|done]. intros Henc.
    rewrite (decode_encode_record _ _ _ (Forall_lookup_1 _ _ _ _ Hm E) (le_n _) Henc).
    destruct (sw_modules _ Hwf) as [_ Hmf]. destruct (Hmf i m E) as [Ht Hv].
    rewrite bool_decide_eq_true_2 by done. by rewrite Hv.
Qed.

Lemma export_collect keys src acc recs :
  export_loop collect keys src acc = (Ok (), recs) →
  ∃ vals, recs = acc ++ vals ∧
    Forall2 (λ key r, r.1 = key ∧
      meshtastic_config_store_setting_get key MESHTASTIC_STORE_VALUE_MAX src = Ok r.2) keys vals.
Proof.
  revert acc. induction keys as [|key keys IH]; intros acc; cbn.
  { intros [= <-]. exists []. by rewrite app_nil_r. }
  destruct (meshtastic_config_store_setting_get _ _ _) as [buf|] eqn:E; [|done].
  intros (vals & -> & Hvals)%IH. exists ((key, buf) :: vals).
  split; [by rewrite <-app_assoc|]. by constructor.
Qed.

(** A list updated at every index is the source. *)
Lemma copy_all_keys src st :
  store_wf src → length (st_channels st) = 8%nat → length (st_configs st) = 10%nat →
  length (st_modules st) = 16%nat → foldl (λ st key, copy_key src key st) st export_keys = src.
Proof.
  intros [_ _ [Hc _] [Hf _] [Hm _]] Hc' Hf' Hm'.
  destruct src as [ln sn cs fs ms], st as [ln' sn' cs' fs' ms']; cbn in *.
  do 8 (destruct cs as [|? cs]; [done|]); destruct cs; [|done].
  do 8 (destruct cs' as [|? cs']; [done|]); destruct cs'; [|done].
  do 10 (destruct fs as [|? fs]; [done|]); destruct fs; [|done].
  do 10 (destruct fs' as [|? fs']; [done|]); destruct fs'; [|done].
  do 16 (destruct ms as [|? ms]; [done|]); destruct ms; [|done].
  do 16 (destruct ms' as [|? ms']; [done|]); destruct ms'; [|done].
  vm_compute. reflexivity.
Qed.

(** saving and loading is the identity: whatever well-formed store the
    device boots with, loading the records a well-formed store exported makes
    it that store, and every record is accepted. *)
Theorem export_import src st recs :
  store_wf src → store_wf st → Forall okc (st_channels src) → Forall okf (st_configs src) →
  Forall okm (st_modules src) →
  meshtastic_config_store_export collect src [] = (Ok (), recs) →
  import_records recs st = src.
Proof.
  intros Hwf Hst Hc Hf Hm Hexp. unfold meshtastic_config_store_export in Hexp.
  apply export_collect in Hexp as (vals & -> & Hvals). cbn [app].
  rewrite <-(copy_all_keys src st) by (done || by destruct Hst as [_ _ [? _] [? _] [? _]]).
  unfold import_records. clear Hst. revert st.
  induction Hvals as [|key [k v] keys vals [Hk Hget] _ IH]; intros st; [done|].
  cbn [foldl fst snd] in *. subst k.
  rewrite (setting_set_get src st key v) by done. apply IH.
Qed.
End settings_lemmas.

(** ** Witnesses *)

#[export] Instance DeviceConfig_eq_dec : EqDecision DeviceConfig.
Proof. solve_decision. Defined.
#[export] Instance LoRaConfig_eq_dec : EqDecision LoRaConfig.
Proof. solve_decision. Defined.
#[export] Instance BluetoothConfig_eq_dec : EqDecision BluetoothConfig.
Proof. solve_decision. Defined.
#[export] Instance Config_eq_dec : EqDecision Config.
Proof. solve_decision. Defined.
#[export] Instance MapReportSettings_eq_dec : EqDecision MapReportSettings.
Proof. solve_decision. Defined.
#[export] Instance MQTTConfig_eq_dec : EqDecision MQTTConfig.
Proof. solve_decision. Defined.
#[export] Instance ModuleConfig_eq_dec : EqDecision ModuleConfig.
Proof. solve_decision. Defined.

Section witnesses.
#[local] Existing Instances default_kconfig default_mqtt_config.

Definition factory_inputs : seed_inputs :=
  mk_seed (Some "Base station") None 869525000 (channel_slots default_table) 0 0 3 17
    true false true None.
Definition factory_store : store :=
  (meshtastic_config_store_seed (Some factory_inputs) store_bss).2.

#[local] Instance factory_pb_Channel : Pb Channel := table_pb (st_channels factory_store).
#[local] Instance factory_pb_Config : Pb Config := table_pb (st_configs factory_store).
#[local] Instance factory_pb_Module : Pb ModuleConfig := table_pb (st_modules factory_store).

Lemma factory_store_wf : store_wf factory_store.
Proof.
  constructor.
  - split; [apply (bool_decide_unpack _); by vm_compute|cbn; lia].
  - split; [apply (bool_decide_unpack _); by vm_compute|cbn; lia].
  - split; [done|]. intros i ch. do 8 (destruct i as [|i]; [by intros [= <-]|]). done.
  - split; [done|]. intros i c. do 10 (destruct i as [|i]; [by intros [= <-]|]). done.
  - split; [done|]. intros i m. do 16 (destruct i as [|i]; [by intros [= <-]|]). done.
Qed.

Lemma setting_set_wf_witness :
  store_wf (meshtastic_config_store_setting_set "channel/3" [1; 0; 1; 0; 200] factory_store).2.
Proof.
  apply setting_set_wf; [apply (bool_decide_unpack _); by vm_compute|apply factory_store_wf].
Defined.

Definition factory_records : list (string * list Z) :=
  (meshtastic_config_store_export collect factory_store []).2.

Lemma export_import_witness :
  length factory_records = 35%nat ∧
  import_records factory_records (factory_store <| st_long_name := "other" |>) = factory_store.
Proof.
  split; [by vm_compute|].
  apply (export_import (H := factory_pb_Channel) (H0 := factory_pb_Config)
    (H1 := factory_pb_Module) (PbLaws0 := table_pb_laws _) (PbLaws1 := table_pb_laws _)
    (PbLaws2 := table_pb_laws _)).
  - apply factory_store_wf.
  - destruct factory_store_wf. constructor; try done.
    split; [apply (bool_decide_unpack _); by vm_compute|cbn; lia].
  - apply Forall_forall. done.
  - apply Forall_forall. done.
  - apply Forall_forall. done.
  - vm_compute. reflexivity.
Defined.
End witnesses.
