(* ===== verification/World.v ===== *)
(** * The whole state

    One record with the state of every component, of the platform, and the
    trace of what the application saw.  The operations of the following files
    run in [M world]: threads interleave between these operations, and a
    thread that blocks on the transmit queue runs the transmit worker in its
    place (Radio.v). *)

From stdpp Require Import vector.
From S2P Require Import Prelude Types External Mock Core Airtime Channels NodeDB Store.

(** A callback invocation: [mt.recv_cb] or [mt.event_cb]. *)
Inductive observation := Ob_recv (p : packet) | Ob_event (e : event).
#[export] Instance observation_eq_dec : EqDecision observation.
Proof. solve_decision. Defined.

(** [struct mt_outbound_item].  [done] and [result] both point into the stack
    frame of the waiting caller, named by a number; [None] is NULL. *)
Record outbound_item := mk_item { it_wire : list Z; it_waiter : option nat }.
#[export] Instance outbound_item_eq_dec : EqDecision outbound_item.
Proof. solve_decision. Defined.

(** The message queue and the stack frames of the callers inside
    [outbound_enqueue]: [None] until the worker has stored the result and
    given the semaphore. *)
Record outbound := mk_outbound {
  out_queue : list outbound_item;
  out_frames : gmap nat (option (result ()));
  out_next_frame : nat
}.
#[export] Instance outbound_set : Settable outbound := λ x,
  mk_outbound (out_queue x) (out_frames x) (out_next_frame x).
Definition outbound_zero : outbound := mk_outbound [] ∅ 0.

(** [struct mt_rx_slot]. *)
Record rx_slot := mk_rx_slot { rx_buf : list Z; rx_rssi : Z; rx_snr : Z }.

(** [struct reliable_entry] of meshtastic_reliable.c. *)
Record reliable_entry := mk_reliable {
  re_id : Z; re_dest : Z; re_portnum : Z; re_due_ms : Z; re_attempts_left : Z;
  re_wire : list Z
}.
#[export] Instance reliable_entry_set : Settable reliable_entry := λ x,
  mk_reliable (re_id x) (re_dest x) (re_portnum x) (re_due_ms x) (re_attempts_left x) (re_wire x).
#[export] Instance reliable_entry_eq_dec : EqDecision reliable_entry.
Proof. solve_decision. Defined.
Definition reliable_entry_zero : reliable_entry := mk_reliable 0 0 0 0 0 [].

(** The table and the delayable work item: when it is due, if scheduled. *)
Record reliable := mk_reliable_state {
  reliable_entries : list reliable_entry; reliable_work : option Z
}.
#[export] Instance reliable_set : Settable reliable := λ x,
  mk_reliable_state (reliable_entries x) (reliable_work x).

(** [struct nodeinfo_peer] of meshtastic_nodeinfo.c; a time is [None] while
    its [valid] flag is false. *)
Record nodeinfo_peer := mk_peer {
  np_node : Z; np_last_seen_ms : Z; np_last_request_ms : option Z;
  np_last_reply_ms : option Z; np_has_user : bool
}.
#[export] Instance nodeinfo_peer_set : Settable nodeinfo_peer := λ x,
  mk_peer (np_node x) (np_last_seen_ms x) (np_last_request_ms x) (np_last_reply_ms x)
    (np_has_user x).
#[export] Instance nodeinfo_peer_eq_dec : EqDecision nodeinfo_peer.
Proof. solve_decision. Defined.
Definition peer_zero : nodeinfo_peer := mk_peer 0 0 None None false.

(** [enum meshtastic_phoneapi_config_state]. *)
Inductive config_state :=
  | CONFIG_IDLE | CONFIG_MY_INFO | CONFIG_DEVICE_UI | CONFIG_NODE_INFO | CONFIG_METADATA
  | CONFIG_CHANNELS | CONFIG_CONFIGS | CONFIG_MODULES | CONFIG_QUEUE_STATUS | CONFIG_COMPLETE.
#[export] Instance config_state_eq_dec : EqDecision config_state.
Proof. solve_decision. Defined.

(** [struct meshtastic_phoneapi].  A frame is its [len] data bytes.  The three
    callbacks are counted. *)
Record phoneapi := mk_phoneapi {
  ph_queue : list (list Z); ph_head : nat; ph_tail : nat; ph_count : nat;
  ph_current : option (list Z); ph_from_num : Z;
  ph_config_state : config_state; ph_config_index : nat; ph_config_request_id : Z;
  ph_data_ready : nat; ph_disconnects : nat; ph_invalidations : nat
}.
#[export] Instance phoneapi_set : Settable phoneapi := λ x,
  mk_phoneapi (ph_queue x) (ph_head x) (ph_tail x) (ph_count x) (ph_current x) (ph_from_num x)
    (ph_config_state x) (ph_config_index x) (ph_config_request_id x)
    (ph_data_ready x) (ph_disconnects x) (ph_invalidations x).
(** [queue_size]. *)
Definition ph_queue_size (api : phoneapi) : nat := length (ph_queue api).

(** [struct device_telemetry_peer] and [struct env_telemetry_peer]; the time
    is [None] while [reply_time_valid] is false. *)
Record telemetry_peer := mk_telemetry_peer { tp_from : Z; tp_last_reply_ms : option Z }.
#[export] Instance telemetry_peer_eq_dec : EqDecision telemetry_peer.
Proof. solve_decision. Defined.
Definition TELEMETRY_PEER_SLOTS : nat := 4.
Notation telemetry_peers := (vec telemetry_peer TELEMETRY_PEER_SLOTS).

(** [struct gnss_data] of drivers/gnss.h, the fields the code reads. *)
Inductive gnss_fix_status :=
  | GNSS_FIX_STATUS_NO_FIX | GNSS_FIX_STATUS_GNSS_FIX | GNSS_FIX_STATUS_DGNSS_FIX
  | GNSS_FIX_STATUS_ESTIMATED_FIX.
#[export] Instance gnss_fix_status_eq_dec : EqDecision gnss_fix_status.
Proof. solve_decision. Defined.
Record gnss_data := mk_gnss_data {
  nav_latitude : Z; nav_longitude : Z; nav_bearing : Z; nav_speed : Z; nav_altitude : Z;
  info_satellites_cnt : Z; info_hdop : Z; info_geoid_separation : Z;
  info_fix_status : gnss_fix_status; info_fix_quality : Z
}.
#[export] Instance gnss_data_eq_dec : EqDecision gnss_data.
Proof. solve_decision. Defined.
Definition gnss_data_zero : gnss_data := mk_gnss_data 0 0 0 0 0 0 0 0 GNSS_FIX_STATUS_NO_FIX 0.

(** [gnss_state] of meshtastic_gnss.c, and whether [position_send_work] is
    queued or running. *)
Record gnss_state := mk_gnss_state {
  gs_data : gnss_data; gs_has_fix : bool; gs_seq : Z; gs_last_sent_ms : Z;
  gs_last_attempt_ms : Z; gs_last_reply_ms : option Z; gs_work_busy : bool
}.
#[export] Instance gnss_state_set : Settable gnss_state := λ x,
  mk_gnss_state (gs_data x) (gs_has_fix x) (gs_seq x) (gs_last_sent_ms x) (gs_last_attempt_ms x)
    (gs_last_reply_ms x) (gs_work_busy x).
Definition gnss_state_bss : gnss_state := mk_gnss_state gnss_data_zero false 0 0 0 None false.

(** The statics of meshtastic_metrics.c, meshtastic_environment.c and
    meshtastic_gnss.c. *)
Record sensing := mk_sensing {
  sn_device_peers : telemetry_peers; sn_env_peers : telemetry_peers; sn_gnss : gnss_state
}.
#[export] Instance sensing_set : Settable sensing := λ x,
  mk_sensing (sn_device_peers x) (sn_env_peers x) (sn_gnss x).
Definition sensing_bss : sensing :=
  mk_sensing (vreplicate _ (mk_telemetry_peer 0 None)) (vreplicate _ (mk_telemetry_peer 0 None))
    gnss_state_bss.

(** What the upload hooks read of the node, and a call of one of them:
    [meshtastic_mqtt_on_tx] if [up_sent], else [meshtastic_mqtt_on_rx]; no
    frame is NULL. *)
Record node_view := mk_view { nv_node_id : Z; nv_channels : channels }.
Record uplink_call := mk_uplink {
  up_sent : bool; up_packet : packet; up_wire : option (list Z); up_node : node_view
}.

Record world (K L T : Type) := mk_world {
  w_mt : context; w_channels : channels; w_nodedb : nodedb; w_airtime : airtime_state;
  w_reliable : reliable; w_outbound : outbound; w_rx_queue : list rx_slot;
  w_lora_cfg : lora_modem_config; w_peers : list nodeinfo_peer; w_phones : list phoneapi;
  w_sensing : sensing; w_store : store; w_psa : K; w_lora : L; w_kernel : T; w_trace : list observation;
  w_uplinks : list uplink_call
}.
Arguments mk_world {K L T} _ _ _ _ _ _ _ _ _ _ _ _ _ _ _ _ _.
Arguments w_mt {K L T} _.
Arguments w_channels {K L T} _.
Arguments w_nodedb {K L T} _.
Arguments w_airtime {K L T} _.
Arguments w_reliable {K L T} _.
Arguments w_outbound {K L T} _.
Arguments w_rx_queue {K L T} _.
Arguments w_lora_cfg {K L T} _.
Arguments w_peers {K L T} _.
Arguments w_phones {K L T} _.
Arguments w_sensing {K L T} _.
Arguments w_store {K L T} _.
Arguments w_psa {K L T} _.
Arguments w_lora {K L T} _.
Arguments w_kernel {K L T} _.
Arguments w_trace {K L T} _.
Arguments w_uplinks {K L T} _.
#[export] Instance world_set {K L T} : Settable (world K L T) := λ x,
  mk_world (w_mt x) (w_channels x) (w_nodedb x) (w_airtime x) (w_reliable x) (w_outbound x)
    (w_rx_queue x) (w_lora_cfg x) (w_peers x) (w_phones x) (w_sensing x) (w_store x) (w_psa x)
    (w_lora x) (w_kernel x) (w_trace x) (w_uplinks x).

Section world.
Context {K L T : Type} `{Kernel T} `{LoraDriver L}.
Notation W := (world K L T).

(** Calls into the platform. *)
Definition uptime_get : M W Z := zoom w_kernel (state k_uptime_get).
Definition rand32 : M W Z := zoom w_kernel (state sys_rand32_get).
Definition sleep (ms : Z) : M W () := zoom w_kernel (modify (k_sleep ms)).

(** [meshtastic_emit_event]: the callback only observes. *)
Definition meshtastic_emit_event (type : event_type) (err : option errno)
    (p : option packet) : M W () :=
  mt ← gets w_mt;
  if mt_event_cb mt
  then modify (set w_trace (λ tr, tr ++ [Ob_event (mk_event type err p)]))
  else mret ().

(** The calls of the upload hooks, in a build with the gateway.  The gateway's
    state is its own (Mqtt.v): a call is noted here, with what the hook reads
    of the node, and served there. *)
Definition view_of (w : W) : node_view := mk_view (mt_node_id (w_mt w)) (w_channels w).
Definition mqtt_hook `{Kconfig} (sent : bool) (p : packet) (wire : option (list Z)) : M W () :=
  if CONFIG_MQTT
  then modify (λ w : W, w <| w_uplinks ::= (λ l, l ++ [mk_uplink sent p wire (view_of w)]) |>)
  else mret ().

Definition status_modify (f : status → status) : M W () :=
  modify (set w_mt (set mt_status f)).

(** src/meshtastic_airtime.c *)
Definition meshtastic_airtime_packet_ms (wire_len : Z) : M W Z :=
  mt ← gets w_mt;
  lora ← gets w_lora;
  mret (if negb (mt_lora_dev mt) || negb (device_is_ready lora) then 0
        else lora_airtime wire_len lora).

Definition airtime_log (type : airtime_type) (ms : Z) : M W () :=
  modify (set w_airtime (meshtastic_airtime_log type ms)).

Definition allocate_packet_id : M W Z := zoom w_mt (state meshtastic_allocate_packet_id).
Definition next_fromradio_id : M W Z := zoom w_mt (state meshtastic_next_fromradio_id).
End world.

(** ** A concrete node: id 7, default tables, the mock platform *)

Definition mock_context `{Kconfig} : context :=
  mk_context true 7 3 17 869525000 "Base station" "BASE" true true 100 1
    (replicate CONFIG_DUP_CACHE_SIZE (0, 0)) 0 status_zero true true.
Definition mock_world `{Kconfig} (l : mock_lora) (t : mock_kernel)
    : world toy_psa mock_lora mock_kernel :=
  mk_world mock_context default_table
    (mk_nodedb (replicate CONFIG_NODEDB_MAX_NODES entry_zero) 0) meshtastic_airtime_init
    (mk_reliable_state (replicate CONFIG_RELIABLE_MAX_PENDING reliable_entry_zero) None)
    outbound_zero [] (mk_lora_modem_config 869525000 17 false LORA_CAD_MODE_NONE 0)
    (replicate CONFIG_NODEINFO_PEER_CACHE_SIZE peer_zero) [] sensing_bss store_bss (mk_toy_psa ∅ 0) l t [] [].
Definition mock_radio (busy : nat) : mock_lora := mk_mock_lora true [] busy None true.
Definition mock_clock (expires : bool) : mock_kernel := mk_mock_kernel 5000 1 expires.
