(* ===== verification/StoreApply.v ===== *)
(** * Applying the configuration store (src/meshtastic_config_store.c)

    The setters that change the store and the running stack together, and
    [meshtastic_config_store_apply_core], which pushes the whole store into the
    channel table and the runtime context.  Each setter also schedules a save
    of the store, which is a state of its own (Settings.v). *)

From Stdlib Require Import SpecFloat.
From S2P Require Import Prelude Types External Mock Core Airtime Channels NodeDB Wire Store World.

(** ** The frequency override: single-precision arithmetic *)

(** [(uint32_t)f]: truncation, undefined outside the type. *)
Definition trunc_u32 (f : spec_float) : option Z :=
  let z := match f with
           | S754_zero _ => Some 0
           | S754_finite s m e =>
               let a := if 0 <=? e then Z.pos m * 2 ^ e else Z.pos m / 2 ^ (- e) in
               Some (if s then - a else a)
           | _ => None
           end in
  match z with
  | Some z => if (0 <=? z) && (z <? 4294967296) then Some z else None
  | None => None
  end.

(** [(uint32_t)(lora.override_frequency * 1000000.0f)]. *)
Definition override_hz (mhz : spec_float) : option Z :=
  trunc_u32 (SFmul 24 128 mhz (float32_of_Z 1000000)).

Section store_apply.
Context {K L T : Type} `{Kconfig}.
Notation W := (world K L T).

(** [mt.long_name = store.long_name] shares the store's buffer; the name is
    copied here, and no later step of this model writes that buffer alone. *)
Definition apply_names : M W () :=
  st ← gets (S:=W) w_store;
  modify (set w_mt (λ mt, mt <| mt_long_name := st_long_name st |>
                             <| mt_short_name := st_short_name st |>)).

(** The union members are read under their tags, as [store_wf] ensures. *)
Definition stored_device (st : store) : option DeviceConfig :=
  match index_for_tag config_names Config_device_tag with
  | Some i => match st_configs st !! i with Some (CFG_device d) => Some d | _ => None end
  | None => None
  end.
Definition stored_lora (st : store) : option LoRaConfig :=
  match index_for_tag config_names Config_lora_tag with
  | Some i => match st_configs st !! i with Some (CFG_lora l) => Some l | _ => None end
  | None => None
  end.

(** The loop over the slots from [i] on. *)
Fixpoint apply_slots (i : Z) (slots : list Channel) : M W (result ()) :=
  match slots with
  | [] => mret (Ok ())
  | ch :: slots =>
      ret ← zoom w_channels (meshtastic_channels_set_slot i (Some ch));
      match ret with
      | Err e => mret (Err e)
      | Ok _ => apply_slots (i + 1) slots
      end
  end.

Definition apply_lora (lora : LoRaConfig) (mt : context) : option context :=
  let mt := if (1 <=? lora_hop_limit lora) && (lora_hop_limit lora <=? 7)
            then mt <| mt_hop_limit := u8 (lora_hop_limit lora) |> else mt in
  let mt := if negb (lora_tx_power lora =? 0) then mt <| mt_tx_power := lora_tx_power lora |> else mt in
  if SFltb (S754_zero false) (lora_override_frequency lora) then
    hz ← override_hz (lora_override_frequency lora);
    Some (mt <| mt_frequency := hz |>)
  else
    let frequency := frequency_from_region (lora_region lora) in
    Some (if negb (frequency =? 0) then mt <| mt_frequency := frequency |> else mt).

Definition meshtastic_config_store_apply_core : M W (result ()) :=
  apply_names ;;
  st ← gets (S:=W) w_store;
  match stored_device st, stored_lora st with
  | Some device, Some lora =>
      ret ← apply_slots 0 (take 8 (st_channels st));
      match ret with
      | Err e => mret (Err e)
      | Ok _ =>
          modify (set w_channels (meshtastic_set_device_role (dev_role device))) ;;
          modify (set w_channels (meshtastic_set_rebroadcast_mode (dev_rebroadcast_mode device))) ;;
          mt ← gets (S:=W) w_mt;
          match apply_lora lora mt with
          | None => ub
          | Some mt => modify (set w_mt (λ _, mt)) ;; mret (Ok ())
          end
      end
  | _, _ => ub
  end.

Definition meshtastic_config_store_set_channel (index : Z) (channel : option Channel)
    : M W (result ()) :=
  if (MESHTASTIC_MAX_CHANNELS <=? index) || negb (channel_is_valid channel) then mret (Err EINVAL)
  else
    match channel with
    | None => mret (Err EINVAL)
    | Some ch =>
        modify (set w_store (set st_channels <[Z.to_nat index := ch <| c_index := index |>]>)) ;;
        zoom w_channels (meshtastic_channels_set_slot index (Some ch))
    end.

Definition meshtastic_phoneapi_set_channel (index : Z) (channel : option Channel) : M W (result ()) :=
  meshtastic_config_store_set_channel index channel.

Definition meshtastic_config_store_set_config (config : option Config) : M W (result ()) :=
  if negb (config_is_valid config) then mret (Err EINVAL)
  else
    match config with
    | None => mret (Err EINVAL)
    | Some c =>
        match index_for_tag config_names (config_tag c) with
        | None => mret (Err EINVAL)
        | Some idx =>
            modify (set w_store (set st_configs <[idx := c]>)) ;;
            meshtastic_config_store_apply_core
        end
    end.

(** Write a field of the stored device config. *)
Definition update_device (f : DeviceConfig → DeviceConfig) (st : store) : option store :=
  match index_for_tag config_names Config_device_tag, stored_device st with
  | Some idx, Some d => Some (st <| st_configs ::= <[idx := CFG_device (f d)]> |>)
  | _, _ => None
  end.
Definition store_update_device (f : DeviceConfig → DeviceConfig) : M W () := λ w,
  match update_device f (w_store w) with
  | Some st => Some ((), w <| w_store := st |>)
  | None => None
  end.

Definition meshtastic_config_store_set_device_role (role : Z) : M W (result ()) :=
  if DeviceRole_CLIENT_BASE <? role then mret (Err EINVAL)
  else
    store_update_device (set dev_role (λ _, role)) ;;
    modify (set w_channels (meshtastic_set_device_role role)) ;;
    mret (Ok ()).

Definition meshtastic_config_store_set_rebroadcast_mode (mode : Z) : M W (result ()) :=
  if Rebroadcast_CORE_PORTNUMS_ONLY <? mode then mret (Err EINVAL)
  else
    store_update_device (set dev_rebroadcast_mode (λ _, mode)) ;;
    modify (set w_channels (meshtastic_set_rebroadcast_mode mode)) ;;
    mret (Ok ()).
End store_apply.

(** ** Pushing the channels *)

Section apply_correct.
Context {K L T : Type} `{Kconfig}.
Notation W := (world K L T).

(** The stored slots name one primary channel, slot [p]. *)
Definition one_primary (slots : list Channel) (p : nat) : Prop :=
  ∀ i ch, slots !! i = Some ch → (c_role ch =? Role_PRIMARY) = (i =? p)%nat.

(** The channel table while the slots before [k] have been pushed. *)
Record pushed (slots : list Channel) (p k : nat) (st0 st : channels) : Prop := {
  ps_wf : chan_wf st;
  ps_slots i ch : (i < k)%nat → slots !! i = Some ch →
    channel_slots st !! i = Some (fixup_slot (Z.of_nat i) ch);
  ps_primary : primary_index st = if (p <? k)%nat then Z.of_nat p else primary_index st0
}.

(** The running primary slot must not lose its key before the stored primary
    takes over. *)
Definition handover_ok (slots : list Channel) (p : nat) (st0 : channels) : Prop :=
  ∀ ch, slots !! Z.to_nat (primary_index st0) = Some ch →
    (Z.to_nat (primary_index st0) < p)%nat → inherits ch = false.

Lemma push_slot slots p k ch st0 st :
  (k < 8)%nat → one_primary slots p → Forall psk_ok slots → 0 ≤ primary_index st0 < 8 →
  slots !! k = Some ch → (k = Z.to_nat (primary_index st0) → (k < p)%nat → inherits ch = false) →
  pushed slots p k st0 st →
  wp (meshtastic_channels_set_slot (Z.of_nat k) (Some ch))
    (λ r st', r = Ok () ∧ pushed slots p (S k) st0 st') st.
Proof.
  intros Hk Hone Hpsk Hp0 Hch Hhand [Hwf Hslots Hp].
  pose proof (Hone _ _ Hch) as Hrole.
  assert (psk_ok ch) as Hok by (by eapply Forall_lookup_1).
  assert (Z.of_nat k = primary_index st → inherits ch = false) as Hinh.
  { rewrite Hp. destruct (Nat.ltb_spec p k); [lia|]. intros Heq.
    destruct (decide (k = p)) as [->|]; [|apply Hhand; lia].
    rewrite Nat.eqb_refl in Hrole. apply Z.eqb_eq in Hrole. unfold inherits. rewrite Hrole.
    by rewrite andb_false_r. }
  eapply wp_mono; [apply set_slot_spec; by try apply Hwf|].
  intros r st' [-> Hpost]. split; [done|]. constructor.
  - by eapply set_slot_post_wf.
  - intros i c Hi Hc. destruct (decide (i = k)) as [->|].
    + rewrite Hch in Hc. injection Hc as <-. apply Hpost.
    + rewrite (ss_others _ _ _ _ Hpost) by done. rewrite (Hslots i c) by (done || lia).
      destruct (c_role ch =? Role_PRIMARY) eqn:Er; [|done]. cbn [fmap option_fmap option_map].
      f_equal. symmetry in Hrole. apply Nat.eqb_eq in Hrole as ->. unfold demoted.
      assert ((c_role (fixup_slot (Z.of_nat i) c) =? Role_PRIMARY) = false) as ->; [|by rewrite andb_false_r].
      apply Z.eqb_neq. intros Hf%fixup_slot_primary. apply Z.eqb_eq in Hf.
      rewrite (Hone _ _ Hc) in Hf. by apply Nat.eqb_eq in Hf.
  - rewrite (ss_primary _ _ _ _ Hpost), Hrole, Hp.
    destruct (Nat.eqb_spec k p) as [->|]; [by rewrite (proj2 (Nat.ltb_lt _ _)) by lia|].
    destruct (Nat.ltb_spec p k), (Nat.ltb_spec p (S k)); lia || done.
Qed.

Lemma apply_slots_wp slots p st0 n : ∀ k (w : W),
  (k + n = 8)%nat → length slots = 8%nat → one_primary slots p → Forall psk_ok slots →
  0 ≤ primary_index st0 < 8 → handover_ok slots p st0 → pushed slots p k st0 (w_channels w) →
  wp (apply_slots (Z.of_nat k) (drop k slots)) (λ r w', r = Ok () ∧ ∃ st',
    w' = w <| w_channels := st' |> ∧ pushed slots p 8 st0 st') w.
Proof.
  induction n as [|n IH]; intros k w Hkn Hlen Hone Hpsk Hp0 Hhand Hpush.
  { rewrite drop_ge by lia. wps. split; [done|]. exists (w_channels w).
    replace k with 8%nat in Hpush by lia. by destruct w. }
  destruct (lookup_lt_is_Some_2 slots k) as [ch Hch]; [lia|].
  rewrite (drop_S slots ch k) by done. cbn [apply_slots]. rewrite wp_bind, wp_zoom.
  eapply wp_mono.
  { apply (push_slot slots p k ch st0); try done; [lia|]. intros ->. apply Hhand. done. }
  cbn beta. intros r st' [-> Hpush']. replace (Z.of_nat k + 1) with (Z.of_nat (S k)) by lia.
  eapply wp_mono; [apply (IH (S k) (w <| w_channels := st' |>)); done || lia|].
  cbn beta. intros r w' (-> & st2 & -> & Hp2). split; [done|]. by exists st2.
Qed.

(** A running primary slot that is stored without a key, ahead of the new
    primary. *)
Lemma apply_slots_diverge slots p st0 n ch0 : ∀ k (w : W),
  (k + n = Z.to_nat (primary_index st0))%nat → length slots = 8%nat → one_primary slots p →
  Forall psk_ok slots → 0 ≤ primary_index st0 < 8 → (Z.to_nat (primary_index st0) < p)%nat →
  slots !! Z.to_nat (primary_index st0) = Some ch0 → inherits ch0 = true →
  pushed slots p k st0 (w_channels w) →
  apply_slots (Z.of_nat k) (drop k slots) w = None.
Proof.
  induction n as [|n IH]; intros k w Hkn Hlen Hone Hpsk Hp0 Hlt Hch0 Hinh Hpush.
  - rewrite Nat.add_0_r in Hkn. subst k. rewrite (drop_S slots ch0) by done. cbn [apply_slots].
    unfold mbind, M_bind, zoom.
    destruct Hpush as [Hwf _ Hp]. rewrite (proj2 (Nat.ltb_ge _ _)) in Hp by lia.
    rewrite Z2Nat.id, <- Hp by lia.
    rewrite set_slot_diverges; [done|rewrite Hp; lia|apply Hwf|done].
  - destruct (lookup_lt_is_Some_2 slots k) as [ch Hch]; [lia|].
    rewrite (drop_S slots ch k) by done. cbn [apply_slots]. unfold mbind, M_bind, zoom.
    assert (wp (meshtastic_channels_set_slot (Z.of_nat k) (Some ch))
      (λ r st', r = Ok () ∧ pushed slots p (S k) st0 st') (w_channels w)) as Hw.
    { apply (push_slot slots p k ch st0); try done; lia. }
    unfold wp in Hw. destruct (meshtastic_channels_set_slot _ _ _) as [[r st']|]; [|done].
    destruct Hw as [-> Hpush']. replace (Z.of_nat k + 1) with (Z.of_nat (S k)) by lia.
    apply (IH (S k) (w <| w_channels := st' |>)); done || lia.
Qed.

(** ** Properties *)

(** The context with the stored names. *)
Definition named (st : store) (mt : context) : context :=
  mt <| mt_long_name := st_long_name st |> <| mt_short_name := st_short_name st |>.

(** What a stored LoRa configuration asks for: a positive override in MHz is
    the frequency (single precision, truncated to hertz), otherwise the region
    has one. *)
Definition overrides (lora : LoRaConfig) : bool :=
  match lora_override_frequency lora with
  | S754_finite false _ _ | S754_infinity false => true
  | _ => false
  end.
Definition asked_frequency (lora : LoRaConfig) : option Z :=
  if overrides lora
  then trunc_u32 (SFmul 24 128 (lora_override_frequency lora) (float32_of_Z 1000000))
  else if bool_decide (lora_region lora = RegionCode_US) then Some 906875000
  else if bool_decide (lora_region lora = RegionCode_EU_868) then Some 869525000
  else if bool_decide (lora_region lora = RegionCode_EU_433) then Some 433175000
  else None.
(** A positive override is below 2^32 Hz. *)
Definition freq_ok (lora : LoRaConfig) : Prop :=
  overrides lora = true → is_Some (asked_frequency lora).

(** A running context that takes over what [lora] has a usable value for. *)
Definition configured (lora : LoRaConfig) (mt : context) : context :=
  mt <| mt_hop_limit := if bool_decide (1 ≤ lora_hop_limit lora ≤ 7) then lora_hop_limit lora
                        else mt_hop_limit mt |>
     <| mt_tx_power := if bool_decide (lora_tx_power lora = 0) then mt_tx_power mt
                       else lora_tx_power lora |>
     <| mt_frequency := default (mt_frequency mt) (asked_frequency lora) |>.

Lemma positive_float f : SFltb (S754_zero false) f =
  match f with S754_finite false _ _ | S754_infinity false => true | _ => false end.
Proof. by destruct f as [[]|[]| |[]]. Qed.

Lemma apply_lora_configured lora mt :
  freq_ok lora → apply_lora lora mt = Some (configured lora mt).
Proof.
  intros Hok. unfold apply_lora, configured. rewrite positive_float. fold (overrides lora).
  assert ((1 <=? lora_hop_limit lora) && (lora_hop_limit lora <=? 7)
    = bool_decide (1 ≤ lora_hop_limit lora ≤ 7)) as ->.
  { apply eq_true_iff_eq. rewrite bool_decide_eq_true. boolp. lia. }
  assert (negb (lora_tx_power lora =? 0) = negb (bool_decide (lora_tx_power lora = 0))) as ->.
  { f_equal. apply eq_true_iff_eq. by rewrite bool_decide_eq_true, Z.eqb_eq. }
  unfold freq_ok, asked_frequency in *. destruct (overrides lora).
  - destruct (Hok eq_refl) as [hz Hhz]. unfold override_hz. rewrite Hhz. destruct mt. cbn.
    repeat case_bool_decide; cbn; rewrite ?u8_id by zmod; done.
  - unfold frequency_from_region, MESHTASTIC_FREQ_US, MESHTASTIC_FREQ_EU. destruct mt. cbn.
    repeat (case_bool_decide || case_if); cbn; rewrite ?u8_id by zmod; try done; boolp; congruence.
Qed.

(** The settings of [st] are what a node with channel table [ch] and context
    [mt] runs on. *)
Record in_force (st : store) (ch : channels) (mt : context) : Prop := {
  if_names : mt_long_name mt = st_long_name st ∧ mt_short_name mt = st_short_name st;
  if_slots i c : st_channels st !! i = Some c →
    channel_slots ch !! i = Some (fixup_slot (Z.of_nat i) c);
  if_primary i c : st_channels st !! i = Some c → c_role c = Role_PRIMARY →
    primary_index ch = Z.of_nat i;
  if_device d : stored_device st = Some d →
    device_role ch = dev_role d ∧ rebroadcast_mode ch = dev_rebroadcast_mode d;
  if_hops l : stored_lora st = Some l → 1 ≤ lora_hop_limit l ≤ 7 → mt_hop_limit mt = lora_hop_limit l;
  if_power l : stored_lora st = Some l → lora_tx_power l ≠ 0 → mt_tx_power mt = lora_tx_power l;
  if_frequency l hz : stored_lora st = Some l → asked_frequency l = Some hz → mt_frequency mt = hz
}.

Lemma apply_core_run (w : W) device lora :
  stored_device (w_store w) = Some device → stored_lora (w_store w) = Some lora →
  meshtastic_config_store_apply_core w =
    match apply_slots 0 (take 8 (st_channels (w_store w)))
            (w <| w_mt := named (w_store w) (w_mt w) |>) with
    | Some (Err e, w') => Some (Err e, w')
    | Some (Ok _, w') =>
        let w' := w' <| w_channels ::= λ st, st <| device_role := dev_role device |>
                        <| rebroadcast_mode := dev_rebroadcast_mode device |> |> in
        match apply_lora lora (w_mt w') with
        | Some mt => Some (Ok (), w' <| w_mt := mt |>)
        | None => None
        end
    | None => None
    end.
Proof.
  intros Hd Hl. unfold meshtastic_config_store_apply_core, apply_names, mbind, M_bind, gets, modify.
  change (w_store (set w_mt _ w)) with (w_store w). rewrite Hd, Hl.
  change (set w_mt (λ mt, mt <| mt_long_name := st_long_name (w_store w) |>
    <| mt_short_name := st_short_name (w_store w) |>) w) with
    (w <| w_mt := named (w_store w) (w_mt w) |>).
  destruct (apply_slots 0 _ _) as [[[[]|e] w']|]; [|done..]. cbv zeta.
  change (w_mt (set w_channels _ (set w_channels _ w'))) with (w_mt w').
  change (w_mt (w' <| w_channels ::= _ |>)) with (w_mt w').
  by destruct (apply_lora lora (w_mt w')).
Qed.

Lemma apply_core_ok p device lora (w : W) :
  length (st_channels (w_store w)) = 8%nat → Forall psk_ok (st_channels (w_store w)) →
  chan_wf (w_channels w) → one_primary (st_channels (w_store w)) p →
  handover_ok (st_channels (w_store w)) p (w_channels w) →
  stored_device (w_store w) = Some device → stored_lora (w_store w) = Some lora → freq_ok lora →
  ∃ st1, meshtastic_config_store_apply_core w =
      Some (Ok (), w <| w_channels := st1 <| device_role := dev_role device |>
        <| rebroadcast_mode := dev_rebroadcast_mode device |> |>
        <| w_mt := configured lora (named (w_store w) (w_mt w)) |>) ∧
    pushed (st_channels (w_store w)) p 8 (w_channels w) st1.
Proof.
  intros Hlen Hpsk Hwf Hone Hhand Hd Hl Hfreq. rewrite (apply_core_run w device lora) by done.
  rewrite take_ge by lia. pose proof (base_primary _ (wf_base _ Hwf)) as Hp0.
  set (w0 := w <| w_mt := named (w_store w) (w_mt w) |>).
  assert (pushed (st_channels (w_store w)) p 0 (w_channels w) (w_channels w)) as Hstart
    by (constructor; [done|lia|done]).
  pose proof (apply_slots_wp _ p (w_channels w) 8 0 w0
    eq_refl Hlen Hone Hpsk Hp0 Hhand Hstart) as Hrun.
  apply wp_run in Hrun as (r & w1 & Hr & -> & st1 & -> & Hpush).
  change (Z.of_nat 0) with 0 in Hr. rewrite drop_0 in Hr. rewrite Hr. cbv zeta.
  lazymatch goal with |- context [apply_lora lora ?m] =>
    change m with (named (w_store w) (w_mt w)) end.
  rewrite apply_lora_configured by done. exists st1. split; [reflexivity|done].
Qed.

(** C32: applying a stored configuration with one PRIMARY channel, in slot [p],
    makes the running node the one the store describes: every slot is the
    stored one in normal form, [p] is the primary slot, the table's invariant
    holds, the device role, the rebroadcast mode and the names are the stored
    ones; the hop limit becomes the stored one if that is 1 to 7, the transmit
    power the stored one unless that is 0, the frequency the stored override if
    that is positive and else the one of a known region; nothing else changes.
    The running primary slot must not lose its key before slot [p] is reached,
    and a positive override must be below 2^32 Hz. *)
Theorem apply_core_spec p device lora (w : W) :
  length (st_channels (w_store w)) = 8%nat → Forall psk_ok (st_channels (w_store w)) →
  chan_wf (w_channels w) → (p < 8)%nat → one_primary (st_channels (w_store w)) p →
  handover_ok (st_channels (w_store w)) p (w_channels w) →
  stored_device (w_store w) = Some device → stored_lora (w_store w) = Some lora → freq_ok lora →
  ∃ st', meshtastic_config_store_apply_core w =
      Some (Ok (), w <| w_channels := st' |>
        <| w_mt := configured lora (named (w_store w) (w_mt w)) |>) ∧
    chan_wf st' ∧ primary_index st' = Z.of_nat p ∧
    device_role st' = dev_role device ∧ rebroadcast_mode st' = dev_rebroadcast_mode device ∧
    ∀ i ch, st_channels (w_store w) !! i = Some ch →
      channel_slots st' !! i = Some (fixup_slot (Z.of_nat i) ch).
Proof.
  intros Hlen Hpsk Hwf Hp Hone Hhand Hd Hl Hfreq.
  destruct (apply_core_ok p device lora w) as (st1 & Hr & [Hwf1 Hs1 Hp1]); try done.
  rewrite (proj2 (Nat.ltb_lt _ _)) in Hp1 by done.
  eexists. split; [exact Hr|]. split_and!; try done.
  - by destruct Hwf1 as [[] ? ?].
  - intros i ch Hch. apply Hs1; [|done]. apply lookup_lt_Some in Hch. lia.
Qed.

(** C33: the hand-over condition is necessary: a store, every slot of which
    passes the validity checks, in which the running primary slot is a
    SECONDARY channel without a key of its own and the PRIMARY channel comes
    later, makes [meshtastic_config_store_apply_core], and with it the start of
    the node, recurse for ever. *)
Theorem apply_core_diverges p device lora ch (w : W) :
  length (st_channels (w_store w)) = 8%nat → Forall psk_ok (st_channels (w_store w)) →
  chan_wf (w_channels w) → one_primary (st_channels (w_store w)) p →
  stored_device (w_store w) = Some device → stored_lora (w_store w) = Some lora →
  (Z.to_nat (primary_index (w_channels w)) < p)%nat →
  st_channels (w_store w) !! Z.to_nat (primary_index (w_channels w)) = Some ch →
  inherits ch = true →
  meshtastic_config_store_apply_core w = None.
Proof.
  intros Hlen Hpsk Hwf Hone Hd Hl Hlt Hch Hinh. rewrite (apply_core_run w device lora) by done.
  rewrite take_ge by lia. pose proof (base_primary _ (wf_base _ Hwf)) as Hp0.
  set (w0 := w <| w_mt := named (w_store w) (w_mt w) |>).
  assert (pushed (st_channels (w_store w)) p 0 (w_channels w) (w_channels w)) as Hstart
    by (constructor; [done|lia|done]).
  pose proof (apply_slots_diverge _ p (w_channels w) _ ch 0 w0
    eq_refl Hlen Hone Hpsk Hp0 Hlt Hch Hinh Hstart) as Hr.
  change (Z.of_nat 0) with 0 in Hr. rewrite drop_0 in Hr. by rewrite Hr.
Qed.
End apply_correct.

(** ** The mock node *)

#[local] Existing Instance default_kconfig.

Definition stored_world (st : store) : world toy_psa mock_lora mock_kernel :=
  (mock_world (mock_radio 0) (mock_clock false)) <| w_store := st |>.
Definition psk1 : list Z := replicate 16 7.
Definition slot_with (role : Z) (psk : list Z) : Channel :=
  Channel_zero <| c_has_settings := true |> <| c_role := role |>
    <| c_settings := ChannelSettings_zero <| cs_psk := psk |> <| cs_name := "away" |> |>.
(** Slot 3 is the PRIMARY channel, slot 0 a SECONDARY one on its key. *)
Definition moved_store : store :=
  factory_store <| st_channels ::= (λ chs, <[3%nat := (slot_with Role_PRIMARY psk1) <| c_index := 3 |>]>
    (<[0%nat := slot_with Role_SECONDARY []]> chs)) |>.

Lemma one_primary_by (slots : list Channel) p :
  Forall (λ i, default true ((λ ch, Bool.eqb (c_role ch =? Role_PRIMARY) (i =? p)%nat) <$> slots !! i) = true)
    (seq 0 (length slots)) → one_primary slots p.
Proof.
  intros Hall i ch Hi. rewrite Forall_seq in Hall.
  specialize (Hall i). rewrite Hi in Hall. apply Bool.eqb_prop, Hall.
  apply lookup_lt_Some in Hi. lia.
Qed.

(** The factory settings but for the LoRa configuration: US, five hops, 20 dBm. *)
Definition us_lora : LoRaConfig :=
  LoRaConfig_zero <| lora_region := RegionCode_US |> <| lora_hop_limit := 5 |> <| lora_tx_power := 20 |>.
Definition us_store : store :=
  factory_store <| st_configs ::= map (λ c, match c with CFG_lora _ => CFG_lora us_lora | c => c end) |>.

Lemma apply_core_spec_witness (w := stored_world us_store) :
  ∃ st' mt', meshtastic_config_store_apply_core w = Some (Ok (), w <| w_channels := st' |>
      <| w_mt := mt' |>) ∧ chan_wf st' ∧ primary_index st' = 0 ∧
    mt_hop_limit mt' = 5 ∧ mt_tx_power mt' = 20 ∧ mt_frequency mt' = 906875000.
Proof.
  assert (∃ device, stored_device us_store = Some device) as [device Hd] by (by eexists).
  destruct (apply_core_spec 0 device us_lora w) as (st' & Hr & Hwf & Hp & _); try done.
  - by apply (bool_decide_unpack _); vm_compute.
  - apply default_table_wf.
  - lia.
  - apply one_primary_by. by apply (bool_decide_unpack _); vm_compute.
  - intros ch _ Hlt. change (Z.to_nat (primary_index (w_channels w))) with 0%nat in Hlt. lia.
  - exists st', (configured us_lora (named us_store (w_mt w))). by split_and!.
Defined.

Lemma apply_core_diverges_witness :
  meshtastic_config_store_apply_core (stored_world moved_store) = None.
Proof.
  eapply (apply_core_diverges 3 _ _ (slot_with Role_SECONDARY [])); try done.
  - by apply (bool_decide_unpack _); vm_compute.
  - apply default_table_wf.
  - apply one_primary_by. by apply (bool_decide_unpack _); vm_compute.
  - change (Z.to_nat (primary_index (w_channels (stored_world moved_store)))) with 0%nat. lia.
Defined.

(** Moving the PRIMARY channel from slot 3 back to slot 0 does not last: the
    store keeps two PRIMARY channels, and the next change of any configuration
    makes slot 3 the primary one again. *)
Lemma primary_flips_back :
  (set_ret ← meshtastic_config_store_set_channel 3 (Some (slot_with Role_PRIMARY psk1));
   back_ret ← meshtastic_config_store_set_channel 0 (Some (slot_with Role_PRIMARY psk1));
   before ← gets (λ w, primary_index (w_channels w));
   conf_ret ← meshtastic_config_store_set_config (Some (CFG_position 0 []));
   after ← gets (λ w, primary_index (w_channels w));
   mret (set_ret, back_ret, before, conf_ret, after)) (stored_world factory_store)
  ≫= (λ r, Some r.1) = Some (Ok (), Ok (), 0, Ok (), 3).
Proof. by vm_compute. Qed.
