(* ===== verification/Radio.v ===== *)
(** * Radio and transmit queue (src/meshtastic_radio.c, src/meshtastic_outbound.c)

    Every transmission goes through one bounded queue and one worker thread,
    which stops asynchronous reception, configures the modem, sends with
    bounded retries on a busy channel and re-arms reception.  A caller that
    waits lends the worker a pointer into its stack frame. *)

From S2P Require Import Prelude Types External Mock Core Airtime Channels NodeDB Store World.

(** [K_TIMEOUT_EQ(wait, K_NO_WAIT)]: [K_MSEC(0)] is the same value. *)
Definition is_no_wait (wait : timeout) : bool :=
  match wait with K_NO_WAIT => true | K_FOREVER => false | K_MSEC ms => ms <=? 0 end.
Definition is_forever (wait : timeout) : bool :=
  match wait with K_FOREVER => true | _ => false end.

Section radio.
Context {K L T : Type} `{Kconfig} `{LoraDriver L} `{Kernel T}.
Notation W := (world K L T).

Definition lora_call {A} (f : L → A * L) : M W A := zoom w_lora (state f).

Definition mt_radio_arm_rx : M W (result ()) :=
  ret ← lora_call (lora_recv_async true);
  if is_err ret then
    modify (set w_mt (set mt_radio_rx_armed (λ _, false))) ;;
    status_modify (set rx_rearm_failures inc32) ;;
    mret ret
  else
    modify (set w_mt (set mt_radio_rx_armed (λ _, true))) ;;
    mret ret.

Definition mt_busy_backoff_ms : M W Z :=
  let min_ms := CONFIG_TX_BUSY_BACKOFF_MIN_MS in
  let max_ms := CONFIG_TX_BUSY_BACKOFF_MAX_MS in
  if max_ms <=? min_ms then mret min_ms
  else r ← rand32; mret (min_ms + r `mod` (max_ms - min_ms + 1)).

(** The send loop: at most [retries] further attempts while the channel is
    busy. *)
Fixpoint lora_send_retry (pkt : list Z) (retries : nat) : M W (result ()) :=
  ret ← lora_call (lora_send pkt);
  match ret, retries with
  | Err EBUSY, S retries =>
      ms ← mt_busy_backoff_ms;
      sleep ms ;;
      lora_send_retry pkt retries
  | _, _ => mret ret
  end.

Definition meshtastic_radio_send_wire_now (pkt : list Z) : M W (result ()) :=
  lora_call (lora_recv_async false) ;;
  modify (set w_mt (set mt_radio_rx_armed (λ _, false))) ;;
  mt ← gets (S:=W) w_mt;
  modify (set w_lora_cfg (λ c,
    c <| frequency := mt_frequency mt |> <| tx_power := mt_tx_power mt |> <| tx := true |>
      <| cad := LORA_CAD_MODE_LBT |> <| cad_symbol_num := 2 |>)) ;;
  cfg ← gets (S:=W) w_lora_cfg;
  ret ← lora_call (lora_config cfg);
  ret ← (match ret with
         | Ok _ => lora_send_retry pkt CONFIG_TX_BUSY_RETRIES
         | Err e => mret (Err e)
         end);
  modify (set w_lora_cfg (λ c, c <| tx := false |> <| cad := LORA_CAD_MODE_NONE |>)) ;;
  cfg ← gets (S:=W) w_lora_cfg;
  lora_call (lora_config cfg) ;;
  mt_radio_arm_rx ;;
  match ret with
  | Err e =>
      status_modify (set tx_failures inc32) ;;
      meshtastic_emit_event TX_FAILED (Some e) None ;;
      mret ret
  | Ok _ =>
      status_modify (set tx_packets inc32) ;;
      ms ← meshtastic_airtime_packet_ms (Z.of_nat (length pkt));
      airtime_log AIRTIME_TX ms ;;
      mret ret
  end.

(** ** The transmit worker *)

(** [*item.result = ret; k_sem_give(item.done);]: writing through a frame that
    has returned is undefined. *)
Definition complete_frame (waiter : nat) (ret : result ()) : M W () := λ w,
  match out_frames (w_outbound w) !! waiter with
  | Some _ =>
      Some ((), w <| w_outbound ::= set out_frames <[waiter := Some ret]> |>)
  | None => None
  end.

(** One turn of [mt_outbound_thread_fn]; with an empty queue the thread
    sleeps. *)
Definition outbound_worker_step : M W () :=
  out ← gets (S:=W) w_outbound;
  match out_queue out with
  | [] => mret ()
  | item :: queue =>
      modify (set w_outbound (set out_queue (λ _, queue))) ;;
      ret ← meshtastic_radio_send_wire_now (it_wire item);
      match it_waiter item with
      | None => mret ()
      | Some f => complete_frame f ret
      end
  end.

(** [n] turns. *)
Fixpoint outbound_worker (n : nat) : M W () :=
  match n with O => mret () | S n => outbound_worker_step ;; outbound_worker n end.

(** ** Enqueueing *)

(** A caller enters [outbound_enqueue]: its [sem] and [result] come to life. *)
Definition frame_enter : M W nat :=
  out ← gets (S:=W) w_outbound;
  modify (set w_outbound (λ o, o <| out_frames ::= <[out_next_frame o := None]> |>
                                 <| out_next_frame := S (out_next_frame o) |>)) ;;
  mret (out_next_frame out).
Definition frame_leave (f : nat) : M W () :=
  modify (set w_outbound (set out_frames (delete f))).

(** [k_msgq_put(..., K_FOREVER)]: while the queue is full the worker runs. *)
Definition msgq_put_forever (item : outbound_item) : M W () :=
  out ← gets (S:=W) w_outbound;
  (if (length (out_queue out) <? CONFIG_OUTBOUND_QUEUE_DEPTH)%nat then mret ()
   else outbound_worker_step) ;;
  modify (set w_outbound (set out_queue (λ q, q ++ [item]))).

(** [k_sem_take(&sem, K_FOREVER)]: the worker runs until it has served every
    frame queued so far, ours last. *)
Definition sem_take_forever : M W () :=
  out ← gets (S:=W) w_outbound;
  outbound_worker (length (out_queue out)).

(** Whether [k_sem_take(&sem, wait)] gives up before the worker has served
    the item. *)
Definition sem_expires (wait : timeout) : M W bool :=
  match wait with
  | K_MSEC ms => zoom w_kernel (state (k_sem_expires ms))
  | _ => mret false
  end.

Definition outbound_enqueue (pkt : option (list Z)) (wait : timeout) : M W (result ()) :=
  match pkt with
  | None => mret (Err EINVAL)
  | Some pkt =>
      if (length pkt =? 0)%nat || (MESHTASTIC_PKT_MAX <? length pkt)%nat
      then mret (Err EINVAL)
      else
      within (length pkt) MESHTASTIC_PKT_MAX ;;
      if is_no_wait wait then
        out ← gets (S:=W) w_outbound;
        if (length (out_queue out) <? CONFIG_OUTBOUND_QUEUE_DEPTH)%nat then
          modify (set w_outbound (set out_queue (λ q, q ++ [mk_item pkt None]))) ;;
          mret (Ok ())
        else mret (Err ENOMSG)
      else
        f ← frame_enter;
        msgq_put_forever (mk_item pkt (Some f)) ;;
        expired ← sem_expires wait;
        if (expired : bool) then frame_leave f ;; mret (Err EAGAIN)
        else
          sem_take_forever ;;
          out ← gets (S:=W) w_outbound;
          frame_leave f ;;
          match out_frames out !! f with
          | Some (Some ret) => mret ret
          | _ => ub
          end
  end.

Definition meshtastic_radio_send_wire (pkt : list Z) : M W (result ()) :=
  outbound_enqueue (Some pkt) K_NO_WAIT.
Definition meshtastic_radio_send_wire_wait (pkt : list Z) (wait : timeout)
    : M W (result ()) :=
  outbound_enqueue (Some pkt) wait.

(** ** Reception *)

(** The driver's receive callback. *)
Definition mt_rx_cb (data : list Z) (rssi snr : Z) : M W () :=
  if (length data =? 0)%nat || (MESHTASTIC_PKT_MAX <? length data)%nat then mret ()
  else
    q ← gets (S:=W) w_rx_queue;
    within (length data) MESHTASTIC_PKT_MAX ;;
    if (length q <? CONFIG_RX_QUEUE_DEPTH)%nat then
      modify (set w_rx_queue (λ q, q ++ [mk_rx_slot data rssi snr]))
    else status_modify (set rx_dropped inc32).

(** One turn of [mt_thread_fn]: [process] is
    [meshtastic_router_process_lora_rx]; with no frame in the queue the retry
    window has elapsed and a deaf radio is re-armed. *)
Definition mt_thread_step (process : list Z → Z → Z → M W ()) : M W () :=
  q ← gets (S:=W) w_rx_queue;
  match q with
  | slot :: q =>
      modify (set w_rx_queue (λ _, q)) ;;
      process (rx_buf slot) (rx_rssi slot) (rx_snr slot)
  | [] =>
      mt ← gets (S:=W) w_mt;
      if negb (mt_radio_rx_armed mt) then mt_radio_arm_rx ;; mret () else mret ()
  end.

Definition meshtastic_radio_init : M W (result ()) :=
  mt ← gets (S:=W) w_mt;
  modify (set w_lora_cfg (λ c,
    c <| frequency := mt_frequency mt |> <| tx_power := mt_tx_power mt |> <| tx := false |>)) ;;
  cfg ← gets (S:=W) w_lora_cfg;
  ret ← lora_call (lora_config cfg);
  match ret with
  | Err _ => mret (Err EIO)
  | Ok _ => mt_radio_arm_rx ;; mret (Ok ())
  end.
End radio.

(** ** What the radio leaves alone

    Everything but the driver, its configuration, the clock, the statistics,
    the airtime counters and the trace. *)
Section radio_frame.
Context {K L T : Type}.
Notation W := (world K L T).

Record radio_frame (w w' : W) : Prop := {
  rf_mt : ∃ st armed, w_mt w' = (w_mt w) <| mt_status := st |> <| mt_radio_rx_armed := armed |>;
  rf_channels : w_channels w' = w_channels w;
  rf_nodedb : w_nodedb w' = w_nodedb w;
  rf_reliable : w_reliable w' = w_reliable w;
  rf_outbound : w_outbound w' = w_outbound w;
  rf_rx_queue : w_rx_queue w' = w_rx_queue w;
  rf_peers : w_peers w' = w_peers w;
  rf_phones : w_phones w' = w_phones w;
  rf_store : w_store w' = w_store w;
  rf_psa : w_psa w' = w_psa w;
  rf_uplinks : w_uplinks w' = w_uplinks w
}.

#[export] Instance radio_frame_refl : Reflexive radio_frame.
Proof.
  intros w. constructor; try done.
  exists (mt_status (w_mt w)), (mt_radio_rx_armed (w_mt w)). by destruct (w_mt w).
Qed.
#[export] Instance radio_frame_trans : Transitive radio_frame.
Proof.
  intros w1 w2 w3 [(s1 & a1 & H1)] [(s2 & a2 & H2)]. constructor; try congruence.
  exists s2, a2. rewrite H2, H1. done.
Qed.

End radio_frame.

(** [radio_frame w (w <| .. |>)] for an update the frame allows. *)
Ltac rframe w :=
  lazymatch goal with
  | |- radio_frame _ ?w' =>
      constructor; try done;
      exists (mt_status (w_mt w')), (mt_radio_rx_armed (w_mt w')); by destruct w as [[]]
  end.

Section radio_correct.
Context {K L T : Type} `{KconfigRanges} `{LoraLaws L} `{Kernel T}.
Notation W := (world K L T).

(** [k] attempts that found the channel busy, then the last one. *)
Definition send_attempts (pkt : list Z) (k : nat) (ret : result ()) : list modem_call :=
  replicate k (Sent pkt (Err EBUSY)) ++ [Sent pkt ret].

(** The modem configurations of a transmission: the node's frequency and
    power, listening before it talks; then the same, receiving. *)
Definition tx_config (w : W) : lora_modem_config :=
  mk_lora_modem_config (mt_frequency (w_mt w)) (mt_tx_power (w_mt w)) true LORA_CAD_MODE_LBT 2.
Definition rx_config (w : W) : lora_modem_config :=
  mk_lora_modem_config (mt_frequency (w_mt w)) (mt_tx_power (w_mt w)) false LORA_CAD_MODE_NONE 2.

(** What the driver is asked for one transmission that ends in [ret]: the
    transmit configuration; if it is taken, the attempts, else nothing; and in
    either case the receive configuration. *)
Definition transmit_calls (w : W) (pkt : list Z) (ret : result ()) (calls : list modem_call)
    : Prop :=
  ∃ restored,
    (∃ e, ret = Err e ∧
      calls = [Configured (tx_config w) (Err e); Configured (rx_config w) restored]) ∨
    (∃ k, (k ≤ CONFIG_TX_BUSY_RETRIES)%nat ∧
      calls = [Configured (tx_config w) (Ok ())] ++ send_attempts pkt k ret ++
              [Configured (rx_config w) restored]).

Lemma send_retry_spec pkt n (w : W) :
  rx_active (w_lora w) = false →
  wp (lora_send_retry pkt n) (λ ret w',
    ∃ l t, w' = w <| w_lora := l |> <| w_kernel := t |> ∧ rx_active l = false ∧
    on_air l = (if is_err ret then on_air (w_lora w) else on_air (w_lora w) ++ [pkt]) ∧
    ∃ k, (k ≤ n)%nat ∧ modem_calls l = modem_calls (w_lora w) ++ send_attempts pkt k ret) w.
Proof.
  revert w. induction n as [|n IH]; intros w Hrx; cbn [lora_send_retry];
    unfold lora_call, mt_busy_backoff_ms, rand32, sleep; wps;
    pose proof (send_spec pkt (w_lora w) Hrx) as [Hrx' Hair];
    pose proof (send_called pkt (w_lora w) Hrx) as Hcall;
    destruct (lora_send pkt (w_lora w)) as [ret l] eqn:Hs; cbn [fst snd] in *.
  { assert (∃ l' t, w <| w_lora := l |> = w <| w_lora := l' |> <| w_kernel := t |> ∧
      rx_active l' = false ∧ on_air l' =
        (if is_err ret then on_air (w_lora w) else on_air (w_lora w) ++ [pkt]) ∧
      ∃ k, (k ≤ 0)%nat ∧ modem_calls l' = modem_calls (w_lora w) ++ send_attempts pkt k ret)
      as Hdone.
    { exists l, (w_kernel w). split; [by destruct w|]. split_and!; try done. by exists 0%nat. }
    destruct ret as [|[]]; exact Hdone. }
  destruct ret as [u|e]; [|destruct (decide (e = EBUSY)) as [->|He]].
  - exists l, (w_kernel w). split; [by destruct w|]. split_and!; try done.
    exists 0%nat. split; [lia|done].
  - assert (∀ w'' : W, (∃ t, w'' = w <| w_lora := l |> <| w_kernel := t |>) →
      wp (lora_send_retry pkt n) (λ ret w',
        ∃ l t, w' = w <| w_lora := l |> <| w_kernel := t |> ∧ rx_active l = false ∧
        on_air l = (if is_err ret then on_air (w_lora w) else on_air (w_lora w) ++ [pkt]) ∧
        ∃ k, (k ≤ S n)%nat ∧
          modem_calls l = modem_calls (w_lora w) ++ send_attempts pkt k ret) w'')
      as Hgo.
    { intros w'' [t ->]. eapply wp_mono; [apply IH; exact Hrx'|]. cbn.
      intros ret w' (l' & t' & -> & ? & ? & k & ? & Hk). exists l', t'. split; [by destruct w|].
      cbn in Hair. rewrite <- Hair. split_and!; try done. exists (S k). split; [lia|].
      rewrite Hk. cbn [w_lora set]. rewrite Hcall, <- app_assoc. done. }
    case_if; wps; apply Hgo; eexists; by destruct w.
  - assert (∃ l' t, w <| w_lora := l |> = w <| w_lora := l' |> <| w_kernel := t |> ∧
      rx_active l' = false ∧ on_air l' = on_air (w_lora w) ∧
      ∃ k, (k ≤ S n)%nat ∧ modem_calls l' =
        modem_calls (w_lora w) ++ send_attempts pkt k (Err e)) as Hdone.
    { exists l, (w_kernel w). split; [by destruct w|]. split_and!; try done.
      exists 0%nat. split; [lia|done]. }
    destruct e; done || exact Hdone.
Qed.

Lemma arm_rx_spec (w : W) :
  wp mt_radio_arm_rx (λ _ w',
    radio_frame w w' ∧ w_lora_cfg w' = w_lora_cfg w ∧ w_airtime w' = w_airtime w ∧
    w_trace w' = w_trace w ∧ on_air (w_lora w') = on_air (w_lora w) ∧
    rx_active (w_lora w') = mt_radio_rx_armed (w_mt w') ∧
    mt_status (w_mt w') = (mt_status (w_mt w)) <| rx_rearm_failures ::= λ n,
      if mt_radio_rx_armed (w_mt w') then n else inc32 n |> ∧
    modem_calls (w_lora w') = modem_calls (w_lora w)) w.
Proof.
  unfold mt_radio_arm_rx, lora_call, status_modify. wps.
  pose proof (recv_start (w_lora w)) as [Hrx Hair].
  pose proof (recv_called true (w_lora w)) as Hcalls.
  destruct (lora_recv_async true (w_lora w)) as [ret l]. cbn [fst snd] in *.
  case_if; wps; cbn in *; split_and!; try done.
  - constructor; try done. by eexists _, _.
  - constructor; try done. exists (mt_status (w_mt w)), true. by destruct w as [[]].
  - by destruct w as [[? ? ? ? ? ? ? ? ? ? ? ? ? []]].
Qed.

(** The counter a finished transmission moves. *)
Definition count_tx (ret : result ()) (st : status) : status :=
  if is_err ret then st <| tx_failures ::= inc32 |> else st <| tx_packets ::= inc32 |>.

(** A transmission returns from every state.  On success, and only then, the
    frame has gone on air, exactly once; the modem is back in its receive
    configuration, and reception is active exactly when the flag says so. *)
Lemma send_wire_now_wp pkt (w : W) :
  wp (meshtastic_radio_send_wire_now pkt) (λ ret w',
    radio_frame w w' ∧
    on_air (w_lora w') =
      (if is_err ret then on_air (w_lora w) else on_air (w_lora w) ++ [pkt]) ∧
    rx_active (w_lora w') = mt_radio_rx_armed (w_mt w') ∧
    w_lora_cfg w' = rx_config w ∧
    (∃ calls, modem_calls (w_lora w') = modem_calls (w_lora w) ++ calls ∧
      transmit_calls w pkt ret calls) ∧
    mt_status (w_mt w') = count_tx ret ((mt_status (w_mt w)) <| rx_rearm_failures ::= λ n,
      if mt_radio_rx_armed (w_mt w') then n else inc32 n |>) ∧
    (∃ ms, meshtastic_airtime_packet_ms (Z.of_nat (length pkt)) w' = Some (ms, w') ∧
      w_airtime w' =
        if is_err ret then w_airtime w else meshtastic_airtime_log AIRTIME_TX ms (w_airtime w)) ∧
    w_trace w' = w_trace w ++
      (match ret with
       | Err e => if mt_event_cb (w_mt w) then [Ob_event (mk_event TX_FAILED (Some e) None)] else []
       | Ok _ => []
       end)) w.
Proof.
  unfold meshtastic_radio_send_wire_now, lora_call. do 4 wp_step. cbn beta.
  pose proof (recv_stop (w_lora w)) as [Hrx Hair].
  pose proof (recv_called false (w_lora w)) as Hcalls.
  destruct (lora_recv_async false (w_lora w)) as [r0 l0]. cbn [fst snd] in *.
  do 10 wp_step. cbn beta.
  match goal with |- context [lora_config ?c ?l] =>
    change l with l0; pose proof (config_spec c l0 Hrx) as [Hrx1 Hair1];
    pose proof (config_called c l0 Hrx) as Hcalls1;
    destruct (lora_config c l0) as [r1 l1]; change c with (tx_config w) in Hcalls1 end.
  cbn [fst snd] in *. rewrite wp_bind. eapply wp_mono.
  { instantiate (1 := λ ret w', ∃ l t,
      w' = (w <| w_mt := (w_mt w) <| mt_radio_rx_armed := false |> |> <| w_lora := l |>
             <| w_kernel := t |> <| w_lora_cfg := tx_config w |>) ∧ rx_active l = false ∧
      on_air l = (if is_err ret then on_air (w_lora w) else on_air (w_lora w) ++ [pkt]) ∧
      ∃ calls, modem_calls l = modem_calls (w_lora w) ++ calls ∧
        ((∃ e, ret = Err e ∧ calls = [Configured (tx_config w) (Err e)]) ∨
         ∃ k, (k ≤ CONFIG_TX_BUSY_RETRIES)%nat ∧
           calls = [Configured (tx_config w) (Ok ())] ++ send_attempts pkt k ret)).
    destruct r1 as [[]|e]; cbn beta iota.
    - eapply wp_mono; [apply send_retry_spec; exact Hrx1|]. cbn beta.
      intros ret w' (l & t & -> & Hl & Ha & k & Hk & Hc). exists l, t. split; [by destruct w|].
      split; [done|]. split; [rewrite Ha; cbn; by rewrite Hair1, Hair|]. eexists. split.
      + rewrite Hc. cbn [w_lora set]. rewrite Hcalls1, Hcalls, <- app_assoc. done.
      + right. by exists k.
    - rewrite wp_ret. exists l1, (w_kernel w). split; [by destruct w|]. split; [done|].
      split; [cbn; by rewrite Hair1|]. eexists. rewrite Hcalls1, Hcalls. split; [done|].
      left. by exists e. }
  intros ret w' (l & t & -> & Hl & Ha & calls & Hc & Hcall). do 7 wp_step. cbn beta.
  match goal with |- context [lora_config ?c ?l'] =>
    change l' with l; pose proof (config_spec c l Hl) as [Hrx2 Hair2];
    pose proof (config_called c l Hl) as Hcalls2;
    destruct (lora_config c l) as [r2 l2]; change c with (rx_config w) in Hcalls2 end.
  cbn [fst snd] in *. wp_step. eapply wp_mono; [apply arm_rx_spec|]. cbn beta.
  intros _ w2 (Hf & Hcfg & Hat & Htr & Hair3 & Hact & Hst & Hcalls3).
  assert (radio_frame w w2) as Hf2 by (etrans; [|exact Hf]; rframe w).
  clear Hf. assert (mt_event_cb (w_mt w2) = mt_event_cb (w_mt w)) as Hcb.
  { destruct Hf2 as [(st & a & ->)]. done. }
  assert (on_air (w_lora w2) = if is_err ret then on_air (w_lora w)
          else on_air (w_lora w) ++ [pkt]) as Hair4 by (rewrite Hair3, <- Ha; exact Hair2).
  assert (∃ calls, modem_calls (w_lora w2) = modem_calls (w_lora w) ++ calls ∧
      transmit_calls w pkt ret calls) as Hlog.
  { exists (calls ++ [Configured (rx_config w) r2]). split.
    - rewrite Hcalls3. cbn [w_lora set]. by rewrite Hcalls2, Hc, app_assoc.
    - exists r2. destruct Hcall as [(e & -> & ->)|(k & ? & ->)]; [left|right].
      + by exists e.
      + exists k. by rewrite <- app_assoc. }
  destruct ret as [u|e]; cbn [is_err count_tx] in *.
  - unfold status_modify, airtime_log, meshtastic_airtime_packet_ms. wps. cbn beta.
    split_and!; [etrans; [exact Hf2|]; rframe w2|done|done|..].
    + cbn. by rewrite Hcfg.
    + done.
    + cbn. rewrite Hst. done.
    + eexists. split; [done|]. cbn. by rewrite Hat.
    + cbn. rewrite Htr. cbn. by rewrite app_nil_r.
  - unfold status_modify, meshtastic_emit_event. wps. cbn beta.
    assert (mt_event_cb (w_mt (set w_mt (set mt_status (set tx_failures inc32)) w2)) =
      mt_event_cb (w_mt w)) as Hcb' by exact Hcb. rewrite Hcb'.
    destruct (mt_event_cb (w_mt w)) eqn:Ecb; wps; cbn beta;
      (split_and!; [etrans; [exact Hf2|]; rframe w2|done|done|..];
       [cbn; by rewrite Hcfg|done|cbn; rewrite Hst; done
       |eexists; split; [done|]; cbn; by rewrite Hat|cbn; rewrite Htr; cbn; by rewrite ?app_nil_r]).
Qed.

(** ** The transmit queue

    [tx_frame]: only the radio, and the transmit queue, have moved. *)
Definition tx_frame (w w' : W) : Prop := radio_frame w (w' <| w_outbound := w_outbound w |>).

Lemma tx_frame_radio w w' : radio_frame w w' → tx_frame w w'.
Proof. intros [(st & a & Hmt)]. constructor; try done. by exists st, a. Qed.
Lemma tx_frame_outbound o (w : W) : tx_frame w (w <| w_outbound := o |>).
Proof.
  constructor; try done. exists (mt_status (w_mt w)), (mt_radio_rx_armed (w_mt w)).
  by destruct w as [[]].
Qed.
#[export] Instance tx_frame_refl : Reflexive tx_frame.
Proof. intros w. by apply tx_frame_radio. Qed.
#[export] Instance tx_frame_trans : Transitive tx_frame.
Proof.
  intros w1 w2 w3 [(s1 & a1 & H1')] [(s2 & a2 & H2')]. cbn in *. constructor; cbn; try congruence.
  exists s2, a2. cbn. by rewrite H2', H1'.
Qed.

(** The frames that reached the air, and the results stored for the callers,
    when the items have been served with the results [rets]. *)
Definition sent_of (items : list outbound_item) (rets : list (result ())) : list (list Z) :=
  concat (zip_with (λ it ret, if is_err ret then [] else [it_wire it]) items rets).
Definition store_result (fr : gmap nat (option (result ()))) (ir : outbound_item * result ()) :=
  match it_waiter ir.1 with None => fr | Some f => <[f := Some ir.2]> fr end.
Definition store_results (items : list outbound_item) (rets : list (result ()))
    (fr : gmap nat (option (result ()))) : gmap nat (option (result ())) :=
  foldl store_result fr (zip items rets).

(** Every caller an item points to is still waiting. *)
Definition waiters_live (items : list outbound_item) (fr : gmap nat (option (result ()))) :=
  ∀ it f, it ∈ items → it_waiter it = Some f → is_Some (fr !! f).
Record outbound_wf (o : outbound) : Prop := {
  ob_bounded : (length (out_queue o) ≤ CONFIG_OUTBOUND_QUEUE_DEPTH)%nat;
  ob_live : waiters_live (out_queue o) (out_frames o);
  ob_fresh f : (out_next_frame o ≤ f)%nat → out_frames o !! f = None
}.

Lemma waiters_live_head it q fr : waiters_live (it :: q) fr → waiters_live [it] fr.
Proof. intros Hl it' f ->%list_elem_of_singleton. apply Hl. left. Qed.
Lemma store_result_live items fr ir : waiters_live items fr → waiters_live items (store_result fr ir).
Proof.
  intros Hl it f Hin Hf. unfold store_result. destruct (it_waiter ir.1) as [g|]; [|eauto].
  destruct (decide (g = f)) as [->|]; [by rewrite lookup_insert_eq|].
  rewrite lookup_insert_ne by done. eauto.
Qed.

Lemma worker_step_spec it q (w : W) :
  out_queue (w_outbound w) = it :: q → waiters_live [it] (out_frames (w_outbound w)) →
  wp outbound_worker_step (λ _ w', ∃ ret,
    tx_frame w w' ∧ rx_active (w_lora w') = mt_radio_rx_armed (w_mt w') ∧
    w_outbound w' = mk_outbound q (store_result (out_frames (w_outbound w)) (it, ret))
      (out_next_frame (w_outbound w)) ∧
    on_air (w_lora w') = on_air (w_lora w) ++ sent_of [it] [ret]) w.
Proof.
  intros Hq Hlive. unfold outbound_worker_step. do 2 wp_step. rewrite Hq. do 3 wp_step.
  eapply wp_mono; [apply send_wire_now_wp|]. cbn beta. intros ret w1 (Hf & Hair & Hrx & _).
  assert (tx_frame w w1) as Hf'.
  { etrans; [apply (tx_frame_outbound ((w_outbound w) <| out_queue := q |>))|].
    by apply tx_frame_radio. }
  destruct Hf. cbn in rf_outbound0, Hair.
  assert (on_air (w_lora w1) = on_air (w_lora w) ++ sent_of [it] [ret]) as Hair'.
  { rewrite Hair. cbn. by destruct ret; rewrite ?app_nil_r. }
  clear Hair. unfold store_result. cbn. destruct (it_waiter it) as [f|] eqn:Ef.
  - unfold complete_frame, wp. rewrite rf_outbound0. cbn.
    destruct (Hlive it f) as [x ->]; [left|done|]. exists ret. cbn.
    split_and!; [|done| |done].
    + etrans; [exact Hf'|]. apply tx_frame_outbound.
    + unfold set. by rewrite rf_outbound0.
  - rewrite wp_ret. exists ret. split_and!; done.
Qed.

(** The worker serves a queue in order, and every waiting caller gets the
    result of its own frame. *)
Lemma worker_spec items : ∀ w : W,
  out_queue (w_outbound w) = items → waiters_live items (out_frames (w_outbound w)) →
  wp (outbound_worker (length items)) (λ _ w', ∃ rets,
    length rets = length items ∧ tx_frame w w' ∧
    (items = [] ∧ w' = w ∨ rx_active (w_lora w') = mt_radio_rx_armed (w_mt w')) ∧
    w_outbound w' = mk_outbound [] (store_results items rets (out_frames (w_outbound w)))
      (out_next_frame (w_outbound w)) ∧
    on_air (w_lora w') = on_air (w_lora w) ++ sent_of items rets) w.
Proof.
  induction items as [|it q IH]; intros w Hq Hlive; cbn [length outbound_worker].
  - rewrite wp_ret. exists []. split_and!; try done.
    + by left.
    + cbn. rewrite <- Hq. by destruct (w_outbound w).
    + by rewrite app_nil_r.
  - wp_step. eapply wp_mono; [by eapply worker_step_spec, waiters_live_head|]. cbn beta.
    intros [] w1 (ret & Hf & Hrx & Hout & Hair). eapply wp_mono; [apply IH|cbn beta].
    + by rewrite Hout.
    + rewrite Hout. cbn. apply store_result_live. intros it' f Hin. apply Hlive. by right.
    + intros [] w2 (rets & Hlen & Hf2 & Hrx2 & Hout2 & Hair2). exists (ret :: rets). split_and!.
      * cbn. by rewrite Hlen.
      * by etrans.
      * right. destruct Hrx2 as [[_ ->]|]; done.
      * rewrite Hout2, Hout. done.
      * rewrite Hair2, Hair, <- app_assoc. cbn. by rewrite app_nil_r.
Qed.

Lemma store_results_app items it rets ret fr :
  length items = length rets →
  store_results (items ++ [it]) (rets ++ [ret]) fr =
  store_result (store_results items rets fr) (it, ret).
Proof.
  intros Hlen. unfold store_results. rewrite zip_with_app by done. by rewrite foldl_app.
Qed.
Lemma sent_of_app items it rets ret :
  length items = length rets →
  sent_of (items ++ [it]) (rets ++ [ret]) =
  sent_of items rets ++ (if is_err ret then [] else [it_wire it]).
Proof.
  intros Hlen. unfold sent_of. rewrite zip_with_app, concat_app by done. cbn.
  by rewrite app_nil_r.
Qed.

(** A frame no item points to is not written. *)
Lemma store_results_insert f x items rets : ∀ fr,
  (∀ it, it ∈ items → it_waiter it ≠ Some f) →
  store_results items rets (<[f := x]> fr) = <[f := x]> (store_results items rets fr).
Proof.
  unfold store_results. revert rets.
  induction items as [|it items IH]; intros [|ret rets] fr Hne; try done. cbn.
  rewrite <- (IH rets) by (intros; apply Hne; by right). f_equal.
  unfold store_result. cbn. specialize (Hne it). destruct (it_waiter it) as [g|]; [|done].
  apply insert_insert_ne. intros ->. by apply Hne; [left|].
Qed.
Lemma store_results_None f items rets : ∀ fr,
  waiters_live items fr → fr !! f = None → store_results items rets fr !! f = None.
Proof.
  unfold store_results. revert rets.
  induction items as [|it items IH]; intros [|ret rets] fr Hl Hf; try done. cbn. apply IH.
  - intros it' g Hin. eapply store_result_live; [done|]. by right.
  - unfold store_result. cbn. destruct (it_waiter it) as [g|] eqn:Eg; [|done].
    rewrite lookup_insert_ne; [done|]. intros ->. destruct (Hl it f); [left|done|congruence].
Qed.

Lemma waiters_not_next o it f :
  outbound_wf o → it ∈ out_queue o → it_waiter it = Some f → f ≠ out_next_frame o.
Proof.
  intros [_ Hl Hfr] Hin Hf ->. destruct (Hl _ _ Hin Hf) as [x Hx].
  by rewrite (Hfr _ (le_n _)) in Hx.
Qed.

(** A caller that waits has queued its item last, behind the others, and its
    frame is live. *)
Lemma enter_put_spec pkt (w : W) :
  outbound_wf (w_outbound w) →
  wp (f ← frame_enter; msgq_put_forever (mk_item pkt (Some f)) ;; mret f) (λ f w', ∃ q1 q2 rets,
    f = out_next_frame (w_outbound w) ∧
    out_queue (w_outbound w) = q1 ++ q2 ∧ length rets = length q1 ∧
    tx_frame w w' ∧
    w_outbound w' = mk_outbound (q2 ++ [mk_item pkt (Some f)])
      (<[f := None]> (store_results q1 rets (out_frames (w_outbound w)))) (S f) ∧
    on_air (w_lora w') = on_air (w_lora w) ++ sent_of q1 rets ∧
    waiters_live (q2 ++ [mk_item pkt (Some f)]) (out_frames (w_outbound w')) ∧
    ((length (out_queue (w_outbound w)) < CONFIG_OUTBOUND_QUEUE_DEPTH)%nat →
      w_kernel w' = w_kernel w)) w.
Proof.
  intros Hwf. pose proof Hwf as [Hb Hlive Hfr]. unfold frame_enter, msgq_put_forever. wps.
  cbn beta. set (f := out_next_frame (w_outbound w)).
  assert (∀ items x fr, waiters_live items fr → waiters_live items (<[f:=x]> fr)) as Hins.
  { intros items x fr Hl it g Hin Hg.
    destruct (decide (f = g)) as [->|]; [by rewrite lookup_insert_eq|].
    rewrite lookup_insert_ne by done. eauto. }
  assert (∀ q fr, waiters_live q fr →
    waiters_live (q ++ [mk_item pkt (Some f)]) (<[f:=None]> fr)) as Happ.
  { intros q fr Hl it g [Hin| ->%list_elem_of_singleton]%elem_of_app Hg; [by eapply Hins|].
    injection Hg as <-. by rewrite lookup_insert_eq. }
  case_if; cbn in *.
  - wps. exists [], (out_queue (w_outbound w)), []. cbn. rewrite app_nil_r.
    split_and!; try done.
    + eapply tx_frame_trans; [|apply tx_frame_outbound]; apply tx_frame_outbound.
    + by apply Happ.
  - apply Nat.ltb_ge in E. pose proof outbound_range.
    destruct (out_queue (w_outbound w)) as [|it q] eqn:Eq; [cbn in E; lia|].
    eapply wp_mono; [apply (worker_step_spec it q); [done|by eapply Hins, waiters_live_head]|]. cbn beta.
    intros [] w1 (ret & Hf & _ & Hout & Hair). wps.
    assert (it_waiter it ≠ Some f) as Hit.
    { intros Hit. eapply (waiters_not_next _ it); [done| |done|done]. rewrite Eq. left. }
    assert (store_result (<[f:=None]> (out_frames (w_outbound w))) (it, ret) =
      <[f:=None]> (store_result (out_frames (w_outbound w)) (it, ret))) as Hst.
    { apply (store_results_insert f None [it] [ret]).
      by intros ? ->%list_elem_of_singleton. }
    exists [it], q, [ret]. cbn in *. rewrite Hout. cbn. split_and!; try done.
    + eapply tx_frame_trans; [|apply tx_frame_outbound].
      eapply tx_frame_trans; [|exact Hf]. apply tx_frame_outbound.
    + unfold f in Hst. by rewrite Hst.
    + unfold f in Hst. rewrite Hst. apply Happ, store_result_live. intros it' g Hin. apply Hlive. by right.
    + lia.
Qed.

Definition frame_ok (pkt : list Z) : Prop := (0 < length pkt ≤ MESHTASTIC_PKT_MAX)%nat.

Lemma frame_ok_guard pkt :
  frame_ok pkt → (length pkt =? 0)%nat || (MESHTASTIC_PKT_MAX <? length pkt)%nat = false.
Proof. intros [??]. apply orb_false_iff. rewrite Nat.eqb_neq, Nat.ltb_ge. lia. Qed.

(** What follows the queueing, from the state [enter_put_spec] describes. *)
Lemma enqueue_wait_wp pkt wait Q (w : W) :
  frame_ok pkt → is_no_wait wait = false → outbound_wf (w_outbound w) →
  (∀ w' q1 q2 rets (f := out_next_frame (w_outbound w)),
    out_queue (w_outbound w) = q1 ++ q2 → length rets = length q1 → tx_frame w w' →
    w_outbound w' = mk_outbound (q2 ++ [mk_item pkt (Some f)])
      (<[f := None]> (store_results q1 rets (out_frames (w_outbound w)))) (S f) →
    on_air (w_lora w') = on_air (w_lora w) ++ sent_of q1 rets →
    waiters_live (q2 ++ [mk_item pkt (Some f)]) (out_frames (w_outbound w')) →
    ((length (out_queue (w_outbound w)) < CONFIG_OUTBOUND_QUEUE_DEPTH)%nat →
      w_kernel w' = w_kernel w) →
    wp (expired ← sem_expires wait;
        if (expired : bool) then frame_leave f ;; mret (Err EAGAIN)
        else sem_take_forever ;;
          out ← gets (S:=W) w_outbound;
          frame_leave f ;;
          match out_frames out !! f with Some (Some ret) => mret ret | _ => ub end) Q w') →
  wp (outbound_enqueue (Some pkt) wait) Q w.
Proof.
  intros Hok Hw Hwf Hk. unfold outbound_enqueue.
  rewrite frame_ok_guard, within_bind, Hw by (done || apply Hok).
  pose proof (enter_put_spec pkt w Hwf) as Hput.
  rewrite wp_bind in Hput. rewrite wp_bind. eapply wp_mono; [exact Hput|]. cbn beta.
  clear Hput. intros f w0 Hput. rewrite wp_bind in Hput. rewrite wp_bind.
  eapply wp_mono; [exact Hput|]. cbn beta. intros [] w1.
  rewrite wp_ret. intros (q1 & q2 & rets & -> & ? & ? & ? & ? & ? & ? & ?). by eapply Hk.
Qed.

(** A caller that waits without a time limit is served: the worker transmits
    what was queued before it, in order, then its own frame, whose result is
    the one returned; the other waiting callers find theirs stored. *)
Lemma enqueue_forever_wp pkt (w : W) :
  frame_ok pkt → outbound_wf (w_outbound w) →
  wp (outbound_enqueue (Some pkt) K_FOREVER) (λ ret w', ∃ rets,
    length rets = length (out_queue (w_outbound w)) ∧
    tx_frame w w' ∧
    w_outbound w' = mk_outbound []
      (store_results (out_queue (w_outbound w)) rets (out_frames (w_outbound w)))
      (S (out_next_frame (w_outbound w))) ∧
    on_air (w_lora w') = on_air (w_lora w) ++ sent_of (out_queue (w_outbound w)) rets ++
      (if is_err ret then [] else [pkt]) ∧
    rx_active (w_lora w') = mt_radio_rx_armed (w_mt w')) w.
Proof.
  intros Hok Hwf. apply enqueue_wait_wp; [done..|]. cbv zeta.
  set (f := out_next_frame (w_outbound w)).
  intros w1 q1 q2 rets1 Hq Hlen Hf1 Hout1 Hair1 Hlive1 _.
  unfold sem_expires. do 2 wp_step. cbn beta iota. unfold sem_take_forever. do 3 wp_step.
  eapply wp_mono.
  { apply worker_spec; [done|]. rewrite Hout1 in Hlive1 |- *. exact Hlive1. }
  cbn beta.
  intros [] w2 (rets2 & Hlen2 & Hf2 & Hrx2 & Hout2 & Hair2). rewrite Hout1 in *. cbn -[store_results sent_of] in *.
  assert (∃ rets3 ret, rets2 = rets3 ++ [ret] ∧ length rets3 = length q2) as (rets3 & ret & -> & Hlen3).
  { rewrite length_app in Hlen2. destruct rets2 as [|ret rets3 _] using rev_ind; cbn in Hlen2; [lia|].
    rewrite length_app in Hlen2. cbn in Hlen2. exists rets3, ret. split; [done|lia]. }
  rewrite store_results_app in Hout2 by done. rewrite sent_of_app in Hair2 by done.
  assert (∀ it, it ∈ q2 → it_waiter it ≠ Some f) as Hne.
  { intros it Hin Hit. eapply (waiters_not_next _ it); [exact Hwf| |exact Hit|done].
    rewrite Hq. apply elem_of_app. by right. }
  assert (store_results (out_queue (w_outbound w)) (rets1 ++ rets3) (out_frames (w_outbound w)) =
    store_results q2 rets3 (store_results q1 rets1 (out_frames (w_outbound w)))) as Hst.
  { rewrite Hq. unfold store_results. rewrite zip_with_app by done. by rewrite foldl_app. }
  rewrite store_results_insert in Hout2 by done. unfold store_result in Hout2. cbn in Hout2.
  rewrite insert_insert_eq, <- Hst in Hout2.
  unfold frame_leave. wps. rewrite Hout2. cbn [out_frames]. rewrite lookup_insert_eq, wp_ret.
  exists (rets1 ++ rets3). split_and!.
  - rewrite Hq, !length_app. lia.
  - eapply tx_frame_trans; [|apply tx_frame_outbound]. by etrans.
  - cbn. rewrite Hout2. unfold set. cbn. f_equal. apply delete_insert_id.
    apply store_results_None; [apply Hwf|]. by apply Hwf.
  - rewrite Hq. unfold sent_of in *. rewrite zip_with_app, concat_app by done. cbn.
    rewrite Hair2, Hair1, <- !app_assoc. done.
  - destruct Hrx2 as [[? _]|?]; [by destruct q2|done].
Qed.

Lemma enqueue_no_wait_run pkt wait (w : W) :
  frame_ok pkt → is_no_wait wait = true →
  outbound_enqueue (Some pkt) wait w =
    if (length (out_queue (w_outbound w)) <? CONFIG_OUTBOUND_QUEUE_DEPTH)%nat
    then Some (Ok (), w <| w_outbound ::= set out_queue (λ q, q ++ [mk_item pkt None]) |>)
    else Some (Err ENOMSG, w).
Proof.
  intros Hok Hw. unfold outbound_enqueue.
  rewrite frame_ok_guard, within_bind, Hw by (done || apply Hok).
  unfold mbind, M_bind, gets. by case_if.
Qed.

Lemma enqueue_bad_frame pkt wait (w : W) :
  ¬ frame_ok pkt → outbound_enqueue (Some pkt) wait w = Some (Err EINVAL, w).
Proof.
  intros Hbad. unfold outbound_enqueue.
  replace (_ || _) with true; [done|]. symmetry. apply orb_true_iff.
  rewrite Nat.eqb_eq, Nat.ltb_lt. unfold frame_ok in Hbad. lia.
Qed.

(** Serving a queue whose last item points to a frame that is gone. *)
Lemma worker_dead_waiter items it f : ∀ w : W,
  out_queue (w_outbound w) = items ++ [it] → waiters_live items (out_frames (w_outbound w)) →
  (∀ it', it' ∈ items → it_waiter it' ≠ Some f) →
  it_waiter it = Some f → out_frames (w_outbound w) !! f = None →
  outbound_worker (S (length items)) w = None.
Proof.
  induction items as [|it1 items IH]; intros w Hq Hlive Hne Hit Hf.
  - cbn. unfold mbind, M_bind. replace (outbound_worker_step w) with (None (A:=() * W)); [done|].
    symmetry. unfold outbound_worker_step, mbind, M_bind, gets, modify. rewrite Hq. cbn.
    match goal with |- context [meshtastic_radio_send_wire_now ?p ?w1] =>
      destruct (proj1 (wp_run _ _ _) (send_wire_now_wp p w1)) as (ret & w2 & -> & Hfr & _) end.
    rewrite Hit. unfold complete_frame. destruct Hfr. rewrite rf_outbound0. cbn. by rewrite Hf.
  - change (outbound_worker (S (length (it1 :: items)))) with
      (outbound_worker_step ;; outbound_worker (S (length items)) : M W ()).
    unfold mbind, M_bind.
    destruct (proj1 (wp_run _ _ _) (worker_step_spec it1 (items ++ [it]) w Hq
      (waiters_live_head _ _ _ Hlive))) as (u & w1 & -> & ret & _ & _ & Hout & _).
    apply IH; try (rewrite Hout; cbn).
    + done.
    + apply store_result_live. intros it' g Hin. apply Hlive. by right.
    + intros it' Hin. apply Hne. by right.
    + done.
    + specialize (Hne it1). unfold store_result. cbn. destruct (it_waiter it1) as [g|]; [|done].
      rewrite lookup_insert_ne; [done|]. intros ->. by apply Hne; [left|].
Qed.

(** A burst of received frames. *)
Definition rx_accepted (fr : list Z * Z * Z) : bool := bool_decide (frame_ok fr.1.1).
Definition rx_slot_of (fr : list Z * Z * Z) : rx_slot := mk_rx_slot fr.1.1 fr.1.2 fr.2.
Definition rx_burst (frames : list (list Z * Z * Z)) : M W () :=
  mapM_ (λ fr, mt_rx_cb fr.1.1 fr.1.2 fr.2) frames.

Lemma rx_cb_run fr (w : W) :
  mt_rx_cb fr.1.1 fr.1.2 fr.2 w = Some ((),
    if rx_accepted fr then
      if (length (w_rx_queue w) <? CONFIG_RX_QUEUE_DEPTH)%nat
      then w <| w_rx_queue ::= (λ q, q ++ [rx_slot_of fr]) |>
      else w <| w_mt ::= set mt_status (set rx_dropped inc32) |>
    else w).
Proof.
  unfold mt_rx_cb, rx_accepted. case_bool_decide as Hok.
  - rewrite frame_ok_guard by done. cbv zeta.
    unfold mbind at 1, M_bind at 1, gets at 1. rewrite within_bind by apply Hok.
    unfold modify, status_modify.
    by case_if.
  - replace (_ || _) with true; [done|]. symmetry. apply orb_true_iff.
    rewrite Nat.eqb_eq, Nat.ltb_lt. unfold frame_ok in Hok. lia.
Qed.

(** ** Properties *)

(** C37: A transmission returns from every state of the node.  The driver,
    idle because reception is stopped first, is asked exactly this, in this
    order: the transmit configuration (the node's frequency and power, listen
    before talk over two symbols); if it takes that, the frame, again while
    the channel is busy and at most CONFIG_MESHTASTIC_TX_BUSY_RETRIES more
    times; and in every case the receive configuration, whose refusal the code
    ignores.  When the call reports success, and only then, the frame has gone
    on air, exactly once.  Reception is running exactly when the driver
    accepted to be re-armed and [radio_rx_armed] says so; a success moves
    [tx_packets], a failure [tx_failures], a refusal to re-arm
    [rx_rearm_failures], and no other counter moves; the airtime of a sent
    frame is charged, and nothing outside the radio has changed. *)
Theorem transmit_spec pkt (w : W) :
  ∃ ret w', meshtastic_radio_send_wire_now pkt w = Some (ret, w') ∧
    on_air (w_lora w') =
      (if is_err ret then on_air (w_lora w) else on_air (w_lora w) ++ [pkt]) ∧
    rx_active (w_lora w') = mt_radio_rx_armed (w_mt w') ∧
    w_lora_cfg w' = rx_config w ∧
    (∃ calls, modem_calls (w_lora w') = modem_calls (w_lora w) ++ calls ∧
      transmit_calls w pkt ret calls) ∧
    mt_status (w_mt w') = count_tx ret ((mt_status (w_mt w)) <| rx_rearm_failures ::= λ n,
      if mt_radio_rx_armed (w_mt w') then n else inc32 n |>) ∧
    (∃ ms, meshtastic_airtime_packet_ms (Z.of_nat (length pkt)) w' = Some (ms, w') ∧
      w_airtime w' =
        if is_err ret then w_airtime w else meshtastic_airtime_log AIRTIME_TX ms (w_airtime w)) ∧
    radio_frame w w'.
Proof.
  destruct (proj1 (wp_run _ _ _) (send_wire_now_wp pkt w))
    as (ret & w' & Hrun & ? & ? & ? & ? & ? & ? & ? & _).
  by exists ret, w'.
Qed.

(** A caller of [outbound_enqueue] that waits without a time limit is
    served: the worker transmits what was queued before, in order and each
    frame once, then the caller's own frame; the caller gets the result of its
    own frame, the other waiting callers find theirs stored in their own
    stack frames, and no access goes through a dangling pointer. *)
Theorem enqueue_forever_served pkt (w : W) :
  frame_ok pkt → outbound_wf (w_outbound w) →
  ∃ ret rets w', outbound_enqueue (Some pkt) K_FOREVER w = Some (ret, w') ∧
    length rets = length (out_queue (w_outbound w)) ∧
    on_air (w_lora w') = on_air (w_lora w) ++ sent_of (out_queue (w_outbound w)) rets ++
      (if is_err ret then [] else [pkt]) ∧
    out_queue (w_outbound w') = [] ∧
    out_frames (w_outbound w') =
      store_results (out_queue (w_outbound w)) rets (out_frames (w_outbound w)) ∧
    outbound_wf (w_outbound w') ∧ tx_frame w w'.
Proof.
  intros Hok Hwf.
  destruct (proj1 (wp_run _ _ _) (enqueue_forever_wp pkt w Hok Hwf))
    as (ret & w' & Hrun & rets & Hlen & Hf & Hout & Hair & _).
  exists ret, rets, w'. rewrite Hout. split_and!; try done.
  constructor; cbn -[store_results]; [lia|by intros it f Hin%elem_of_nil|].
  intros f Hle. destruct Hwf as [_ Hl Hfr].
  apply store_results_None; [done|]. apply Hfr. lia.
Qed.

(** With a finite time limit the protocol is unsafe: when the wait for
    an item that found room in the queue expires, the caller returns [-EAGAIN] while its item, with pointers into its
    stack frame, stays queued; once the worker has served the queue it writes
    through them, which is undefined behaviour. *)
Theorem enqueue_timeout_dangles pkt ms (w : W) :
  frame_ok pkt → 0 < ms → outbound_wf (w_outbound w) →
  (length (out_queue (w_outbound w)) < CONFIG_OUTBOUND_QUEUE_DEPTH)%nat →
  (k_sem_expires ms (w_kernel w)).1 = true →
  ∃ w', outbound_enqueue (Some pkt) (K_MSEC ms) w = Some (Err EAGAIN, w') ∧
    outbound_worker (length (out_queue (w_outbound w'))) w' = None.
Proof.
  intros Hok Hms Hwf Hroom Hexp. cut (wp (outbound_enqueue (Some pkt) (K_MSEC ms)) (λ ret w',
    ret = Err EAGAIN ∧ outbound_worker (length (out_queue (w_outbound w'))) w' = None) w).
  { intros (ret & w' & Hrun & -> & Hub)%wp_run. by exists w'. }
  apply enqueue_wait_wp; [done| |done|]; [cbn; lia|]. cbv zeta.
  set (f := out_next_frame (w_outbound w)).
  intros w1 q1 q2 rets1 Hq _ _ Hout1 _ Hlive1 Hker.
  unfold sem_expires, frame_leave. wps. rewrite Hker, Hexp by done. wps. split; [done|].
  cbn. rewrite Hout1 in *. cbn -[store_results] in *. rewrite length_app, Nat.add_1_r.
  assert (∀ it, it ∈ q2 → it_waiter it ≠ Some f) as Hne.
  { intros it Hin Hit. eapply (waiters_not_next _ it); [exact Hwf| |exact Hit|done].
    rewrite Hq. apply elem_of_app. by right. }
  eapply (worker_dead_waiter _ (mk_item pkt (Some f)) f); cbn -[store_results].
  - by rewrite Hout1.
  - rewrite Hout1. cbn -[store_results]. intros it g Hin Hg.
    rewrite lookup_delete_ne by (intros <-; by eapply Hne).
    eapply Hlive1; [apply elem_of_app; by left|done].
  - done.
  - done.
  - rewrite Hout1. apply lookup_delete_eq.
Qed.

(** A burst of frames from the driver: those of a legal size enter the
    receive queue in order until it is full, which it never exceeds; every
    further legal one is dropped and counted, and nothing else happens. *)
Theorem rx_burst_spec frames (w : W) (acc := rx_slot_of <$> filter (λ fr, frame_ok fr.1.1) frames) :
  (length (w_rx_queue w) ≤ CONFIG_RX_QUEUE_DEPTH)%nat →
  is_u32 (rx_dropped (mt_status (w_mt w))) →
  rx_burst frames w = Some ((), w
    <| w_rx_queue := take CONFIG_RX_QUEUE_DEPTH (w_rx_queue w ++ acc) |>
    <| w_mt ::= set mt_status (set rx_dropped (λ n, u32 (n + Z.of_nat
         (length (w_rx_queue w ++ acc) - CONFIG_RX_QUEUE_DEPTH)))) |>).
Proof.
  intros Hlen Hn. revert w acc Hlen Hn. induction frames as [|fr frames IH]; intros w acc Hlen Hn.
  - unfold rx_burst, acc. cbn. rewrite app_nil_r, take_ge by done.
    rewrite (proj2 (Nat.sub_0_le _ _)) by done. destruct w as [[? ? ? ? ? ? ? ? ? ? ? ? ? []]].
    unfold mret, M_ret, set in *. cbn in *. by rewrite Z.add_0_r, u32_id.
  - unfold rx_burst. cbn [mapM_]. unfold mbind at 1, M_bind. rewrite rx_cb_run.
    fold (rx_burst frames). subst acc. rewrite filter_cons. unfold rx_accepted.
    destruct (decide (frame_ok fr.1.1)) as [Hok|Hok];
      [rewrite bool_decide_true by done|rewrite bool_decide_false by done; by apply IH].
    rewrite fmap_cons. case_if.
    + apply Nat.ltb_lt in E. rewrite IH; [|cbn; rewrite length_app; cbn; lia|done].
      cbn. by rewrite <- app_assoc.
    + apply Nat.ltb_ge in E. rewrite IH; [|done|apply u32_is_u32]. cbn.
      assert (length (w_rx_queue w) = CONFIG_RX_QUEUE_DEPTH) as Hd by lia.
      unfold set. cbn. rewrite !length_app, !length_cons, <- Hd, !take_app_length.
      assert (∀ n a b, u32 (inc32 n + Z.of_nat (a + b - a)) = u32 (n + Z.of_nat (a + S b - a)))
        as Har by (intros; unfold inc32; zmod).
      by rewrite Har.
Qed.
End radio_correct.

(** ** The mock platform *)

(** A channel that is busy for the next [n] attempts. *)
Lemma mock_retries `{Kconfig} pkt n retries : ∀ w : world toy_psa mock_lora mock_kernel,
  mock_rx (w_lora w) = false → mock_busy (w_lora w) = n → mock_err (w_lora w) = None →
  ∃ w', lora_send_retry pkt retries w =
      Some (if (n <=? retries)%nat then Ok () else Err EBUSY, w') ∧
    mock_busy (w_lora w') = (n - S retries)%nat ∧
    mock_air (w_lora w') = mock_air (w_lora w) ++ (if (n <=? retries)%nat then [pkt] else []) ∧
    mock_rx (w_lora w') = false.
Proof.
  revert n. induction retries as [|retries IH]; intros n w Hrx Hn He.
  - cbn. unfold lora_call, zoom, state, mbind, M_bind. cbn. rewrite Hrx, Hn.
    destruct n; cbn; rewrite ?He; cbn.
    + eexists. split; [done|]. done.
    + eexists. split; [done|]. cbn. rewrite app_nil_r. split; [lia|done].
  - cbn [lora_send_retry]. unfold lora_call, zoom, state, mbind, M_bind. cbn [lora_send mock_lora_driver].
    rewrite Hrx, Hn. destruct n as [|n]; [rewrite He|].
    + eexists. split; [done|]. split; [|done]. cbn. lia.
    + unfold mt_busy_backoff_ms, sleep, rand32, zoom, state, modify, mbind, M_bind, mret, M_ret.
      cbn -[lora_send_retry]. case_if; cbn -[lora_send_retry];
        match goal with |- context [lora_send_retry pkt retries ?w1] =>
          destruct (IH n w1) as (w' & Hrun & Hb & Ha & Hr); [done..|];
          exists w'; rewrite Hrun; cbn in Ha, Hb |- *; rewrite Ha; done end.
Qed.

(** While the channel is busy the worker backs off and tries again, at
    most CONFIG_MESHTASTIC_TX_BUSY_RETRIES times: a channel that is free by
    then carries the frame, a channel busy for longer makes the transmission
    fail with [-EBUSY] after exactly one attempt more than that. *)
Theorem busy_channel_retries `{Kconfig} pkt (w : world toy_psa mock_lora mock_kernel) :
  mock_err (w_lora w) = None →
  let n := mock_busy (w_lora w) in
  ∃ w', meshtastic_radio_send_wire_now pkt w =
      Some (if (n <=? CONFIG_TX_BUSY_RETRIES)%nat then Ok () else Err EBUSY, w') ∧
    mock_busy (w_lora w') = (n - S CONFIG_TX_BUSY_RETRIES)%nat ∧
    mock_air (w_lora w') = mock_air (w_lora w) ++
      (if (n <=? CONFIG_TX_BUSY_RETRIES)%nat then [pkt] else []).
Proof.
  intros He n. cut (wp (meshtastic_radio_send_wire_now pkt) (λ ret w',
    ret = (if (n <=? CONFIG_TX_BUSY_RETRIES)%nat then Ok () else Err EBUSY) ∧
    mock_busy (w_lora w') = (n - S CONFIG_TX_BUSY_RETRIES)%nat ∧
    mock_air (w_lora w') = mock_air (w_lora w) ++
      (if (n <=? CONFIG_TX_BUSY_RETRIES)%nat then [pkt] else [])) w).
  { intros (ret & w' & Hrun & -> & ?)%wp_run. by exists w'. }
  unfold meshtastic_radio_send_wire_now, lora_call. do 14 wp_step. cbn beta.
  match goal with |- context [lora_config ?c ?l] =>
    change (lora_config c l) with (Ok () : result (),
      l <| mock_calls ::= (λ cs, cs ++ [Configured c (Ok ())]) |>) end. cbn [fst snd].
  wp_step. match goal with |- wp _ _ ?w1 =>
    destruct (mock_retries pkt n CONFIG_TX_BUSY_RETRIES w1) as (w2 & Hrun & Hb & Ha & Hr);
      [done..|] end.
  unfold wp at 1. rewrite Hrun. clear Hrun. unfold mt_radio_arm_rx, lora_call. wps. cbn.
  rewrite Hr. cbn.
  destruct (n <=? CONFIG_TX_BUSY_RETRIES)%nat; unfold status_modify, airtime_log,
    meshtastic_airtime_packet_ms, meshtastic_emit_event; wps; cbn; [done|].
  by case_if; wps.
Qed.

Lemma transmit_spec_witness (w := mock_world (H:=default_kconfig) (mock_radio 2) (mock_clock false)) :
  ∃ ret w', meshtastic_radio_send_wire_now (H:=default_kconfig) [1; 2; 3] w = Some (ret, w') ∧
    on_air (w_lora w') =
      (if is_err ret then on_air (w_lora w) else on_air (w_lora w) ++ [[1; 2; 3]]) ∧
    rx_active (w_lora w') = mt_radio_rx_armed (w_mt w') ∧
    w_lora_cfg w' = rx_config w ∧
    (∃ calls, modem_calls (w_lora w') = modem_calls (w_lora w) ++ calls ∧
      transmit_calls (H:=default_kconfig) w [1; 2; 3] ret calls) ∧
    mt_status (w_mt w') = count_tx ret ((mt_status (w_mt w)) <| rx_rearm_failures ::= λ n,
      if mt_radio_rx_armed (w_mt w') then n else inc32 n |>) ∧
    (∃ ms, meshtastic_airtime_packet_ms 3 w' = Some (ms, w') ∧
      w_airtime w' =
        if is_err ret then w_airtime w else meshtastic_airtime_log AIRTIME_TX ms (w_airtime w)) ∧
    radio_frame w w'.
Proof. apply (transmit_spec (H:=default_kconfig) [1; 2; 3] w). Defined.

Lemma busy_channel_retries_witness (w := mock_world (H:=default_kconfig) (mock_radio 7) (mock_clock false)) :
  ∃ w', meshtastic_radio_send_wire_now (H:=default_kconfig) [1; 2; 3] w = Some (Err EBUSY, w') ∧
    mock_busy (w_lora w') = 0%nat ∧ mock_air (w_lora w') = [].
Proof. apply (busy_channel_retries (H:=default_kconfig) [1; 2; 3] w). done. Defined.

(** Two frames are queued, one of a caller that waits in frame 0. *)
Definition queued_world (expires : bool) : world toy_psa mock_lora mock_kernel :=
  (mock_world (H:=default_kconfig) (mock_radio 2) (mock_clock expires))
    <| w_outbound := mk_outbound [mk_item [1] (Some 0%nat); mk_item [2; 2] None]
                       {[0%nat := None]} 1 |>.
Lemma queued_world_wf expires :
  outbound_wf (H:=default_kconfig) (w_outbound (queued_world expires)).
Proof.
  constructor; cbn; [lia| |].
  - intros it f [->|[->|[]%elem_of_nil]%elem_of_cons]%elem_of_cons [= <-]. done.
  - intros f Hf. rewrite lookup_singleton_ne; [done|lia].
Qed.

Lemma enqueue_forever_served_witness (w := queued_world false) :
  ∃ ret rets w', outbound_enqueue (H:=default_kconfig) (Some [7; 7; 7]) K_FOREVER w
      = Some (ret, w') ∧
    length rets = length (out_queue (w_outbound w)) ∧
    on_air (w_lora w') = on_air (w_lora w) ++ sent_of (out_queue (w_outbound w)) rets ++
      (if is_err ret then [] else [[7; 7; 7]]) ∧
    out_queue (w_outbound w') = [] ∧
    out_frames (w_outbound w') =
      store_results (out_queue (w_outbound w)) rets (out_frames (w_outbound w)) ∧
    outbound_wf (H:=default_kconfig) (w_outbound w') ∧ tx_frame w w'.
Proof.
  apply (@enqueue_forever_served _ _ _ default_kconfig default_kconfig_ranges _ _ _ [7; 7; 7] w).
  - unfold frame_ok. cbn. unfold MESHTASTIC_PKT_MAX. lia.
  - apply queued_world_wf.
Defined.

Lemma enqueue_timeout_dangles_witness (w := queued_world true) :
  ∃ w', outbound_enqueue (H:=default_kconfig) (Some [7; 7; 7]) (K_MSEC 100) w
      = Some (Err EAGAIN, w') ∧
    outbound_worker (H:=default_kconfig) (length (out_queue (w_outbound w'))) w' = None.
Proof.
  apply (@enqueue_timeout_dangles _ _ _ default_kconfig default_kconfig_ranges _ _ _ [7; 7; 7] 100 w).
  - unfold frame_ok. cbn. unfold MESHTASTIC_PKT_MAX. lia.
  - lia.
  - apply queued_world_wf.
  - cbn. lia.
  - done.
Defined.

Lemma rx_burst_spec_witness (w := mock_world (H:=default_kconfig) (mock_radio 0) (mock_clock false)) :
  rx_burst (H:=default_kconfig) [([1], -80, 5); ([], 0, 0); ([2], -90, 1)] w = Some ((), w
    <| w_rx_queue := [mk_rx_slot [1] (-80) 5; mk_rx_slot [2] (-90) 1] |>
    <| w_mt ::= set mt_status (set rx_dropped (λ n, u32 (n + 0))) |>).
Proof.
  apply (@rx_burst_spec _ _ _ default_kconfig [([1], -80, 5); ([], 0, 0); ([2], -90, 1)] w).
  - cbn. lia.
  - done.
Defined.
