(* ===== verification/Reliable.v ===== *)
(** * Acknowledgement tracking (src/meshtastic_reliable.c)

    The table of unicast packets waiting for an acknowledgement, the work item
    that retransmits them, and the outcome each of them ends in.  Proved: what
    each operation does on every branch, that the work item is armed no later
    than the first packet is due, and that a packet that is never
    acknowledged is retransmitted as often as configured and then reported. *)

From S2P Require Import Prelude Types External Mock Core Airtime Channels NodeDB Store World Radio.

(** [struct reliable_outcome]. *)
Record reliable_outcome := mk_outcome { oc_id : Z; oc_dest : Z; oc_portnum : Z }.
Definition outcome_of (e : reliable_entry) : reliable_outcome :=
  mk_outcome (re_id e) (re_dest e) (re_portnum e).

(** [id] 0 marks a free slot. *)
Definition re_live (e : reliable_entry) : bool := negb (re_id e =? 0).

Section reliable.
Context {K L T : Type} `{Kconfig} `{LoraDriver L} `{Kernel T} `{Pb Routing}.
Notation W := (world K L T).

Definition reliable_retry_delay_ms : M W Z :=
  if 0 <? CONFIG_RELIABLE_RETRY_JITTER_MS then
    r ← rand32;
    mret (CONFIG_RELIABLE_RETRY_INTERVAL_MS
          + r `mod` u32 (CONFIG_RELIABLE_RETRY_JITTER_MS + 1))
  else mret CONFIG_RELIABLE_RETRY_INTERVAL_MS.

(** The packet an outcome is reported with. *)
Definition outcome_packet (node_id : Z) (outcome : reliable_outcome) : packet :=
  packet_zero <| p_from := node_id |> <| p_to := oc_dest outcome |> <| p_id := oc_id outcome |>
    <| p_portnum := oc_portnum outcome |> <| p_payload := None |> <| p_payload_len := 0%nat |>
    <| p_channel_index := MESHTASTIC_CHANNEL_INDEX_INVALID |> <| p_want_ack := true |>.

Definition reliable_emit (outcome : reliable_outcome) (type : event_type)
    (err : option errno) : M W () :=
  mt ← gets (S:=W) w_mt;
  meshtastic_emit_event type err (Some (outcome_packet (mt_node_id mt) outcome)).

(** [next] over the table, from INT64_MAX. *)
Definition earliest_due (es : list reliable_entry) : Z :=
  foldl (λ next e, if re_live e then Z.min next (re_due_ms e) else next) INT64_MAX es.

(** The delay handed to [k_work_reschedule] counts from [now]. *)
Definition reliable_reschedule (now : Z) : M W () :=
  r ← gets (S:=W) w_reliable;
  let next := earliest_due (reliable_entries r) in
  if next =? INT64_MAX then mret ()
  else modify (set w_reliable (set reliable_work (λ _, Some (now + Z.max (next - now) 0)))).

(** The result and [*err]. *)
Definition reliable_routing_is_ack (payload : option (list Z)) (payload_len : nat)
    : bool * option errno :=
  match payload with
  | None => (true, None)
  | Some payload =>
      if (payload_len =? 0)%nat then (true, None)
      else match pb_decode (X:=Routing) (take payload_len payload) with
           | None => (true, None)
           | Some routing =>
               if negb (rt_is_error_reason routing)
                  || (rt_error_reason routing =? Routing_Error_NONE)
               then (true, None)
               else (false, Some EHOSTUNREACH)
           end
  end.

Definition meshtastic_reliable_reset : M W () :=
  modify (set w_reliable (set reliable_entries
            (λ _, replicate CONFIG_RELIABLE_MAX_PENDING reliable_entry_zero))) ;;
  modify (set w_reliable (set reliable_work (λ _, None))).

Definition meshtastic_reliable_track (p : option packet) (wire : option (list Z)) : M W () :=
  match p, wire with
  | Some packet, Some wire =>
      if (length wire =? 0)%nat || (MESHTASTIC_PKT_MAX <? length wire)%nat then mret ()
      else
        mt ← gets (S:=W) w_mt;
        if negb (p_want_ack packet) || (p_id packet =? 0)
           || (p_to packet =? MESHTASTIC_NODE_BROADCAST) || (p_to packet =? mt_node_id mt)
           || (p_portnum packet =? MESHTASTIC_PORT_ROUTING)
        then mret ()
        else
          now ← uptime_get;
          r ← gets (S:=W) w_reliable;
          match find_index (λ e, re_id e =? 0) (reliable_entries r) with
          | None => mret ()
          | Some i =>
              delay ← reliable_retry_delay_ms;
              within (length wire) MESHTASTIC_PKT_MAX ;;
              modify (set w_reliable (set reliable_entries (alter (λ e,
                e <| re_id := p_id packet |> <| re_dest := p_to packet |>
                  <| re_portnum := p_portnum packet |>
                  <| re_attempts_left := u8 CONFIG_RELIABLE_RETRANSMISSIONS |>
                  <| re_due_ms := now + delay |> <| re_wire := wire |>) i))) ;;
              reliable_reschedule now
          end
  | _, _ => mret ()
  end.

Definition meshtastic_reliable_on_routing (p : option packet) : M W bool :=
  match p with
  | None => mret false
  | Some packet =>
      mt ← gets (S:=W) w_mt;
      if negb (p_portnum packet =? MESHTASTIC_PORT_ROUTING)
         || negb (p_to packet =? mt_node_id mt) || (p_request_id packet =? 0)
      then mret false
      else
        let '(acked, err) :=
          reliable_routing_is_ack (p_payload packet) (p_payload_len packet) in
        r ← gets (S:=W) w_reliable;
        match find_index (λ e, re_id e =? p_request_id packet) (reliable_entries r) with
        | None => mret false
        | Some i =>
            let outcome :=
              outcome_of (default reliable_entry_zero (reliable_entries r !! i)) in
            modify (set w_reliable (set reliable_entries (alter (set re_id (λ _, 0)) i))) ;;
            (if (acked : bool) then reliable_emit outcome TX_ACKED None
             else reliable_emit outcome TX_NO_ACK err) ;;
            mret true
        end
  end.

Definition meshtastic_reliable_pending : M W nat :=
  r ← gets (S:=W) w_reliable;
  mret (length (filter (λ e, re_live e) (reliable_entries r))).

(** The loop of [reliable_work_fn], over the slots from the first: the slots
    it leaves and the outcomes it collects in [expired]. *)
Fixpoint reliable_scan (now : Z) (es : list reliable_entry)
    : M W (list reliable_entry * list reliable_outcome) :=
  match es with
  | [] => mret ([], [])
  | e :: es =>
      if (re_id e =? 0) || (now <? re_due_ms e) then
        rest ← reliable_scan now es; mret (e :: rest.1, rest.2)
      else if re_attempts_left e =? 0 then
        rest ← reliable_scan now es;
        mret (e <| re_id := 0 |> :: rest.1, outcome_of e :: rest.2)
      else
        delay ← reliable_retry_delay_ms;
        meshtastic_radio_send_wire (re_wire e) ;;
        rest ← reliable_scan now es;
        mret (e <| re_attempts_left ::= (λ n, n - 1) |> <| re_due_ms := now + delay |>
                :: rest.1, rest.2)
  end.

(** The work item runs: it is no longer scheduled. *)
Definition reliable_work_fn : M W () :=
  modify (set w_reliable (set reliable_work (λ _, None))) ;;
  now ← uptime_get;
  r ← gets (S:=W) w_reliable;
  scanned ← reliable_scan now (reliable_entries r);
  modify (set w_reliable (set reliable_entries (λ _, scanned.1))) ;;
  reliable_reschedule now ;;
  mapM_ (λ outcome, reliable_emit outcome TX_NO_ACK (Some ETIMEDOUT)) scanned.2.
End reliable.

(** ** Specification *)

Definition re_due (now : Z) (e : reliable_entry) : bool := re_live e && (re_due_ms e <=? now).
Definition re_expired (now : Z) (e : reliable_entry) : bool :=
  re_due now e && (re_attempts_left e =? 0).
Definition re_retried (now : Z) (e : reliable_entry) : bool :=
  re_due now e && negb (re_attempts_left e =? 0).

(** What the timer does to one slot. *)
Definition entry_step `{Kconfig} (now : Z) (e e' : reliable_entry) : Prop :=
  if re_expired now e then e' = e <| re_id := 0 |>
  else if re_retried now e then ∃ delay,
    CONFIG_RELIABLE_RETRY_INTERVAL_MS ≤ delay
      ≤ CONFIG_RELIABLE_RETRY_INTERVAL_MS + CONFIG_RELIABLE_RETRY_JITTER_MS ∧
    e' = e <| re_attempts_left ::= (λ n, n - 1) |> <| re_due_ms := now + delay |>
  else e' = e.

(** A slot holds a packet that can be sent again. *)
Definition entry_wf `{Kconfig} (e : reliable_entry) : Prop :=
  re_live e = true → frame_ok (re_wire e) ∧
    0 ≤ re_attempts_left e ≤ CONFIG_RELIABLE_RETRANSMISSIONS ∧ re_due_ms e < INT64_MAX.

(** The table, and the work item armed for every pending packet: at a time
    [clock] that has passed, it is due no later than the packet. *)
Record reliable_wf `{Kconfig} (clock : Z) (r : reliable) : Prop := {
  rw_size : length (reliable_entries r) = CONFIG_RELIABLE_MAX_PENDING;
  rw_entries : Forall entry_wf (reliable_entries r);
  rw_armed e : e ∈ reliable_entries r → re_live e = true →
    ∃ t, reliable_work r = Some t ∧ t ≤ Z.max clock (re_due_ms e)
}.

(** The events the application sees. *)
Definition outcome_events (mt : context) (type : event_type) (err : option errno)
    (ocs : list reliable_outcome) : list observation :=
  if mt_event_cb mt
  then (λ oc, Ob_event (mk_event type err (Some (outcome_packet (mt_node_id mt) oc)))) <$> ocs
  else [].

Section reliable_correct.
Context {K L T : Type} `{KconfigRanges} `{LoraDriver L} `{KernelLaws T} `{Pb Routing}.
Notation W := (world K L T).
Implicit Types (w : W) (e : reliable_entry) (es : list reliable_entry).

Lemma retry_delay_wp w :
  wp reliable_retry_delay_ms (λ d w',
    CONFIG_RELIABLE_RETRY_INTERVAL_MS ≤ d
      ≤ CONFIG_RELIABLE_RETRY_INTERVAL_MS + CONFIG_RELIABLE_RETRY_JITTER_MS ∧
    ∃ t, w' = w <| w_kernel := t |>) w.
Proof.
  pose proof reliable_jitter_range. unfold reliable_retry_delay_ms, rand32. case_if; wps; boolp.
  - rewrite u32_id by zmod. split; [|by eexists]. cbn.
    pose proof (Z.mod_pos_bound (sys_rand32_get (w_kernel w)).1
      (CONFIG_RELIABLE_RETRY_JITTER_MS + 1)). lia.
  - split; [lia|]. exists (w_kernel w). by destruct w.
Qed.

Definition retry_item e : outbound_item := mk_item (re_wire e) None.

(** The retransmissions that find room in the transmit queue. *)
Definition queue_retries es w : W :=
  let q := out_queue (w_outbound w) in
  w <| w_outbound ::= set out_queue (λ _,
    q ++ take (CONFIG_OUTBOUND_QUEUE_DEPTH - length q) (retry_item <$> es)) |>.

Lemma queue_retries_nil w : queue_retries [] w = w.
Proof.
  unfold queue_retries, set. cbn. rewrite take_nil, app_nil_r.
  by destruct w as [? ? ? ? ? [] ? ? ? ? ? ? ? ?].
Qed.

Lemma send_retry_run e es w :
  frame_ok (re_wire e) →
  ∃ ret w', meshtastic_radio_send_wire (re_wire e) w = Some (ret, w') ∧
    w_kernel w' = w_kernel w ∧ ∀ t, queue_retries es (w' <| w_kernel := t |>) =
      queue_retries (e :: es) (w <| w_kernel := t |>).
Proof.
  intros Hok. unfold meshtastic_radio_send_wire. rewrite enqueue_no_wait_run by done.
  case_if; (eexists _, _; split; [done|]; split; [done|]; intros t; unfold queue_retries, set; cbn).
  - apply Nat.ltb_lt in E. rewrite length_app, Nat.sub_add_distr, <- app_assoc. cbn.
    destruct (CONFIG_OUTBOUND_QUEUE_DEPTH - length (out_queue (w_outbound w)))%nat as [|n] eqn:En;
      [lia|]. cbn. by rewrite Nat.sub_0_r.
  - apply Nat.ltb_ge in E. by rewrite !(proj2 (Nat.sub_0_le _ _)) by done.
Qed.

Lemma scan_wp now es w :
  Forall entry_wf es →
  wp (reliable_scan now es) (λ res w',
    Forall2 (entry_step now) es res.1 ∧
    res.2 = outcome_of <$> filter (λ e, re_expired now e) es ∧
    ∃ t, w' = queue_retries (filter (λ e, re_retried now e) es) (w <| w_kernel := t |>)) w.
Proof.
  revert w. induction es as [|e es IH]; intros w Hwf; cbn [reliable_scan].
  { rewrite wp_ret. split_and!; [done..|]. exists (w_kernel w). cbn.
    rewrite queue_retries_nil. by destruct w. }
  apply Forall_cons in Hwf as [He Hwf].
  assert ((re_id e =? 0) || (now <? re_due_ms e) = negb (re_due now e)) as ->.
  { unfold re_due, re_live. rewrite negb_andb, negb_involutive, Z.leb_antisym, negb_involutive.
    done. }
  rewrite !filter_bool_cons. unfold re_expired at 1, re_retried at 1.
  destruct (re_due now e) eqn:Edue; cbn [negb andb]; cycle 1.
  { wp_step. eapply wp_mono; [by apply IH|]. intros res w' (Hs & Ho & t & Hw). rewrite wp_ret.
    cbn. split_and!; [|done|by exists t]. constructor; [|done].
    unfold entry_step, re_expired, re_retried. by rewrite Edue. }
  destruct (re_attempts_left e =? 0) eqn:Eat; cbn [negb]; cbn beta iota.
  { wp_step. eapply wp_mono; [by apply IH|]. intros res w' (Hs & Ho & t & Hw). rewrite wp_ret.
    cbn. split_and!; [|by rewrite Ho|by exists t]. constructor; [|done].
    unfold entry_step, re_expired. by rewrite Edue, Eat. }
  wp_step. eapply wp_mono; [apply retry_delay_wp|]. intros d w1 (Hd & t1 & ->). wp_step.
  assert (re_live e = true) as Hlive by (unfold re_due in Edue; by boolp).
  destruct (send_retry_run e (filter (λ e, re_retried now e) es) (w <| w_kernel := t1 |>))
    as (ret & w2 & Hrun & Hk & Hq); [by apply He|].
  unfold wp at 1. rewrite Hrun. wp_step. eapply wp_mono; [by apply IH|].
  intros res w' (Hs & Ho & t & Hw). rewrite wp_ret. cbn. split_and!; [|done|].
  - constructor; [|done]. unfold entry_step, re_expired, re_retried. rewrite Edue, Eat. cbn.
    by exists d.
  - exists t. rewrite Hw. apply Hq.
Qed.

Lemma earliest_due_le es : ∀ next, let m := foldl (λ next e,
    if re_live e then Z.min next (re_due_ms e) else next) next es in
  m ≤ next ∧ (∀ e, e ∈ es → re_live e = true → m ≤ re_due_ms e).
Proof.
  induction es as [|e es IH]; intros next; cbn.
  { split; [lia|]. by intros e ?%elem_of_nil. }
  destruct (IH (if re_live e then Z.min next (re_due_ms e) else next)) as [Hle Hall].
  split; [destruct (re_live e); lia|]. intros e' [->|Hin]%elem_of_cons Hl; [|by apply Hall].
  rewrite Hl in *. lia.
Qed.

(** Re-arming the work item. *)
Definition rearm (now : Z) (r : reliable) : reliable :=
  let next := earliest_due (reliable_entries r) in
  if next =? INT64_MAX then r else r <| reliable_work := Some (Z.max next now) |>.

Lemma reschedule_run now w :
  reliable_reschedule now w = Some ((), w <| w_reliable ::= rearm now |>).
Proof.
  unfold reliable_reschedule, rearm, mbind, M_bind, gets, modify. case_if.
  - unfold set. cbn. rewrite E. by destruct w.
  - unfold set. cbn. rewrite E.
    by replace (now + Z.max (earliest_due (reliable_entries (w_reliable w)) - now) 0) with
      (Z.max (earliest_due (reliable_entries (w_reliable w))) now) by lia.
Qed.

Lemma rearm_entries now r : reliable_entries (rearm now r) = reliable_entries r.
Proof. unfold rearm. by case_if. Qed.

(** Re-arming makes any table well-formed, whatever the timer was. *)
Lemma rearm_wf now r :
  length (reliable_entries r) = CONFIG_RELIABLE_MAX_PENDING →
  Forall entry_wf (reliable_entries r) → reliable_wf now (rearm now r).
Proof.
  intros Hlen Hes. constructor; rewrite ?rearm_entries; [done..|]. intros e Hin Hl.
  destruct (earliest_due_le (reliable_entries r) INT64_MAX) as [_ Hle].
  specialize (Hle e Hin Hl). change (foldl _ _ _) with (earliest_due (reliable_entries r)) in Hle.
  rewrite Forall_forall in Hes. destruct (Hes e Hin Hl) as (_ & _ & Hd). unfold rearm.
  destruct (Z.eqb_spec (earliest_due (reliable_entries r)) INT64_MAX); [lia|].
  eexists. split; [done|]. lia.
Qed.

Lemma emit_run oc type err w :
  reliable_emit oc type err w =
    Some ((), w <| w_trace ::= (λ tr, tr ++ outcome_events (w_mt w) type err [oc]) |>).
Proof.
  unfold reliable_emit, meshtastic_emit_event, outcome_events, mbind, M_bind, gets, modify.
  case_if; [done|]. unfold set, mret, M_ret. cbn. rewrite app_nil_r. by destruct w.
Qed.

Lemma emit_all_run ocs type err w :
  mapM_ (λ oc, reliable_emit oc type err) ocs w =
    Some ((), w <| w_trace ::= (λ tr, tr ++ outcome_events (w_mt w) type err ocs) |>).
Proof.
  revert w. induction ocs as [|oc ocs IH]; intros w; cbn [mapM_].
  - unfold outcome_events, set, mret, M_ret. cbn. case_if; rewrite app_nil_r; by destruct w.
  - unfold mbind at 1, M_bind. rewrite emit_run, IH. unfold outcome_events, set. cbn.
    case_if; cbn; by rewrite ?app_nil_r, <- ?app_assoc.
Qed.

(** ** The timer *)

Lemma work_fn_wp w (now := (k_uptime_get (w_kernel w)).1) (es := reliable_entries (w_reliable w)) :
  Forall entry_wf es →
  wp reliable_work_fn (λ _ w', ∃ es' t,
    Forall2 (entry_step now) es es' ∧
    w' = (queue_retries (filter (λ e, re_retried now e) es) w)
      <| w_kernel := t |> <| w_reliable := rearm now (mk_reliable_state es' None) |>
      <| w_trace ::= (λ tr, tr ++ outcome_events (w_mt w) TX_NO_ACK (Some ETIMEDOUT)
          (outcome_of <$> filter (λ e, re_expired now e) es)) |>) w.
Proof.
  intros Hwf. unfold reliable_work_fn, uptime_get. wps. eapply wp_mono; [by apply scan_wp|].
  intros [es' ocs] w' (Hs & Ho & t & Hw). cbn [fst snd] in *. wps.
  unfold wp at 1. rewrite reschedule_run. unfold wp. rewrite emit_all_run. exists es', t.
  split; [done|]. rewrite Hw, Ho. done.
Qed.

Lemma clock_room w d (now := (k_uptime_get (w_kernel w)).1) :
  d ≤ CONFIG_RELIABLE_RETRY_INTERVAL_MS + CONFIG_RELIABLE_RETRY_JITTER_MS → now + d < INT64_MAX.
Proof.
  pose proof reliable_interval_range. pose proof reliable_jitter_range.
  pose proof (uptime_range (w_kernel w)) as Hup. change (INT64_MAX `div` 2) with 4611686018427387903 in Hup.
  unfold INT64_MAX. lia.
Qed.

Lemma entry_step_wf w e e' (now := (k_uptime_get (w_kernel w)).1) :
  entry_wf e → entry_step now e e' → entry_wf e'.
Proof.
  unfold entry_wf, entry_step. intros He. case_if; [intros -> Hl; done|].
  case_if; [|by intros ->]. intros (d & Hd & ->) Hl. cbn in *.
  destruct (He Hl) as (Hw & Ha & _). unfold re_retried in E0. boolp.
  split; [done|]. split; [lia|]. by apply clock_room.
Qed.

Lemma entry_step_all_wf w es es' (now := (k_uptime_get (w_kernel w)).1) :
  Forall entry_wf es → Forall2 (entry_step now) es es' → Forall entry_wf es'.
Proof.
  intros Hes. induction 1 as [|e e' es es' Hstep _ IH]; [constructor|].
  apply Forall_cons in Hes as [He Hes]. constructor; [by eapply entry_step_wf|by apply IH].
Qed.

(** Which packets are tracked, and what a slot then holds. *)
Definition trackable (node_id : Z) (p : packet) : bool :=
  p_want_ack p && negb (p_id p =? 0) && negb (p_to p =? MESHTASTIC_NODE_BROADCAST)
  && negb (p_to p =? node_id) && negb (p_portnum p =? MESHTASTIC_PORT_ROUTING).
Definition tracked_entry (p : packet) (wire : list Z) (due : Z) : reliable_entry :=
  mk_reliable (p_id p) (p_to p) (p_portnum p) due CONFIG_RELIABLE_RETRANSMISSIONS wire.

Lemma track_wp p wire w (es := reliable_entries (w_reliable w))
    (now := (k_uptime_get (w_kernel w)).1) :
  wp (meshtastic_reliable_track (Some p) (Some wire)) (λ _ w', ∃ t,
    if negb (trackable (mt_node_id (w_mt w)) p) || negb (bool_decide (frame_ok wire)) then w' = w
    else match find_index (λ e, negb (re_live e)) es with
         | None => w' = w <| w_kernel := t |>
         | Some i => ∃ d,
             CONFIG_RELIABLE_RETRY_INTERVAL_MS ≤ d
               ≤ CONFIG_RELIABLE_RETRY_INTERVAL_MS + CONFIG_RELIABLE_RETRY_JITTER_MS ∧
             w' = w <| w_kernel := t |> <| w_reliable ::= (λ r, rearm now
               (r <| reliable_entries := <[i := tracked_entry p wire (now + d)]> es |>)) |>
         end) w.
Proof.
  unfold meshtastic_reliable_track. case_bool_decide as Hok; cycle 1.
  { replace (_ || _) with true; [|symmetry; apply orb_true_iff; rewrite Nat.eqb_eq, Nat.ltb_lt;
      unfold frame_ok in Hok; lia].
    wps. exists (w_kernel w). by rewrite orb_true_r. }
  rewrite frame_ok_guard, orb_false_r by done. wps. cbn beta.
  assert (negb (p_want_ack p) || (p_id p =? 0) || (p_to p =? MESHTASTIC_NODE_BROADCAST)
    || (p_to p =? mt_node_id (w_mt w)) || (p_portnum p =? MESHTASTIC_PORT_ROUTING)
    = negb (trackable (mt_node_id (w_mt w)) p)) as ->.
  { unfold trackable. by rewrite !negb_andb, !negb_involutive. }
  destruct (negb (trackable _ _)) eqn:Et; wps; [by exists (w_kernel w)|].
  unfold uptime_get. wps.
  assert (∀ l : list reliable_entry, find_index (λ e, re_id e =? 0) l =
    find_index (λ e, negb (re_live e)) l) as Hfi.
  { unfold re_live. induction l as [|e l IH]; cbn; [done|]. by rewrite negb_involutive, IH. }
  cbn. rewrite Hfi. fold es. destruct (find_index _ es) as [i|] eqn:Ei; wps; [|by eexists].
  eapply wp_mono; [apply retry_delay_wp|]. intros d w' [Hd [t ->]].
  rewrite within_bind by apply Hok. wps. unfold wp. rewrite reschedule_run. exists t, d. split; [done|].
  apply find_index_Some in Ei as [(e & He & _) _].
  pose proof reliable_retrans_range. unfold set. cbn.
  rewrite (alter_as_insert _ _ _ _ He). cbn. unfold tracked_entry. by rewrite u8_id by zmod.
Qed.

(** The first slot that waits for packet [id]. *)
Definition waiting_for (id : Z) es : option nat := find_index (λ e, re_id e =? id) es.

Lemma on_routing_run p w (es := reliable_entries (w_reliable w)) :
  meshtastic_reliable_on_routing (Some p) w = Some
    (if negb (p_portnum p =? MESHTASTIC_PORT_ROUTING) || negb (p_to p =? mt_node_id (w_mt w))
        || (p_request_id p =? 0) then (false, w)
     else match waiting_for (p_request_id p) es with
          | None => (false, w)
          | Some i =>
              let e := default reliable_entry_zero (es !! i) in
              let verdict := reliable_routing_is_ack (p_payload p) (p_payload_len p) in
              (true, w <| w_reliable ::= set reliable_entries (alter (set re_id (λ _, 0)) i) |>
                <| w_trace ::= (λ tr, tr ++ outcome_events (w_mt w)
                    (if verdict.1 then TX_ACKED else TX_NO_ACK)
                    (if verdict.1 then None else verdict.2) [outcome_of e]) |>)
          end).
Proof.
  unfold meshtastic_reliable_on_routing, waiting_for. unfold mbind, M_bind, gets, modify.
  case_if; [done|].
  destruct (reliable_routing_is_ack (p_payload p) (p_payload_len p)) as [acked err].
  cbn [fst snd]. fold es. destruct (find_index _ es) as [i|]; [|done].
  destruct acked; by rewrite emit_run.
Qed.

(** The operations, as steps of the component. *)
Inductive reliable_op :=
  | Op_track (p : packet) (wire : list Z)
  | Op_routing (p : packet)
  | Op_timer
  | Op_reset.
Definition reliable_exec (op : reliable_op) : M W () :=
  match op with
  | Op_track p wire => meshtastic_reliable_track (Some p) (Some wire)
  | Op_routing p => meshtastic_reliable_on_routing (Some p) ;; mret ()
  | Op_timer => reliable_work_fn
  | Op_reset => meshtastic_reliable_reset
  end.

Lemma reliable_wf_later c c' r : c ≤ c' → reliable_wf c r → reliable_wf c' r.
Proof.
  intros Hc [Hs He Ha]. constructor; [done..|]. intros e Hin Hl.
  destruct (Ha e Hin Hl) as (t & Ht & ?). exists t. split; [done|lia].
Qed.

Lemma free_entry_wf e : entry_wf (e <| re_id := 0 |>).
Proof. by intros [=]. Qed.

Lemma reliable_wf_free c r i :
  reliable_wf c r → reliable_wf c (r <| reliable_entries ::= alter (set re_id (λ _, 0)) i |>).
Proof.
  intros [Hs He Ha]. constructor; cbn.
  - by rewrite length_alter.
  - apply Forall_alter; [done|]. intros. apply free_entry_wf.
  - intros e [j Hj]%list_elem_of_lookup Hl. rewrite list_lookup_alter in Hj.
    destruct (decide (i = j)) as [->|Hne].
    + apply fmap_Some in Hj as (e0 & _ & ->). done.
    + apply (Ha e); [|done]. by eapply list_elem_of_lookup_2.
Qed.

(** ** Rounds of the timer with no acknowledgement *)

Definition outcomes_at (j : Z) es : list reliable_outcome :=
  outcome_of <$> filter (λ e, re_live e && (re_attempts_left e =? j)) es.

(** Between two runs time passes and the worker may drain the queue. *)
Record quiet w w' : Prop := {
  q_mt : w_mt w' = w_mt w; q_reliable : w_reliable w' = w_reliable w;
  q_trace : w_trace w' = w_trace w
}.

(** [n] runs of the work item, each once every pending packet is due. *)
Inductive fires : nat → W → W → Prop :=
  | fires_0 w : fires 0 w w
  | fires_S n w1 w2 w2' w3 :
      (∀ e, e ∈ reliable_entries (w_reliable w1) → re_live e = true →
        re_due_ms e ≤ (k_uptime_get (w_kernel w1)).1) →
      reliable_work_fn w1 = Some ((), w2) → quiet w2 w2' → fires n w2' w3 → fires (S n) w1 w3.

Lemma outcomes_at_step now es es' j :
  0 ≤ j → (∀ e, e ∈ es → re_live e = true → re_due_ms e ≤ now) → Forall entry_wf es →
  Forall2 (entry_step now) es es' → outcomes_at j es' = outcomes_at (j + 1) es.
Proof.
  intros Hj Hdue Hwf Hs. unfold outcomes_at.
  induction Hs as [|e e' es es' Hstep Hs IH]; [done|]. rewrite !filter_bool_cons.
  apply Forall_cons in Hwf as [He Hwf].
  assert (outcome_of <$> filter (λ e, re_live e && (re_attempts_left e =? j)) es' =
    outcome_of <$> filter (λ e, re_live e && (re_attempts_left e =? j + 1)) es) as IH'.
  { apply IH; [|done]. intros e0 Hin. apply Hdue. by right. }
  unfold entry_step, re_expired, re_retried, re_due in Hstep.
  destruct (re_live e) eqn:El; cbn [andb] in *; [|by subst e'; rewrite El].
  assert (re_due_ms e ≤ now) as Hd by (apply Hdue; [left|done]).
  rewrite (proj2 (Z.leb_le _ _) Hd) in Hstep. cbn [andb] in Hstep.
  destruct (He El) as (_ & Ha & _).
  destruct (Z.eqb_spec (re_attempts_left e) 0) as [E0|E0]; cbn [negb] in Hstep.
  - subst e'. cbn [re_live]. rewrite (proj2 (Z.eqb_neq (re_attempts_left e) (j + 1))) by lia. done.
  - destruct Hstep as (d & _ & ->).
    match goal with |- context [re_live ?x] => change (re_live x) with (re_live e) end.
    rewrite El. cbn.
    replace (re_attempts_left e - 1 =? j) with (re_attempts_left e =? j + 1) by
      (destruct (Z.eqb_spec (re_attempts_left e) (j + 1)); symmetry;
        [apply Z.eqb_eq|apply Z.eqb_neq]; lia).
    case_if; cbn; [by rewrite IH'|done].
Qed.

Lemma expired_all_due now es :
  (∀ e, e ∈ es → re_live e = true → re_due_ms e ≤ now) →
  outcome_of <$> filter (λ e, re_expired now e) es = outcomes_at 0 es.
Proof.
  intros Hdue. unfold outcomes_at. induction es as [|e es IH]; [done|].
  rewrite !filter_bool_cons. assert (re_expired now e = re_live e && (re_attempts_left e =? 0)) as ->.
  { unfold re_expired, re_due. destruct (re_live e) eqn:El; [|done].
    by rewrite (proj2 (Z.leb_le _ _) (Hdue e (proj2 (elem_of_cons _ _ _) (or_introl eq_refl)) El)). }
  case_if; cbn; rewrite IH; try done; intros e0 Hin; apply Hdue; by right.
Qed.

Lemma round_spec w w' c :
  reliable_wf c (w_reliable w) →
  (∀ e, e ∈ reliable_entries (w_reliable w) → re_live e = true →
    re_due_ms e ≤ (k_uptime_get (w_kernel w)).1) →
  reliable_work_fn w = Some ((), w') →
  reliable_wf (k_uptime_get (w_kernel w)).1 (w_reliable w') ∧ w_mt w' = w_mt w ∧
  w_trace w' = w_trace w ++ outcome_events (w_mt w) TX_NO_ACK (Some ETIMEDOUT)
    (outcomes_at 0 (reliable_entries (w_reliable w))) ∧
  (∀ j, 0 ≤ j → outcomes_at j (reliable_entries (w_reliable w')) =
    outcomes_at (j + 1) (reliable_entries (w_reliable w))).
Proof.
  intros [Hsz Hes _] Hdue Hrun. pose proof (work_fn_wp w Hes) as Hwp. unfold wp in Hwp.
  rewrite Hrun in Hwp. destruct Hwp as (es' & t & Hs & ->). cbn. split_and!.
  - apply rearm_wf; cbn; [|by eapply entry_step_all_wf].
    apply Forall2_length in Hs. by rewrite <- Hs.
  - done.
  - by rewrite expired_all_due.
  - intros j Hj. rewrite rearm_entries. cbn. by eapply outcomes_at_step.
Qed.

Lemma fires_spec n w w' c :
  fires n w w' → reliable_wf c (w_reliable w) →
  w_trace w' = w_trace w ++ concat ((λ j, outcome_events (w_mt w) TX_NO_ACK (Some ETIMEDOUT)
    (outcomes_at (Z.of_nat j) (reliable_entries (w_reliable w)))) <$> seq 0 n) ∧
  (∃ c', reliable_wf c' (w_reliable w')) ∧
  (∀ j, 0 ≤ j → outcomes_at j (reliable_entries (w_reliable w')) =
    outcomes_at (j + Z.of_nat n) (reliable_entries (w_reliable w))).
Proof.
  intros Hf. revert c. induction Hf as [w|n w1 w2 w2' w3 Hdue Hrun [Qm Qr Qt] _ IH]; intros c Hwf.
  - cbn. rewrite app_nil_r. split_and!; [done|by exists c|]. intros j _. by rewrite Z.add_0_r.
  - destruct (round_spec _ _ _ Hwf Hdue Hrun) as (Hwf2 & Hmt & Htr & Hat).
    rewrite <- Qr in Hwf2, Hat. rewrite <- Qm in Hmt. rewrite <- Qt in Htr.
    destruct (IH _ Hwf2) as (Htr3 & Hwf3 & Hat3). split_and!; [|done|].
    + rewrite Htr3, Htr, <- app_assoc, Hmt. cbn [seq fmap list_fmap concat]. do 3 f_equal.
      rewrite <- fmap_S_seq, <- list_fmap_compose. apply list_fmap_ext. intros i j _. cbn.
      rewrite Hat by lia. do 2 f_equal. lia.
    + intros j Hj. rewrite Hat3, Hat by lia. f_equal. lia.
Qed.

(** ** Properties *)

(** Only unicast, acknowledged, non-ROUTING packets of ours with an id and
    a legal frame are tracked, in the first free slot, with the full budget of
    retransmissions, due one jittered interval from now, and the timer is
    re-armed; a full table or any other packet changes nothing. *)
Theorem track_spec p wire w (es := reliable_entries (w_reliable w))
    (now := (k_uptime_get (w_kernel w)).1) :
  ∃ w' t, meshtastic_reliable_track (Some p) (Some wire) w = Some ((), w') ∧
    if negb (trackable (mt_node_id (w_mt w)) p) || negb (bool_decide (frame_ok wire)) then w' = w
    else match find_index (λ e, negb (re_live e)) es with
         | None => w' = w <| w_kernel := t |>
         | Some i => ∃ d,
             CONFIG_RELIABLE_RETRY_INTERVAL_MS ≤ d
               ≤ CONFIG_RELIABLE_RETRY_INTERVAL_MS + CONFIG_RELIABLE_RETRY_JITTER_MS ∧
             w' = w <| w_kernel := t |> <| w_reliable ::= (λ r, rearm now
               (r <| reliable_entries := <[i := tracked_entry p wire (now + d)]> es |>)) |>
         end.
Proof.
  destruct (proj1 (wp_run _ _ _) (track_wp p wire w)) as ([] & w' & Hrun & t & Hw).
  by exists w', t.
Qed.

(** A ROUTING packet for us settles the first packet it names in
    [request_id]: the slot is freed and the application gets exactly one
    outcome for it, [TX_ACKED], or [TX_NO_ACK] when the payload decodes to an
    explicit error.  Anything else leaves the whole state untouched and is
    reported as not ours. *)
Theorem on_routing_spec p w (es := reliable_entries (w_reliable w)) :
  (p_portnum p = MESHTASTIC_PORT_ROUTING ∧ p_to p = mt_node_id (w_mt w) ∧ p_request_id p ≠ 0 ∧
    ∃ i e, es !! i = Some e ∧ re_id e = p_request_id p ∧
      (∀ j e', (j < i)%nat → es !! j = Some e' → re_id e' ≠ p_request_id p) ∧
      let verdict := reliable_routing_is_ack (p_payload p) (p_payload_len p) in
      meshtastic_reliable_on_routing (Some p) w = Some (true,
        w <| w_reliable ::= set reliable_entries <[i := e <| re_id := 0 |>]> |>
          <| w_trace ::= (λ tr, tr ++ outcome_events (w_mt w)
                (if verdict.1 then TX_ACKED else TX_NO_ACK)
                (if verdict.1 then None else verdict.2) [outcome_of e]) |>))
  ∨ ((p_portnum p ≠ MESHTASTIC_PORT_ROUTING ∨ p_to p ≠ mt_node_id (w_mt w) ∨ p_request_id p = 0
      ∨ ∀ e, e ∈ es → re_id e ≠ p_request_id p) ∧
     meshtastic_reliable_on_routing (Some p) w = Some (false, w)).
Proof.
  rewrite on_routing_run. fold es.
  destruct (Z.eqb_spec (p_portnum p) MESHTASTIC_PORT_ROUTING); [|right; by eauto].
  destruct (Z.eqb_spec (p_to p) (mt_node_id (w_mt w))); [|right; by eauto].
  destruct (Z.eqb_spec (p_request_id p) 0); [right; by eauto|]. cbn [negb orb].
  destruct (waiting_for (p_request_id p) es) as [i|] eqn:Ei.
  - left. apply find_index_Some in Ei as [(ent & He & Heq) Hfirst]. apply Z.eqb_eq in Heq.
    split_and!; [done..|]. exists i, ent. rewrite He. cbn [default]. split_and!; [done|done| |].
    + intros j e' Hj He'. apply Z.eqb_neq. by eapply Hfirst.
    + unfold set. cbn. unfold es in He. rewrite (alter_as_insert _ _ _ _ He). done.
  - right. apply find_index_None in Ei. split; [|done]. do 3 right. intros ent Hin.
    rewrite Forall_forall in Ei. apply Z.eqb_neq. by apply Ei.
Qed.

(** One run of the work item treats every slot on its own: a packet that
    is not due is untouched; a due one with retransmissions left gives one up,
    is due again one jittered interval later and has its frame queued
    unchanged, in slot order, as far as the transmit queue has room; a due one
    without is freed and reported with [-ETIMEDOUT], in slot order. *)
Theorem work_fn_spec w c (now := (k_uptime_get (w_kernel w)).1)
    (es := reliable_entries (w_reliable w)) :
  reliable_wf c (w_reliable w) →
  ∃ es' t, Forall2 (entry_step now) es es' ∧
    reliable_work_fn w = Some ((),
      (queue_retries (filter (λ e, re_retried now e) es) w)
        <| w_kernel := t |> <| w_reliable := rearm now (mk_reliable_state es' None) |>
        <| w_trace ::= (λ tr, tr ++ outcome_events (w_mt w) TX_NO_ACK (Some ETIMEDOUT)
            (outcome_of <$> filter (λ e, re_expired now e) es)) |>).
Proof.
  intros Hwf. destruct (proj1 (wp_run _ _ _) (work_fn_wp w (rw_entries _ _ Hwf)))
    as ([] & w' & Hrun & es' & t & Hs & ->). by exists es', t.
Qed.

(** C38: No pending packet is forgotten: after any operation of the component
    (tracking, a ROUTING packet, the timer, a reset), at any clock reading, the
    table is well-formed and while a packet is pending the work item is armed,
    no later than the packet is due. *)
Theorem reliable_invariant op w c (now := (k_uptime_get (w_kernel w)).1) :
  c ≤ now → reliable_wf c (w_reliable w) →
  wp (reliable_exec op) (λ _ w', reliable_wf now (w_reliable w')) w.
Proof.
  intros Hc Hwf. pose proof (reliable_wf_later _ _ _ Hc Hwf) as Hwf'.
  pose proof Hwf as [Hsz Hes _].
  destruct op as [p wire|p| |]; cbn [reliable_exec].
  - eapply wp_mono; [apply track_wp|]. intros _ w' [t Hw].
    case_if_in Hw; [by subst w'|].
    destruct (find_index _ _) as [i|]; [|by subst w'].
    destruct Hw as (d & Hd & ->). cbn. apply rearm_wf; cbn; [by rewrite length_insert|].
    apply Forall_insert; [done|]. intros _. cbn. boolp. pose proof reliable_retrans_range.
    split; [done|]. split; [lia|]. apply clock_room. lia.
  - wp_step. unfold wp. rewrite on_routing_run. case_if; [done|].
    destruct (waiting_for _ _); [|done]. cbn. by apply reliable_wf_free.
  - eapply wp_mono; [by apply work_fn_wp|]. intros _ w' (es' & t & Hs & ->). cbn.
    apply rearm_wf; cbn; [by rewrite <- (Forall2_length _ _ _ Hs)|].
    by eapply entry_step_all_wf.
  - unfold meshtastic_reliable_reset. wps. constructor; cbn.
    + apply length_replicate.
    + apply Forall_replicate. by intros [=].
    + by intros e ->%elem_of_replicate_inv.
Qed.

(** C39: A packet that is never acknowledged is not retried for ever: when the
    work item has run [n] times, each time after the packets were due, a
    packet that had [a] retransmissions left has been reported as
    [TX_NO_ACK] exactly once, in round [a], if [a < n]; after one round more
    than CONFIG_MESHTASTIC_RELIABLE_RETRANSMISSIONS nothing is pending. *)
Theorem reliable_settles n w w' c :
  reliable_wf c (w_reliable w) → fires n w w' →
  w_trace w' = w_trace w ++ concat ((λ j, outcome_events (w_mt w) TX_NO_ACK (Some ETIMEDOUT)
    (outcomes_at (Z.of_nat j) (reliable_entries (w_reliable w)))) <$> seq 0 n) ∧
  (CONFIG_RELIABLE_RETRANSMISSIONS < Z.of_nat n →
    meshtastic_reliable_pending w' = Some (0%nat, w')).
Proof.
  intros Hwf Hf. destruct (fires_spec _ _ _ _ Hf Hwf) as (Htr & [c' Hwf'] & Hat).
  split; [done|]. intros Hn. unfold meshtastic_reliable_pending, mbind, M_bind, gets, mret, M_ret.
  do 2 f_equal. apply length_zero_iff_nil. destruct (filter _ _) as [|e l] eqn:E; [done|].
  assert (e ∈ filter (λ e, re_live e) (reliable_entries (w_reliable w'))) as [Hl Hin]%list_elem_of_filter
    by (rewrite E; left).
  pose proof (rw_entries _ _ Hwf') as Hes'. rewrite Forall_forall in Hes'.
  apply Is_true_true in Hl. destruct (Hes' e Hin Hl) as (_ & Ha & _).
  assert (outcome_of e ∈ outcomes_at (re_attempts_left e) (reliable_entries (w_reliable w'))) as Hoc.
  { apply list_elem_of_fmap. exists e. split; [done|]. apply list_elem_of_filter. split; [|done].
    by rewrite Hl, Z.eqb_refl. }
  rewrite Hat in Hoc by lia. apply list_elem_of_fmap in Hoc as (e0 & _ & [Hc Hin0]%list_elem_of_filter).
  pose proof (rw_entries _ _ Hwf) as Hes. rewrite Forall_forall in Hes.
  apply Is_true_true in Hc. boolp. destruct (Hes e0 Hin0) as (_ & Ha0 & _); [done|]. lia.
Qed.
End reliable_correct.

(** ** A table with one packet, on the mock platform *)

Definition pending_entry : reliable_entry := mk_reliable 55 9 1 4000 3 [1; 2; 3].
Definition pending_world (now : Z) : world toy_psa mock_lora mock_kernel :=
  (mock_world (H:=default_kconfig) (mock_radio 0) (mk_mock_kernel now 1 false))
    <| w_reliable := mk_reliable_state
         [reliable_entry_zero; pending_entry; reliable_entry_zero] (Some 4000) |>.

Lemma pending_world_wf now : reliable_wf (H:=default_kconfig) 3000 (w_reliable (pending_world now)).
Proof.
  constructor; cbn; [done| |].
  - repeat constructor; try done; cbn; unfold MESHTASTIC_PKT_MAX, INT64_MAX; lia.
  - intros e [->|[->|[->|[]%elem_of_nil]%elem_of_cons]%elem_of_cons]%elem_of_cons Hl; try done.
    exists 4000. split; [done|]. cbn. lia.
Qed.

Definition dm_packet : packet :=
  packet_zero <| p_from := 7 |> <| p_to := 9 |> <| p_id := 77 |> <| p_portnum := 1 |>
    <| p_want_ack := true |>.

Lemma reliable_invariant_witness :
  wp (reliable_exec (H:=default_kconfig) (Op_track dm_packet [4; 5]))
    (λ _ w', reliable_wf (H:=default_kconfig) 5000 (w_reliable w')) (pending_world 5000).
Proof.
  refine (@reliable_invariant _ _ _ default_kconfig default_kconfig_ranges _ _ _ _
    (Op_track dm_packet [4; 5]) (pending_world 5000) 3000 _ (pending_world_wf 5000)). by vm_compute.
Defined.

Lemma track_spec_witness :
  ∃ w' t, meshtastic_reliable_track (H:=default_kconfig) (Some dm_packet) (Some [4; 5])
      (pending_world 5000) = Some ((), w') ∧ ∃ d, 12000 ≤ d ≤ 15000 ∧
    w' = (pending_world 5000) <| w_kernel := t |> <| w_reliable ::= (λ r, rearm 5000
      (r <| reliable_entries := <[0%nat := tracked_entry (H:=default_kconfig) dm_packet [4; 5]
            (5000 + d)]> (reliable_entries (w_reliable (pending_world 5000))) |>)) |>.
Proof.
  pose proof (@track_spec _ _ _ default_kconfig default_kconfig_ranges _ dm_packet [4; 5]
    (pending_world 5000)) as (w' & t & Hrun & Hw).
  exists w', t. split; [exact Hrun|]. exact Hw.
Defined.

Lemma work_fn_spec_witness :
  ∃ es' t, Forall2 (entry_step (H:=default_kconfig) 5000)
      (reliable_entries (w_reliable (pending_world 5000))) es' ∧
    reliable_work_fn (H:=default_kconfig) (pending_world 5000) = Some ((),
      (queue_retries (H:=default_kconfig) [pending_entry] (pending_world 5000))
        <| w_kernel := t |> <| w_reliable := rearm 5000 (mk_reliable_state es' None) |>
        <| w_trace ::= (λ tr, tr ++ []) |>).
Proof.
  destruct (@work_fn_spec _ _ _ default_kconfig default_kconfig_ranges _ _
    (pending_world 5000) 3000 (pending_world_wf 5000)) as (es' & t & Hs & Hrun).
  exists es', t. split; [exact Hs|]. exact Hrun.
Defined.

(** Four runs, half a minute apart. *)
Definition fire_raw (w : world toy_psa mock_lora mock_kernel) : world toy_psa mock_lora mock_kernel :=
  match reliable_work_fn (H:=default_kconfig) w with Some (_, w') => w' | None => w end.
Definition fire_at (now : Z) (w : world toy_psa mock_lora mock_kernel)
    : world toy_psa mock_lora mock_kernel :=
  (fire_raw w) <| w_kernel := mk_mock_kernel now 1 false |>.
Definition fired_world : world toy_psa mock_lora mock_kernel :=
  fire_at 125000 (fire_at 95000 (fire_at 65000 (fire_at 35000 (pending_world 5000)))).

Definition can_fire (w : world toy_psa mock_lora mock_kernel) : bool :=
  match reliable_work_fn (H:=default_kconfig) w with Some _ => true | None => false end &&
  forallb (λ e, negb (re_live e) || (re_due_ms e <=? (k_uptime_get (w_kernel w)).1))
    (reliable_entries (w_reliable w)).

Lemma fire_step now n w w' :
  can_fire w = true → fires (H:=default_kconfig) n (fire_at now w) w' →
  fires (H:=default_kconfig) (S n) w w'.
Proof.
  unfold can_fire. intros [Hrun Hdue]%andb_prop Hf. rewrite forallb_forall in Hdue.
  eapply (fires_S (H:=default_kconfig) n w (fire_raw w)); [| | |exact Hf].
  - intros e Hin%list_elem_of_In Hl. specialize (Hdue e Hin). rewrite Hl in Hdue.
    by apply Z.leb_le.
  - unfold fire_raw. by destruct (reliable_work_fn w) as [[[] w2]|].
  - done.
Qed.

Lemma fired_world_fires : fires (H:=default_kconfig) 4 (pending_world 5000) fired_world.
Proof.
  apply (fire_step 35000); [by vm_compute|]. apply (fire_step 65000); [by vm_compute|].
  apply (fire_step 95000); [by vm_compute|]. apply (fire_step 125000); [by vm_compute|].
  apply fires_0.
Qed.

Lemma reliable_settles_witness :
  w_trace fired_world = w_trace (pending_world 5000) ++
    concat ((λ j, outcome_events (mock_context (H:=default_kconfig)) TX_NO_ACK (Some ETIMEDOUT)
      (outcomes_at (Z.of_nat j) (reliable_entries (w_reliable (pending_world 5000))))) <$> seq 0 4) ∧
  (3 < 4 → meshtastic_reliable_pending fired_world = Some (0%nat, fired_world)).
Proof.
  exact (@reliable_settles _ _ _ default_kconfig default_kconfig_ranges _ _ _
    4 (pending_world 5000) fired_world 3000 (pending_world_wf 5000) fired_world_fires).
Defined.
