(* ===== verification/PhoneApi.v ===== *)
(** * Phone API (src/meshtastic_phoneapi.c, src/meshtastic_phoneapi_config.c)

    The FromRadio frames waiting for one phone client: a ring of encoded
    frames that drops its oldest when full, the frame being delivered, and the
    configuration handshake that follows the ring.  Proved: the ring
    implements a bounded deque.  The handshake's theorem is in Handshake.v. *)

From S2P Require Import Prelude Types External Mock Core Airtime Channels NodeDB Wire Store World.

Definition MESHTASTIC_API_FRAME_MAX : nat := 512.

(** ** [meshtastic_FromRadio] *)

Record MyNodeInfo := mk_MyNodeInfo {
  mi_my_node_num : Z; mi_min_app_version : Z; mi_nodedb_count : Z; mi_device_id : list Z;
  mi_pio_env : string
}.
Record QueueStatus := mk_QueueStatus {
  qs_res : Z; qs_free : Z; qs_maxlen : Z; qs_mesh_packet_id : Z
}.
Record DeviceMetadata := mk_DeviceMetadata {
  md_firmware_version : string; md_hasBluetooth : bool; md_role : Z; md_hw_model : Z
}.
Inductive FromRadio_variant :=
  | FR_none
  | FR_packet (m : MeshPacket)
  | FR_my_info (i : MyNodeInfo)
  | FR_node_info (num : Z) (user : User)
  | FR_config (c : Config)
  | FR_config_complete_id (id : Z)
  | FR_rebooted (b : bool)
  | FR_moduleConfig (m : ModuleConfig)
  | FR_channel (c : Channel)
  | FR_queueStatus (s : QueueStatus)
  | FR_metadata (m : DeviceMetadata)
  | FR_deviceuiConfig (c : option Config).
Record FromRadio := mk_FromRadio { fr_id : Z; fr_variant : FromRadio_variant }.

(** ** The frame ring

    Every operation reduces an index modulo [queue_size]. *)
Definition ring_index (i : nat) : M phoneapi nat :=
  api ← gets (S:=phoneapi) id;
  if (ph_queue_size api =? 0)%nat then ub else mret (i `mod` ph_queue_size api)%nat.

(** An array access out of bounds is undefined. *)
Definition ring_read (i : nat) : M phoneapi (list Z) :=
  api ← gets (S:=phoneapi) id;
  match ph_queue api !! i with Some f => mret f | None => ub end.
Definition ring_write (i : nat) (frame : list Z) : M phoneapi () :=
  api ← gets (S:=phoneapi) id;
  if (i <? ph_queue_size api)%nat then modify (set ph_queue <[i := frame]>) else ub.

Definition config_active (api : phoneapi) : bool :=
  negb (bool_decide (ph_config_state api = CONFIG_IDLE)).

Definition meshtastic_phoneapi_notify_data_ready : M phoneapi () :=
  modify (set ph_data_ready S).

(** The [queue] array the transport supplies. *)
Definition meshtastic_phoneapi_init (queue : list (list Z)) : phoneapi :=
  mk_phoneapi queue 0 0 0 None 0 CONFIG_IDLE 0 0 0 0 0.

(** [known]: the transport is in the array already. *)
Definition MESHTASTIC_PHONEAPI_MAX_TRANSPORTS : nat := 2.
Definition meshtastic_phoneapi_register (known : bool) (api : phoneapi) (transports : list phoneapi)
    : list phoneapi :=
  if known then transports
  else if (length transports <? MESHTASTIC_PHONEAPI_MAX_TRANSPORTS)%nat then transports ++ [api]
  else transports.

Definition meshtastic_phoneapi_reset : M phoneapi () :=
  modify (λ api, api <| ph_head := 0%nat |> <| ph_tail := 0%nat |> <| ph_count := 0%nat |>
    <| ph_current := None |> <| ph_config_state := CONFIG_IDLE |> <| ph_config_index := 0%nat |>
    <| ph_config_request_id := 0 |> <| ph_from_num := 0 |>).

Definition meshtastic_phoneapi_pending_count (api : phoneapi) : nat :=
  (ph_count api + (if ph_current api then 1 else 0) + (if config_active api then 1 else 0))%nat.

(** [*frame = queue\[tail\]; tail = (tail + 1) % size; count--;] *)
Definition ring_pop : M phoneapi (list Z) :=
  api ← gets (S:=phoneapi) id;
  frame ← ring_read (ph_tail api);
  tail ← ring_index (ph_tail api + 1);
  modify (λ api, api <| ph_tail := tail |> <| ph_count ::= pred |>) ;;
  mret frame.

Definition meshtastic_phoneapi_push_frame_front (frame : list Z) : M phoneapi () :=
  api ← gets (S:=phoneapi) id;
  (if (ph_count api =? ph_queue_size api)%nat then
     head ← ring_index (ph_head api + ph_queue_size api - 1);
     modify (λ api, api <| ph_head := head |> <| ph_count ::= pred |>)
   else mret ()) ;;
  tail ← ring_index (ph_tail api + ph_queue_size api - 1);
  modify (set ph_tail (λ _, tail)) ;;
  ring_write tail frame ;;
  modify (set ph_count S).

Definition meshtastic_phoneapi_release_current_frame : M phoneapi () :=
  modify (set ph_current (λ _, None)).
Definition meshtastic_phoneapi_current_frame_complete : M phoneapi () :=
  meshtastic_phoneapi_release_current_frame.
Definition meshtastic_phoneapi_current_frame_reset : M phoneapi () :=
  modify (set ph_current (λ _, None)).

(** The part of [meshtastic_phoneapi_enqueue_fromradio] after the encoding. *)
Definition ring_make_room : M phoneapi () :=
  api ← gets (S:=phoneapi) id;
  if (ph_count api =? ph_queue_size api)%nat then
    tail ← ring_index (ph_tail api + 1);
    modify (λ api, api <| ph_tail := tail |> <| ph_count ::= pred |>)
  else mret ().
Definition ring_append (frame : list Z) : M phoneapi () :=
  api ← gets (S:=phoneapi) id;
  ring_write (ph_head api) frame ;;
  head ← ring_index (ph_head api + 1);
  modify (λ api, api <| ph_head := head |> <| ph_count ::= S |>).
Definition ring_push (frame : list Z) : M phoneapi () :=
  ring_make_room ;; ring_append frame ;; meshtastic_phoneapi_notify_data_ready.

Definition config_tags : list Z := [1; 2; 3; 4; 5; 6; 7; 8; 9; 10].
Definition module_tags : list Z := [1; 2; 3; 4; 5; 6; 7; 8; 9; 10; 11; 12; 13; 14; 15; 16].

Section phone.
Context {K L T : Type} `{Kconfig} `{Pb FromRadio}.
Notation W := (world K L T).

(** [i] stands for the pointer to a registered transport. *)
Definition on_phone {A} (i : nat) (m : M phoneapi A) : M W A := λ w,
  match w_phones w !! i with
  | Some api =>
      match m api with
      | Some (a, api') => Some (a, w <| w_phones ::= <[i := api']> |>)
      | None => None
      end
  | None => None
  end.

Definition meshtastic_phoneapi_encode_fromradio_frame (from : FromRadio) : result (list Z) :=
  match pb_encode MESHTASTIC_API_FRAME_MAX from with
  | Some data => Ok data
  | None => Err ENOMEM
  end.

Definition meshtastic_phoneapi_enqueue_fromradio (i : nat) (from : FromRadio) : M W (result ()) :=
  match meshtastic_phoneapi_encode_fromradio_frame from with
  | Err e => mret (Err e)
  | Ok frame => on_phone i (ring_push frame) ;; mret (Ok ())
  end.

Definition meshtastic_phoneapi_enqueue_queue_status (i : nat) (res : Z) (mesh_packet_id : Z)
    : M W () :=
  pending ← on_phone i (gets meshtastic_phoneapi_pending_count);
  size ← on_phone i (gets ph_queue_size);
  id ← next_fromradio_id;
  meshtastic_phoneapi_enqueue_fromradio i (mk_FromRadio id (FR_queueStatus
    (mk_QueueStatus (Z.max (-128) (Z.min 127 res))
       (if (size <=? pending)%nat then 0 else Z.of_nat (size - pending))
       (Z.of_nat size) mesh_packet_id))) ;;
  mret ().

(** ** The handshake: the [fill_*] functions *)

Definition fill_my_info (mt : context) (id : Z) : FromRadio :=
  mk_FromRadio id (FR_my_info (mk_MyNodeInfo (mt_node_id mt) 0 1 (le32 (mt_node_id mt))
    (strncpy 39 "zephyr"))).

Definition meshtastic_phoneapi_enqueue_my_info (i : nat) (request_id : Z) : M W () :=
  id ← next_fromradio_id;
  mt ← gets (S:=W) w_mt;
  meshtastic_phoneapi_enqueue_fromradio i (fill_my_info mt id) ;; mret ().

Definition meshtastic_phoneapi_enqueue_rebooted (i : nat) : M W () :=
  meshtastic_phoneapi_enqueue_fromradio i (mk_FromRadio 0 (FR_rebooted true)) ;; mret ().

Definition fill_node_info (role : Z) (mt : context) (id : Z) : FromRadio :=
  mk_FromRadio id (FR_node_info (mt_node_id mt)
    (meshtastic_fill_user MESHTASTIC_BOARD_HW_MODEL role mt)).
Definition fill_metadata_frame (role : Z) (id : Z) : FromRadio :=
  mk_FromRadio id (FR_metadata (mk_DeviceMetadata (strncpy 17 "zephyr.123") CONFIG_BLE
    role MESHTASTIC_BOARD_HW_MODEL)).
Definition fill_channel (st : store) (index : Z) (id : Z) : FromRadio :=
  let disabled := Channel_zero <| c_index := index |> <| c_role := Role_DISABLED |>
                    <| c_has_settings := true |> in
  mk_FromRadio id (FR_channel
    (match meshtastic_config_store_get_channel index st with
     | Ok slot => if negb (c_role slot =? Role_DISABLED) then slot <| c_index := index |>
                  else disabled
     | Err _ => disabled
     end)).
Definition fill_config_variant (st : store) (which_tag : Z) (id : Z) : result FromRadio :=
  match meshtastic_config_store_get_config which_tag st with
  | Err e => Err e
  | Ok c => Ok (mk_FromRadio id (FR_config c))
  end.
Definition fill_module_variant (st : store) (which_tag : Z) (id : Z) : result FromRadio :=
  match meshtastic_config_store_get_module which_tag st with
  | Err e => Err e
  | Ok m => Ok (mk_FromRadio id (FR_moduleConfig m))
  end.

Definition emit_frame (i : nat) (from : FromRadio) (next_state : config_state)
    (next_index : nat) : M W (result (list Z)) :=
  match meshtastic_phoneapi_encode_fromradio_frame from with
  | Err e => mret (Err e)
  | Ok frame =>
      on_phone i (modify (λ api, api <| ph_config_state := next_state |>
                                     <| ph_config_index := next_index |>)) ;;
      mret (Ok frame)
  end.

(** The [while] loops of the CONFIGS and MODULES states, over the tags from
    [config_index] on: [None] is leaving the loop. *)
Fixpoint config_loop (i : nat) (fill : store → Z → Z → result FromRadio) (tags : list Z)
    (this next : config_state) (index : nat) : M W (option (result (list Z))) :=
  match tags with
  | [] => mret None
  | tag :: tags =>
      id ← next_fromradio_id;
      st ← gets (S:=W) w_store;
      match fill st tag id with
      | Ok from =>
          let last := bool_decide (tags = []) in
          ret ← emit_frame i from (if last then next else this) (if last then 0%nat else S index);
          mret (Some ret)
      | Err _ =>
          on_phone i (modify (set ph_config_index S)) ;;
          config_loop i fill tags this next (S index)
      end
  end.

(** One iteration of the outer loop: [None] is [break] out of the switch. *)
Definition config_iteration (i : nat) : M W (option (result (list Z))) :=
  api ← on_phone i (gets id);
  mt ← gets (S:=W) w_mt;
  st ← gets (S:=W) w_store;
  ch ← gets (S:=W) w_channels;
  let index := ph_config_index api in
  let emit from next_state next_index :=
    ret ← emit_frame i from next_state next_index; mret (Some ret) in
  match ph_config_state api with
  | CONFIG_IDLE => mret (Some (Err ENOENT))
  | CONFIG_MY_INFO => id ← next_fromradio_id; emit (fill_my_info mt id) CONFIG_DEVICE_UI 0%nat
  | CONFIG_DEVICE_UI =>
      id ← next_fromradio_id;
      emit (mk_FromRadio id (FR_deviceuiConfig
              (match meshtastic_config_store_get_device_ui st with
               | Ok c => Some c | Err _ => None end))) CONFIG_NODE_INFO 0%nat
  | CONFIG_NODE_INFO =>
      id ← next_fromradio_id;
      emit (fill_node_info (meshtastic_device_role ch) mt id) CONFIG_METADATA 0%nat
  | CONFIG_METADATA =>
      id ← next_fromradio_id;
      emit (fill_metadata_frame (meshtastic_device_role ch) id) CONFIG_CHANNELS 0%nat
  | CONFIG_CHANNELS =>
      id ← next_fromradio_id;
      let last := MESHTASTIC_MAX_CHANNELS <=? Z.of_nat index + 1 in
      emit (fill_channel st (Z.of_nat index) id)
        (if last then CONFIG_CONFIGS else CONFIG_CHANNELS) (if last then 0%nat else S index)
  | CONFIG_CONFIGS =>
      ret ← config_loop i fill_config_variant (drop index config_tags)
              CONFIG_CONFIGS CONFIG_MODULES index;
      match ret with
      | Some ret => mret (Some ret)
      | None =>
          on_phone i (modify (λ api, api <| ph_config_state := CONFIG_MODULES |>
                                         <| ph_config_index := 0%nat |>)) ;;
          mret None
      end
  | CONFIG_MODULES =>
      ret ← config_loop i fill_module_variant (drop index module_tags)
              CONFIG_MODULES CONFIG_QUEUE_STATUS index;
      match ret with
      | Some ret => mret (Some ret)
      | None =>
          on_phone i (modify (λ api, api <| ph_config_state := CONFIG_QUEUE_STATUS |>
                                         <| ph_config_index := 0%nat |>)) ;;
          mret None
      end
  | CONFIG_QUEUE_STATUS =>
      id ← next_fromradio_id;
      let size := ph_queue_size api in
      emit (mk_FromRadio id (FR_queueStatus (mk_QueueStatus 0
              (if (size <=? ph_count api)%nat then 0 else Z.of_nat (size - ph_count api))
              (Z.of_nat size) 0))) CONFIG_COMPLETE 0%nat
  | CONFIG_COMPLETE =>
      id ← next_fromradio_id;
      emit (mk_FromRadio id (FR_config_complete_id (ph_config_request_id api)))
        CONFIG_IDLE 0%nat
  end.

(** The loop goes round again only from CONFIGS to MODULES to QUEUE_STATUS:
    three iterations are enough ([next_config_frame_total]). *)
Fixpoint next_config_frame_ (fuel : nat) (i : nat) : M W (result (list Z)) :=
  match fuel with
  | O => ub
  | S fuel =>
      ret ← config_iteration i;
      match ret with Some ret => mret ret | None => next_config_frame_ fuel i end
  end.
Definition meshtastic_phoneapi_next_config_frame (i : nat) : M W (result (list Z)) :=
  next_config_frame_ 3 i.

Definition meshtastic_phoneapi_enqueue_phone_config (i : nat) (request_id : Z) : M W () :=
  on_phone i (modify (λ api, api <| ph_head := 0%nat |> <| ph_tail := 0%nat |>
    <| ph_count := 0%nat |> <| ph_current := None |> <| ph_config_state := CONFIG_MY_INFO |>
    <| ph_config_index := 0%nat |> <| ph_config_request_id := request_id |>)) ;;
  on_phone i (modify (set ph_invalidations S)) ;;
  on_phone i meshtastic_phoneapi_notify_data_ready.

Definition meshtastic_phoneapi_pop_frame (i : nat) : M W (option (list Z)) :=
  api ← on_phone i (gets id);
  if (ph_count api =? 0)%nat then
    if config_active api then
      ret ← meshtastic_phoneapi_next_config_frame i;
      match ret with Ok frame => mret (Some frame) | Err _ => mret None end
    else mret None
  else
    frame ← on_phone i ring_pop;
    mret (Some frame).

Definition meshtastic_phoneapi_current_frame (i : nat) : M W (option (list Z)) :=
  api ← on_phone i (gets id);
  match ph_current api with
  | Some frame => mret (Some frame)
  | None =>
      if (0 <? ph_count api)%nat then
        frame ← on_phone i ring_pop;
        on_phone i (modify (set ph_current (λ _, Some frame))) ;;
        mret (Some frame)
      else if config_active api then
        ret ← meshtastic_phoneapi_next_config_frame i;
        match ret with
        | Ok frame =>
            on_phone i (modify (set ph_current (λ _, Some frame))) ;; mret (Some frame)
        | Err _ => mret None
        end
      else mret None
  end.

(** A packet goes to every registered transport. *)
Definition meshtastic_phoneapi_on_packet (p : packet) : M W () :=
  id ← next_fromradio_id;
  match meshtastic_packet_to_mesh_pb (Some p) with
  | Err _ => mret ()
  | Ok mesh =>
      phones ← gets (S:=W) w_phones;
      mapM_ (λ i, meshtastic_phoneapi_enqueue_fromradio i (mk_FromRadio id (FR_packet mesh)) ;;
                  mret ()) (seq 0 (length phones))
  end.
End phone.

(** ** The ring implements a bounded deque *)

(** The [k]-th frame from [tail] is the [k]-th of [l]. *)
Record ring_repr (api : phoneapi) (l : list (list Z)) : Prop := {
  rr_size : (0 < ph_queue_size api)%nat;
  rr_tail : (ph_tail api < ph_queue_size api)%nat;
  rr_count : ph_count api = length l;
  rr_bound : (length l ≤ ph_queue_size api)%nat;
  rr_head : ph_head api = ((ph_tail api + length l) `mod` ph_queue_size api)%nat;
  rr_slots : ring_at (ph_queue api) (ph_tail api) (ph_queue_size api) l
}.

(** Everything but the ring. *)
Definition ring_rest (api api' : phoneapi) : Prop :=
  ph_current api' = ph_current api ∧ ph_from_num api' = ph_from_num api ∧
  ph_config_state api' = ph_config_state api ∧ ph_config_index api' = ph_config_index api ∧
  ph_config_request_id api' = ph_config_request_id api ∧
  ph_disconnects api' = ph_disconnects api ∧ ph_invalidations api' = ph_invalidations api ∧
  ph_queue_size api' = ph_queue_size api.

Section ring.
Implicit Types (api : phoneapi) (l : list (list Z)).

Lemma ring_index_wp i Q api :
  (0 < ph_queue_size api)%nat → Q (i `mod` ph_queue_size api)%nat api →
  wp (ring_index i) Q api.
Proof.
  intros Hs HQ. unfold ring_index. wps. cbn [id].
  destruct (Nat.eqb_spec (ph_queue_size api) 0); [lia|]. by wps.
Qed.

(** Dropping the oldest frame. *)
Lemma ring_repr_drop api f l :
  ring_repr api (f :: l) →
  ring_repr (api <| ph_tail := ((ph_tail api + 1) `mod` ph_queue_size api)%nat |>
    <| ph_count ::= pred |>) l.
Proof.
  intros [Hs Ht Hc Hb Hh Hsl]. apply ring_at_tail in Hsl. unfold ph_queue_size in *. cbn in *.
  constructor; unfold ph_queue_size; cbn; try done.
  - apply Nat.mod_upper_bound. lia.
  - by rewrite Hc.
  - lia.
  - rewrite Hh, Nat.Div0.add_mod_idemp_l. f_equal. lia.
Qed.

(** Adding a frame behind the others. *)
Lemma ring_repr_push api f l :
  ring_repr api l → (length l < ph_queue_size api)%nat →
  ring_repr (api <| ph_queue ::= <[ph_head api := f]> |>
    <| ph_head := ((ph_head api + 1) `mod` ph_queue_size api)%nat |> <| ph_count ::= S |>)
    (l ++ [f]).
Proof.
  intros [Hs Ht Hc Hb Hh Hsl] Hroom. unfold ph_queue_size in *.
  constructor; unfold ph_queue_size; cbn; rewrite ?length_insert, ?length_app; cbn; try lia.
  - rewrite Hh, Nat.Div0.add_mod_idemp_l. f_equal. lia.
  - rewrite Hh. by apply ring_at_snoc.
Qed.

Lemma ring_rest_refl api : ring_rest api api.
Proof. by split_and!. Qed.

Lemma ring_make_room_wp api l :
  ring_repr api l →
  wp ring_make_room (λ _ api', ring_rest api api' ∧ ph_data_ready api' = ph_data_ready api ∧
    ring_repr api' (if (length l =? ph_queue_size api)%nat then tail l else l) ∧
    (ph_count api' < ph_queue_size api')%nat) api.
Proof.
  intros Hr. pose proof Hr as [Hs Ht Hc Hb Hh Hsl]. unfold ring_make_room. wps. cbn [id].
  rewrite Hc. destruct (Nat.eqb_spec (length l) (ph_queue_size api)) as [Hfull|Hroom].
  - wps. apply ring_index_wp; [done|]. wps. destruct l as [|g l]; [cbn in *; lia|].
    split_and!; [done|done|by apply (ring_repr_drop api g l)|].
    unfold ph_queue_size in *. cbn in *. lia.
  - wps. split_and!; [apply ring_rest_refl|done|done|lia].
Qed.

Lemma ring_append_wp api l f :
  ring_repr api l → (ph_count api < ph_queue_size api)%nat →
  wp (ring_append f) (λ _ api', ring_rest api api' ∧ ph_data_ready api' = ph_data_ready api ∧
    ring_repr api' (l ++ [f])) api.
Proof.
  intros Hr Hroom. pose proof Hr as [Hs Ht Hc Hb Hh Hsl]. unfold ring_append, ring_write. wps.
  cbn [id]. rewrite (proj2 (Nat.ltb_lt _ _)); cycle 1.
  { rewrite Hh. apply Nat.mod_upper_bound. lia. }
  wps. apply ring_index_wp; [unfold ph_queue_size in *; cbn; by rewrite length_insert|]. wps.
  pose proof (ring_repr_push _ f _ Hr) as Hp. rewrite <- Hc in Hp. specialize (Hp Hroom).
  split_and!; [|done|].
  - unfold ring_rest, ph_queue_size. cbn. by rewrite length_insert.
  - unfold ph_queue_size in *. cbn in *. by rewrite length_insert.
Qed.

Lemma ring_push_wp api l f :
  ring_repr api l →
  wp (ring_push f) (λ _ api', ring_rest api api' ∧ ph_data_ready api' = S (ph_data_ready api) ∧
    ring_repr api' ((if (length l =? ph_queue_size api)%nat then tail l else l) ++ [f])) api.
Proof.
  intros Hr. unfold ring_push, meshtastic_phoneapi_notify_data_ready. rewrite wp_bind.
  eapply wp_mono; [by apply ring_make_room_wp|]. intros _ api1 (Hrest1 & Hd1 & Hr1 & Hroom).
  rewrite wp_bind. eapply wp_mono; [by apply ring_append_wp|].
  intros _ api2 (Hrest2 & Hd2 & Hr2). wps. split_and!.
  - unfold ring_rest, ph_queue_size in *. cbn. destruct_and!. split_and!; congruence.
  - cbn. by rewrite Hd2, Hd1.
  - by destruct Hr2.
Qed.

Lemma ring_pop_wp api f l :
  ring_repr api (f :: l) →
  wp ring_pop (λ g api', g = f ∧ ring_rest api api' ∧ ph_data_ready api' = ph_data_ready api ∧
    ring_repr api' l) api.
Proof.
  intros Hr. pose proof Hr as [Hs Ht Hc Hb Hh Hsl]. unfold ring_pop, ring_read. wps. cbn [id].
  specialize (Hsl 0%nat f eq_refl). rewrite Nat.add_0_r, Nat.mod_small in Hsl by done.
  rewrite Hsl. wps. apply ring_index_wp; [done|]. wps.
  split_and!; [done|done|done|by apply (ring_repr_drop api f l)].
Qed.

(** Dropping the newest frame, and adding one before the others. *)
Lemma ring_repr_drop_last api g l :
  ring_repr api (l ++ [g]) →
  ring_repr (api <| ph_head := ((ph_head api + ph_queue_size api - 1) `mod` ph_queue_size api)%nat |>
    <| ph_count ::= pred |>) l.
Proof.
  intros [Hs Ht Hc Hb Hh Hsl]. unfold ph_queue_size in *. rewrite length_app in *. cbn in *.
  constructor; unfold ph_queue_size; cbn; try done; try lia.
  - rewrite Hh, <- Nat.add_sub_assoc, Nat.Div0.add_mod_idemp_l by lia.
    replace (ph_tail api + (length l + 1) + (length (ph_queue api) - 1))%nat with
      (ph_tail api + length l + 1 * length (ph_queue api))%nat by lia.
    by rewrite Nat.Div0.mod_add.
  - intros k f Hk. apply Hsl. by apply lookup_app_l_Some.
Qed.

Lemma ring_repr_front api f l (t := ((ph_tail api + ph_queue_size api - 1) `mod` ph_queue_size api)%nat) :
  ring_repr api l → (length l < ph_queue_size api)%nat →
  ring_repr (api <| ph_tail := t |> <| ph_queue ::= <[t := f]> |> <| ph_count ::= S |>) (f :: l).
Proof.
  intros [Hs Ht Hc Hb Hh Hsl] Hroom. subst t. unfold ph_queue_size in *.
  set (n := length (ph_queue api)) in *. set (t := ((ph_tail api + n - 1) `mod` n)%nat).
  assert (t < n)%nat by (apply Nat.mod_upper_bound; lia).
  assert (∀ k, (t + S k) `mod` n = (ph_tail api + k) `mod` n)%nat as Hshift.
  { intros k. unfold t. rewrite Nat.Div0.add_mod_idemp_l.
    replace (ph_tail api + n - 1 + S k)%nat with (ph_tail api + k + 1 * n)%nat by lia.
    by rewrite Nat.Div0.mod_add. }
  constructor; unfold ph_queue_size; cbn; rewrite ?length_insert; fold n; try lia.
  - by rewrite Hshift.
  - intros [|k] g Hk; cbn in Hk.
    + injection Hk as <-. rewrite Nat.add_0_r, Nat.mod_small by done. by apply list_lookup_insert_eq.
    + apply lookup_lt_Some in Hk as Hlt. rewrite Hshift.
      rewrite list_lookup_insert_ne; [by apply Hsl|]. unfold t.
      destruct (decide (ph_tail api = 0%nat)) as [E0|].
      * rewrite E0 in *. rewrite Nat.add_0_l, !Nat.mod_small by lia. lia.
      * replace (ph_tail api + n - 1)%nat with (ph_tail api - 1 + 1 * n)%nat by lia.
        rewrite Nat.Div0.mod_add, Nat.mod_small by lia. wraps; lia.
Qed.

Lemma ring_front_wp api l f :
  ring_repr api l →
  wp (meshtastic_phoneapi_push_frame_front f) (λ _ api', ring_rest api api' ∧
    ring_repr api' (f :: if (length l =? ph_queue_size api)%nat
                         then take (ph_queue_size api - 1) l else l)) api.
Proof.
  intros Hr. unfold meshtastic_phoneapi_push_frame_front, ring_write. rewrite wp_bind, wp_gets, wp_bind.
  cbn [id]. eapply wp_mono with (Q := λ _ api1, ring_rest api api1 ∧ ph_tail api1 = ph_tail api ∧
    ∃ l1, l1 = (if (length l =? ph_queue_size api)%nat then take (ph_queue_size api - 1) l else l) ∧
    ring_repr api1 l1 ∧ (length l1 < ph_queue_size api)%nat).
  { pose proof Hr as [Hs Ht Hc Hb Hh Hsl]. rewrite Hc.
    destruct (Nat.eqb_spec (length l) (ph_queue_size api)) as [Hfull|Hroom].
    - wps. apply ring_index_wp; [done|]. wps. split_and!; [done|done|].
      destruct l as [|g l _] using rev_ind; [cbn in Hfull; lia|].
      rewrite length_app in Hfull. cbn in Hfull.
      rewrite take_app_le, take_ge by lia. eexists. split; [done|].
      split; [by apply (ring_repr_drop_last api g)|lia].
    - wps. split_and!; [apply ring_rest_refl|done|]. eexists. split_and!; [done|done|lia]. }
  intros _ api1 (Hrest & Ht1 & l1 & El1 & Hr1 & Hroom). rewrite <- El1.
  destruct Hrest as (? & ? & ? & ? & ? & ? & ? & Hsz). rewrite wp_bind.
  apply ring_index_wp; [rewrite Hsz; lia|]. wps. cbn [id].
  rewrite <- Hsz in Hroom.
  assert ((ph_tail api + ph_queue_size api - 1) `mod` ph_queue_size api1 < ph_queue_size api1)%nat
    as Hlt by (apply Nat.mod_upper_bound; lia).
  rewrite (proj2 (Nat.ltb_lt _ _)) by exact Hlt. wps. split.
  - unfold ring_rest, ph_queue_size in *. cbn. rewrite length_insert. by split_and!.
  - pose proof (ring_repr_front _ f _ Hr1 Hroom) as Hf. rewrite Ht1, Hsz in Hf.
    rewrite Hsz. exact Hf.
Qed.
End ring.

(** *** The deque *)

Inductive phone_op := Ph_push (frame : list Z) | Ph_pop | Ph_front (frame : list Z).
Definition phone_exec (op : phone_op) : M phoneapi (option (list Z)) :=
  match op with
  | Ph_push frame => ring_push frame ;; mret None
  | Ph_pop =>
      api ← gets (S:=phoneapi) id;
      if (ph_count api =? 0)%nat then mret None else frame ← ring_pop; mret (Some frame)
  | Ph_front frame => meshtastic_phoneapi_push_frame_front frame ;; mret None
  end.
Fixpoint phone_run (ops : list phone_op) : M phoneapi (list (option (list Z))) :=
  match ops with
  | [] => mret []
  | op :: ops => out ← phone_exec op; outs ← phone_run ops; mret (out :: outs)
  end.

(** The specification: at most [size] frames, the oldest dropped by a push,
    the newest by a push in front. *)
Definition deque_step (size : nat) (op : phone_op) (l : list (list Z))
    : option (list Z) * list (list Z) :=
  match op with
  | Ph_push frame => (None, (if (length l =? size)%nat then tail l else l) ++ [frame])
  | Ph_pop => (head l, tail l)
  | Ph_front frame => (None, frame :: if (length l =? size)%nat then take (size - 1) l else l)
  end.
Fixpoint deque_run (size : nat) (ops : list phone_op) (l : list (list Z))
    : list (option (list Z)) * list (list Z) :=
  match ops with
  | [] => ([], l)
  | op :: ops =>
      let '(out, l) := deque_step size op l in
      let '(outs, l) := deque_run size ops l in (out :: outs, l)
  end.

Lemma phone_exec_wp op api l :
  ring_repr api l →
  wp (phone_exec op) (λ out api', ring_rest api api' ∧
    out = (deque_step (ph_queue_size api) op l).1 ∧
    ring_repr api' (deque_step (ph_queue_size api) op l).2) api.
Proof.
  intros Hr. destruct op as [f| |f]; cbn [phone_exec deque_step fst snd].
  - rewrite wp_bind. eapply wp_mono; [by apply ring_push_wp|]. intros _ api' (? & ? & ?). by wps.
  - wps. cbn [id]. rewrite (rr_count _ _ Hr). destruct l as [|f l]; cbn.
    + wps. split_and!; [apply ring_rest_refl|done|done].
    + rewrite wp_bind. eapply wp_mono; [by apply ring_pop_wp|]. intros g api' (-> & ? & ? & ?).
      by wps.
  - rewrite wp_bind. eapply wp_mono; [by apply ring_front_wp|]. intros _ api' (? & ?). by wps.
Qed.

(** ** Properties *)

(** C9: The frame ring of a phone client is a bounded deque: whatever the
    sequence of frames enqueued, read, and put back in front, from the
    transport's fresh queue on, every read returns what the deque returns, no
    access is out of bounds, and an overflow loses exactly the oldest frame
    (the newest, for a frame put back in front). *)
Theorem phone_ring_refines ops queue :
  (0 < length queue)%nat →
  ∃ api', phone_run ops (meshtastic_phoneapi_init queue) =
      Some ((deque_run (length queue) ops []).1, api') ∧
    ring_repr api' (deque_run (length queue) ops []).2.
Proof.
  intros Hq.
  assert (∀ ops api l, ring_repr api l →
    wp (phone_run ops) (λ outs api', outs = (deque_run (ph_queue_size api) ops l).1 ∧
      ring_repr api' (deque_run (ph_queue_size api) ops l).2) api) as Hrun.
  { clear ops queue Hq. induction ops as [|op ops IH]; intros api l Hr; cbn [phone_run deque_run].
    { by wps. }
    rewrite wp_bind. eapply wp_mono; [by apply phone_exec_wp|].
    intros out api1 ((? & ? & ? & ? & ? & ? & ? & Hsz) & Hout & Hr1). rewrite wp_bind.
    eapply wp_mono; [by apply IH|]. intros outs api2 [Houts Hr2]. wps. rewrite Hsz in *.
    destruct (deque_step _ _ _) as [o1 l1]. cbn [fst snd] in *.
    destruct (deque_run _ _ _) as [o2 l2]. cbn [fst snd] in *. by subst. }
  destruct (proj1 (wp_run _ _ _) (Hrun ops (meshtastic_phoneapi_init queue) []
    ltac:(constructor; unfold ph_queue_size; cbn; rewrite ?Nat.Div0.mod_0_l; done || lia)))
    as (outs & api' & Hr & -> & Hrepr).
  by exists api'.
Qed.

Lemma phone_ring_refines_witness :
  ∃ api', phone_run [Ph_push [1]; Ph_push [2]; Ph_push [3]; Ph_pop; Ph_front [9]; Ph_pop; Ph_pop]
      (meshtastic_phoneapi_init [[]; []]) =
      Some ([None; None; None; Some [2]; None; Some [9]; Some [3]], api') ∧ ring_repr api' [].
Proof.
  apply (phone_ring_refines
    [Ph_push [1]; Ph_push [2]; Ph_push [3]; Ph_pop; Ph_front [9]; Ph_pop; Ph_pop] [[]; []]).
  cbn. lia.
Defined.
