(* ===== verification/Handshake.v ===== *)
(** * The configuration handshake (the properties of PhoneApi.v)

    A phone that asks for the configuration reads forty frames, in a fixed
    order, before the queue is its again. *)

From S2P Require Import Prelude Types External Mock Core Airtime Channels NodeDB Wire Store World.
From S2P Require Import PhoneApi.

(** ** The script *)

(** One frame: the state and index it is sent from, and its content. *)
Record hs_step := mk_hs { hs_state : config_state; hs_index : nat; hs_variant : FromRadio_variant }.

(** The frames of the handshake for request [req], on a phone whose queue
    holds [size] frames. *)
Definition handshake `{Kconfig} (mt : context) (ch : channels) (st : store) (size : nat) (req : Z)
    : list hs_step :=
  [mk_hs CONFIG_MY_INFO 0 (fr_variant (fill_my_info mt 0));
   mk_hs CONFIG_DEVICE_UI 0 (FR_deviceuiConfig
     (match meshtastic_config_store_get_device_ui st with Ok c => Some c | Err _ => None end));
   mk_hs CONFIG_NODE_INFO 0 (fr_variant (fill_node_info (meshtastic_device_role ch) mt 0));
   mk_hs CONFIG_METADATA 0 (fr_variant (fill_metadata_frame (meshtastic_device_role ch) 0))] ++
  ((λ i, mk_hs CONFIG_CHANNELS i (fr_variant (fill_channel st (Z.of_nat i) 0))) <$> seq 0 8) ++
  imap (λ i c, mk_hs CONFIG_CONFIGS i (FR_config c)) (st_configs st) ++
  imap (λ i m, mk_hs CONFIG_MODULES i (FR_moduleConfig m)) (st_modules st) ++
  [mk_hs CONFIG_QUEUE_STATUS 0 (FR_queueStatus (mk_QueueStatus 0
     (if (size <=? 0)%nat then 0 else Z.of_nat size) (Z.of_nat size) 0));
   mk_hs CONFIG_COMPLETE 0 (FR_config_complete_id req)].

(** The state a frame leaves behind. *)
Definition hs_next (state : config_state) (index : nat) : config_state * nat :=
  match state with
  | CONFIG_IDLE => (CONFIG_IDLE, 0%nat)
  | CONFIG_MY_INFO => (CONFIG_DEVICE_UI, 0%nat)
  | CONFIG_DEVICE_UI => (CONFIG_NODE_INFO, 0%nat)
  | CONFIG_NODE_INFO => (CONFIG_METADATA, 0%nat)
  | CONFIG_METADATA => (CONFIG_CHANNELS, 0%nat)
  | CONFIG_CHANNELS => if (8 <=? S index)%nat then (CONFIG_CONFIGS, 0%nat) else (CONFIG_CHANNELS, S index)
  | CONFIG_CONFIGS => if (10 <=? S index)%nat then (CONFIG_MODULES, 0%nat) else (CONFIG_CONFIGS, S index)
  | CONFIG_MODULES =>
      if (16 <=? S index)%nat then (CONFIG_QUEUE_STATUS, 0%nat) else (CONFIG_MODULES, S index)
  | CONFIG_QUEUE_STATUS => (CONFIG_COMPLETE, 0%nat)
  | CONFIG_COMPLETE => (CONFIG_IDLE, 0%nat)
  end.

(** Where the handshake stands before frame [n]. *)
Definition hs_place (script : list hs_step) (n : nat) : config_state * nat :=
  match script !! n with Some s => (hs_state s, hs_index s) | None => (CONFIG_IDLE, 0%nat) end.

Section handshake.
Context {K L T : Type} `{Kconfig} `{Pb FromRadio}.
Notation W := (world K L T).

Lemma imap_const {A B} (f : nat → B) (l : list A) :
  imap (λ i _, f i) l = f <$> seq 0 (length l).
Proof.
  apply list_eq. intros i. rewrite list_lookup_imap, list_lookup_fmap.
  destruct (l !! i) eqn:E.
  - rewrite lookup_seq_lt by (by eapply lookup_lt_Some). done.
  - by rewrite lookup_seq_ge by (by apply lookup_ge_None_1).
Qed.

Definition places : list (config_state * nat) :=
  [(CONFIG_MY_INFO, 0%nat); (CONFIG_DEVICE_UI, 0%nat); (CONFIG_NODE_INFO, 0%nat);
   (CONFIG_METADATA, 0%nat)] ++
  ((λ i, (CONFIG_CHANNELS, i)) <$> seq 0 8) ++ ((λ i, (CONFIG_CONFIGS, i)) <$> seq 0 10) ++
  ((λ i, (CONFIG_MODULES, i)) <$> seq 0 16) ++
  [(CONFIG_QUEUE_STATUS, 0%nat); (CONFIG_COMPLETE, 0%nat)].

Lemma handshake_places mt ch st size req :
  length (st_configs st) = 10%nat → length (st_modules st) = 16%nat →
  (λ s, (hs_state s, hs_index s)) <$> handshake mt ch st size req = places.
Proof.
  intros Hc Hm. unfold handshake, places. rewrite !fmap_app, !fmap_imap, <- list_fmap_compose.
  unfold compose. cbn [hs_state hs_index].
  rewrite (imap_const (λ i, (CONFIG_CONFIGS, i))), (imap_const (λ i, (CONFIG_MODULES, i))).
  by rewrite Hc, Hm.
Qed.

Lemma handshake_length mt ch st size req :
  length (st_configs st) = 10%nat → length (st_modules st) = 16%nat →
  length (handshake mt ch st size req) = 40%nat.
Proof.
  intros Hc Hm. erewrite <- length_fmap, handshake_places by done. done.
Qed.

Lemma place_lookup mt ch st size req n :
  length (st_configs st) = 10%nat → length (st_modules st) = 16%nat →
  hs_place (handshake mt ch st size req) n = default (CONFIG_IDLE, 0%nat) (places !! n).
Proof.
  intros Hc Hm. rewrite <- (handshake_places mt ch st size req Hc Hm).
  unfold hs_place. rewrite list_lookup_fmap. by destruct (_ !! n).
Qed.

Lemma places_chain n : (n < 40)%nat →
  let p := default (CONFIG_IDLE, 0%nat) (places !! n) in
  hs_next p.1 p.2 = default (CONFIG_IDLE, 0%nat) (places !! S n) ∧ p.1 ≠ CONFIG_IDLE.
Proof.
  intros Hn. assert (Forall (λ n,
    hs_next (default (CONFIG_IDLE, 0%nat) (places !! n)).1 (default (CONFIG_IDLE, 0%nat) (places !! n)).2
      = default (CONFIG_IDLE, 0%nat) (places !! S n) ∧
    (default (CONFIG_IDLE, 0%nat) (places !! n)).1 ≠ CONFIG_IDLE) (seq 0 40)) as Hall.
  { apply (bool_decide_unpack _). by vm_compute. }
  rewrite Forall_seq in Hall. apply Hall. lia.
Qed.

(** ** One frame *)

Lemma on_phone_gets {A} (f : phoneapi → A) i api (w : W) :
  w_phones w !! i = Some api → on_phone i (gets f) w = Some (f api, w).
Proof.
  intros Hi. unfold on_phone, gets. rewrite Hi. destruct w. cbn in *. unfold set. cbn.
  by rewrite list_insert_id.
Qed.

Lemma on_phone_modify (f : phoneapi → phoneapi) i api (w : W) :
  w_phones w !! i = Some api →
  on_phone i (modify f) w = Some ((), w <| w_phones ::= <[i := f api]> |>) ∧
  w_phones (w <| w_phones ::= <[i := f api]> |>) !! i = Some (f api).
Proof.
  intros Hi. split; [unfold on_phone; by rewrite Hi|]. cbn.
  apply list_lookup_insert_eq. by eapply lookup_lt_Some.
Qed.

(** The identifier the next frame gets, and the state with the counter
    advanced. *)
Definition hs_id (w : W) : Z := (meshtastic_next_fromradio_id (w_mt w)).1.
Definition hs_tick (w : W) : W := w <| w_mt := (meshtastic_next_fromradio_id (w_mt w)).2 |>.

Lemma next_id_run (w : W) : next_fromradio_id w = Some (hs_id w, hs_tick w).
Proof.
  unfold next_fromradio_id, zoom, state, hs_id, hs_tick.
  by destruct (meshtastic_next_fromradio_id (w_mt w)).
Qed.

(** The phone has moved on to [place]. *)
Definition moved (i : nat) (api : phoneapi) (place : config_state * nat) (w : W) : W :=
  w <| w_phones ::= <[i := api <| ph_config_state := place.1 |> <| ph_config_index := place.2 |>]> |>.

Lemma emit_frame_run i from state index api f (w : W) :
  w_phones w !! i = Some api → pb_encode MESHTASTIC_API_FRAME_MAX from = Some f →
  emit_frame i from state index w = Some (Ok f, moved i api (state, index) w).
Proof.
  intros Hi Hf. unfold emit_frame, meshtastic_phoneapi_encode_fromradio_frame. rewrite Hf.
  unfold mbind, M_bind, on_phone. by rewrite Hi.
Qed.

(** A loop over tags stops at the first one, when it can be filled. *)
Lemma config_loop_run i fill tag tags this next index v api f (w : W) :
  w_phones w !! i = Some api →
  fill (w_store w) tag (hs_id w) = Ok (mk_FromRadio (hs_id w) v) →
  pb_encode MESHTASTIC_API_FRAME_MAX (mk_FromRadio (hs_id w) v) = Some f →
  config_loop i fill (tag :: tags) this next index w =
    Some (Some (Ok f), moved i api
      (if bool_decide (tags = []) then (next, 0%nat) else (this, S index)) (hs_tick w)).
Proof.
  intros Hi Hfill Hf. cbn [config_loop]. unfold mbind, M_bind. rewrite next_id_run.
  unfold gets at 1. change (w_store (hs_tick w)) with (w_store w). rewrite Hfill.
  rewrite (emit_frame_run _ _ _ _ api f (hs_tick w)) by done. by case_bool_decide.
Qed.

Lemma get_config_tag st i c :
  st_configs st !! i = Some c → (i < 10)%nat → ∃ tag, config_tags !! i = Some tag ∧
    meshtastic_config_store_get_config tag st = Ok c.
Proof.
  intros Hc Hi. unfold meshtastic_config_store_get_config.
  do 10 (destruct i as [|i]; [eexists; split; [done|]; cbn; by rewrite Hc|]). lia.
Qed.
Lemma get_module_tag st i m :
  st_modules st !! i = Some m → (i < 16)%nat → ∃ tag, module_tags !! i = Some tag ∧
    meshtastic_config_store_get_module tag st = Ok m.
Proof.
  intros Hm Hi. unfold meshtastic_config_store_get_module.
  do 16 (destruct i as [|i]; [eexists; split; [done|]; cbn; by rewrite Hm|]). lia.
Qed.

Lemma drop_last_nil {A} (l : list A) i n :
  length l = n → bool_decide (drop (S i) l = []) = (n <=? S i)%nat.
Proof.
  intros <-. destruct (Nat.leb_spec (length l) (S i)).
  - rewrite drop_ge by done. done.
  - apply bool_decide_eq_false. intros Hd. apply (f_equal length) in Hd.
    rewrite length_drop in Hd. cbn in Hd. lia.
Qed.

Lemma iteration_run i api s f (w : W) :
  w_phones w !! i = Some api → ph_count api = 0%nat →
  length (st_configs (w_store w)) = 10%nat → length (st_modules (w_store w)) = 16%nat →
  s ∈ handshake (w_mt w) (w_channels w) (w_store w) (ph_queue_size api)
        (ph_config_request_id api) →
  ph_config_state api = hs_state s → ph_config_index api = hs_index s →
  pb_encode MESHTASTIC_API_FRAME_MAX (mk_FromRadio (hs_id w) (hs_variant s)) = Some f →
  config_iteration i w =
    Some (Some (Ok f), moved i api (hs_next (hs_state s) (hs_index s)) (hs_tick w)).
Proof.
  intros Hi Hcount Hc Hm Hs Hst Hix Hf. unfold config_iteration. unfold mbind, M_bind.
  rewrite (on_phone_gets id i api w Hi). unfold gets at 1 2 3. cbn [id]. rewrite Hst, Hix.
  assert (w_phones (hs_tick w) !! i = Some api) as Hi' by done.
  unfold handshake in Hs. rewrite !elem_of_app in Hs.
  destruct Hs as [Hs|[Hs|[Hs|[Hs|Hs]]]].
  - rewrite !elem_of_cons, elem_of_nil in Hs. destruct Hs as [->|[->|[->|[->|[]]]]];
      cbn [hs_state hs_index hs_variant fr_variant fill_my_info fill_node_info fill_metadata_frame
        hs_next] in *;
      rewrite next_id_run; cbv beta iota; by rewrite (emit_frame_run _ _ _ _ api f _ Hi' Hf).
  - apply list_elem_of_fmap in Hs as (n & -> & Hn%elem_of_seq).
    cbn [hs_state hs_index hs_variant fr_variant fill_channel hs_next] in *.
    rewrite next_id_run. cbv beta iota zeta. rewrite (emit_frame_run _ _ _ _ api f _ Hi' Hf).
    change MESHTASTIC_MAX_CHANNELS with (Z.of_nat 8). replace (Z.of_nat n + 1) with (Z.of_nat (S n)) by lia.
    destruct (Nat.leb_spec 8 (S n)).
    + by rewrite (proj2 (Z.leb_le _ _)) by lia.
    + by rewrite (proj2 (Z.leb_gt _ _)) by lia.
  - apply elem_of_lookup_imap in Hs as (n & c & -> & Hn). cbn [hs_state hs_index hs_variant hs_next] in *.
    pose proof (lookup_lt_Some _ _ _ Hn). destruct (get_config_tag _ n c Hn) as (tag & Ht & Hg); [lia|].
    rewrite (drop_S _ tag) by done.
    rewrite (config_loop_run i _ tag _ _ _ _ (FR_config c) api f w); [|done| |done].
    + rewrite (drop_last_nil _ _ 10) by done. by destruct (10 <=? S n)%nat.
    + unfold fill_config_variant. by rewrite Hg.
  - apply elem_of_lookup_imap in Hs as (n & c & -> & Hn). cbn [hs_state hs_index hs_variant hs_next] in *.
    pose proof (lookup_lt_Some _ _ _ Hn). destruct (get_module_tag _ n c Hn) as (tag & Ht & Hg); [lia|].
    rewrite (drop_S _ tag) by done.
    rewrite (config_loop_run i _ tag _ _ _ _ (FR_moduleConfig c) api f w); [|done| |done].
    + rewrite (drop_last_nil _ _ 16) by done. by destruct (16 <=? S n)%nat.
    + unfold fill_module_variant. by rewrite Hg.
  - rewrite !elem_of_cons, elem_of_nil in Hs. destruct Hs as [->|[->|[]]];
      cbn [hs_state hs_index hs_variant hs_next] in *; rewrite next_id_run; cbv beta iota zeta;
      rewrite ?Hcount, ?Nat.sub_0_r; by rewrite (emit_frame_run _ _ _ _ api f _ Hi' Hf).
Qed.

(** ** Forty frames *)

Fixpoint read_frames (n : nat) (i : nat) : M W (list (option (list Z))) :=
  match n with
  | O => mret []
  | S n => out ← meshtastic_phoneapi_pop_frame i; outs ← read_frames n i; mret (out :: outs)
  end.

Lemma read_frames_snoc n i : ∀ (w : W) outs w1,
  read_frames n i w = Some (outs, w1) →
  read_frames (S n) i w = match meshtastic_phoneapi_pop_frame i w1 with
                          | Some (out, w2) => Some (outs ++ [out], w2) | None => None end.
Proof.
  induction n as [|n IH]; intros w outs w1 Hr.
  - injection Hr as <- <-. cbn. unfold mbind, M_bind.
    by destruct (meshtastic_phoneapi_pop_frame i w) as [[]|].
  - cbn [read_frames] in Hr. unfold mbind at 1, M_bind in Hr.
    change (read_frames (S (S n)) i w) with
      ((out ← meshtastic_phoneapi_pop_frame i; outs ← read_frames (S n) i; mret (out :: outs)) w).
    unfold mbind at 1, M_bind.
    destruct (meshtastic_phoneapi_pop_frame i w) as [[out w']|]; [|done].
    unfold mbind, M_bind in Hr |- *. destruct (read_frames n i w') as [[outs' w2]|] eqn:E; [|done].
    injection Hr as <- <-. rewrite (IH w' outs' w2 E).
    by destruct (meshtastic_phoneapi_pop_frame i w2) as [[]|].
Qed.

(** A frame of the script, with some identifier. *)
Definition is_frame (out : option (list Z)) (s : hs_step) : Prop :=
  ∃ id f, id ≠ 0 ∧ pb_encode MESHTASTIC_API_FRAME_MAX (mk_FromRadio id (hs_variant s)) = Some f ∧
    out = Some f.

Lemma handshake_tick mt ch st size req :
  handshake (meshtastic_next_fromradio_id mt).2 ch st size req = handshake mt ch st size req.
Proof. unfold meshtastic_next_fromradio_id. by destruct (next_nonzero _). Qed.

Lemma hs_id_ok (w : W) : is_u32 (mt_next_fromradio_id (w_mt w)) →
  hs_id w ≠ 0 ∧ is_u32 (hs_id w) ∧ is_u32 (mt_next_fromradio_id (w_mt (hs_tick w))).
Proof.
  intros Hn. unfold hs_id, hs_tick, meshtastic_next_fromradio_id.
  pose proof (next_nonzero_spec _ Hn) as (? & ? & ? & _). by destruct (next_nonzero _).
Qed.

(** What stays put while the phone reads the script. *)
Record hs_inv (script : list hs_step) (i n : nat) (w : W) : Prop := {
  hi_phone : ∃ api, w_phones w !! i = Some api ∧ ph_count api = 0%nat ∧
    script = handshake (w_mt w) (w_channels w) (w_store w) (ph_queue_size api)
      (ph_config_request_id api) ∧
    (ph_config_state api, ph_config_index api) = hs_place script n;
  hi_configs : length (st_configs (w_store w)) = 10%nat;
  hi_modules : length (st_modules (w_store w)) = 16%nat;
  hi_counter : is_u32 (mt_next_fromradio_id (w_mt w))
}.

Lemma pop_script script i n s (w : W) :
  hs_inv script i n w → script !! n = Some s →
  (∀ id, is_u32 id → is_Some (pb_encode MESHTASTIC_API_FRAME_MAX (mk_FromRadio id (hs_variant s)))) →
  ∃ out w', meshtastic_phoneapi_pop_frame i w = Some (out, w') ∧ is_frame out s ∧
    hs_inv script i (S n) w'.
Proof.
  intros [(api & Hi & Hcount & Hscript & Hplace) Hc Hm Hctr] Hs Henc.
  destruct (hs_id_ok w Hctr) as (Hnz & Hid & Hctr'). destruct (Henc _ Hid) as [f Hf].
  assert (n < 40)%nat as Hn.
  { apply lookup_lt_Some in Hs. rewrite Hscript, handshake_length in Hs by done. done. }
  destruct (places_chain n Hn) as [Hnext Hidle]. subst script.
  assert (default (CONFIG_IDLE, 0%nat) (places !! n) = (hs_state s, hs_index s)) as Hpl.
  { rewrite <- (place_lookup (w_mt w) (w_channels w) (w_store w) (ph_queue_size api)
      (ph_config_request_id api)) by done. unfold hs_place. by rewrite Hs. }
  rewrite place_lookup, Hpl in Hplace by done. injection Hplace as Hst Hix.
  rewrite Hpl in Hnext, Hidle. cbn [fst snd] in Hnext, Hidle.
  exists (Some f), (moved i api (hs_next (hs_state s) (hs_index s)) (hs_tick w)). split_and!.
  - unfold meshtastic_phoneapi_pop_frame, mbind, M_bind. rewrite (on_phone_gets id i api w Hi).
    cbn [id]. rewrite Hcount. cbn [Nat.eqb]. unfold config_active.
    rewrite Hst, bool_decide_false by done. cbn [negb].
    unfold meshtastic_phoneapi_next_config_frame. cbn [next_config_frame_].
    unfold mbind, M_bind. rewrite (iteration_run i api s f w) by (try done; by eapply list_elem_of_lookup_2).
    done.
  - by exists (hs_id w), f.
  - constructor; [|done|done|done]. eexists. split.
    + unfold moved. cbn. apply list_lookup_insert_eq. by eapply lookup_lt_Some.
    + cbn [ph_count ph_queue_size ph_queue ph_config_request_id ph_config_state ph_config_index].
      split_and!; [done| |].
      * symmetry. apply (handshake_tick (w_mt w)).
      * rewrite place_lookup, <- Hnext by done. cbn. by destruct (hs_next _ _).
Qed.

Lemma read_script script i k : ∀ n (w : W),
  hs_inv script i n w → (n + k = length script)%nat →
  (∀ s id, s ∈ script → is_u32 id →
     is_Some (pb_encode MESHTASTIC_API_FRAME_MAX (mk_FromRadio id (hs_variant s)))) →
  ∃ outs w', read_frames k i w = Some (outs, w') ∧ Forall2 is_frame outs (drop n script) ∧
    hs_inv script i (length script) w'.
Proof.
  induction k as [|k IH]; intros n w Hinv Hn Henc; cbn [read_frames].
  - exists [], w. replace n with (length script) in * by lia. by rewrite drop_all.
  - destruct (lookup_lt_is_Some_2 script n ltac:(lia)) as [s Hs].
    destruct (pop_script script i n s w Hinv Hs) as (out & w1 & Hr1 & Ho & Hinv1).
    { intros id. apply Henc. by eapply list_elem_of_lookup_2. }
    destruct (IH (S n) w1 Hinv1 ltac:(lia) Henc) as (outs & w2 & Hr2 & Hos & Hinv2).
    exists (out :: outs), w2. unfold mbind, M_bind. rewrite Hr1, Hr2. split_and!; [done| |done].
    rewrite (drop_S script s n) by done. by constructor.
Qed.

(** ** Properties *)

(** C10: the handshake delivers the whole configuration: after a phone has asked
    for it with number [req], and as long as nothing else is queued for the
    phone, the next forty frames it reads are, in this order, the node number,
    the device UI, the node's user, the metadata, the eight channels, the ten
    configuration groups, the sixteen module groups, the queue status and the
    completion notice with [req], whatever the phone's queue held before; then
    there is nothing left to read and the handshake is over.  (Every message
    is assumed to fit its frame: one that does not stalls the handshake.) *)
Theorem handshake_delivers i req api (w : W)
    (script := handshake (w_mt w) (w_channels w) (w_store w) (ph_queue_size api) req) :
  w_phones w !! i = Some api →
  length (st_configs (w_store w)) = 10%nat → length (st_modules (w_store w)) = 16%nat →
  is_u32 (mt_next_fromradio_id (w_mt w)) →
  (∀ s id, s ∈ script → is_u32 id →
     is_Some (pb_encode MESHTASTIC_API_FRAME_MAX (mk_FromRadio id (hs_variant s)))) →
  length script = 40%nat ∧
  ∃ outs w', (meshtastic_phoneapi_enqueue_phone_config i req ;; read_frames 41 i) w
      = Some (outs ++ [None], w') ∧
    Forall2 is_frame outs script ∧
    ∃ api', w_phones w' !! i = Some api' ∧ ph_config_state api' = CONFIG_IDLE.
Proof.
  intros Hi Hc Hm Hctr Henc. assert (length script = 40%nat) as Hlen by (by apply handshake_length).
  split; [done|]. unfold mbind at 1, M_bind.
  assert (∃ w1, meshtastic_phoneapi_enqueue_phone_config i req w = Some ((), w1) ∧
    hs_inv script i 0 w1) as (w1 & -> & Hinv).
  { unfold meshtastic_phoneapi_enqueue_phone_config, mbind, M_bind.
    unfold meshtastic_phoneapi_notify_data_ready.
    do 3 (lazymatch goal with
          | Hj : w_phones ?v !! i = Some ?a |- context [on_phone i (modify ?f) ?v] =>
              let Hk := fresh "Hi" in destruct (on_phone_modify f i a v Hj) as [-> Hk]
          end; cbv beta iota).
    eexists. split; [reflexivity|]. constructor; [|done..]. eexists. split; [exact Hi2|].
    split_and!; [done| |by unfold script, handshake, hs_place]. done. }
  destruct (read_script script i 40 0 w1 Hinv) as (outs & w2 & Hr & Hf & Hinv2); [by rewrite Hlen|done|].
  destruct Hinv2 as [(api2 & Hi2 & Hcount & _ & Hplace) _ _ _].
  unfold hs_place in Hplace. rewrite lookup_ge_None_2 in Hplace by done. injection Hplace as Hst _.
  exists outs, w2. split_and!; [|done|by exists api2].
  rewrite (read_frames_snoc 40 i w1 outs w2 Hr). unfold meshtastic_phoneapi_pop_frame, mbind, M_bind.
  rewrite (on_phone_gets id i api2 w2 Hi2). cbn [id]. rewrite Hcount. cbn [Nat.eqb].
  unfold config_active. by rewrite Hst, bool_decide_true.
Qed.
End handshake.

(** ** The mock node and a phone *)

#[local] Existing Instance default_kconfig.

(** A codec that sends the frame's number and the kind of its content. *)
Definition variant_kind (v : FromRadio_variant) : Z :=
  match v with
  | FR_my_info _ => 3 | FR_node_info _ _ => 4 | FR_config _ => 5 | FR_config_complete_id _ => 7
  | FR_moduleConfig _ => 9 | FR_channel _ => 10 | FR_queueStatus _ => 11 | FR_metadata _ => 13
  | FR_deviceuiConfig _ => 17 | _ => 0
  end.
#[local] Instance kind_FromRadio : Pb FromRadio :=
  {| pb_encode _ from := Some [fr_id from `mod` 256; variant_kind (fr_variant from)];
     pb_decode _ := None |}.

Definition asking_world : world toy_psa mock_lora mock_kernel :=
  (mock_world (mock_radio 0) (mock_clock false))
    <| w_phones := [meshtastic_phoneapi_init [[]; []; []]] |> <| w_store := factory_store |>.

Lemma handshake_delivers_witness :
  let script := handshake (w_mt asking_world) (w_channels asking_world) factory_store 3 77 in
  length script = 40%nat ∧
  ∃ outs w', (meshtastic_phoneapi_enqueue_phone_config 0 77 ;; read_frames 41 0) asking_world
      = Some (outs ++ [None], w') ∧
    Forall2 is_frame outs script ∧
    ∃ api', w_phones w' !! 0%nat = Some api' ∧ ph_config_state api' = CONFIG_IDLE.
Proof.
  apply (handshake_delivers 0 77 (meshtastic_phoneapi_init [[]; []; []]) asking_world).
  - done.
  - by vm_compute.
  - by vm_compute.
  - by apply (bool_decide_unpack _); vm_compute.
  - intros s id _ _. by eexists.
Defined.
