(* ===== verification/Invariant.v ===== *)
(** * The invariant of the running node

    The conjunction of the components' invariants, with a fixed key store, and
    the proof that every primitive the handlers are made of preserves it and
    returns: [keeps].  The [keeps] database then carries the invariant through
    the handlers of the files that follow. *)

From S2P Require Import Prelude Types External Mock Core Airtime Channels NodeDB Wire Store World.
From S2P Require Import Radio Reliable PhoneApi.

(** What no operation of the running node changes: the keys the application
    holds in the crypto service (the stack leaves none behind), the number of
    transports, and the stored configuration; and calls of the upload hooks it
    only adds to. *)
Record fixed := mk_fixed {
  fx_keys : gmap Z (list Z); fx_phones : nat; fx_store : store; fx_uplinks : list uplink_call
}.
Definition with_store (fx : fixed) (st : store) : fixed :=
  mk_fixed (fx_keys fx) (fx_phones fx) st (fx_uplinks fx).
Definition with_uplinks (fx : fixed) (calls : list uplink_call) : fixed :=
  mk_fixed (fx_keys fx) (fx_phones fx) (fx_store fx) calls.

Section invariant.
Context {K L T : Type} `{KconfigRanges} `{PSALaws K} `{LoraLaws L} `{KernelLaws T}.
Context `{Pb Data} `{!PbLaws Data Data_ok}.
Notation W := (world K L T).

Record world_wf (fx : fixed) (w : W) : Prop := {
  ww_channels : chan_wf (w_channels w);
  ww_nodedb : nodedb_wf (w_nodedb w);
  ww_outbound : outbound_wf (w_outbound w);
  ww_pending : length (reliable_entries (w_reliable w)) = CONFIG_RELIABLE_MAX_PENDING;
  ww_entries : Forall entry_wf (reliable_entries (w_reliable w));
  ww_phones : Forall (λ api, ∃ l, ring_repr api l) (w_phones w);
  ww_dup : length (mt_dup_cache (w_mt w)) = CONFIG_DUP_CACHE_SIZE;
  ww_dup_head : (mt_dup_head (w_mt w) < CONFIG_DUP_CACHE_SIZE)%nat;
  ww_peers : length (w_peers w) = CONFIG_NODEINFO_PEER_CACHE_SIZE;
  ww_keys : psa_keys (w_psa w) = fx_keys fx;
  ww_count : length (w_phones w) = fx_phones fx;
  ww_store : w_store w = fx_store fx;
  ww_uplinks : fx_uplinks fx `prefix_of` w_uplinks w
}.

Context (fx : fixed).
Notation I := (world_wf fx).

(** A statement that only reads the invariant's part of the state. *)
Record same_wf (w w' : W) : Prop := {
  sw_channels : w_channels w' = w_channels w;
  sw_nodedb : w_nodedb w' = w_nodedb w;
  sw_outbound : w_outbound w' = w_outbound w;
  sw_entries : reliable_entries (w_reliable w') = reliable_entries (w_reliable w);
  sw_phones : w_phones w' = w_phones w;
  sw_dup : mt_dup_cache (w_mt w') = mt_dup_cache (w_mt w);
  sw_dup_head : mt_dup_head (w_mt w') = mt_dup_head (w_mt w);
  sw_peers : w_peers w' = w_peers w;
  sw_keys : psa_keys (w_psa w') = psa_keys (w_psa w);
  sw_store : w_store w' = w_store w;
  sw_uplinks : w_uplinks w' = w_uplinks w
}.

Lemma same_wf_keeps w w' : same_wf w w' → I w → I w'.
Proof.
  intros [E1 E2 E3 E4 E5 E6 E7 E8 E9 E10 E11] []. constructor; rewrite ?E1, ?E2, ?E3, ?E4, ?E5, ?E6,
    ?E7, ?E8, ?E9, ?E10, ?E11; done.
Qed.

Lemma keeps_same {A} (m : M W A) :
  (∀ w, I w → wp m (λ _ w', same_wf w w') w) → keeps I m.
Proof.
  intros Hm w HI. eapply wp_mono; [by apply Hm|]. intros a w' Hs. exact (same_wf_keeps w w' Hs HI).
Qed.

Ltac same := apply keeps_same; intros w _; wps; by constructor.

Lemma keeps_status f : keeps I (status_modify f).
Proof. same. Qed.
Lemma keeps_uptime : keeps I uptime_get.
Proof. unfold uptime_get. same. Qed.
Lemma keeps_allocate : keeps I allocate_packet_id.
Proof.
  unfold allocate_packet_id. apply keeps_same. intros w _. wps.
  unfold meshtastic_allocate_packet_id. destruct (next_nonzero _). by constructor.
Qed.
Lemma keeps_fromradio_id : keeps I next_fromradio_id.
Proof.
  unfold next_fromradio_id. apply keeps_same. intros w _. wps.
  unfold meshtastic_next_fromradio_id. destruct (next_nonzero _). by constructor.
Qed.
Lemma keeps_airtime_log ty ms : keeps I (airtime_log ty ms).
Proof. unfold airtime_log. same. Qed.
Lemma keeps_airtime_ms n : keeps I (meshtastic_airtime_packet_ms n).
Proof. unfold meshtastic_airtime_packet_ms. same. Qed.
Lemma keeps_trace f : keeps I (modify (set w_trace f)).
Proof. same. Qed.
Lemma keeps_sleeping ms : keeps I (sleep ms).
Proof. unfold sleep. same. Qed.
Lemma keeps_emit ty err p : keeps I (meshtastic_emit_event ty err p).
Proof.
  unfold meshtastic_emit_event. apply keeps_bind; [apply keeps_gets|]. intros mt.
  apply keeps_if; [apply keeps_trace|apply keeps_ret].
Qed.

(** The calls of the hooks only grow. *)
Lemma uplink_wf w call : I w → I (w <| w_uplinks ::= (λ l, l ++ [call]) |>).
Proof. intros []. constructor; try done. cbn. by apply prefix_app_r. Qed.
Lemma keeps_hook sent p wire : keeps I (mqtt_hook sent p wire).
Proof.
  unfold mqtt_hook. apply keeps_if; [|apply keeps_ret]. apply keeps_modify. intros w. apply uplink_wf.
Qed.

(** ** The transmit queue *)

Lemma tx_frame_wf w w' : tx_frame w w' → I w → outbound_wf (w_outbound w') → I w'.
Proof.
  intros [(st & a & E0) E1 E2 E3 E4 E5 E6 E7 E8 E9 E10] [] Ho. cbn in *.
  by constructor; rewrite ?E0, ?E1, ?E2, ?E3, ?E6, ?E7, ?E8, ?E9, ?E10.
Qed.

Lemma outbound_wf_push o wire :
  outbound_wf o → (length (out_queue o) < CONFIG_OUTBOUND_QUEUE_DEPTH)%nat →
  outbound_wf (o <| out_queue ::= (λ q, q ++ [mk_item wire None]) |>).
Proof.
  intros [Hb Hl Hf] Hlt. constructor; cbn; [rewrite length_app; cbn; lia| |done].
  intros it f [Hin| ->%list_elem_of_singleton]%elem_of_app; [by apply Hl|done].
Qed.

Lemma keeps_enqueue wire wait :
  is_no_wait wait || is_forever wait = true → keeps I (outbound_enqueue (Some wire) wait).
Proof.
  intros Hwait w HI. destruct (decide (frame_ok wire)) as [Hok|Hbad]; cycle 1.
  { unfold wp. by rewrite enqueue_bad_frame. }
  destruct (is_no_wait wait) eqn:Enw.
  - unfold wp. rewrite enqueue_no_wait_run by done. case_if; [|done]. apply Nat.ltb_lt in E.
    eapply tx_frame_wf; [apply tx_frame_outbound|done|]. apply outbound_wf_push; [apply HI|done].
  - destruct wait; try done. eapply wp_mono; [apply enqueue_forever_wp; [done|apply HI]|].
    intros ret w' (rets & Hlen & Hf & Hout & _). eapply tx_frame_wf; [done..|]. rewrite Hout.
    destruct (ww_outbound _ _ HI) as [Hb Hl Hfr].
    constructor; cbn -[store_results]; [lia|by intros ? ? ?%elem_of_nil|].
    intros f Hle. apply store_results_None; [done|]. apply Hfr. lia.
Qed.

Lemma keeps_send_wire wire : keeps I (meshtastic_radio_send_wire wire).
Proof. by apply keeps_enqueue. Qed.
Lemma keeps_send_wire_wait wire wait :
  is_no_wait wait || is_forever wait = true → keeps I (meshtastic_radio_send_wire_wait wire wait).
Proof. apply keeps_enqueue. Qed.

(** ** Acknowledgement tracking *)

Lemma reliable_wf_world r w :
  I w → length (reliable_entries r) = CONFIG_RELIABLE_MAX_PENDING →
  Forall entry_wf (reliable_entries r) → I (w <| w_reliable := r |>).
Proof. intros [] ??. by constructor. Qed.

Lemma keeps_track p wire : keeps I (meshtastic_reliable_track (Some p) (Some wire)).
Proof.
  intros w HI. eapply wp_mono; [apply track_wp|]. intros _ w' [t Hw].
  case_if_in Hw; [by subst|]. boolp.
  destruct (find_index _ _) as [i|]; [|subst; by apply (same_wf_keeps w)].
  destruct Hw as (d & Hd & ->). pose proof reliable_retrans_range.
  apply (same_wf_keeps (w <| w_reliable ::= (λ r, rearm (k_uptime_get (w_kernel w)).1
    (r <| reliable_entries := <[i := tracked_entry p wire ((k_uptime_get (w_kernel w)).1 + d)]>
       (reliable_entries (w_reliable w)) |>)) |>)); [by constructor|].
  apply (reliable_wf_world _ w HI); rewrite rearm_entries; cbn.
  - rewrite length_insert. apply HI.
  - apply Forall_insert; [apply HI|]. intros _. cbn. split; [done|]. split; [lia|].
    apply clock_room. lia.
Qed.

Lemma keeps_track_ p wire : keeps I (meshtastic_reliable_track p (Some wire)).
Proof. destruct p; [apply keeps_track|apply keeps_ret]. Qed.

Lemma keeps_on_routing `{Pb Routing} p : keeps I (meshtastic_reliable_on_routing (Some p)).
Proof.
  intros w HI. unfold wp. rewrite on_routing_run. case_if; [done|].
  destruct (waiting_for _ _) as [i|]; [|done].
  apply (same_wf_keeps (w <| w_reliable ::= set reliable_entries (alter (set re_id (λ _, 0)) i) |>));
    [by constructor|].
  apply (reliable_wf_world _ w HI); cbn; [rewrite length_alter; apply HI|].
  apply Forall_alter; [apply HI|]. intros. apply free_entry_wf.
Qed.

(** ** Phones *)

Lemma on_phone_wp {A} i (m : M phoneapi A) Q w :
  I w → is_Some (w_phones w !! i) →
  (∀ api l, w_phones w !! i = Some api → ring_repr api l →
    wp m (λ a api', (∃ l', ring_repr api' l') ∧ Q a (w <| w_phones ::= <[i := api']> |>)) api) →
  wp (on_phone i m) (λ a w', I w' ∧ Q a w') w.
Proof.
  intros HI [api Hi] Hm. unfold on_phone, wp. rewrite Hi.
  destruct (Forall_lookup_1 _ _ _ _ (ww_phones _ _ HI) Hi) as [l Hl].
  specialize (Hm api l Hi Hl). unfold wp in Hm. destruct (m api) as [[a api']|]; [|done].
  destruct Hm as [Hr HQ]. split; [|done]. destruct HI. constructor; try done; cbn.
  - by apply Forall_insert.
  - by rewrite length_insert.
Qed.

Lemma enqueue_fromradio_wp `{Pb FromRadio} i from w :
  I w → is_Some (w_phones w !! i) →
  wp (meshtastic_phoneapi_enqueue_fromradio i from)
    (λ _ w', I w' ∧ length (w_phones w') = length (w_phones w)) w.
Proof.
  intros HI Hi. unfold meshtastic_phoneapi_enqueue_fromradio.
  destruct (meshtastic_phoneapi_encode_fromradio_frame from); [|by wps]. rewrite wp_bind.
  eapply wp_mono; [apply (on_phone_wp _ _ (λ _ w', length (w_phones w') = length (w_phones w)));
    [done..|]|].
  { intros api l _ Hr. eapply wp_mono; [by apply ring_push_wp|].
    intros u api' (_ & _ & Hr'). split; [by eexists|]. cbn. apply length_insert. }
  intros u w' Hw'. by wps.
Qed.

Lemma keeps_phone_packet `{Pb FromRadio} p : keeps I (meshtastic_phoneapi_on_packet p).
Proof.
  intros w HI. unfold meshtastic_phoneapi_on_packet. rewrite wp_bind.
  eapply wp_mono; [by apply keeps_fromradio_id|]. intros id w1 HI1.
  destruct (meshtastic_packet_to_mesh_pb (Some p)) as [mesh|]; [|by wps]. wps.
  eapply wp_mono with (Q := λ _ w', I w' ∧ length (w_phones w') = length (w_phones w1));
    [|by intros ? ? []].
  apply (wp_mapM _ (λ w', I w' ∧ length (w_phones w') = length (w_phones w1))); [done|].
  intros i w2 Hi%elem_of_seq [HI2 Hl]. rewrite wp_bind. eapply wp_mono.
  - apply enqueue_fromradio_wp; [done|]. apply lookup_lt_is_Some. lia.
  - intros _ w3 [HI3 Hl3]. wps. split; [done|lia].
Qed.

(** ** The crypto service *)

Lemma psa_wp {A} (m : M K A) w :
  I w → wp m (λ _ k', psa_keys k' = psa_keys (w_psa w)) (w_psa w) →
  wp (zoom w_psa m) (λ _, I) w.
Proof.
  intros HI Hm. wps. eapply wp_mono; [exact Hm|]. intros a k Hk.
  apply (same_wf_keeps w); [by constructor|done].
Qed.

Lemma build_safe (db : nodedb) st p k :
  chan_wf st →
  wp (meshtastic_build_wire_packet db st p) (λ _ k', psa_keys k' = psa_keys k) k.
Proof.
  intros Hwf. unfold meshtastic_build_wire_packet.
  destruct (encode_packet_data _ _); [|by wps].
  set (i := meshtastic_channels_resolve_send_index _ _ _ _ _).
  assert (is_Some (meshtastic_channels_get_key st i)) as [r ->].
  { unfold meshtastic_channels_get_key, channel_get_key.
    destruct (Z.ltb_spec i MESHTASTIC_MAX_CHANNELS) as [Hi|Hi]; cycle 1.
    { cbn [channel_get_key_]. rewrite (proj2 (Z.ltb_ge _ _)) by done. by eexists. }
    unfold MESHTASTIC_MAX_CHANNELS in Hi.
    destruct (get_key_fuel 2 st (Z.to_nat i) (wf_base _ Hwf)) as (ch & _ & Hk); [lia..|].
    exists (own_key ch). rewrite <- Hk. clear Hk. cbn [channel_get_key_]. rewrite Nat2Z.id.
    assert (i <? MESHTASTIC_MAX_CHANNELS = true) as ->
      by (apply Z.ltb_lt; unfold MESHTASTIC_MAX_CHANNELS; lia).
    assert (Z.of_nat (Z.to_nat i) <? MESHTASTIC_MAX_CHANNELS = true) as ->
      by (apply Z.ltb_lt; unfold MESHTASTIC_MAX_CHANNELS; lia).
    done. }
  destruct r as [key|]; [|by wps]. rewrite wp_bind.
  eapply wp_mono with (Q := λ _ k', psa_keys k' = psa_keys k).
  - case_if; [by wps|]. eapply wp_mono; [apply ctr_crypt_spec|]. by intros ? ? [? _].
  - intros [e|] k' Hk; by wps.
Qed.

Lemma try_decode_keys (db : nodedb) st p0 buf rssi snr n k :
  chan_wf st →
  wp (meshtastic_try_decode_wire_packet db st p0 (Some buf) rssi snr n)
    (λ _ k', psa_keys k' = psa_keys k) k.
Proof.
  intros [Hb _ _]. unfold meshtastic_try_decode_wire_packet. case_if; [by wps|].
  rewrite read_header_bind by by apply Nat.ltb_ge. case_if; [by wps|]. rewrite wp_bind. unfold try_decrypt_wire_hash.
  change channel_indices with (Z.of_nat <$> seq 0 8).
  eapply wp_mono; [apply try_slots_safe; [done|]|].
  { apply Forall_forall. intros j Hj%elem_of_seq. lia. }
  intros r k' [Hk [->|(d & i & -> & _)]]; [by wps|].
  rewrite copy_data_payload_eq. wps. by repeat case_match; wps.
Qed.

Lemma mesh_try_decode_keys st mesh k :
  chan_wf st →
  wp (meshtastic_mesh_pb_try_decode st mesh) (λ r k', psa_keys k' = psa_keys k ∧
    (is_err r.1 = false → is_decoded r.2 = true)) k.
Proof.
  intros [Hb _ _]. unfold meshtastic_mesh_pb_try_decode, is_decoded.
  assert (∀ enc mesh', wp (S := K) (if (length enc =? 0)%nat then
        mret (Err (if is_encrypted mesh then EINVAL else ENOTSUP), mesh)
      else
        ret ← try_decrypt_wire_hash st (if negb (m_channel mesh =? 0) then u8 (m_channel mesh)
                         else mt_ch_hash st) (m_from mesh) (m_id mesh) enc;
        match ret with
        | Err e => mret (Err e, mesh')
        | Ok (data, ch_index) =>
            mret (Ok (), mesh' <| m_variant := PV_decoded data |> <| m_channel := ch_index |>)
        end) (λ r k', psa_keys k' = psa_keys k ∧
      (is_err r.1 = false → match m_variant r.2 with PV_decoded _ => true | _ => false end = true)) k)
    as Hgo.
  { intros enc mesh'. case_if; [by wps|]. rewrite wp_bind. unfold try_decrypt_wire_hash.
    change channel_indices with (Z.of_nat <$> seq 0 8).
    eapply wp_mono; [apply try_slots_safe; [done|]|].
    { apply Forall_forall. intros j Hj%elem_of_seq. lia. }
    intros r k' [Hk [->|(d & i & -> & _)]]; by wps. }
  destruct (m_variant mesh) eqn:E; [wps; cbn; by rewrite ?E|apply Hgo|apply Hgo].
Qed.

Lemma mesh_decoded_keys st mesh data n k k0 :
  psa_keys k = psa_keys k0 →
  wp (mesh_decoded_to_packet st mesh data n) (λ _ k', psa_keys k' = psa_keys k0) k.
Proof.
  intros Hk. unfold mesh_decoded_to_packet. rewrite copy_data_payload_eq. wps.
  by repeat case_match; wps.
Qed.

Lemma mesh_to_packet_keys st mesh n k :
  chan_wf st →
  wp (meshtastic_mesh_pb_to_packet st mesh n) (λ _ k', psa_keys k' = psa_keys k) k.
Proof.
  intros Hwf. destruct mesh as [mesh|]; [|by wps]. cbn [meshtastic_mesh_pb_to_packet].
  assert (wp (r ← meshtastic_mesh_pb_try_decode st (meshtastic_mesh_packet_copy mesh);
    match r with
    | (Err e, _) => mret (Err e)
    | (Ok _, work) => match m_variant work with
                      | PV_decoded data => mesh_decoded_to_packet st work data n
                      | _ => ub
                      end
    end) (λ _ k', psa_keys k' = psa_keys k) k) as Hgo.
  { rewrite wp_bind. eapply wp_mono; [by apply mesh_try_decode_keys|].
    intros [[u|e] work] k' [Hk Hd]; [|by wps]. specialize (Hd eq_refl). unfold is_decoded in Hd.
    cbn in Hd. destruct (m_variant work); [|done..]. by apply mesh_decoded_keys. }
  destruct (m_variant mesh); [by apply mesh_decoded_keys|apply Hgo..].
Qed.
End invariant.

#[export] Hint Resolve keeps_status keeps_uptime keeps_allocate keeps_fromradio_id keeps_airtime_log
  keeps_airtime_ms keeps_trace keeps_emit keeps_hook keeps_send_wire keeps_track keeps_track_ keeps_on_routing
  keeps_phone_packet : keeps.

(** ** The mock node *)

Lemma mock_world_wf l t :
  world_wf (H:=default_kconfig) (mk_fixed ∅ 0 store_bss []) (mock_world (H:=default_kconfig) l t).
Proof.
  constructor; cbn -[replicate]; try done.
  - apply default_table_wf.
  - constructor; cbn; [done|lia|constructor|apply NoDup_nil_2].
  - constructor; cbn; [lia|by intros ? ? ?%elem_of_nil|done].
  - apply Forall_replicate. by intros [=].
  - cbn. lia.
Qed.
