(* ===== verification/Send.v ===== *)
(** * Sending (src/meshtastic.c, [meshtastic_send_mesh_pb] of
    src/meshtastic_packet.c, [meshtastic_phoneapi_handle_toradio])

    From an application's, a module's or a phone's packet to the frame in the
    transmit queue: completion of the packet, frame construction, queueing,
    the outcome, and acknowledgement tracking. *)

From S2P Require Import Prelude Types External Mock Core Airtime Channels NodeDB Wire Store World.
From S2P Require Import Radio Reliable PhoneApi Invariant.

(** [meshtastic_ToRadio]. *)
Inductive ToRadio :=
  | TR_packet (m : MeshPacket)
  | TR_want_config_id (id : Z)
  | TR_disconnect
  | TR_heartbeat
  | TR_other (tag : Z).

Section send.
Context {K L T : Type} `{Kconfig} `{PSA K} `{LoraDriver L} `{Kernel T} `{Pb Data}.
Notation W := (world K L T).

(** The completed packet and its frame. *)
Definition send_packet_prepare (packet : option packet) : M W (result (Types.packet * list Z)) :=
  mt ← gets (S:=W) w_mt;
  if negb (mt_initialized mt) then mret (Err EINVAL)
  else
    match packet with
    | None => mret (Err EINVAL)
    | Some packet =>
        if (p_to packet =? 0) || payload_invalid packet then mret (Err EINVAL)
        else
          let local := packet in
          let local := if p_from local =? 0 then local <| p_from := mt_node_id mt |> else local in
          local ← (if p_id local =? 0
                   then id ← allocate_packet_id; mret (local <| p_id := id |>)
                   else mret local);
          let local := if p_hop_limit local =? 0
                       then local <| p_hop_limit := mt_hop_limit mt |> else local in
          let local := if p_hop_start local =? 0
                       then local <| p_hop_start := p_hop_limit local |> else local in
          ch ← gets (S:=W) w_channels;
          let local := if p_channel_index local =? MESHTASTIC_CHANNEL_INDEX_INVALID
                       then local <| p_channel_index := meshtastic_channels_primary_index ch |>
                       else local in
          db ← gets (S:=W) w_nodedb;
          ret ← zoom w_psa (meshtastic_build_wire_packet db ch local);
          match ret with
          | Err e => mret (Err e)
          | Ok wire => mret (Ok (local, wire))
          end
    end.

Definition send_packet_complete (local : packet) (wire : list Z) (tx_ret : result ())
    (emit_done : bool) : M W (result ()) :=
  match tx_ret with
  | Err e => mret (Err e)
  | Ok _ =>
      if negb emit_done then mret (Ok ())
      else
        meshtastic_emit_event TX_DONE None (Some local) ;;
        mqtt_hook true local (Some wire) ;;
        mret (Ok ())
  end.

Definition meshtastic_send_packet (packet : option packet) (wait : timeout) : M W (result ()) :=
  ret ← send_packet_prepare packet;
  match ret with
  | Err e => mret (Err e)
  | Ok (local, wire) =>
      ret ← (if is_no_wait wait then meshtastic_radio_send_wire wire
             else meshtastic_radio_send_wire_wait wire wait);
      ret ← send_packet_complete local wire ret (is_forever wait);
      match ret with
      | Ok _ => meshtastic_reliable_track (Some local) (Some wire) ;; mret ret
      | Err _ => mret ret
      end
  end.

Definition meshtastic_send_data (dest portnum : Z) (payload : option (list Z))
    (payload_len : nat) (wait : timeout) : M W (result ()) :=
  meshtastic_send_packet
    (Some (packet_zero <| p_to := dest |> <| p_portnum := portnum |> <| p_payload := payload |>
                       <| p_payload_len := payload_len |>)) wait.

Definition meshtastic_send_text (dest : Z) (text : option string) : M W (result ()) :=
  match text with
  | None => mret (Err EINVAL)
  | Some text =>
      let len := String.length text in
      if (len =? 0)%nat || (MESHTASTIC_MAX_TEXT_LEN <? len)%nat then mret (Err EINVAL)
      else meshtastic_send_data dest MESHTASTIC_PORT_TEXT_MESSAGE (Some (str_bytes text)) len
             K_FOREVER
  end.

(** The structure [meshtastic_send_mesh_pb] fills for a decoded packet. *)
Definition packet_of_decoded (mesh : MeshPacket) (data : Data) : packet :=
  packet_zero <| p_from := m_from mesh |>
    <| p_to := if negb (m_to mesh =? 0) then m_to mesh else MESHTASTIC_NODE_BROADCAST |>
    <| p_id := m_id mesh |> <| p_portnum := d_portnum data |>
    <| p_payload := Some (d_payload data) |> <| p_payload_len := length (d_payload data) |>
    <| p_data_dest := d_dest data |> <| p_data_source := d_source data |>
    <| p_request_id := d_request_id data |> <| p_reply_id := d_reply_id data |>
    <| p_hop_limit := u8 (m_hop_limit mesh) |> <| p_hop_start := u8 (m_hop_start mesh) |>
    <| p_channel := 0 |>
    <| p_channel_index := if m_channel mesh <? MESHTASTIC_MAX_CHANNELS then u8 (m_channel mesh)
                          else MESHTASTIC_CHANNEL_INDEX_INVALID |>
    <| p_want_ack := m_want_ack mesh |> <| p_via_mqtt := m_via_mqtt mesh |>
    <| p_want_response := d_want_response data |>
    <| p_next_hop := u8 (m_next_hop mesh) |> <| p_relay_node := u8 (m_relay_node mesh) |>.

(** The wire hash of a packet that is already encrypted. *)
Definition encrypted_wire_hash (ch : channels) (channel : Z) : Z :=
  if channel <? MESHTASTIC_MAX_CHANNELS then meshtastic_channels_get_hash ch (u8 channel)
  else if negb (channel =? 0) then u8 channel else mt_ch_hash ch.

(** The header of such a packet, once its hop counts are settled. *)
Definition encrypted_header (mt : context) (ch : channels) (mesh : MeshPacket)
    (id hop_limit hop_start : Z) : wire_header :=
  mk_header
    (if negb (m_to mesh =? 0) then m_to mesh else MESHTASTIC_NODE_BROADCAST)
    (if negb (m_from mesh =? 0) then m_from mesh else mt_node_id mt) id
    (header_flags hop_limit hop_start (m_want_ack mesh) (m_via_mqtt mesh))
    (encrypted_wire_hash ch (m_channel mesh))
    (u8 (m_next_hop mesh)) (u8 (m_relay_node mesh)).

(** The structure the upload hook gets.  The header's fields are read from the
    shared buffer after the wait, unlocked: here it has not been reused. *)
Definition tx_packet (hdr : wire_header) (mesh : MeshPacket) (hop_limit hop_start : Z) : packet :=
  packet_zero <| p_from := h_src hdr |> <| p_to := h_dest hdr |> <| p_id := h_id hdr |>
    <| p_hop_limit := hop_limit |> <| p_hop_start := hop_start |> <| p_channel := h_channel hdr |>
    <| p_want_ack := m_want_ack mesh |> <| p_via_mqtt := m_via_mqtt mesh |>
    <| p_next_hop := u8 (m_next_hop mesh) |> <| p_relay_node := u8 (m_relay_node mesh) |>.

(** [(mesh->id != 0) ? mesh->id : meshtastic_allocate_packet_id()]. *)
Definition mesh_id (mesh : MeshPacket) : M W Z :=
  if negb (m_id mesh =? 0) then mret (m_id mesh) else allocate_packet_id.

Definition meshtastic_send_mesh_pb (mesh : option MeshPacket) : M W (result ()) :=
  match mesh with
  | None => mret (Err EINVAL)
  | Some mesh =>
      match m_variant mesh with
      | PV_decoded data => meshtastic_send_packet (Some (packet_of_decoded mesh data)) K_FOREVER
      | PV_other _ => mret (Err ENOTSUP)
      | PV_encrypted bytes =>
          if (MESHTASTIC_PAYLOAD_MAX <? length bytes)%nat then mret (Err EINVAL)
          else
            mt ← gets (S:=W) w_mt;
            ch ← gets (S:=W) w_channels;
            let hop_limit := if m_hop_limit mesh =? 0 then mt_hop_limit mt
                             else u8 (m_hop_limit mesh) in
            let hop_start := if m_hop_start mesh =? 0 then hop_limit else u8 (m_hop_start mesh) in
            id ← mesh_id mesh;
            let hdr := encrypted_header mt ch mesh id hop_limit hop_start in
            within (MESHTASTIC_HDR_LEN + length bytes) MESHTASTIC_PKT_MAX ;;
            let wire := header_bytes hdr ++ bytes in
            ret ← meshtastic_radio_send_wire_wait wire K_FOREVER;
            (if is_err ret then mret () else mqtt_hook true (tx_packet hdr mesh hop_limit hop_start) (Some wire)) ;;
            mret ret
      end
  end.

(** ** A phone's packets *)

Context `{Pb FromRadio} `{Pb ToRadio} `{Libc}.

Definition ret_code (ret : result ()) : Z :=
  match ret with Ok _ => 0 | Err e => - errno_code e end.

Definition meshtastic_phoneapi_handle_toradio (i : nat) (buf : list Z) : M W () :=
  let decoded :=
    match pb_decode (X:=ToRadio) buf with
    | Some to => Some to
    | None =>
        if (1 <? length buf)%nat && bool_decide (last buf = Some 0x94)
        then pb_decode (take (length buf - 1) buf) else None
    end in
  match decoded with
  | None => mret ()
  | Some to =>
      match to with
      | TR_packet mesh =>
          ret ← meshtastic_send_mesh_pb (Some mesh);
          meshtastic_phoneapi_enqueue_queue_status i (ret_code ret) (m_id mesh)
      | TR_want_config_id id => meshtastic_phoneapi_enqueue_phone_config i id
      | TR_disconnect => on_phone i (modify (set ph_disconnects S))
      | TR_heartbeat => meshtastic_phoneapi_enqueue_queue_status i 0 0
      | TR_other _ => mret ()
      end
  end.
End send.

(** The waits under which a sender cannot leave a dangling pointer behind. *)
Definition safe_wait (wait : timeout) : bool := is_no_wait wait || is_forever wait.

(** Split a handler into its statements. *)
Ltac keep :=
  repeat first
    [ apply keeps_ret | apply keeps_gets | solve [eauto with keeps]
    | apply keeps_bind; [|intros ?] | progress case_match ].

Section send_correct.
Context {K L T : Type} `{KconfigRanges} `{PSALaws K} `{LoraLaws L} `{KernelLaws T}.
Context `{Pb Data} `{!PbLaws Data Data_ok}.
Context (fx : fixed).
Notation W := (world K L T).
Notation I := (world_wf (L:=L) (T:=T) fx).

(** A statement that runs on the node's current tables. *)
Lemma keeps_tables {A} (f : channels → nodedb → M W A) :
  (∀ w, I w → wp (f (w_channels w) (w_nodedb w)) (λ _, I) w) →
  keeps I (ch ← gets (S:=W) w_channels; db ← gets (S:=W) w_nodedb; f ch db).
Proof. intros Hf w HI. wps. by apply Hf. Qed.

Lemma keeps_prepare p : keeps I (send_packet_prepare p).
Proof.
  unfold send_packet_prepare. apply keeps_bind; [apply keeps_gets|]. intros mt.
  apply keeps_if; [apply keeps_ret|]. destruct p as [p|]; [|apply keeps_ret].
  apply keeps_if; [apply keeps_ret|]. apply keeps_bind; [keep|]. intros local.
  apply keeps_tables. intros w HI. rewrite wp_bind.
  eapply wp_mono; [apply psa_wp; [done|apply build_safe, HI]|].
  intros [wire|e] w' HI'; by wps.
Qed.

Lemma keeps_send_packet p wait : safe_wait wait = true → keeps I (meshtastic_send_packet p wait).
Proof.
  intros Hwait. unfold meshtastic_send_packet. apply keeps_bind; [apply keeps_prepare|].
  intros [[local wire]|e]; [|apply keeps_ret]. apply keeps_bind.
  { apply keeps_if; [apply keeps_send_wire|by apply keeps_send_wire_wait]. }
  intros ret. apply keeps_bind; [unfold send_packet_complete; keep|]. intros ret'. keep.
Qed.

Lemma keeps_mesh_id mesh : keeps I (mesh_id mesh).
Proof. unfold mesh_id. keep. Qed.

Lemma keeps_send_mesh_pb mesh : keeps I (meshtastic_send_mesh_pb mesh).
Proof.
  destruct mesh as [mesh|]; [|apply keeps_ret]. unfold meshtastic_send_mesh_pb.
  destruct (m_variant mesh); [by apply keeps_send_packet| |apply keeps_ret].
  case_if; [apply keeps_ret|]. repeat (apply keeps_bind; [apply keeps_gets|]; intros ?).
  apply keeps_bind; [apply keeps_mesh_id|]. intros id. rewrite within_bind by by apply wire_room.
  apply keeps_bind; [by apply keeps_send_wire_wait|]. intros ret. keep.
Qed.

(** ** What a sender puts on the air *)

(** The packet with its zero fields filled in. *)
Definition completed (mt : context) (ch : channels) (id : Z) (p : packet) : packet :=
  let hop_limit := if p_hop_limit p =? 0 then mt_hop_limit mt else p_hop_limit p in
  p <| p_from := if p_from p =? 0 then mt_node_id mt else p_from p |>
    <| p_id := id |> <| p_hop_limit := hop_limit |>
    <| p_hop_start := if p_hop_start p =? 0 then hop_limit else p_hop_start p |>
    <| p_channel_index := if p_channel_index p =? MESHTASTIC_CHANNEL_INDEX_INVALID
                          then meshtastic_channels_primary_index ch else p_channel_index p |>.

(** The identifier a packet leaves with. *)
Definition sent_id (mt : context) (id : Z) : Z :=
  if id =? 0 then (meshtastic_allocate_packet_id mt).1 else id.

Lemma build_shape (db : nodedb) st p k :
  chan_wf st →
  wp (meshtastic_build_wire_packet db st p) (λ r k', psa_keys k' = psa_keys k ∧
    ∀ wire, r = Ok wire → ∃ hash enc, wire = header_bytes (header_for p hash) ++ enc ∧
      is_u8 hash ∧ frame_ok wire) k.
Proof.
  intros Hwf. apply wp_and; [by apply build_safe|]. pose proof (build_safe db st p k Hwf) as Hs.
  unfold meshtastic_build_wire_packet in *. unfold encode_packet_data in *.
  case_if; [by wps|]. destruct (pb_encode _ _) as [bs|] eqn:Eb; [|by wps].
  set (i := meshtastic_channels_resolve_send_index _ _ _ _ _) in *.
  destruct (meshtastic_channels_get_key st i) as [[key|]|]; [|by wps|done]. rewrite wp_bind.
  apply pb_encode_length in Eb.
  eapply wp_mono with (Q := λ r _, ∀ enc, r = Ok enc → length enc = length bs).
  - case_if; [wps; by intros ? [= <-]|]. eapply wp_mono; [apply ctr_crypt_spec|].
    intros r k' [_ [[-> _]|[-> _]]] enc [= <-]. apply ctr_length.
  - intros [enc|e] k' Hl; wps; [|done]. intros wire Hw. specialize (Hl enc eq_refl).
    assert (wire = header_bytes (header_for p (meshtastic_channels_get_hash st i)) ++ enc) as ->
      by (injection Hw; done).
    eexists _, enc. split; [done|]. split; [apply get_hash_u8, Hwf|].
    unfold frame_ok. rewrite length_app, header_bytes_length.
    unfold MESHTASTIC_PAYLOAD_MAX, MESHTASTIC_PKT_MAX, MESHTASTIC_HDR_LEN in *. lia.
Qed.

Lemma prepare_wp p w (id := sent_id (w_mt w) (p_id p)) :
  I w → mt_initialized (w_mt w) = true → p_to p ≠ 0 → payload_invalid p = false →
  wp (send_packet_prepare (Some p)) (λ r w',
    (∃ k n, w' = w <| w_mt := (w_mt w) <| mt_next_pkt_id := n |> |> <| w_psa := k |> ∧
      psa_keys k = psa_keys (w_psa w)) ∧
    ∀ local wire, r = Ok (local, wire) →
      local = completed (w_mt w) (w_channels w) id p ∧
      ∃ hash enc, wire = header_bytes (header_for local hash) ++ enc ∧ is_u8 hash ∧
        frame_ok wire) w.
Proof.
  intros HI Hinit Hto Hpl. unfold send_packet_prepare. do 2 wp_step. rewrite Hinit. cbn [negb].
  rewrite (proj2 (Z.eqb_neq _ _) Hto), Hpl. cbn [orb]. rewrite wp_bind.
  set (p1 := if p_from p =? 0 then p <| p_from := mt_node_id (w_mt w) |> else p).
  assert (p_id p1 = p_id p) as Hid by (unfold p1; by case_if).
  eapply wp_mono with (Q := λ l w1, l = p1 <| p_id := id |> ∧
    ∃ n, w1 = w <| w_mt := (w_mt w) <| mt_next_pkt_id := n |> |>).
  { rewrite Hid. unfold id, sent_id. destruct (p_id p =? 0) eqn:Ez.
    - unfold allocate_packet_id. wps. unfold meshtastic_allocate_packet_id.
      destruct (next_nonzero _) as [i n]. cbn [fst snd]. split; [done|]. by exists n.
    - wps. split; [destruct p1; cbn in *; by rewrite Hid|]. exists (mt_next_pkt_id (w_mt w)).
      by destruct w as [[]]. }
  intros l w1 [-> [n ->]]. do 4 wp_step. cbn beta.
  match goal with |- context [meshtastic_build_wire_packet _ _ ?l] =>
    assert (l = completed (w_mt w) (w_channels w) id p) as El end.
  { unfold completed, p1. destruct p. rgoal. repeat (case_if; rgoal); done. }
  rewrite El. clear El. rewrite wp_bind, wp_zoom. cbn.
  eapply wp_mono; [apply build_shape, HI|]. intros r k [Hk Hr].
  assert (∃ k' n', w <| w_mt := (w_mt w) <| mt_next_pkt_id := n |> |> <| w_psa := k |> =
    w <| w_mt := (w_mt w) <| mt_next_pkt_id := n' |> |> <| w_psa := k' |> ∧
    psa_keys k' = psa_keys (w_psa w)) as Hw by (by exists k, n).
  destruct r as [wire|e]; wps; (split; [exact Hw|]); intros local wire' [= <- <-].
  split; [done|]. by apply Hr.
Qed.

(** Fields of the context within their C types. *)
Definition context_ok (mt : context) : Prop :=
  is_u32 (mt_node_id mt) ∧ is_u8 (mt_hop_limit mt) ∧ is_u32 (mt_next_pkt_id mt).

Lemma sent_id_ok mt id : context_ok mt → is_u32 id → sent_id mt id ≠ 0 ∧ is_u32 (sent_id mt id).
Proof.
  intros (_ & _ & Hn) Hid. unfold sent_id, meshtastic_allocate_packet_id.
  destruct (Z.eqb_spec id 0); [|done].
  pose proof (next_nonzero_spec _ Hn) as (? & ? & _). by destruct (next_nonzero _).
Qed.

Lemma completed_ok mt ch id p :
  context_ok mt → chan_wf ch → packet_ok p → is_u32 id → packet_ok (completed mt ch id p).
Proof.
  intros (? & ? & _) Hch (? & ? & ? & ? & ? & ? & ? & ? & ? & ?) Hid.
  pose proof (base_primary _ (wf_base _ Hch)) as Hp.
  unfold packet_ok, completed. rgoal. split_and!; try done; repeat case_if; try done.
  unfold meshtastic_channels_primary_index. zmod.
Qed.

(** Preparing touches the identifiers and the crypto service; sending without
    waiting, the transmit queue, the pending table and the clock as well. *)
Lemma prepare_frame p w :
  I w → wp (send_packet_prepare p) (λ _ w', ∃ mt k, w' = w <| w_mt := mt |> <| w_psa := k |>) w.
Proof.
  intros HI. unfold send_packet_prepare. do 2 wp_step.
  assert (∀ r : result (packet * list Z), wp (mret r) (λ _ w', ∃ mt k,
    w' = w <| w_mt := mt |> <| w_psa := k |>) w) as Hret.
  { intros r. wps. exists (w_mt w), (w_psa w). by destruct w. }
  case_if; [apply Hret|]. destruct p as [p|]; [|apply Hret]. case_if; [apply Hret|].
  rewrite wp_bind. set (p1 := if p_from p =? 0 then _ else _).
  eapply wp_mono with (Q := λ _ w', ∃ mt, w' = w <| w_mt := mt |>).
  { destruct (p_id p1 =? 0); [unfold allocate_packet_id; wps; by eexists|]. wps. exists (w_mt w). by destruct w. }
  intros l w1 [mt ->]. do 4 wp_step. rewrite wp_bind, wp_zoom.
  eapply wp_mono; [apply build_safe, HI|]. intros [wire|e] k _; wps; by eexists mt, k.
Qed.

Lemma send_no_wait_frame p w :
  I w → wp (meshtastic_send_packet p K_NO_WAIT) (λ _ w', ∃ mt k o r t,
    w' = w <| w_mt := mt |> <| w_psa := k |> <| w_outbound := o |> <| w_reliable := r |>
           <| w_kernel := t |>) w.
Proof.
  intros HI. unfold meshtastic_send_packet. rewrite wp_bind.
  eapply wp_mono; [by apply prepare_frame|]. intros r w1 (mt & k & ->).
  destruct r as [[local wire]|e]; cycle 1.
  { wps. exists mt, k, (w_outbound w), (w_reliable w), (w_kernel w). by destruct w. }
  cbn [is_no_wait]. rewrite wp_bind. unfold meshtastic_radio_send_wire.
  eapply wp_mono with (Q := λ _ w', ∃ o, w' = w <| w_mt := mt |> <| w_psa := k |>
    <| w_outbound := o |>).
  { destruct (decide (frame_ok wire)) as [Hok|Hbad].
    - unfold wp. rewrite enqueue_no_wait_run by done. case_if; [by eexists|].
      exists (w_outbound w). by destruct w.
    - unfold wp. rewrite enqueue_bad_frame by done. exists (w_outbound w). by destruct w. }
  intros ret w2 [o ->]. rewrite wp_bind. unfold send_packet_complete. cbn [is_forever negb].
  destruct ret as [u|e]; wps; cycle 1.
  { exists mt, k, o, (w_reliable w), (w_kernel w). by destruct w. }
  eapply wp_mono; [apply track_wp|]. intros u' w3 [t Hw]. wps.
  case_if_in Hw; [|destruct (find_index _ _); [destruct Hw as (d & _ & Hw)|]]; subst w3.
  - exists mt, k, o, (w_reliable w), (w_kernel w). by destruct w.
  - by eexists mt, k, o, _, t.
  - exists mt, k, o, (w_reliable w), t. by destruct w.
Qed.

(** An acknowledgement can come back for [p]: it asks for one, and goes to one
    other node, and is no acknowledgement itself. *)
Definition awaits_ack (w : W) (p : packet) : Prop :=
  p_want_ack p = true ∧ p_id p ≠ 0 ∧ p_to p ≠ MESHTASTIC_NODE_BROADCAST ∧
  p_to p ≠ mt_node_id (w_mt w) ∧ p_portnum p ≠ MESHTASTIC_PORT_ROUTING.
#[export] Instance awaits_ack_dec w p : Decision (awaits_ack w p).
Proof. unfold awaits_ack. apply _. Qed.

Lemma trackable_awaits w p : trackable (mt_node_id (w_mt w)) p = bool_decide (awaits_ack w p).
Proof.
  apply eq_true_iff_eq. rewrite bool_decide_eq_true. unfold trackable, awaits_ack.
  rewrite !andb_true_iff, !negb_true_iff, !Z.eqb_neq. tauto.
Qed.

(** The ACK table of [w'] is that of [w] with the frame of [local] in the first
    free slot; it is that of [w] if none is free or no acknowledgement can
    come. *)
Definition tracked_if_awaited (local : packet) (wire : list Z) (w w' : W) : Prop :=
  match find_index (λ e, negb (re_live e)) (reliable_entries (w_reliable w)) with
  | Some i =>
      if bool_decide (awaits_ack w local) then ∃ due,
        reliable_entries (w_reliable w') =
          <[i := tracked_entry local wire due]> (reliable_entries (w_reliable w))
      else w_reliable w' = w_reliable w
  | None => w_reliable w' = w_reliable w
  end.

(** [local] has left node [w]: it is the last frame on the air, reported, and
    tracked if an acknowledgement can come; a gateway has been offered it,
    alone. *)
Definition left_node (local : packet) (w w' : W) : Prop :=
  ∃ hash rest before (wire := header_bytes (header_for local hash) ++ rest),
    header_of wire = header_for local hash ∧
    on_air (w_lora w') = on_air (w_lora w) ++ before ++ [wire] ∧
    (mt_event_cb (w_mt w) = true →
      last (w_trace w') = Some (Ob_event (mk_event TX_DONE None (Some local)))) ∧
    w_uplinks w' = w_uplinks w ++
      (if CONFIG_MQTT then [mk_uplink true local (Some wire) (view_of w)] else []) ∧
    tracked_if_awaited local wire w w'.

Lemma track_done local hash enc before (w w3 : W)
    (wire := header_bytes (header_for local hash) ++ enc) :
  header_ok (header_for local hash) → frame_ok wire →
  mt_node_id (w_mt w3) = mt_node_id (w_mt w) → w_reliable w3 = w_reliable w →
  on_air (w_lora w3) = on_air (w_lora w) ++ before ++ [wire] →
  (mt_event_cb (w_mt w) = true →
    last (w_trace w3) = Some (Ob_event (mk_event TX_DONE None (Some local)))) →
  w_uplinks w3 = w_uplinks w ++
    (if CONFIG_MQTT then [mk_uplink true local (Some wire) (view_of w)] else []) →
  wp (meshtastic_reliable_track (Some local) (Some wire)) (λ _ w', left_node local w w') w3.
Proof.
  intros Hlok Hok Hm Hr Hair Htr Hup. eapply wp_mono; [apply track_wp|].
  intros u w4 [t Hw4]. exists hash, enc, before. fold wire.
  split; [by apply header_of_bytes|].
  rewrite Hr, Hm, bool_decide_true, orb_false_r in Hw4 by done.
  rewrite trackable_awaits in Hw4. unfold tracked_if_awaited.
  destruct (bool_decide (awaits_ack w local)); cbn [negb] in Hw4;
    [|subst w4; split_and!; try done; by destruct (find_index _ _)].
  destruct (find_index _ _) as [i|]; [|by subst w4].
  destruct Hw4 as (d & _ & ->). split_and!; try done. cbn. rewrite rearm_entries. by eexists.
Qed.

(** The end of a blocking send whose frame is on the air. *)
Lemma complete_done local hash enc before (w w2 : W)
    (wire := header_bytes (header_for local hash) ++ enc) :
  header_ok (header_for local hash) → frame_ok wire →
  mt_node_id (w_mt w2) = mt_node_id (w_mt w) → mt_event_cb (w_mt w2) = mt_event_cb (w_mt w) →
  w_channels w2 = w_channels w → w_reliable w2 = w_reliable w → w_uplinks w2 = w_uplinks w →
  on_air (w_lora w2) = on_air (w_lora w) ++ before ++ [wire] →
  wp (ret ← send_packet_complete local wire (Ok ()) true;
      match ret with
      | Ok _ => meshtastic_reliable_track (Some local) (Some wire) ;; mret ret
      | Err _ => mret ret
      end) (λ ret w', ret = Ok () ∧ left_node local w w') w2.
Proof.
  intros Hlok Hok Hid Hcb Hch Hr Hup Hair.
  rewrite wp_bind. unfold send_packet_complete, meshtastic_emit_event, mqtt_hook. cbn [negb]. do 3 wp_step.
  rewrite Hcb. destruct (mt_event_cb (w_mt w)) eqn:Ecb, CONFIG_MQTT eqn:Em; wps;
    (eapply wp_mono; [eapply (track_done local hash enc before w)|by intros [] w4 Hw; wps]);
    try done; unfold view_of; cbn; rewrite ?Ecb, ?last_snoc, ?Em, ?app_nil_r; try done; congruence.
Qed.

(** A blocking send of any packet the guards let through, whose header fields
    are within their types. *)
Lemma send_forever_wp p w
    (local := completed (w_mt w) (w_channels w) (sent_id (w_mt w) (p_id p)) p) :
  I w → mt_initialized (w_mt w) = true → p_to p ≠ 0 → payload_invalid p = false →
  (∀ hash, is_u8 hash → header_ok (header_for local hash)) →
  wp (meshtastic_send_packet (Some p) K_FOREVER) (λ ret w', I w' ∧
    match ret with
    | Err _ => w_reliable w' = w_reliable w ∧ w_uplinks w' = w_uplinks w
    | Ok _ => left_node local w w'
    end) w.
Proof.
  intros HI Hinit Hto Hpl Hhdr.
  pose proof (keeps_send_packet (Some p) K_FOREVER eq_refl w HI) as Hk.
  apply (wp_and _ (λ _, I)); [done|].
  clear Hk. unfold meshtastic_send_packet. rewrite wp_bind.
  eapply wp_mono; [by apply prepare_wp|]. cbn beta.
  intros r w1 [(k & n & -> & Hk) Hr]. destruct r as [[l wire]|e]; [|by wps].
  destruct (Hr l wire eq_refl) as (El & hash & enc & Hw & Hh & Hok). clear Hr.
  change (completed (w_mt w) (w_channels w) (sent_id (w_mt w) (p_id p)) p) with local in El.
  subst l.
  cbn [is_no_wait]. rewrite wp_bind. unfold meshtastic_radio_send_wire_wait.
  eapply wp_mono; [apply enqueue_forever_wp; [done|]; cbn; apply HI|]. cbn beta.
  intros ret w2 (rets & _ & Hf & _ & Hair & _). cbn in Hair.
  destruct Hf as [(st & a & Hmt) Hch _ Hrel _ _ _ _ _ _ Hup]. cbn in Hmt, Hch, Hrel, Hup.
  destruct ret as [u|e]; [|by wps]. cbn [is_err is_forever] in *. subst wire.
  eapply wp_mono; [eapply (complete_done local hash enc _ w); try by rewrite ?Hmt; auto|].
  intros ret w3 [-> Hl]. exact Hl.
Qed.

(** ** Properties *)

(** C8: A packet sent without a time limit leaves completed: the node's number
    as the sender, a non-zero identifier, the default hop counts and the
    primary channel where the caller left them open.  When the call reports
    success the frame with exactly that header is the last one on the air, the
    application has been told [TX_DONE] last, and the gateway's hook has got
    the packet and the frame.  The packet has then taken the first free slot of
    the ACK table if it asks for an acknowledgement, goes to one other node and
    is no acknowledgement itself; otherwise (a broadcast, no [want_ack], a full
    table), and on every error, that table is as it was.  The node stays
    well-formed in every case. *)
Theorem send_packet_forever_spec p w
    (local := completed (w_mt w) (w_channels w) (sent_id (w_mt w) (p_id p)) p) :
  I w → context_ok (w_mt w) → mt_initialized (w_mt w) = true →
  packet_ok p → p_to p ≠ 0 → payload_invalid p = false →
  p_id local ≠ 0 ∧
  ∃ ret w', meshtastic_send_packet (Some p) K_FOREVER w = Some (ret, w') ∧ I w' ∧
    match ret with
    | Err _ => w_reliable w' = w_reliable w ∧ w_uplinks w' = w_uplinks w
    | Ok _ => left_node local w w'
    end.
Proof.
  intros HI Hctx Hinit Hp Hto Hpl.
  destruct (sent_id_ok _ (p_id p) Hctx) as [Hnz Hid]; [apply Hp|].
  assert (packet_ok local) as Hlok by (apply completed_ok; done || apply HI).
  split; [exact Hnz|].
  destruct (proj1 (wp_run _ _ _) (send_forever_wp p w HI Hinit Hto Hpl
    (λ hash, header_for_ok local hash Hlok))) as (ret & w' & ? & ? & ?). by exists ret, w'.
Qed.
End send_correct.

(** ** The mock node sends a direct message *)

Definition hello_packet : packet :=
  packet_zero <| p_to := 9 |> <| p_portnum := 1 |> <| p_payload := Some [104; 105] |>
    <| p_payload_len := 2%nat |> <| p_want_ack := true |>.

Lemma send_packet_forever_spec_witness
    (w := mock_world (H:=default_kconfig) (mock_radio 1) (mock_clock false))
    (local := completed (w_mt w) (w_channels w) (sent_id (w_mt w) 0) hello_packet) :
  p_id local ≠ 0 ∧
  ∃ ret w', meshtastic_send_packet (H:=default_kconfig) (Some hello_packet) K_FOREVER w
      = Some (ret, w') ∧ world_wf (H:=default_kconfig) (mk_fixed ∅ 0 store_bss []) w' ∧
    match ret with
    | Err _ => w_reliable w' = w_reliable w ∧ w_uplinks w' = w_uplinks w
    | Ok _ => left_node (H:=default_kconfig) local w w'
    end.
Proof.
  apply (@send_packet_forever_spec _ _ _ default_kconfig default_kconfig_ranges _ _ _ _ _ _ _ _ (mk_fixed ∅ 0 store_bss [])
    hello_packet w); try done.
  - apply mock_world_wf.
  - unfold packet_ok. cbn. split_and!; try (by apply (bool_decide_unpack _); vm_compute).
    intros bs [= <-]. split; [done|]. by apply (bool_decide_unpack _); vm_compute.
Defined.
