(* ===== verification/NodeInfo.v ===== *)
(** * Node information (src/meshtastic_nodeinfo.c)

    The cache of peers heard lately, with the last request and reply to each;
    the module that asks an unknown sender who it is and answers when asked.
    Proved: the cache is searched and evicted as a least-recently-seen cache,
    and requests and replies to one peer keep the configured distance. *)

From S2P Require Import Prelude Types External Mock Core Airtime Channels NodeDB Wire Store World.
From S2P Require Import Radio Reliable PhoneApi Invariant Send.

Definition MSEC_PER_SEC : Z := 1000.

(** [valid] with its time is an option. *)
Definition interval_elapsed (last : option Z) (now_ms interval_ms : Z) : bool :=
  match last with None => true | Some last_ms => interval_ms <=? now_ms - last_ms end.

Definition new_peer (node now_ms : Z) : nodeinfo_peer :=
  peer_zero <| np_node := node |> <| np_last_seen_ms := now_ms |>.

(** The loop of [peer_get_locked] from slot [i]: the slot of [node] or the
    first free slot ([true]), or the oldest slot seen ([false]). *)
Fixpoint peer_search (node : Z) (rest : list nodeinfo_peer) (i : nat) (oldest : nat)
    (oldest_ms : Z) : nat * bool :=
  match rest with
  | [] => (oldest, false)
  | p :: rest =>
      if (np_node p =? node) || (np_node p =? 0) then (i, true)
      else if np_last_seen_ms p <? oldest_ms
           then peer_search node rest (S i) i (np_last_seen_ms p)
           else peer_search node rest (S i) oldest oldest_ms
  end.

(** The slot the returned pointer designates, and the cache. *)
Definition peer_get_locked (node now_ms : Z) (peers : list nodeinfo_peer)
    : nat * list nodeinfo_peer :=
  let '(i, _) := peer_search node peers 0 0
                   (match peers with p :: _ => np_last_seen_ms p | [] => 0 end) in
  (i, alter (λ p, if np_node p =? node then p <| np_last_seen_ms := now_ms |>
                  else new_peer node now_ms) i peers).

Section nodeinfo.
Context {K L T : Type} `{Kconfig} `{PSA K} `{LoraDriver L} `{Kernel T} `{Pb Data} `{Pb User}.
Notation W := (world K L T).

Definition packet_decode_user (p : packet) : option User :=
  match p_payload p with
  | None => None
  | Some payload =>
      if (p_payload_len p =? 0)%nat then None else pb_decode (take (p_payload_len p) payload)
  end.

Definition nodeinfo_build_packet (dest : Z) (want_response : bool) (channel response_to_id : Z)
    : M W (result packet) :=
  mt ← gets (S:=W) w_mt;
  ch ← gets (S:=W) w_channels;
  mret (match pb_encode MESHTASTIC_MAX_PAYLOAD_LEN
                (meshtastic_fill_user MESHTASTIC_BOARD_HW_MODEL (meshtastic_device_role ch) mt) with
        | None => Err ENOMEM
        | Some payload =>
            Ok (packet_zero <| p_to := dest |> <| p_portnum := MESHTASTIC_PORT_NODEINFO |>
                  <| p_payload := Some payload |> <| p_payload_len := length payload |>
                  <| p_channel := channel |> <| p_want_response := want_response |>
                  <| p_request_id := response_to_id |>)
        end).

Definition meshtastic_send_node_info_ex (dest : Z) (want_response : bool)
    (channel response_to_id : Z) : M W (result ()) :=
  ret ← nodeinfo_build_packet dest want_response channel response_to_id;
  match ret with
  | Err e => mret (Err e)
  | Ok packet => meshtastic_send_packet (Some packet) K_FOREVER
  end.

Definition meshtastic_send_node_info (dest : Z) : M W (result ()) :=
  meshtastic_send_node_info_ex dest false 0 0.

(** The thread: the delay before the loop, and one round of the loop. *)
Definition nodeinfo_thread_start : M W () := sleep (CONFIG_NODEINFO_START_DELAY_SEC * MSEC_PER_SEC).
Definition nodeinfo_thread_round : M W () :=
  meshtastic_send_node_info MESHTASTIC_NODE_BROADCAST ;;
  sleep (CONFIG_NODEINFO_INTERVAL_SEC * MSEC_PER_SEC).

Definition peer_get (node now_ms : Z) : M W nat :=
  peers ← gets (S:=W) w_peers;
  let '(i, peers) := peer_get_locked node now_ms peers in
  modify (set w_peers (λ _, peers)) ;;
  mret i.

(** A peer pointer is dereferenced. *)
Definition peer_read (i : nat) : M W nodeinfo_peer :=
  peers ← gets (S:=W) w_peers;
  match peers !! i with Some p => mret p | None => ub end.

Definition meshtastic_module_nodeinfo_on_packet (p : packet) : M W () :=
  let is_nodeinfo := p_portnum p =? MESHTASTIC_PORT_NODEINFO in
  mt ← gets (S:=W) w_mt;
  if (p_from p =? 0) || (p_from p =? mt_node_id mt) then mret ()
  else
    let has_user := is_nodeinfo && bool_decide (is_Some (packet_decode_user p)) in
    now_ms ← uptime_get;
    i ← peer_get (p_from p) now_ms;
    (if has_user then modify (set w_peers (alter (set np_has_user (λ _, true)) i)) else mret ()) ;;
    peer ← peer_read i;
    if negb (np_has_user peer) && negb is_nodeinfo
       && interval_elapsed (np_last_request_ms peer) now_ms
            (CONFIG_NODEINFO_UNKNOWN_SUPPRESS_SEC * MSEC_PER_SEC)
    then
      ch ← gets (S:=W) w_channels;
      let channel := if negb (p_channel_index p =? MESHTASTIC_CHANNEL_INDEX_INVALID)
                     then p_channel_index p else meshtastic_channels_primary_index ch in
      modify (set w_peers (alter (set np_last_request_ms (λ _, Some now_ms)) i)) ;;
      send_ret ← nodeinfo_build_packet (p_from p) true channel 0;
      match send_ret with
      | Ok nodeinfo_packet =>
          meshtastic_send_packet (Some nodeinfo_packet) K_NO_WAIT ;; mret ()
      | Err _ => mret ()
      end
    else mret ().

Definition meshtastic_module_nodeinfo_alloc_reply (req : packet) : M W (result packet) :=
  mt ← gets (S:=W) w_mt;
  if (p_from req =? 0) || (p_from req =? mt_node_id mt) then mret (Err EINVAL)
  else
    now_ms ← uptime_get;
    i ← peer_get (p_from req) now_ms;
    peer ← peer_read i;
    if negb (interval_elapsed (np_last_reply_ms peer) now_ms
               (CONFIG_NODEINFO_REPLY_SUPPRESS_SEC * MSEC_PER_SEC))
    then mret (Err ENOENT)
    else
      modify (set w_peers (alter (set np_last_reply_ms (λ _, Some now_ms)) i)) ;;
      nodeinfo_build_packet (p_from req) false (p_channel req) (p_id req).
End nodeinfo.

(** ** The peer cache *)

(** Used slots first, with distinct nodes, then free ones. *)
Record peers_wf (peers : list nodeinfo_peer) : Prop := {
  pw_prefix i j p q : peers !! i = Some p → peers !! j = Some q → np_node p = 0 →
    (i ≤ j)%nat → np_node q = 0;
  pw_distinct i j p q : peers !! i = Some p → peers !! j = Some q → np_node p = np_node q →
    np_node p ≠ 0 → i = j
}.

(** The slot of a node, the first free slot, and a slot nobody precedes. *)
Definition peer_slot (node : Z) (peers : list nodeinfo_peer) : option nat :=
  find_index (λ p, np_node p =? node) peers.
Definition least_recent (peers : list nodeinfo_peer) (i : nat) : Prop :=
  ∃ old, peers !! i = Some old ∧
    ∀ j p, peers !! j = Some p → np_last_seen_ms old ≤ np_last_seen_ms p.

Lemma peer_search_spec node rest : ∀ i oldest oldest_ms,
  let '(k, found) := peer_search node rest i oldest oldest_ms in
  if found then ∃ j p, k = (i + j)%nat ∧ rest !! j = Some p ∧
      (np_node p = node ∨ np_node p = 0) ∧
      ∀ j' p', (j' < j)%nat → rest !! j' = Some p' → np_node p' ≠ node ∧ np_node p' ≠ 0
  else (∀ p, p ∈ rest → np_node p ≠ node ∧ np_node p ≠ 0) ∧
    (k = oldest ∧ (∀ p, p ∈ rest → oldest_ms ≤ np_last_seen_ms p)
     ∨ ∃ j p, k = (i + j)%nat ∧ rest !! j = Some p ∧ np_last_seen_ms p < oldest_ms ∧
         ∀ q, q ∈ rest → np_last_seen_ms p ≤ np_last_seen_ms q).
Proof.
  induction rest as [|p rest IH]; intros i oldest oldest_ms; cbn [peer_search].
  { split; [by intros p ?%elem_of_nil|]. left. split; [done|]. by intros p ?%elem_of_nil. }
  destruct ((np_node p =? node) || (np_node p =? 0)) eqn:E.
  { exists 0%nat, p. split_and!; [lia|done| |lia].
    apply orb_true_iff in E as [E|E]; apply Z.eqb_eq in E; auto. }
  boolp. destruct (Z.ltb_spec (np_last_seen_ms p) oldest_ms) as [Hlt|Hge].
  - specialize (IH (S i) i (np_last_seen_ms p)).
    destruct (peer_search _ _ _ _ _) as [k [|]].
    + destruct IH as (j & q & -> & Hq & Hn & Hb). exists (S j), q. split_and!; [lia|done|done|].
      intros [|j'] q' Hj Hq'; cbn in Hq'; [by simplify_eq|]. by apply (Hb j'); [lia|].
    + destruct IH as [Hall Hk]. split; [intros q [->|Hq]%elem_of_cons; auto|]. right.
      destruct Hk as [[-> Hmin]|(j & q & -> & Hq & Hlt' & Hmin)].
      * exists 0%nat, p. split_and!; [lia|done|done|].
        intros q [->|Hq]%elem_of_cons; [lia|auto].
      * exists (S j), q. split_and!; [lia|done|lia|].
        intros q' [->|Hq']%elem_of_cons; [lia|auto].
  - specialize (IH (S i) oldest oldest_ms).
    destruct (peer_search _ _ _ _ _) as [k [|]].
    + destruct IH as (j & q & -> & Hq & Hn & Hb). exists (S j), q. split_and!; [lia|done|done|].
      intros [|j'] q' Hj Hq'; cbn in Hq'; [by simplify_eq|]. by apply (Hb j'); [lia|].
    + destruct IH as [Hall Hk]. split; [intros q [->|Hq]%elem_of_cons; auto|].
      destruct Hk as [[-> Hmin]|(j & q & -> & Hq & Hlt' & Hmin)].
      * left. split; [done|]. intros q [->|Hq]%elem_of_cons; [lia|auto].
      * right. exists (S j), q. split_and!; [lia|done|lia|].
        intros q' [->|Hq']%elem_of_cons; [lia|auto].
Qed.

Lemma peer_get_locked_cases node now peers :
  peers_wf peers → node ≠ 0 → (0 < length peers)%nat →
  match peer_slot node peers with
  | Some i => peer_get_locked node now peers =
      (i, alter (set np_last_seen_ms (λ _, now)) i peers)
  | None =>
      match peer_slot 0 peers with
      | Some i => peer_get_locked node now peers = (i, <[i := new_peer node now]> peers)
      | None => ∃ i, least_recent peers i ∧
          peer_get_locked node now peers = (i, <[i := new_peer node now]> peers)
      end
  end.
Proof.
  intros Hwf Hnz Hlen. unfold peer_get_locked.
  set (ms := match peers with p :: _ => np_last_seen_ms p | [] => 0 end).
  pose proof (peer_search_spec node peers 0 0 ms) as Hs.
  destruct (peer_search node peers 0 0 ms) as [k [|]].
  - destruct Hs as (j & p & -> & Hp & Hn & Hb). cbn [Nat.add].
    destruct (decide (np_node p = node)) as [Heq|Hne].
    + assert (peer_slot node peers = Some j) as ->.
      { apply find_index_Some. split; [exists p; by rewrite Z.eqb_eq|].
        intros j' p' Hj Hp'. apply Z.eqb_neq. by eapply Hb. }
      f_equal. rewrite !(alter_as_insert _ _ _ _ Hp). by rewrite (proj2 (Z.eqb_eq _ _) Heq).
    + destruct Hn as [?|Hz]; [done|].
      assert (peer_slot node peers = None) as ->.
      { apply find_index_None, Forall_forall. intros q [j' Hq]%list_elem_of_lookup.
        apply Z.eqb_neq. destruct (decide (j' < j)%nat) as [Hlt|Hge]; [by eapply Hb|].
        rewrite (pw_prefix _ Hwf j j' p q); try done. lia. }
      assert (peer_slot 0 peers = Some j) as ->.
      { apply find_index_Some. split; [exists p; by rewrite Z.eqb_eq|].
        intros j' p' Hj Hp'. apply Z.eqb_neq. by eapply Hb. }
      f_equal. rewrite (alter_as_insert _ _ _ _ Hp). by rewrite (proj2 (Z.eqb_neq _ _) Hne).
  - destruct Hs as [Hall Hk].
    assert (∀ n, n = node ∨ n = 0 → peer_slot n peers = None) as Hnone.
    { intros n Hn. apply find_index_None, Forall_forall. intros q Hq. apply Z.eqb_neq.
      destruct (Hall q Hq). by destruct Hn as [->| ->]. }
    rewrite !Hnone by auto. exists k. split.
    + destruct Hk as [[-> Hmin]|(j & p & -> & Hp & _ & Hmin)].
      * destruct peers as [|p peers]; [cbn in Hlen; lia|]. exists p. split; [done|].
        intros j q Hq. apply Hmin. by eapply list_elem_of_lookup_2.
      * exists p. split; [done|]. intros j' q Hq. apply Hmin. by eapply list_elem_of_lookup_2.
    + f_equal. assert (∃ p, peers !! k = Some p) as [p Hp].
      { destruct Hk as [[-> _]|(j & p & -> & Hp & _)]; [|by exists p].
        destruct peers as [|p peers]; [cbn in Hlen; lia|by exists p]. }
      rewrite (alter_as_insert _ _ _ _ Hp). rewrite (proj2 (Z.eqb_neq _ _)); [done|].
      apply Hall. by eapply list_elem_of_lookup_2.
Qed.

Lemma peers_wf_alter peers i f :
  (∀ p, np_node (f p) = np_node p) → peers_wf peers → peers_wf (alter f i peers).
Proof.
  intros Hf [Hp Hd].
  assert (∀ j p, alter f i peers !! j = Some p → ∃ p0, peers !! j = Some p0 ∧
    np_node p0 = np_node p) as Hlk.
  { intros j p. rewrite list_lookup_alter. case_decide; [|by eauto]. subst.
    intros (p0 & Hp0 & ->)%fmap_Some. by exists p0. }
  constructor.
  - intros j j' p q (p0 & Hp0 & <-)%Hlk (q0 & Hq0 & <-)%Hlk. by apply (Hp j j' p0 q0).
  - intros j j' p q (p0 & Hp0 & <-)%Hlk (q0 & Hq0 & <-)%Hlk. by apply (Hd j j' p0 q0).
Qed.

(** A slot that is free, or that holds the last word on its node, may be given
    to a node the cache does not know. *)
Lemma peers_wf_insert peers i node now :
  peers_wf peers → node ≠ 0 → peer_slot node peers = None →
  (∀ j p, (j < i)%nat → peers !! j = Some p → np_node p ≠ 0) →
  (i < length peers)%nat → peers_wf (<[i := new_peer node now]> peers).
Proof.
  intros [Hp Hd] Hnz Hnone Hbefore Hlen.
  apply find_index_None in Hnone. rewrite Forall_forall in Hnone.
  assert (∀ j p, peers !! j = Some p → np_node p ≠ node) as Hother.
  { intros j p Hj. apply Z.eqb_neq. apply Hnone. by eapply list_elem_of_lookup_2. }
  constructor; intros j j' p q; rewrite !list_lookup_insert; do 2 case_decide; destruct_and?;
    subst; intros Hj Hj'; simplify_eq; cbn; try done.
  - intros Hz Hle. destruct (decide (j = j')) as [->|]; [tauto|].
    exfalso. eapply (Hbefore j p); [|done|done]. lia.
  - by apply Hp.
  - intros Heq _. exfalso. by eapply (Hother j').
  - intros Heq _. exfalso. by eapply (Hother j).
  - by apply Hd.
Qed.

(** ** Properties *)

(** The peer cache is a least-recently-seen cache: a known node gets its
    own slot and only its time changes; an unknown one gets the first free
    slot, or replaces a peer nobody was heard before when all are taken, and
    starts without any history; the cache stays free of duplicates. *)
Theorem peer_cache_lru node now peers :
  peers_wf peers → node ≠ 0 → (0 < length peers)%nat →
  let '(i, peers') := peer_get_locked node now peers in
  peers_wf peers' ∧ length peers' = length peers ∧
  match peer_slot node peers with
  | Some k => i = k ∧ peers' = alter (set np_last_seen_ms (λ _, now)) i peers
  | None => peers' = <[i := new_peer node now]> peers ∧
      match peer_slot 0 peers with Some k => i = k | None => least_recent peers i end
  end.
Proof.
  intros Hwf Hnz Hlen. pose proof (peer_get_locked_cases node now peers Hwf Hnz Hlen) as Hc.
  destruct (peer_slot node peers) as [k|] eqn:Es.
  - rewrite Hc. split_and!; [by apply peers_wf_alter|by rewrite length_alter|done|done].
  - destruct (peer_slot 0 peers) as [k|] eqn:E0.
    + rewrite Hc. split_and!; [|by rewrite length_insert|done|done].
      apply find_index_Some in E0 as [(p & Hp & _) Hb].
      apply peers_wf_insert; try done; [|by eapply lookup_lt_Some].
      intros j q Hj Hq. apply Z.eqb_neq. by eapply Hb.
    + destruct Hc as (i & Hlru & ->). split_and!; [|by rewrite length_insert|done|done].
      destruct Hlru as (old & Hi & _). apply peers_wf_insert; try done; [|by eapply lookup_lt_Some].
      intros j q Hj Hq. apply find_index_None in E0. rewrite Forall_forall in E0.
      apply Z.eqb_neq, E0. by eapply list_elem_of_lookup_2.
Qed.

Section nodeinfo_correct.
Context {K L T : Type} `{KconfigRanges} `{PSALaws K} `{LoraLaws L} `{KernelLaws T}.
Context `{Pb Data} `{!PbLaws Data Data_ok} `{Pb User}.
Context (fx : fixed).
Notation W := (world K L T).
Notation I := (world_wf (L:=L) (T:=T) fx).

Lemma peer_get_locked_bounds node now peers :
  (0 < length peers)%nat →
  ((peer_get_locked node now peers).1 < length peers)%nat ∧
  length (peer_get_locked node now peers).2 = length peers.
Proof.
  intros Hlen. unfold peer_get_locked.
  set (ms := match peers with p :: _ => np_last_seen_ms p | [] => 0 end).
  pose proof (peer_search_spec node peers 0 0 ms) as Hs.
  destruct (peer_search node peers 0 0 ms) as [k [|]]; cbn [fst snd].
  - destruct Hs as (j & p & -> & Hp & _). rewrite length_alter. split; [|done].
    by eapply lookup_lt_Some.
  - destruct Hs as [_ [[-> _]|(j & p & -> & Hp & _)]]; rewrite length_alter; split; try done.
    by eapply lookup_lt_Some.
Qed.

Lemma peers_world ps (w : W) :
  I w → length ps = length (w_peers w) → I (w <| w_peers := ps |>).
Proof. intros [] Hl. constructor; try done. cbn. by rewrite Hl. Qed.

(** The slot of the peer, in the state after [peer_get]. *)
Lemma peer_get_wp node now (w : W) :
  I w → wp (peer_get node now) (λ i w', I w' ∧
    w' = w <| w_peers := (peer_get_locked node now (w_peers w)).2 |> ∧
    i = (peer_get_locked node now (w_peers w)).1 ∧ is_Some (w_peers w' !! i)) w.
Proof.
  intros HI. unfold peer_get. wps. pose proof nodeinfo_peers_range.
  destruct (peer_get_locked_bounds node now (w_peers w)) as [Hb Hl].
  { rewrite (ww_peers _ _ HI). lia. }
  destruct (peer_get_locked _ _ _) as [i ps]. cbn [fst snd] in *. wps.
  split_and!; [by apply peers_world|done|done|]. cbn. apply lookup_lt_is_Some. by rewrite Hl.
Qed.

Definition request_interval : Z := CONFIG_NODEINFO_UNKNOWN_SUPPRESS_SEC * MSEC_PER_SEC.
Definition reply_interval : Z := CONFIG_NODEINFO_REPLY_SUPPRESS_SEC * MSEC_PER_SEC.

(** Rewriting the slot the peer pointer designates. *)
Lemma alter_peer_world f i (w : W) : I w → I (w <| w_peers ::= alter f i |>).
Proof. intros HI. apply peers_world; [done|]. apply length_alter. Qed.

Lemma send_no_wait_peers p (w : W) :
  I w → wp (meshtastic_send_packet p K_NO_WAIT) (λ _ w', I w' ∧ w_peers w' = w_peers w) w.
Proof.
  intros HI. apply wp_and; [by apply keeps_send_packet|].
  eapply wp_mono; [by apply (send_no_wait_frame fx)|]. intros u w' (mt & k & o & r & t & ->). done.
Qed.

Lemma nodeinfo_on_packet_wp p (w : W) (now := (k_uptime_get (w_kernel w)).1)
    (got := peer_get_locked (p_from p) now (w_peers w)) :
  I w → p_from p ≠ 0 → p_from p ≠ mt_node_id (w_mt w) →
  wp (meshtastic_module_nodeinfo_on_packet p) (λ _ w', I w' ∧ ∃ pr pr',
    got.2 !! got.1 = Some pr ∧ w_peers w' !! got.1 = Some pr' ∧ np_node pr' = np_node pr ∧
    (w_outbound w' = w_outbound w ∧ np_last_request_ms pr' = np_last_request_ms pr
     ∨ interval_elapsed (np_last_request_ms pr) now request_interval = true ∧
       np_has_user pr = false ∧ p_portnum p ≠ MESHTASTIC_PORT_NODEINFO ∧
       np_last_request_ms pr' = Some now)) w.
Proof.
  intros HI Hnz Hself. unfold meshtastic_module_nodeinfo_on_packet. do 2 wp_step.
  rewrite (proj2 (Z.eqb_neq _ _) Hnz), (proj2 (Z.eqb_neq _ _) Hself). cbn [orb].
  set (ni := p_portnum p =? MESHTASTIC_PORT_NODEINFO).
  set (hu := ni && _). rewrite wp_bind. unfold uptime_get. wp_step. wp_step. rewrite wp_bind.
  fold now. set (w0 := w <| w_kernel := (k_uptime_get (w_kernel w)).2 |>).
  assert (I w0) as HI0 by (apply (same_wf_keeps fx w); [by constructor|done]).
  eapply wp_mono; [by apply peer_get_wp|]. intros i w1 (HI1 & Hw1 & -> & [pr Hpr]).
  change (w_peers w0) with (w_peers w) in *. fold got in Hw1, Hpr |- *.
  assert (got.2 !! got.1 = Some pr) as Hgot by (rewrite Hw1 in Hpr; exact Hpr).
  rewrite wp_bind. eapply wp_mono with (Q := λ _ w2, I w2 ∧ w_outbound w2 = w_outbound w ∧
    ∃ b, w_peers w2 !! got.1 = Some (pr <| np_has_user := b |>) ∧ (b = np_has_user pr ∨ ni = true)).
  { destruct hu eqn:Ehu; wps.
    - split; [by apply alter_peer_world|]. split; [by rewrite Hw1|]. exists true. cbn.
      rewrite list_lookup_alter, decide_True, Hpr by done. split; [done|]. right.
      unfold hu in Ehu. by apply andb_true_iff in Ehu as [? _].
    - split; [done|]. split; [by rewrite Hw1|]. exists (np_has_user pr). split; [|by left].
      rewrite Hpr. by destruct pr. }
  intros u w2 (HI2 & Ho2 & b & Hp2 & Hb). rewrite wp_bind. unfold peer_read. wps. rewrite Hp2. wps.
  case_if; cycle 1.
  { wps. split; [done|]. eexists pr, _. split_and!; [done|exact Hp2|done|by left]. }
  cbn [np_has_user set] in E. apply andb_true_iff in E as [E Hel].
  apply andb_true_iff in E as [Eb Eni]. apply negb_true_iff in Eb, Eni.
  assert (np_has_user pr = false) as Hnu by (destruct Hb as [Hb|Hb]; [by rewrite <- Hb|congruence]).
  wps. unfold nodeinfo_build_packet. wps.
  match goal with |- context [wp _ _ ?w3] => set (w3' := w3) end.
  assert (I w3') as HI3 by by apply alter_peer_world.
  assert (w_peers w3' !! got.1 = Some (pr <| np_has_user := b |> <| np_last_request_ms := Some now |>))
    as Hp3 by (cbn; by rewrite list_lookup_alter, decide_True, Hp2).
  assert (p_portnum p ≠ MESHTASTIC_PORT_NODEINFO) by (by apply Z.eqb_neq).
  destruct (pb_encode _ _) as [payload|].
  - rewrite wp_bind. eapply wp_mono; [by apply send_no_wait_peers|]. intros ret w4 [HI4 Hp4]. wps.
    split; [done|]. eexists pr, _. rewrite Hp4.
    split_and!; [done|exact Hp3|done|right; by split_and!].
  - wps. split; [done|]. eexists pr, _. split_and!; [done|exact Hp3|done|right; by split_and!].
Qed.

Lemma alloc_reply_wp p (w : W) (now := (k_uptime_get (w_kernel w)).1)
    (got := peer_get_locked (p_from p) now (w_peers w)) :
  I w → p_from p ≠ 0 → p_from p ≠ mt_node_id (w_mt w) →
  wp (meshtastic_module_nodeinfo_alloc_reply p) (λ ret w', I w' ∧ w_outbound w' = w_outbound w ∧
    ∃ pr pr', got.2 !! got.1 = Some pr ∧ w_peers w' !! got.1 = Some pr' ∧
    if interval_elapsed (np_last_reply_ms pr) now reply_interval
    then np_last_reply_ms pr' = Some now ∧ ret ≠ Err ENOENT
    else pr' = pr ∧ ret = Err ENOENT) w.
Proof.
  intros HI Hnz Hself. unfold meshtastic_module_nodeinfo_alloc_reply. do 2 wp_step.
  rewrite (proj2 (Z.eqb_neq _ _) Hnz), (proj2 (Z.eqb_neq _ _) Hself). cbn [orb].
  rewrite wp_bind. unfold uptime_get. wp_step. wp_step. rewrite wp_bind.
  fold now. set (w0 := w <| w_kernel := (k_uptime_get (w_kernel w)).2 |>).
  assert (I w0) as HI0 by (apply (same_wf_keeps fx w); [by constructor|done]).
  eapply wp_mono; [by apply peer_get_wp|]. intros i w1 (HI1 & Hw1 & -> & [pr Hpr]).
  change (w_peers w0) with (w_peers w) in *. fold got in Hw1, Hpr |- *.
  assert (got.2 !! got.1 = Some pr) as Hgot by (rewrite Hw1 in Hpr; exact Hpr).
  rewrite wp_bind. unfold peer_read. wps. rewrite Hpr. wps. fold reply_interval.
  destruct (interval_elapsed _ _ _) eqn:Eel; cbn [negb]; wps.
  - unfold nodeinfo_build_packet. wps. split; [by apply alter_peer_world|].
    split; [by rewrite Hw1|]. eexists pr, _. split; [done|]. cbn.
    rewrite list_lookup_alter, decide_True, Hpr by done. split; [done|]. rewrite Eel.
    split; [done|]. by destruct (pb_encode _ _).
  - split; [done|]. split; [by rewrite Hw1|]. exists pr, pr. rewrite Eel. done.
Qed.

Lemma keeps_nodeinfo p : keeps I (meshtastic_module_nodeinfo_on_packet p).
Proof.
  intros w HI. destruct (decide (p_from p = 0 ∨ p_from p = mt_node_id (w_mt w))) as [Hd|Hd].
  - unfold meshtastic_module_nodeinfo_on_packet. do 2 wp_step.
    replace (_ || _) with true; [by wps|]. symmetry. apply orb_true_iff. by rewrite !Z.eqb_eq.
  - apply Decidable.not_or in Hd as [??].
    eapply wp_mono; [by apply nodeinfo_on_packet_wp|]. by intros u w' [? _].
Qed.

Lemma keeps_alloc_reply p : keeps I (meshtastic_module_nodeinfo_alloc_reply p).
Proof.
  intros w HI. destruct (decide (p_from p = 0 ∨ p_from p = mt_node_id (w_mt w))) as [Hd|Hd].
  - unfold meshtastic_module_nodeinfo_alloc_reply. do 2 wp_step.
    replace (_ || _) with true; [by wps|]. symmetry. apply orb_true_iff. by rewrite !Z.eqb_eq.
  - apply Decidable.not_or in Hd as [??].
    eapply wp_mono; [by apply alloc_reply_wp|]. by intros u w' [? _].
Qed.

(** The slot of a node the cache knows, after [peer_get_locked]. *)
Lemma got_known node now peers i pr :
  peers_wf peers → node ≠ 0 → peer_slot node peers = Some i → peers !! i = Some pr →
  (peer_get_locked node now peers).1 = i ∧
  (peer_get_locked node now peers).2 !! i = Some (pr <| np_last_seen_ms := now |>).
Proof.
  intros Hwf Hnz Hs Hi.
  pose proof (peer_get_locked_cases node now peers Hwf Hnz) as Hc. rewrite Hs in Hc.
  rewrite Hc by (apply lookup_lt_Some in Hi; lia). cbn. split; [done|].
  by rewrite list_lookup_alter, decide_True, Hi.
Qed.

(** A node never asks one peer it does not know twice within the request
    interval, and never answers one peer twice within the reply interval: as
    long as the peer keeps its slot, a packet from it queues nothing before the
    first has passed, and a request is ignored ([-ENOENT]) before the second
    has; what is sent starts a new interval. *)
Theorem nodeinfo_spacing p i pr (w : W) (now := (k_uptime_get (w_kernel w)).1) :
  I w → peers_wf (w_peers w) → p_from p ≠ 0 → p_from p ≠ mt_node_id (w_mt w) →
  peer_slot (p_from p) (w_peers w) = Some i → w_peers w !! i = Some pr →
  (∃ w', meshtastic_module_nodeinfo_on_packet p w = Some ((), w') ∧ I w' ∧
     ((∀ t, np_last_request_ms pr = Some t → now - t < request_interval →
         w_outbound w' = w_outbound w) ∧
      (w_outbound w' ≠ w_outbound w →
         ∃ pr', w_peers w' !! i = Some pr' ∧ np_last_request_ms pr' = Some now))) ∧
  (∃ ret w', meshtastic_module_nodeinfo_alloc_reply p w = Some (ret, w') ∧ I w' ∧
     ((∀ t, np_last_reply_ms pr = Some t → now - t < reply_interval → ret = Err ENOENT) ∧
      (ret ≠ Err ENOENT →
         ∃ pr', w_peers w' !! i = Some pr' ∧ np_last_reply_ms pr' = Some now))).
Proof.
  intros HI Hwf Hnz Hself Hs Hi.
  destruct (got_known (p_from p) now _ _ _ Hwf Hnz Hs Hi) as [Hg1 Hg2].
  assert (∀ t int, now - t < int → interval_elapsed (Some t) now int = false) as Hel.
  { intros t int Hlt. cbn. by apply Z.leb_gt. }
  split.
  - destruct (proj1 (wp_run _ _ _) (nodeinfo_on_packet_wp p w HI Hnz Hself))
      as ([] & w' & Hrun & HI' & pr1 & pr' & Hp1 & Hp' & _ & Hcase).
    fold now in Hp1, Hp', Hcase. rewrite Hg1 in *. rewrite Hg2 in Hp1. injection Hp1 as <-.
    cbn in Hcase. exists w'. split_and!; [done|done| |].
    + intros t Ht Hlt. rewrite Ht, Hel in Hcase by done. by destruct Hcase as [[]|[]].
    + intros Hne. destruct Hcase as [[? _]|(_ & _ & _ & ?)]; [done|]. by exists pr'.
  - destruct (proj1 (wp_run _ _ _) (alloc_reply_wp p w HI Hnz Hself))
      as (ret & w' & Hrun & HI' & _ & pr1 & pr' & Hp1 & Hp' & Hcase).
    fold now in Hp1, Hp', Hcase. rewrite Hg1 in *. rewrite Hg2 in Hp1. injection Hp1 as <-.
    cbn in Hcase. exists ret, w'. split_and!; [done|done| |].
    + intros t Ht Hlt. rewrite Ht, Hel in Hcase by done. by destruct Hcase.
    + intros Hne. case_if_in Hcase; [|by destruct Hcase]. exists pr'. by destruct Hcase.
Qed.
End nodeinfo_correct.

(** ** A cache that knows node 9 *)

Definition known_peers : list nodeinfo_peer :=
  mk_peer 9 4000 (Some 4500) (Some 4600) false :: replicate 3 peer_zero.

Lemma peers_wf_bool peers :
  (∀ i j, (i < length peers)%nat → (j < length peers)%nat →
    let node k := np_node (default peer_zero (peers !! k)) in
    (node i = 0 → (i ≤ j)%nat → node j = 0) ∧ (node i = node j → node i ≠ 0 → i = j)) →
  peers_wf peers.
Proof.
  intros Hall. constructor; intros i j p q Hi Hj.
  - intros Hp Hij. destruct (Hall i j) as [Ha _]; [by eapply lookup_lt_Some..|].
    rewrite Hi, Hj in Ha. by apply Ha.
  - intros Hp Hnz. destruct (Hall i j) as [_ Hb]; [by eapply lookup_lt_Some..|].
    rewrite Hi, Hj in Hb. by apply Hb.
Qed.

Lemma known_peers_wf n : peers_wf (mk_peer 9 4000 (Some 4500) (Some 4600) false :: replicate n peer_zero).
Proof.
  apply peers_wf_bool. intros i j Hi Hj. cbv zeta.
  assert (∀ k, np_node (default peer_zero (replicate n peer_zero !! k)) = 0) as Hz.
  { intros k. destruct (replicate n peer_zero !! k) as [q|] eqn:E; [|done].
    apply lookup_replicate in E as [-> _]. done. }
  destruct i as [|i], j as [|j]; cbn; rewrite ?Hz; split; intros; done || lia.
Qed.

Lemma peer_cache_lru_witness :
  peer_get_locked 7 5000 known_peers =
    (1%nat, <[1%nat := new_peer 7 5000]> known_peers) ∧
  peers_wf (<[1%nat := new_peer 7 5000]> known_peers).
Proof.
  split; [by vm_compute|].
  destruct (peer_cache_lru 7 5000 known_peers) as (Hwf & _); [apply known_peers_wf|lia|cbn; lia|].
  exact Hwf.
Defined.

#[local] Existing Instance default_kconfig.
#[local] Existing Instance default_kconfig_ranges.
#[local] Instance no_User : Pb User := pb_silent User.

Definition asked_world : world toy_psa mock_lora mock_kernel :=
  (mock_world (mock_radio 0) (mock_clock false)) <| w_peers :=
    mk_peer 9 4000 (Some 4500) (Some 4600) false
      :: replicate (pred CONFIG_NODEINFO_PEER_CACHE_SIZE) peer_zero |>.

(** Node 9 speaks again half a second after it was asked who it is. *)
Lemma nodeinfo_spacing_witness (p := packet_zero <| p_from := 9 |>) :
  (∃ w', meshtastic_module_nodeinfo_on_packet p asked_world = Some ((), w') ∧
     w_outbound w' = w_outbound asked_world) ∧
  (∃ w', meshtastic_module_nodeinfo_alloc_reply p asked_world = Some (Err ENOENT, w')).
Proof.
  destruct (nodeinfo_spacing (mk_fixed ∅ 0 store_bss []) p 0 (mk_peer 9 4000 (Some 4500) (Some 4600) false) asked_world)
    as [(w1 & Hr1 & _ & Hq & _) (ret & w2 & Hr2 & _ & He & _)]; try done.
  - destruct (mock_world_wf (mock_radio 0) (mock_clock false)). by constructor.
  - apply known_peers_wf.
  - split.
    + exists w1. split; [exact Hr1|]. by apply (Hq 4500).
    + exists w2. rewrite Hr2. by rewrite (He 4600).
Defined.
