(* ===== verification/Router.v ===== *)
(** * Routing and reception (src/meshtastic_router.c, meshtastic_routing.c,
    meshtastic_modules.c, meshtastic_message.c)

    What becomes of a frame from the air or of a packet from a gateway:
    duplicate filtering, decoding, delivery to the application and the phones,
    acknowledgement, the modules, and relaying with one hop less. *)

From S2P Require Import Prelude Types External Mock Core Airtime Channels NodeDB Wire Store World.
From S2P Require Import Radio Reliable PhoneApi Invariant Send NodeInfo.

Definition ROUTING_REPLY_HOP_MARGIN : Z := 2.

(** [routing_hop_limit_for_reply]; [local] is [mt.hop_limit]. *)
Definition routing_hop_limit_for_reply (req : option packet) (local : Z) : Z :=
  match req with
  | None => local
  | Some req =>
      if p_hop_start req =? 0 then 0
      else if p_hop_start req <? p_hop_limit req then local
      else
        let hops_used := p_hop_start req - p_hop_limit req in
        if local <? hops_used then u8 hops_used
        else if u8 (hops_used + ROUTING_REPLY_HOP_MARGIN) <? local
             then u8 (hops_used + ROUTING_REPLY_HOP_MARGIN)
             else local
  end.

Definition routing_ack_should_request_ack (req : packet) (node_id : Z) : bool :=
  p_want_ack req && (p_to req =? node_id)
  && ((p_portnum req =? MESHTASTIC_PORT_TEXT_MESSAGE)
      || (p_portnum req =? PortNum_TEXT_MESSAGE_COMPRESSED_APP)).

(** The acknowledgement of [req], before its payload. *)
Definition ack_mesh (mt : context) (ch : channels) (req : packet) (id : Z) (payload : list Z)
    : MeshPacket :=
  let hop_limit := routing_hop_limit_for_reply (Some req) (mt_hop_limit mt) in
  MeshPacket_zero <| m_from := mt_node_id mt |> <| m_to := p_from req |> <| m_id := id |>
    <| m_channel := if negb (p_channel_index req =? MESHTASTIC_CHANNEL_INDEX_INVALID)
                    then p_channel_index req else meshtastic_channels_primary_index ch |>
    <| m_hop_limit := hop_limit |> <| m_hop_start := hop_limit |>
    <| m_want_ack := routing_ack_should_request_ack req (mt_node_id mt) |>
    <| m_priority := Priority_ACK |>
    <| m_variant := PV_decoded (Data_zero <| d_portnum := PortNum_ROUTING_APP |>
         <| d_request_id := p_id req |> <| d_want_response := false |>
         <| d_payload := payload |>) |>.

(** [struct meshtastic_module]; [on_packet] and [alloc_reply] may be NULL. *)
Record module (K L T : Type) := mk_module {
  mod_portnum : Z; mod_all_packets : bool;
  mod_on_packet : option (packet → M (world K L T) ());
  mod_alloc_reply : option (packet → M (world K L T) (result packet))
}.
Arguments mk_module {K L T} _ _ _ _.
Arguments mod_portnum {K L T} _.
Arguments mod_all_packets {K L T} _.
Arguments mod_on_packet {K L T} _.
Arguments mod_alloc_reply {K L T} _.

(** [meshtastic_packet_set_reply_to]. *)
Definition meshtastic_packet_set_reply_to (reply req : packet) : packet :=
  let reply := reply <| p_to := p_from req |> in
  let reply :=
    if negb (p_channel_index req =? MESHTASTIC_CHANNEL_INDEX_INVALID)
    then reply <| p_channel_index := p_channel_index req |>
    else if negb (p_channel req =? 0) then reply <| p_channel := p_channel req |> else reply in
  reply <| p_request_id := p_id req |> <| p_reply_id := 0 |> <| p_want_response := false |>.

Section router.
Context {K L T : Type} `{Kconfig} `{PSA K} `{LoraDriver L} `{Kernel T}.
Context `{Pb Data} `{Pb User} `{Pb Routing} `{Pb Position} `{Pb Telemetry} `{Pb StatusMessage}.
Context `{Pb FromRadio}.
Notation W := (world K L T).

(** ** Acknowledgements *)

Definition routing_send_ack (req : packet) : M W (result ()) :=
  mt ← gets (S:=W) w_mt;
  if negb (p_to req =? mt_node_id mt) then mret (Err EINVAL)
  else
    ch ← gets (S:=W) w_channels;
    id ← allocate_packet_id;
    match pb_encode MESHTASTIC_MAX_PAYLOAD_LEN (mk_Routing true Routing_Error_NONE) with
    | None => mret (Err ENOMEM)
    | Some payload => meshtastic_send_mesh_pb (Some (ack_mesh mt ch req id payload))
    end.

Definition meshtastic_routing_on_decoded (p : packet) : M W () :=
  mt ← gets (S:=W) w_mt;
  if negb ((p_to p =? mt_node_id mt) || (p_to p =? MESHTASTIC_NODE_BROADCAST))
     || (p_from p =? mt_node_id mt)
  then mret ()
  else
    meshtastic_reliable_on_routing (Some p) ;;
    if p_want_ack p && (p_to p =? mt_node_id mt) then routing_send_ack p ;; mret () else mret ().

(** ** Modules *)

Definition dispatch_one (p : packet) (md : module K L T) : M W () :=
  match mod_on_packet md with
  | None => mret ()
  | Some on_packet =>
      if mod_all_packets md || (mod_portnum md =? p_portnum p) then on_packet p else mret ()
  end.

(** The second loop: the first handler that does not answer [-ENOENT]. *)
Fixpoint find_reply (p : packet) (mods : list (module K L T)) : M W (option (result packet)) :=
  match mods with
  | [] => mret None
  | md :: mods =>
      match mod_alloc_reply md with
      | Some alloc_reply =>
          if mod_portnum md =? p_portnum p then
            ret ← alloc_reply p;
            match ret with
            | Err ENOENT => find_reply p mods
            | _ => mret (Some ret)
            end
          else find_reply p mods
      | None => find_reply p mods
      end
  end.

Definition meshtastic_dispatch_modules (mods : list (module K L T)) (p : packet) : M W () :=
  mapM_ (dispatch_one p) mods ;;
  mt ← gets (S:=W) w_mt;
  if negb (p_to p =? mt_node_id mt) || negb (p_want_response p) then mret ()
  else
    handler ← find_reply p mods;
    match handler with
    | None | Some (Err _) => mret ()
    | Some (Ok reply) =>
        meshtastic_send_packet (Some (meshtastic_packet_set_reply_to reply p)) K_NO_WAIT ;;
        mret ()
    end.

(** src/meshtastic_message.c *)
Definition meshtastic_module_message_on_packet (p : packet) : M W () :=
  mt ← gets (S:=W) w_mt;
  if bool_decide (p_payload p = None) || (p_payload_len p =? 0)%nat then mret ()
  else if negb (p_portnum p =? MESHTASTIC_PORT_TEXT_MESSAGE) then mret ()
  else if (p_from p =? 0) || (p_from p =? mt_node_id mt) then mret ()
  else if negb ((p_to p =? mt_node_id mt) || (p_to p =? MESHTASTIC_NODE_BROADCAST)) then mret ()
  else meshtastic_emit_event TEXT_MESSAGE None (Some p).

Definition nodedb_on_packet (p : packet) : M W () :=
  mt ← gets (S:=W) w_mt;
  now_ms ← uptime_get;
  modify (set w_nodedb (meshtastic_module_nodedb_on_packet (mt_node_id mt) (Some p) now_ms)).

(** The modules of a build with CONFIG_MESHTASTIC_MESSAGE, _NODEDB and
    _NODEINFO, in the order of the linker section. *)
Definition stock_modules : list (module K L T) :=
  [mk_module MESHTASTIC_PORT_TEXT_MESSAGE false (Some meshtastic_module_message_on_packet) None;
   mk_module 0 true (Some nodedb_on_packet) None;
   mk_module MESHTASTIC_PORT_NODEINFO true (Some meshtastic_module_nodeinfo_on_packet)
     (Some meshtastic_module_nodeinfo_alloc_reply)].

(** ** Delivery and relay *)

Definition dup_check_ (src id : Z) : M W bool := zoom w_mt (state (dup_check src id)).
Definition dup_add_ (src id : Z) : M W () := modify (set w_mt (dup_add src id)).

Definition deliver_packet (p : packet) : M W () :=
  mt ← gets (S:=W) w_mt;
  (if mt_recv_cb mt then modify (set w_trace (λ tr, tr ++ [Ob_recv p])) else mret ()) ;;
  meshtastic_emit_event PACKET_RECEIVED None (Some p) ;;
  meshtastic_phoneapi_on_packet p.

(** [flags] is byte 12 of the frame. *)
Definition relay_flags (flags hop_limit : Z) : Z :=
  u8 (Z.lor (Z.land flags (Z.lnot MESHTASTIC_FLAGS_HOP_LIMIT_MASK))
            (Z.land (hop_limit - 1) MESHTASTIC_FLAGS_HOP_LIMIT_MASK)).

Definition relay_packet (buf : list Z) (hdr : wire_header) (hop_limit : Z) : M W () :=
  if (MESHTASTIC_PKT_MAX <? length buf)%nat || (hop_limit =? 0) then mret ()
  else
    within (length buf) MESHTASTIC_PKT_MAX ;;
    ret ← meshtastic_radio_send_wire (<[12%nat := relay_flags (h_flags hdr) hop_limit]> buf);
    match ret with
    | Err _ => mret ()
    | Ok _ => status_modify (set relayed_packets inc32)
    end.

Definition meshtastic_routing_sniff_rebroadcast (hdr : wire_header) (wire : list Z) (p : packet)
    : M W () :=
  if (length wire <? MESHTASTIC_HDR_LEN)%nat then mret ()
  else
    let hop_limit := flags_hop_limit (h_flags hdr) in
    mt ← gets (S:=W) w_mt;
    ch ← gets (S:=W) w_channels;
    if negb (meshtastic_is_rebroadcaster ch) then mret ()
    else if (h_src hdr =? mt_node_id mt) || (h_dest hdr =? mt_node_id mt) then mret ()
    else if hop_limit =? 0 then mret ()
    else if (h_dest hdr =? MESHTASTIC_NODE_BROADCAST) && (p_id p =? 0) then mret ()
    else if meshtastic_rebroadcast_mode ch =? Rebroadcast_LOCAL_ONLY then mret ()
    else relay_packet wire hdr hop_limit.

Definition meshtastic_routing_sniff (hdr : wire_header) (wire : list Z) (p : packet) : M W () :=
  meshtastic_routing_sniff_rebroadcast hdr wire p.

(** [MESHTASTIC_PORT_*] of the CORE_PORTNUMS_ONLY mode. *)
Definition core_portnum (portnum : Z) : bool :=
  (portnum =? MESHTASTIC_PORT_TEXT_MESSAGE) || (portnum =? MESHTASTIC_PORT_POSITION)
  || (portnum =? MESHTASTIC_PORT_NODEINFO) || (portnum =? MESHTASTIC_PORT_ROUTING)
  || (portnum =? MESHTASTIC_PORT_TELEMETRY).

(** The registered modules, and what the uninitialised local [packet] of the
    receive path holds. *)
Context (mods : list (module K L T)) (packet_garbage : packet).

Definition meshtastic_handle_inbound_packet (p : packet) (wire : option (list Z))
    (decoded : bool) : M W () :=
  (if decoded then
     mt ← gets (S:=W) w_mt;
     ch ← gets (S:=W) w_channels;
     (if (meshtastic_rebroadcast_mode ch =? Rebroadcast_CORE_PORTNUMS_ONLY)
         && negb (core_portnum (p_portnum p)) then mret ()
      else if (p_to p =? mt_node_id mt) || (p_to p =? MESHTASTIC_NODE_BROADCAST)
           then deliver_packet p else mret ()) ;;
     mqtt_hook false p wire ;;
     meshtastic_routing_on_decoded p ;;
     meshtastic_dispatch_modules mods p
   else mret ()) ;;
  match wire with
  | Some wire =>
      if (MESHTASTIC_HDR_LEN <=? length wire)%nat
      then
        hdr ← read_header wire;
        meshtastic_routing_sniff_rebroadcast hdr wire p
      else mret ()
  | None => mret ()
  end.

Definition try_decode (buf : list Z) (rssi snr : Z) : M W (result (packet * bool)) :=
  db ← gets (S:=W) w_nodedb;
  ch ← gets (S:=W) w_channels;
  zoom w_psa (meshtastic_try_decode_wire_packet db ch packet_garbage (Some buf) rssi snr
                MESHTASTIC_MAX_PAYLOAD_LEN).

Definition reack_duplicate (buf : list Z) (rssi snr : Z) : M W () :=
  hdr ← read_header buf;
  mt ← gets (S:=W) w_mt;
  if negb (flags_want_ack (h_flags hdr)) || negb (h_dest hdr =? mt_node_id mt) then mret ()
  else
    ret ← try_decode buf rssi snr;
    match ret with
    | Ok (p, true) => meshtastic_routing_on_decoded p
    | _ => mret ()
    end.

Definition meshtastic_router_process_lora_rx (buf : list Z) (rssi snr : Z) : M W () :=
  if (length buf <? MESHTASTIC_HDR_LEN)%nat then mret ()
  else
    hdr ← read_header buf;
    let src := h_src hdr in
    let pkt_id := h_id hdr in
    airtime_ms ← meshtastic_airtime_packet_ms (Z.of_nat (length buf));
    if CONFIG_MQTT_IGNORE_MQTT && flags_via_mqtt (h_flags hdr) then
      airtime_log AIRTIME_RX_ALL airtime_ms
    else
      dup ← dup_check_ src pkt_id;
      if (dup : bool) then
        airtime_log AIRTIME_RX_ALL airtime_ms ;;
        reack_duplicate buf rssi snr
      else
        dup_add_ src pkt_id ;;
        ret ← try_decode buf rssi snr;
        match ret with
        | Err _ => airtime_log AIRTIME_RX_ALL airtime_ms
        | Ok (p, decoded) =>
            airtime_log (if p_from p =? 0 then AIRTIME_RX_ALL else AIRTIME_RX) airtime_ms ;;
            (if negb decoded then status_modify (set decode_failures inc32) else mret ()) ;;
            status_modify (λ st, (st <| rx_packets ::= inc32 |>) <| last_rx_from := src |>
              <| last_rssi := rssi |> <| last_snr := snr |>) ;;
            meshtastic_handle_inbound_packet p (Some buf) decoded
        end.

(** ** Packets from a gateway *)

Definition relay_injected_encrypted_mesh_packet (mesh : MeshPacket) : M W (result ()) :=
  match m_variant mesh with
  | PV_encrypted bytes =>
      if (MESHTASTIC_PAYLOAD_MAX <? length bytes)%nat then mret (Err EINVAL)
      else
        mt ← gets (S:=W) w_mt;
        ch ← gets (S:=W) w_channels;
        id ← mesh_id mesh;
        within (MESHTASTIC_HDR_LEN + length bytes) MESHTASTIC_PKT_MAX ;;
        meshtastic_radio_send_wire
          (header_bytes (encrypted_header mt ch mesh id (m_hop_limit mesh) (m_hop_start mesh))
             ++ bytes)
  | _ => mret (Err EINVAL)
  end.

Definition meshtastic_inject_downlink_mesh_packet (mesh : option MeshPacket) : M W (result ()) :=
  mt ← gets (S:=W) w_mt;
  match mesh with
  | None => mret (Err EINVAL)
  | Some mesh =>
      if negb (mt_initialized mt) then mret (Err EINVAL)
      else
        let work := meshtastic_mesh_packet_copy mesh <| m_via_mqtt := true |>
                      <| m_transport := Transport_MQTT |> in
        dup ← dup_check_ (m_from work) (m_id work);
        if (dup : bool) then mret (Err EALREADY)
        else
          dup_add_ (m_from work) (m_id work) ;;
          let local := (m_to work =? mt_node_id mt) || (m_to work =? MESHTASTIC_NODE_BROADCAST) in
          let relay := negb (m_to work =? mt_node_id mt)
                       && ((0 <? m_hop_limit work)
                           || ((m_hop_limit work =? 0) && is_encrypted work)) in
          ret ← (if relay then
                   if (m_hop_limit work =? 0) && is_encrypted work
                   then relay_injected_encrypted_mesh_packet work
                   else meshtastic_send_mesh_pb (Some work)
                 else mret (Ok ()));
          match ret with
          | Err e => mret (Err e)
          | Ok _ =>
              if negb local then mret (Ok ())
              else
                ch ← gets (S:=W) w_channels;
                decoded ← (if is_decoded work then mret (Ok (), work)
                           else zoom w_psa (meshtastic_mesh_pb_try_decode ch work));
                match decoded with
                | (Err _, _) => mret (Ok ())
                | (Ok _, work) =>
                    ret ← zoom w_psa (meshtastic_mesh_pb_to_packet ch (Some work)
                                        MESHTASTIC_MAX_PAYLOAD_LEN);
                    match ret with
                    | Err e => mret (Err e)
                    | Ok packet =>
                        meshtastic_handle_inbound_packet (packet <| p_via_mqtt := true |>) None true ;;
                        mret (Ok ())
                    end
                end
          end
  end.
End router.

(** ** The node survives everything it receives *)

Section router_safe.
Context {K L T : Type} `{KconfigRanges} `{PSALaws K} `{LoraLaws L} `{KernelLaws T}.
Context `{Pb Data} `{!PbLaws Data Data_ok} `{Pb User} `{Pb Routing} `{Pb Position} `{Pb Telemetry}.
Context `{Pb StatusMessage} `{Pb FromRadio}.
Context (fx : fixed).
Notation W := (world K L T).
Notation I := (world_wf (L:=L) (T:=T) fx).

(** What the router asks of a module: its callbacks return and preserve the
    node's invariant. *)
Record module_safe (md : module K L T) : Prop := {
  safe_on_packet f p : mod_on_packet md = Some f → keeps I (f p);
  safe_alloc_reply f p : mod_alloc_reply md = Some f → keeps I (f p)
}.

Lemma keeps_routing_send_ack p : keeps I (routing_send_ack p).
Proof.
  unfold routing_send_ack. apply keeps_bind; [apply keeps_gets|]. intros mt.
  apply keeps_if; [apply keeps_ret|]. apply keeps_bind; [apply keeps_gets|]. intros ch.
  apply keeps_bind; [apply keeps_allocate|]. intros id.
  destruct (pb_encode _ _); [apply keeps_send_mesh_pb|apply keeps_ret].
Qed.

Lemma keeps_on_decoded p : keeps I (meshtastic_routing_on_decoded p).
Proof.
  unfold meshtastic_routing_on_decoded. apply keeps_bind; [apply keeps_gets|]. intros mt.
  apply keeps_if; [apply keeps_ret|]. apply keeps_bind; [apply keeps_on_routing|]. intros b.
  apply keeps_if; [|apply keeps_ret]. apply keeps_bind; [apply keeps_routing_send_ack|].
  intros r. apply keeps_ret.
Qed.

Lemma keeps_find_reply p mods : Forall module_safe mods → keeps I (find_reply p mods).
Proof.
  induction 1 as [|md mods Hmd _ IH]; cbn [find_reply]; [apply keeps_ret|].
  destruct (mod_alloc_reply md) as [f|] eqn:E; [|done]. apply keeps_if; [|done].
  apply keeps_bind; [by apply (safe_alloc_reply md Hmd)|]. intros [r|[]]; done || apply keeps_ret.
Qed.

Lemma keeps_dispatch p mods :
  Forall module_safe mods → keeps I (meshtastic_dispatch_modules mods p).
Proof.
  intros Hmods. unfold meshtastic_dispatch_modules. apply keeps_bind.
  { intros w HI. apply wp_mapM; [done|]. intros md w' Hin HI'.
    rewrite Forall_forall in Hmods. specialize (Hmods md Hin). unfold dispatch_one.
    destruct (mod_on_packet md) as [f|] eqn:E; [|by wps]. case_if; [|by wps].
    by apply (safe_on_packet md Hmods f p E). }
  intros _. apply keeps_bind; [apply keeps_gets|]. intros mt. apply keeps_if; [apply keeps_ret|].
  apply keeps_bind; [by apply keeps_find_reply|]. intros [[r|e]|]; [|apply keeps_ret..].
  apply keeps_bind; [by apply keeps_send_packet|]. intros ret. apply keeps_ret.
Qed.

Lemma keeps_message p : keeps I (meshtastic_module_message_on_packet p).
Proof. unfold meshtastic_module_message_on_packet. keep. Qed.

Lemma keeps_nodedb p : keeps I (nodedb_on_packet p).
Proof.
  unfold nodedb_on_packet. apply keeps_bind; [apply keeps_gets|]. intros mt.
  apply keeps_bind; [apply keeps_uptime|]. intros now. apply keeps_modify. intros w HI.
  assert (nodedb_wf (meshtastic_module_nodedb_on_packet (mt_node_id mt) (Some p) now (w_nodedb w)))
    as Hdb.
  { destruct (decide (p_from p = 0 ∨ p_from p = mt_node_id mt)) as [Hd|[??]%Decidable.not_or].
    - cbn. replace (_ || _) with true; [apply HI|]. symmetry. apply orb_true_iff.
      by rewrite !Z.eqb_eq.
    - by apply on_packet_spec; [apply HI|..]. }
  destruct HI. by constructor.
Qed.

Lemma stock_modules_safe : Forall module_safe stock_modules.
Proof.
  repeat constructor; cbn; try done; intros f p [= <-].
  - apply keeps_message.
  - apply keeps_nodedb.
  - apply keeps_nodeinfo.
  - apply keeps_alloc_reply.
Qed.

Lemma keeps_deliver p : keeps I (deliver_packet p).
Proof. unfold deliver_packet. keep. Qed.

Lemma keeps_relay buf hdr hop : keeps I (relay_packet buf hdr hop).
Proof.
  unfold relay_packet. destruct (_ || _) eqn:E; [keep|].
  apply orb_false_iff in E as [E%Nat.ltb_ge _]. rewrite within_bind by done. keep.
Qed.

Lemma keeps_sniff hdr wire p : keeps I (meshtastic_routing_sniff_rebroadcast hdr wire p).
Proof.
  unfold meshtastic_routing_sniff_rebroadcast. apply keeps_if; [apply keeps_ret|].
  do 2 (apply keeps_bind; [apply keeps_gets|]; intros ?).
  do 5 (apply keeps_if; [apply keeps_ret|]). apply keeps_relay.
Qed.

Lemma keeps_dup_check src id : keeps I (dup_check_ src id).
Proof.
  intros w HI. unfold dup_check_. wps. unfold dup_check.
  by case_bool_decide; (apply (same_wf_keeps fx w); [constructor|]).
Qed.

Lemma keeps_dup_add src id : keeps I (dup_add_ src id).
Proof.
  unfold dup_add_. apply keeps_modify. intros w []. pose proof dup_cache_range.
  constructor; try done; unfold dup_add; cbn; [by rewrite length_insert|].
  apply Nat.mod_upper_bound. lia.
Qed.

Lemma keeps_try_decode garbage buf rssi snr : keeps I (try_decode garbage buf rssi snr).
Proof.
  intros w HI. unfold try_decode. do 4 wp_step. apply psa_wp; [done|]. apply try_decode_keys, HI.
Qed.

Context (mods : list (module K L T)) (Hmods : Forall module_safe mods) (garbage : packet).

Lemma keeps_inbound p wire decoded :
  keeps I (meshtastic_handle_inbound_packet mods p wire decoded).
Proof.
  unfold meshtastic_handle_inbound_packet. apply keeps_bind.
  - apply keeps_if; [|apply keeps_ret].
    repeat (apply keeps_bind; [apply keeps_gets|]; intros ?).
    apply keeps_bind.
    { apply keeps_if; [apply keeps_ret|]. apply keeps_if; [apply keeps_deliver|apply keeps_ret]. }
    intros _. apply keeps_bind; [apply keeps_hook|]. intros _.
    apply keeps_bind; [apply keeps_on_decoded|]. intros _. by apply keeps_dispatch.
  - intros _. destruct wire as [wire|]; [|apply keeps_ret].
    destruct (Nat.leb_spec MESHTASTIC_HDR_LEN (length wire)); [|apply keeps_ret].
    rewrite read_header_bind by done. apply keeps_sniff.
Qed.

Lemma keeps_reack buf rssi snr :
  (MESHTASTIC_HDR_LEN ≤ length buf)%nat → keeps I (reack_duplicate garbage buf rssi snr).
Proof.
  intros Hlen. unfold reack_duplicate. rewrite read_header_bind by done. apply keeps_bind; [apply keeps_gets|]. intros mt.
  apply keeps_if; [apply keeps_ret|]. apply keeps_bind; [apply keeps_try_decode|].
  intros [[p []]|e]; [apply keeps_on_decoded|apply keeps_ret..].
Qed.

Lemma keeps_process buf rssi snr :
  keeps I (meshtastic_router_process_lora_rx mods garbage buf rssi snr).
Proof.
  unfold meshtastic_router_process_lora_rx.
  destruct (Nat.ltb_spec (length buf) MESHTASTIC_HDR_LEN); [apply keeps_ret|].
  rewrite read_header_bind by done. apply keeps_bind; [apply keeps_airtime_ms|]. intros ms.
  apply keeps_if; [apply keeps_airtime_log|]. apply keeps_bind; [apply keeps_dup_check|].
  intros dup. apply keeps_if.
  { apply keeps_bind; [apply keeps_airtime_log|]. intros _. by apply keeps_reack. }
  apply keeps_bind; [apply keeps_dup_add|]. intros _.
  apply keeps_bind; [apply keeps_try_decode|]. intros [[p decoded]|e]; [|apply keeps_airtime_log].
  apply keeps_bind; [apply keeps_airtime_log|]. intros _.
  apply keeps_bind; [apply keeps_if; [apply keeps_status|apply keeps_ret]|]. intros _.
  apply keeps_bind; [apply keeps_status|]. intros _. apply keeps_inbound.
Qed.

Lemma keeps_relay_injected mesh : keeps I (relay_injected_encrypted_mesh_packet mesh).
Proof.
  unfold relay_injected_encrypted_mesh_packet. destruct (m_variant mesh) as [|bytes|]; [apply keeps_ret| |apply keeps_ret].
  case_if; [apply keeps_ret|].
  do 2 (apply keeps_bind; [apply keeps_gets|]; intros ?).
  apply keeps_bind; [apply keeps_mesh_id|]. intros id. rewrite within_bind by by apply wire_room. apply keeps_send_wire.
Qed.

Lemma keeps_inject mesh : keeps I (meshtastic_inject_downlink_mesh_packet mods mesh).
Proof.
  unfold meshtastic_inject_downlink_mesh_packet. apply keeps_bind; [apply keeps_gets|]. intros mt.
  destruct mesh as [mesh|]; [|apply keeps_ret]. apply keeps_if; [apply keeps_ret|]. cbv zeta.
  apply keeps_bind; [apply keeps_dup_check|]. intros dup. apply keeps_if; [apply keeps_ret|].
  apply keeps_bind; [apply keeps_dup_add|]. intros _. apply keeps_bind.
  { apply keeps_if; [|apply keeps_ret]. apply keeps_if; [apply keeps_relay_injected|apply keeps_send_mesh_pb]. }
  intros [u|e]; [|apply keeps_ret]. apply keeps_if; [apply keeps_ret|].
  set (work := meshtastic_mesh_packet_copy mesh <| m_via_mqtt := true |> <| m_transport := Transport_MQTT |>).
  intros w HI. do 2 wp_step. rewrite wp_bind.
  eapply wp_mono with (Q := λ _ w', I w' ∧ w_channels w' = w_channels w).
  { case_if; [by wps|]. rewrite wp_zoom.
    eapply wp_mono; [apply mesh_try_decode_keys, HI|]. intros r k [Hk _].
    split; [|done]. by apply (same_wf_keeps fx w); [constructor|]. }
  intros [[v|e] work'] w' [HI' Hch]; [|by wps]. rewrite wp_bind.
  eapply wp_mono; [apply psa_wp; [exact HI'|apply mesh_to_packet_keys; rewrite <- Hch; apply HI']|].
  intros [p|e] w2 HI2; [|by wps]. rewrite wp_bind.
  eapply wp_mono; [by apply keeps_inbound|]. intros u' w3 HI3. by wps.
Qed.
End router_safe.
