(* ===== verification/Telemetry.v ===== *)
(** * Telemetry (src/meshtastic_metrics.c, meshtastic_environment.c,
    meshtastic_telemetry_common.c)

    Device metrics (uptime, battery, airtime) and environment metrics
    (sensors), sent on request of the application or of the periodic thread,
    and in answer to another node's request, with a cache of four peers that
    spaces the answers to one peer.  The fuel gauge and the sensors are
    drivers; the aliases of the device tree are options. *)

From stdpp Require Import finite vector.
From S2P Require Import Prelude Types External Mock Core Airtime Channels NodeDB Wire Store World.
From S2P Require Import Radio Reliable PhoneApi Invariant Send NodeInfo Router.

(** ** Options and drivers *)

Class TelemetryConfig := {
  MESHTASTIC_HAS_FUEL_GAUGE0 : bool;
  MT_ENV_HAS_TEMP : bool;
  MT_ENV_HAS_HUM : bool;
  MT_ENV_HAS_PRESS : bool;
  MT_ENV_HAS_GAS : bool;
  MT_ENV_HAS_LIGHT : bool;
  CONFIG_TELEMETRY_REPLY_SUPPRESS_SEC : Z;
  CONFIG_DEVICE_METRICS_AUTO_SEND : bool;
  CONFIG_DEVICE_METRICS_INTERVAL_SEC : Z;
  CONFIG_ENVIRONMENT_METRICS_AUTO_SEND : bool;
  CONFIG_ENVIRONMENT_METRICS_INTERVAL_SEC : Z
}.
Class TelemetryRanges `{TelemetryConfig} := {
  telemetry_suppress_range : 0 ≤ CONFIG_TELEMETRY_REPLY_SUPPRESS_SEC ≤ 86400
}.

Inductive fuel_gauge_prop :=
  | FUEL_GAUGE_RELATIVE_STATE_OF_CHARGE_PCT | FUEL_GAUGE_ABSOLUTE_STATE_OF_CHARGE_PCT
  | FUEL_GAUGE_VOLTAGE_UV.
(** The five aliases, which may name one device. *)
Inductive env_alias := MT_ENV_TEMP | MT_ENV_HUM | MT_ENV_PRESS | MT_ENV_GAS | MT_ENV_LIGHT.
Inductive sensor_channel :=
  | SENSOR_CHAN_AMBIENT_TEMP | SENSOR_CHAN_DIE_TEMP | SENSOR_CHAN_HUMIDITY | SENSOR_CHAN_PRESS
  | SENSOR_CHAN_GAS_RES | SENSOR_CHAN_LIGHT.

(** The drivers, on the platform's state: [None] and [false] are error
    returns.  [k_uptime_seconds] is the kernel's. *)
Class TelemetryDrivers (T : Type) := {
  k_uptime_seconds : T → Z * T;
  fuel_gauge_is_ready : T → bool;
  fuel_gauge_get_prop : fuel_gauge_prop → T → option Z * T;
  sensor_is_ready : env_alias → T → bool;
  sensor_sample_fetch_chan : env_alias → sensor_channel → T → bool * T;
  sensor_channel_get : env_alias → sensor_channel → T → option (Z * Z) * T;
  sensor_value_to_float : Z * Z → spec_float
}.

Section telemetry.
Context {K L T : Type} `{Kconfig} `{PSA K} `{LoraDriver L} `{Kernel T} `{Pb Data} `{Pb Telemetry}.
Context `{TelemetryConfig} `{TelemetryDrivers T}.
Notation W := (world K L T).

Definition platform {A} (f : T → A * T) : M W A := zoom w_kernel (state f).

(** ** meshtastic_telemetry_common.c *)

(** An empty request is [meshtastic_Telemetry_init_zero]. *)
Definition meshtastic_telemetry_decode_request (p : packet) : option Telemetry :=
  match p_payload p with
  | None => Some (Tel_other 0)
  | Some payload =>
      if (p_payload_len p =? 0)%nat then Some (Tel_other 0)
      else pb_decode (take (p_payload_len p) payload)
  end.

Definition meshtastic_telemetry_encode_packet (dest channel response_to_id : Z)
    (telemetry : Telemetry) : result packet :=
  match pb_encode MESHTASTIC_MAX_PAYLOAD_LEN telemetry with
  | None => Err ENOMEM
  | Some payload =>
      Ok (packet_zero <| p_to := dest |> <| p_portnum := MESHTASTIC_PORT_TELEMETRY |>
            <| p_payload := Some payload |> <| p_payload_len := length payload |>
            <| p_channel := channel |> <| p_want_response := false |>
            <| p_request_id := response_to_id |>)
  end.

(** Encode and broadcast, as both senders end. *)
Definition send_telemetry (dest : Z) (telemetry : Telemetry) (wait : timeout) : M W (result ()) :=
  match pb_encode MESHTASTIC_MAX_PAYLOAD_LEN telemetry with
  | None =>
      meshtastic_emit_event METRICS_ERROR (Some ENOMEM) None ;;
      mret (Err ENOMEM)
  | Some payload =>
      meshtastic_send_data dest MESHTASTIC_PORT_TELEMETRY (Some payload) (length payload) wait
  end.

(** ** Device metrics *)

Definition collect_fuel_gauge (metrics : DeviceMetrics) : M W DeviceMetrics :=
  if negb MESHTASTIC_HAS_FUEL_GAUGE0 then mret metrics
  else
    t ← gets (S:=W) w_kernel;
    if negb (fuel_gauge_is_ready t) then mret metrics
    else
      val ← platform (fuel_gauge_get_prop FUEL_GAUGE_RELATIVE_STATE_OF_CHARGE_PCT);
      val ← (match val with
             | Some _ => mret val
             | None => platform (fuel_gauge_get_prop FUEL_GAUGE_ABSOLUTE_STATE_OF_CHARGE_PCT)
             end);
      let metrics := match val with
                     | Some pct => metrics <| dm_battery_level := Some (Z.min pct 100) |>
                     | None => metrics
                     end in
      uv ← platform (fuel_gauge_get_prop FUEL_GAUGE_VOLTAGE_UV);
      mret (match uv with
            | Some uv => metrics <| dm_voltage :=
                Some (SFdiv 24 128 (float32_of_Z uv) (float32_of_Z 1000000)) |>
            | None => metrics
            end).

(** The caller's pointer is not NULL; with CONFIG_MESHTASTIC_AIRTIME. *)
Definition meshtastic_collect_device_metrics : M W (result DeviceMetrics) :=
  uptime ← platform k_uptime_seconds;
  metrics ← collect_fuel_gauge (DeviceMetrics_zero <| dm_uptime_seconds := Some uptime |>);
  a ← gets (S:=W) w_airtime;
  mret (Ok (metrics
    <| dm_channel_utilization := Some (meshtastic_airtime_channel_util_percent a) |>
    <| dm_air_util_tx := Some (meshtastic_airtime_tx_util_percent a) |>)).

Definition meshtastic_send_device_metrics (dest : Z) (wait : timeout) : M W (result ()) :=
  ret ← meshtastic_collect_device_metrics;
  match ret with
  | Err e => meshtastic_emit_event METRICS_ERROR (Some e) None ;; mret (Err e)
  | Ok metrics => send_telemetry dest (Tel_device_metrics metrics) wait
  end.

(** ** Environment metrics *)

Definition mt_env_read (dev : env_alias) (chan : sensor_channel) (scale : spec_float)
    : M W (option spec_float) :=
  t ← gets (S:=W) w_kernel;
  if negb (sensor_is_ready dev t) then mret None
  else
    fetched ← platform (sensor_sample_fetch_chan dev chan);
    if negb fetched then mret None
    else
      v ← platform (sensor_channel_get dev chan);
      mret ((λ v, SFmul 24 128 (sensor_value_to_float v) scale) <$> v).

(** One compiled-in quantity: a value read counts. *)
Definition env_quantity (has : bool) (read : M W (option spec_float))
    (store : spec_float → EnvironmentMetrics → EnvironmentMetrics) (mc : EnvironmentMetrics * nat)
    : M W (EnvironmentMetrics * nat) :=
  if negb has then mret mc
  else
    v ← read;
    mret (match v with Some v => (store v mc.1, S mc.2) | None => mc end).

Definition env_temperature : M W (option spec_float) :=
  v ← mt_env_read MT_ENV_TEMP SENSOR_CHAN_AMBIENT_TEMP (float32_of_Z 1);
  match v with
  | Some _ => mret v
  | None => mt_env_read MT_ENV_TEMP SENSOR_CHAN_DIE_TEMP (float32_of_Z 1)
  end.

Definition meshtastic_collect_environment : M W (result EnvironmentMetrics) :=
  let one := float32_of_Z 1 in
  mc ← env_quantity MT_ENV_HAS_TEMP env_temperature
         (λ v m, m <| em_temperature := Some v |>) (EnvironmentMetrics_zero, 0%nat);
  mc ← env_quantity MT_ENV_HAS_HUM (mt_env_read MT_ENV_HUM SENSOR_CHAN_HUMIDITY one)
         (λ v m, m <| em_relative_humidity := Some v |>) mc;
  mc ← env_quantity MT_ENV_HAS_PRESS
         (mt_env_read MT_ENV_PRESS SENSOR_CHAN_PRESS (float32_of_Z 10))
         (λ v m, m <| em_barometric_pressure := Some v |>) mc;
  mc ← env_quantity MT_ENV_HAS_GAS
         (mt_env_read MT_ENV_GAS SENSOR_CHAN_GAS_RES (SFdiv 24 128 one (float32_of_Z 1000000)))
         (λ v m, m <| em_gas_resistance := Some v |>) mc;
  mc ← env_quantity MT_ENV_HAS_LIGHT (mt_env_read MT_ENV_LIGHT SENSOR_CHAN_LIGHT one)
         (λ v m, m <| em_lux := Some v |>) mc;
  mret (if (mc.2 =? 0)%nat then Err ENODEV else Ok mc.1).

Definition meshtastic_send_environment (dest : Z) (wait : timeout) : M W (result ()) :=
  ret ← meshtastic_collect_environment;
  match ret with
  | Err e => meshtastic_emit_event METRICS_ERROR (Some e) None ;; mret (Err e)
  | Ok env => send_telemetry dest (Tel_environment_metrics env) wait
  end.

(** ** The peers that were answered *)

(** The loop of [peer_get_locked]: the peer's slot or the first one never
    used, which is claimed, or the slot answered longest ago. *)
Fixpoint telemetry_peer_search (from : Z) (rest : list (fin TELEMETRY_PEER_SLOTS * telemetry_peer))
    (oldest : fin TELEMETRY_PEER_SLOTS) (oldest_ms : Z) : fin TELEMETRY_PEER_SLOTS * bool :=
  match rest with
  | [] => (oldest, false)
  | (i, p) :: rest =>
      if tp_from p =? from then (i, true)
      else
        match tp_last_reply_ms p with
        | None => (i, false)
        | Some ms =>
            if ms <? oldest_ms then telemetry_peer_search from rest i ms
            else telemetry_peer_search from rest oldest oldest_ms
        end
  end.
Definition peer_slots (peers : telemetry_peers) : list (fin TELEMETRY_PEER_SLOTS * telemetry_peer) :=
  zip (fin_enum TELEMETRY_PEER_SLOTS) peers.
Definition telemetry_peer_get_locked (from : Z) (peers : telemetry_peers)
    : fin TELEMETRY_PEER_SLOTS * telemetry_peers :=
  let '(i, found) := telemetry_peer_search from (peer_slots peers) 0%fin INT64_MAX in
  (i, if found then peers else vinsert i (mk_telemetry_peer from None) peers).

(** The part under the lock: whether the peer may be answered now. *)
Definition telemetry_may_reply (from now_ms : Z) (peers : telemetry_peers)
    : bool * telemetry_peers :=
  let '(i, peers) := telemetry_peer_get_locked from peers in
  if interval_elapsed (tp_last_reply_ms (peers !!! i)) now_ms
       (CONFIG_TELEMETRY_REPLY_SUPPRESS_SEC * MSEC_PER_SEC)
  then (true, vinsert i (mk_telemetry_peer (tp_from (peers !!! i)) (Some now_ms)) peers)
  else (false, peers).

(** ** The modules *)

Definition meshtastic_module_device_telemetry_alloc_reply (req : packet) : M W (result packet) :=
  mt ← gets (S:=W) w_mt;
  if (p_from req =? 0) || (p_from req =? mt_node_id mt) then mret (Err EINVAL)
  else
    match meshtastic_telemetry_decode_request req with
    | Some (Tel_device_metrics _) | Some (Tel_other 0) =>
        now_ms ← uptime_get;
        ok ← zoom w_sensing (zoom sn_device_peers (state (telemetry_may_reply (p_from req) now_ms)));
        if negb ok then mret (Err ENOENT)
        else
          ret ← meshtastic_collect_device_metrics;
          mret (match ret with
                | Err e => Err e
                | Ok metrics => meshtastic_telemetry_encode_packet (p_from req) (p_channel req)
                                  (p_id req) (Tel_device_metrics metrics)
                end)
    | _ => mret (Err ENOENT)
    end.

Definition meshtastic_module_environment_telemetry_alloc_reply (req : packet)
    : M W (result packet) :=
  mt ← gets (S:=W) w_mt;
  if (p_from req =? 0) || (p_from req =? mt_node_id mt) then mret (Err EINVAL)
  else
    match meshtastic_telemetry_decode_request req with
    | Some (Tel_environment_metrics _) =>
        now_ms ← uptime_get;
        ok ← zoom w_sensing (zoom sn_env_peers (state (telemetry_may_reply (p_from req) now_ms)));
        if negb ok then mret (Err ENOENT)
        else
          ret ← meshtastic_collect_environment;
          mret (match ret with
                | Err _ => Err ENOENT
                | Ok env => meshtastic_telemetry_encode_packet (p_from req) (p_channel req)
                              (p_id req) (Tel_environment_metrics env)
                end)
    | _ => mret (Err ENOENT)
    end.

Definition device_telemetry_module : module K L T :=
  mk_module MESHTASTIC_PORT_TELEMETRY false None
    (Some meshtastic_module_device_telemetry_alloc_reply).
Definition environment_telemetry_module : module K L T :=
  mk_module MESHTASTIC_PORT_TELEMETRY false None
    (Some meshtastic_module_environment_telemetry_alloc_reply).

(** ** The periodic thread *)

Definition telemetry_period_sec : Z :=
  let period := UINT32_MAX in
  let period := if CONFIG_DEVICE_METRICS_AUTO_SEND
                then Z.min period CONFIG_DEVICE_METRICS_INTERVAL_SEC else period in
  if CONFIG_ENVIRONMENT_METRICS_AUTO_SEND
  then Z.min period CONFIG_ENVIRONMENT_METRICS_INTERVAL_SEC else period.

(** One round of the loop of [telemetry_thread_fn]. *)
Definition telemetry_thread_round : M W () :=
  sleep (telemetry_period_sec * MSEC_PER_SEC) ;;
  (if CONFIG_DEVICE_METRICS_AUTO_SEND
   then meshtastic_send_device_metrics MESHTASTIC_NODE_BROADCAST K_NO_WAIT ;; mret () else mret ()) ;;
  if CONFIG_ENVIRONMENT_METRICS_AUTO_SEND
  then meshtastic_send_environment MESHTASTIC_NODE_BROADCAST K_NO_WAIT ;; mret () else mret ().
End telemetry.

(** ** The cache as a bounded map *)

Section peers.
Context `{TelemetryConfig}.

(** The cache knows that [n] was answered at [t]. *)
Definition answered (peers : telemetry_peers) (n t : Z) : Prop :=
  ∃ i, peers !!! i = mk_telemetry_peer n (Some t).

(** Used slots come first and name distinct nodes; the others are as at the
    start. *)
Record cache_wf (peers : telemetry_peers) : Prop := {
  cw_prefix i j : (fin_to_nat i ≤ fin_to_nat j)%nat → tp_last_reply_ms (peers !!! i) = None →
    tp_last_reply_ms (peers !!! j) = None;
  cw_unused i : tp_last_reply_ms (peers !!! i) = None → tp_from (peers !!! i) = 0;
  cw_distinct i j : is_Some (tp_last_reply_ms (peers !!! i)) →
    tp_from (peers !!! i) = tp_from (peers !!! j) → i = j;
  cw_time i t : tp_last_reply_ms (peers !!! i) = Some t → t < INT64_MAX
}.

Lemma bss_cache_wf : cache_wf (sn_device_peers sensing_bss).
Proof.
  assert (∀ i, sn_device_peers sensing_bss !!! i = mk_telemetry_peer 0 None) as Hz
    by (intros; apply vlookup_replicate).
  constructor; intros *; rewrite ?Hz; cbn; try done; by intros [t Ht].
Qed.

Definition used (from : Z) (ip : fin TELEMETRY_PEER_SLOTS * telemetry_peer) : Prop :=
  tp_from ip.2 ≠ from ∧ is_Some (tp_last_reply_ms ip.2).
(** A slot of [rest], or the one held so far, that nobody of [rest] precedes. *)
Definition longest_ago (rest : list (fin TELEMETRY_PEER_SLOTS * telemetry_peer)) (ms : Z) : Prop :=
  ∀ ip t, ip ∈ rest → tp_last_reply_ms ip.2 = Some t → ms ≤ t.

Lemma telemetry_search_spec from rest : ∀ oldest oldest_ms,
  let '(k, found) := telemetry_peer_search from rest oldest oldest_ms in
  (∃ pre p post, rest = pre ++ (k, p) :: post ∧ Forall (used from) pre ∧
     if found then tp_from p = from else tp_from p ≠ from ∧ tp_last_reply_ms p = None)
  ∨ found = false ∧ Forall (used from) rest ∧
    (k = oldest ∧ longest_ago rest oldest_ms
     ∨ ∃ p ms, (k, p) ∈ rest ∧ tp_last_reply_ms p = Some ms ∧ ms < oldest_ms ∧ longest_ago rest ms).
Proof.
  induction rest as [|[i p] rest IH]; intros oldest oldest_ms; cbn [telemetry_peer_search].
  { right. split_and!; [done..|]. left. split; [done|]. by intros ip t ?%elem_of_nil. }
  destruct (Z.eqb_spec (tp_from p) from) as [Hf|Hf].
  { left. by exists [], p, rest. }
  destruct (tp_last_reply_ms p) as [ms|] eqn:Hms.
  2: { left. by exists [], p, rest. }
  assert (used from (i, p)) as Hu by (split; [done|by exists ms]).
  destruct (Z.ltb_spec ms oldest_ms) as [Hlt|Hge];
    [specialize (IH i ms)|specialize (IH oldest oldest_ms)];
    destruct (telemetry_peer_search _ _ _ _) as [k found];
    (destruct IH as [(pre & q & post & -> & Hpre & Hq)|(-> & Hall & Hk)];
      [left; exists ((i, p) :: pre), q, post; split_and!; [done|by constructor|done]|right]);
    (split; [done|]; split; [by constructor|]);
    destruct Hk as [[-> Hago]|(q & mq & Hin & Hmq & Hlt' & Hago)].
  - right. exists p, ms. split_and!; [by left|done|done|].
    intros ip t [->|Hin]%elem_of_cons Ht; [cbn in Ht; simplify_eq; lia|by eapply Hago].
  - right. exists q, mq. split_and!; [by right|done|lia|].
    intros ip t [->|Hin']%elem_of_cons Ht; [cbn in Ht; simplify_eq; lia|by eapply Hago].
  - left. split; [done|]. intros ip t [->|Hin]%elem_of_cons Ht; [cbn in Ht; simplify_eq; lia|by eapply Hago].
  - right. exists q, mq. split_and!; [by right|done|done|].
    intros ip t [->|Hin']%elem_of_cons Ht; [cbn in Ht; simplify_eq; lia|by eapply Hago].
Qed.

Lemma fin_enum_lookup k (i : fin TELEMETRY_PEER_SLOTS) :
  fin_enum TELEMETRY_PEER_SLOTS !! k = Some i ↔ fin_to_nat i = k.
Proof.
  split.
  - do 4 (destruct k as [|k]; [by intros [= <-]|]). done.
  - intros <-. do 4 (inv_fin i; [done|]; intros i). inv_fin i.
Qed.

Lemma peer_slots_lookup peers k i p :
  peer_slots peers !! k = Some (i, p) ↔ fin_to_nat i = k ∧ peers !!! i = p.
Proof.
  unfold peer_slots. rewrite lookup_zip_with_Some. split.
  - intros (i' & p' & [= -> ->] & Hi%fin_enum_lookup & Hp). split; [done|].
    apply vlookup_lookup. by rewrite Hi.
  - intros [Hi Hp]. exists i, p. split; [done|]. split; [by apply fin_enum_lookup|].
    apply vlookup_lookup in Hp. by rewrite <-Hi.
Qed.

(** The slot [peer_get_locked] returns, and how the cache came to hold it: the
    peer's own slot, or one made free for it, which was unused or, with none
    unused, the one answered longest ago. *)
Definition oldest_slot (peers : telemetry_peers) (i : fin TELEMETRY_PEER_SLOTS) : Prop :=
  ∃ ms, tp_last_reply_ms (peers !!! i) = Some ms ∧
    ∀ j t, tp_last_reply_ms (peers !!! j) = Some t → ms ≤ t.

Lemma telemetry_get_locked_spec from peers :
  cache_wf peers → from ≠ 0 →
  let '(i, peers') := telemetry_peer_get_locked from peers in
  peers' = peers ∧ (∃ t, peers !!! i = mk_telemetry_peer from (Some t))
  ∨ peers' = vinsert i (mk_telemetry_peer from None) peers ∧
    (∀ j t, peers !!! j ≠ mk_telemetry_peer from (Some t)) ∧
    (tp_last_reply_ms (peers !!! i) = None ∧
       (∀ j, (fin_to_nat j < fin_to_nat i)%nat → is_Some (tp_last_reply_ms (peers !!! j)))
     ∨ (∀ j, is_Some (tp_last_reply_ms (peers !!! j))) ∧ oldest_slot peers i).
Proof.
  intros Hwf Hnz. unfold telemetry_peer_get_locked.
  pose proof (telemetry_search_spec from (peer_slots peers) 0%fin INT64_MAX) as Hs.
  destruct (telemetry_peer_search _ _ _ _) as [i found].
  assert (∀ j, (j, peers !!! j) ∈ peer_slots peers) as Hin.
  { intros j. apply list_elem_of_lookup. exists (fin_to_nat j). by apply peer_slots_lookup. }
  assert (∀ j p, (j, p) ∈ peer_slots peers → peers !!! j = p) as Hout.
  { intros j p [k Hk]%list_elem_of_lookup. by apply peer_slots_lookup in Hk as [_ ?]. }
  destruct Hs as [(pre & p & post & Heq & Hpre & Hp)|(-> & Hall & Hk)].
  - assert (peers !!! i = p) as Hi.
    { apply Hout. rewrite Heq. apply elem_of_app. right. by left. }
    assert (∀ j, (fin_to_nat j < fin_to_nat i)%nat → used from (j, peers !!! j)) as Hbefore.
    { intros j Hj. assert (peer_slots peers !! length pre = Some (i, p)) as Hlen
        by (rewrite Heq; by apply list_lookup_middle).
      apply peer_slots_lookup in Hlen as [Hlen _].
      assert (peer_slots peers !! fin_to_nat j = Some (j, peers !!! j)) as Hjl
        by (by apply peer_slots_lookup).
      rewrite Heq, lookup_app_l in Hjl by lia. by eapply Forall_lookup_1. }
    destruct found.
    + left. split; [done|]. destruct p as [n [t|]] eqn:Ep; cbn in Hp; subst n; [by exists t|].
      pose proof (cw_unused _ Hwf i) as Hu. rewrite Hi in Hu. by specialize (Hu eq_refl).
    + destruct Hp as [Hne Hnone]. right. split; [done|]. split.
      * intros j t Hj. destruct (decide (fin_to_nat j < fin_to_nat i)%nat) as [Hlt|Hge].
        { destruct (Hbefore j Hlt) as [Hn _]. cbn in Hn. rewrite Hj in Hn. done. }
        pose proof (cw_prefix _ Hwf i j) as Hpx. rewrite Hi, Hj in Hpx. cbn in Hpx.
        specialize (Hpx ltac:(lia) Hnone). done.
      * left. split; [by rewrite Hi|]. intros j Hj. apply (Hbefore j Hj).
  - right. split; [done|]. rewrite Forall_forall in Hall. split.
    { intros j t Hj. destruct (Hall _ (Hin j)) as [Hn _]. cbn in Hn. rewrite Hj in Hn. done. }
    right. split; [intros j; apply (Hall _ (Hin j))|].
    assert (∀ ms, longest_ago (peer_slots peers) ms →
      ∀ j t, tp_last_reply_ms (peers !!! j) = Some t → ms ≤ t) as Hago
      by (intros ms Hm j t Ht; by apply (Hm _ t (Hin j))).
    destruct Hk as [[-> Hm]|(p & ms & Hip & Hms & _ & Hm)].
    + destruct (Hall _ (Hin 0%fin)) as [_ [t Ht]]. cbn in Ht.
      pose proof (Hago _ Hm _ _ Ht). pose proof (cw_time _ Hwf _ _ Ht). lia.
    + exists ms. split; [by rewrite (Hout _ _ Hip)|by apply Hago].
Qed.

Definition reply_suppress : Z := CONFIG_TELEMETRY_REPLY_SUPPRESS_SEC * MSEC_PER_SEC.

(** The peer a reply to [from] makes the cache forget: none, unless all four
    slots are in use for others, and then one answered longest ago. *)
Definition forgets (peers : telemetry_peers) (from : Z) (victim : option Z) : Prop :=
  match victim with
  | None => True
  | Some n => (∀ i, is_Some (tp_last_reply_ms (peers !!! i))) ∧ (∀ t, ¬ answered peers from t) ∧
      ∃ ms, answered peers n ms ∧ ∀ n' t', answered peers n' t' → ms ≤ t'
  end.

(** The slot is given to [from] and stamped. *)
Lemma stamp_wf peers i from now :
  cache_wf peers → from ≠ 0 → now < INT64_MAX →
  (∀ j t, peers !!! j = mk_telemetry_peer from (Some t) → j = i) →
  (∀ j, (fin_to_nat j < fin_to_nat i)%nat → is_Some (tp_last_reply_ms (peers !!! j))) →
  cache_wf (vinsert i (mk_telemetry_peer from (Some now)) peers).
Proof.
  intros [Hp Hu Hd Ht] Hnz Hnow Hfrom Hbefore.
  assert (∀ j, is_Some (tp_last_reply_ms (peers !!! j)) → tp_from (peers !!! j) = from → j = i) as Hown.
  { intros j [t Hj] Hf. apply (Hfrom j t). destruct (peers !!! j); cbn in *; congruence. }
  constructor.
  - intros j k Hjk. destruct (decide (j = i)) as [->|Hj]; [by rewrite vlookup_insert|].
    rewrite vlookup_insert_ne by done. intros Hnone. destruct (decide (k = i)) as [->|Hk].
    { destruct (Hbefore j) as [t Hs]; [|congruence].
      assert (fin_to_nat j ≠ fin_to_nat i) by (by intros ?%(inj fin_to_nat)). lia. }
    rewrite vlookup_insert_ne by done. by apply (Hp j).
  - intros j. destruct (decide (j = i)) as [->|Hj]; [by rewrite vlookup_insert|].
    rewrite vlookup_insert_ne by done. apply Hu.
  - intros j k. destruct (decide (j = i)) as [->|Hj]; destruct (decide (k = i)) as [->|Hk]; [done|..].
    + rewrite vlookup_insert, vlookup_insert_ne by done. cbn. intros _ Hf.
      destruct (tp_last_reply_ms (peers !!! k)) eqn:Ek.
      * symmetry. apply Hown; [by rewrite Ek|done].
      * exfalso. apply Hnz. rewrite Hf. by apply Hu.
    + rewrite vlookup_insert, vlookup_insert_ne by done. cbn. intros Hs Hf. by apply Hown.
    + rewrite !vlookup_insert_ne by done. apply Hd.
  - intros j t. destruct (decide (j = i)) as [->|Hj]; [rewrite vlookup_insert; cbn; congruence|].
    rewrite vlookup_insert_ne by done. apply Ht.
Qed.

Lemma stamp_answered peers i from now n t :
  answered (vinsert i (mk_telemetry_peer from (Some now)) peers) n t ↔
    n = from ∧ t = now ∨ ∃ j, j ≠ i ∧ peers !!! j = mk_telemetry_peer n (Some t).
Proof.
  split.
  - intros [j Hj]. destruct (decide (j = i)) as [->|Hji].
    + rewrite vlookup_insert in Hj. injection Hj as -> ->. by left.
    + rewrite vlookup_insert_ne in Hj by done. right. by exists j.
  - intros [[-> ->]|(j & Hji & Hj)]; [exists i; by rewrite vlookup_insert|].
    exists j. by rewrite vlookup_insert_ne.
Qed.

Lemma may_reply_spec from now peers :
  cache_wf peers → from ≠ 0 → now < INT64_MAX →
  let '(ok, peers') := telemetry_may_reply from now peers in
  cache_wf peers' ∧
  if ok then
    (∀ t, answered peers from t → reply_suppress ≤ now - t) ∧
    ∃ victim, forgets peers from victim ∧ ∀ n t, answered peers' n t ↔
      n = from ∧ t = now ∨ n ≠ from ∧ Some n ≠ victim ∧ answered peers n t
  else peers' = peers ∧ ∃ t, answered peers from t ∧ now - t < reply_suppress.
Proof.
  intros Hwf Hnz Hnow. unfold telemetry_may_reply. fold reply_suppress.
  pose proof (telemetry_get_locked_spec from peers Hwf Hnz) as Hget.
  destruct (telemetry_peer_get_locked from peers) as [i ps].
  assert (∀ j n t k t', peers !!! j = mk_telemetry_peer n (Some t) →
    peers !!! k = mk_telemetry_peer n (Some t') → j = k) as Huniq.
  { intros j n t k t' Hj Hk. apply (cw_distinct _ Hwf); rewrite Hj; [by exists t|by rewrite Hk]. }
  destruct Hget as [[-> [t Hi]]|(-> & Hnew & Hslot)].
  - rewrite Hi. cbn [tp_last_reply_ms tp_from interval_elapsed].
    destruct (Z.leb_spec reply_suppress (now - t)); cycle 1.
    { split; [done|]. split; [done|]. exists t. split; [by exists i|lia]. }
    split; [|split].
    + apply stamp_wf; try done; [intros j t' Hj; by eapply Huniq|]. intros j Hj.
      destruct (tp_last_reply_ms (peers !!! j)) eqn:Ej; [done|].
      pose proof (cw_prefix _ Hwf j i) as Hpx. rewrite Hi in Hpx. cbn in Hpx.
      specialize (Hpx ltac:(lia) Ej). done.
    + intros t' [j Hj]. pose proof (Huniq _ _ _ _ _ Hj Hi) as ->. rewrite Hi in Hj.
      injection Hj as <-. lia.
    + exists None. split; [done|]. intros n t'. rewrite stamp_answered.
      split; (intros [?|Hr]; [by left|right]).
      * destruct Hr as (j & Hji & Hj). split; [|by split; [|exists j]].
        intros ->. by apply Hji, (Huniq _ _ _ _ _ Hj Hi).
      * destruct Hr as (Hn & _ & [j Hj]). exists j. split; [|done]. intros ->. congruence.
  - rewrite vlookup_insert. cbn [tp_last_reply_ms tp_from interval_elapsed].
    assert (vinsert i (mk_telemetry_peer from (Some now)) (vinsert i (mk_telemetry_peer from None) peers)
      = vinsert i (mk_telemetry_peer from (Some now)) peers) as ->.
    { apply vec_to_list_inj2. rewrite !vec_to_list_insert. apply list_insert_insert_eq. }
    split; [|split; [by intros t [j Hj%Hnew]|]].
    + apply stamp_wf; try done; [by intros j t Hj%Hnew|]. destruct Hslot as [[_ Hb]|[Hall _]]; auto.
    + destruct Hslot as [[Hnone _]|[Hall (ms & Hms & Hmin)]].
      * exists None. split; [done|]. intros n t. rewrite stamp_answered.
        split; (intros [?|Hr]; [by left|right]).
        -- destruct Hr as (j & Hji & Hj). split; [intros ->; by eapply Hnew|].
           by split; [|exists j].
        -- destruct Hr as (_ & _ & [j Hj]). exists j. split; [|done]. intros ->.
           rewrite Hj in Hnone. done.
      * assert (peers !!! i = mk_telemetry_peer (tp_from (peers !!! i)) (Some ms)) as Hi
          by (destruct (peers !!! i); cbn in *; congruence).
        exists (Some (tp_from (peers !!! i))). split.
        -- split; [done|]. split; [by intros t [j Hj%Hnew]|]. exists ms. split; [by exists i|].
           intros n' t' [j Hj]. apply (Hmin j). by rewrite Hj.
        -- intros n t. rewrite stamp_answered. split; (intros [?|Hr]; [by left|right]).
           ++ destruct Hr as (j & Hji & Hj). split; [intros ->; by eapply Hnew|].
              split; [|by exists j]. intros [= ->]. by apply Hji, (Huniq _ _ _ _ _ Hj Hi).
           ++ destruct Hr as (_ & Hv & [j Hj]). exists j. split; [|done]. intros ->.
              rewrite Hj in Hv. done.
Qed.
End peers.

(** ** Answers to one peer are spaced *)

Section telemetry_correct.
Context {K L T : Type} `{KconfigRanges} `{PSALaws K} `{LoraLaws L} `{KernelLaws T}.
Context `{Pb Data} `{!PbLaws Data Data_ok} `{Pb Telemetry} `{TelemetryRanges} `{TelemetryDrivers T}.
Notation W := (world K L T).

Definition clock (w : W) : Z := (k_uptime_get (w_kernel w)).1.

Lemma wp_platform {A} (f : T → A * T) Q (w : W) :
  (∀ a t, Q a (w <| w_kernel := t |>)) → wp (platform f) Q w.
Proof. intros HQ. unfold platform. wps. apply HQ. Qed.

(** Nothing but the platform's state. *)
Definition platform_only {A} (m : M W A) : Prop := ∀ w, wp m (λ _ w', ∃ t, w' = w <| w_kernel := t |>) w.

Lemma platform_only_ret {A} (a : A) : platform_only (mret a).
Proof. intros w. wps. exists (w_kernel w). by destruct w. Qed.
Lemma platform_only_gets {A} (f : W → A) : platform_only (gets f).
Proof. intros w. wps. exists (w_kernel w). by destruct w. Qed.
Lemma platform_only_call {A} (f : T → A * T) : platform_only (platform f).
Proof. intros w. apply wp_platform. intros a t. by exists t. Qed.
Lemma platform_only_bind {A B} (m : M W A) (k : A → M W B) :
  platform_only m → (∀ a, platform_only (k a)) → platform_only (m ≫= k).
Proof.
  intros Hm Hk w. rewrite wp_bind. eapply wp_mono; [apply Hm|]. intros a w1 [t ->].
  eapply wp_mono; [apply Hk|]. intros b w2 [t' ->]. by exists t'.
Qed.
Lemma platform_only_if {A} (b : bool) (m n : M W A) :
  platform_only m → platform_only n → platform_only (if b then m else n).
Proof. by destruct b. Qed.

Ltac collect := repeat first
  [ apply platform_only_ret | apply platform_only_gets | apply platform_only_call
  | apply platform_only_bind; [|intros ?] | apply platform_only_if | progress case_match ].

Lemma device_metrics_platform : platform_only meshtastic_collect_device_metrics.
Proof. unfold meshtastic_collect_device_metrics, collect_fuel_gauge. collect. Qed.
Lemma env_read_platform dev chan scale : platform_only (mt_env_read dev chan scale).
Proof. unfold mt_env_read. collect. Qed.
Lemma env_quantity_platform has read store mc :
  platform_only read → platform_only (env_quantity has read store mc).
Proof. intros Hr. unfold env_quantity. by collect. Qed.
Lemma environment_platform : platform_only meshtastic_collect_environment.
Proof.
  unfold meshtastic_collect_environment, env_temperature. cbv zeta.
  repeat (apply platform_only_bind; [apply env_quantity_platform|intros ?]);
    repeat first [apply env_read_platform | apply platform_only_ret
      | apply platform_only_bind; [|intros ?] | progress case_match].
Qed.

(** A call of a telemetry module: it leaves its peers alone, or decides by
    [telemetry_may_reply] and replies only if that allows it. *)
Definition telemetry_call (alloc_reply : packet → M W (result packet)) (peers_of : W → telemetry_peers)
    : Prop :=
  ∀ req w, wp (alloc_reply req) (λ ret w',
    is_err ret = true ∧ peers_of w' = peers_of w
    ∨ p_from req ≠ 0 ∧ ∃ ok, telemetry_may_reply (p_from req) (clock w) (peers_of w) = (ok, peers_of w') ∧
        (is_err ret = false → ok = true)) w.

Definition device_peers (w : W) : telemetry_peers := sn_device_peers (w_sensing w).
Definition env_peers (w : W) : telemetry_peers := sn_env_peers (w_sensing w).

(** A call that passed the module's tests: the decision under the lock, then
    [collected], which only reads the platform. *)
Ltac answer_call req w peers collected :=
  unfold uptime_get; wps; fold (clock w);
  let ok := fresh "ok" in let peers' := fresh "peers" in let Em := fresh "Em" in
  destruct (telemetry_may_reply (p_from req) (clock w) (peers w)) as [ok peers'] eqn:Em;
  change (telemetry_may_reply _ _ _) with (telemetry_may_reply (p_from req) (clock w) (peers w));
  rewrite Em; cbn [fst snd];
  destruct ok; cbn [negb]; wps; [|right; split; [done|]; by exists false];
  eapply wp_mono; [apply collected|];
  intros ret w' [t ->]; wps; right; (split; [done|]); by exists true.

Lemma device_call : telemetry_call meshtastic_module_device_telemetry_alloc_reply device_peers.
Proof.
  intros req w. unfold meshtastic_module_device_telemetry_alloc_reply. wps.
  destruct (Z.eqb_spec (p_from req) 0) as [|Hnz]; cbn [orb]; [wps; by left|].
  case_if; [wps; by left|].
  destruct (meshtastic_telemetry_decode_request req) as [[m|m|tag]|]; [|wps; by left|destruct tag|wps; by left];
    try (wps; by left); answer_call req w device_peers device_metrics_platform.
Qed.

Lemma env_call : telemetry_call meshtastic_module_environment_telemetry_alloc_reply env_peers.
Proof.
  intros req w. unfold meshtastic_module_environment_telemetry_alloc_reply. wps.
  destruct (Z.eqb_spec (p_from req) 0) as [|Hnz]; cbn [orb]; [wps; by left|].
  case_if; [wps; by left|].
  destruct (meshtastic_telemetry_decode_request req) as [[m|m|tag]|]; try (wps; by left).
  answer_call req w env_peers environment_platform.
Qed.

(** A history of requests to a module, with anything in between that leaves
    its cache alone: request, time and outcome of each call. *)
Inductive telemetry_calls (alloc_reply : packet → M W (result packet)) (peers_of : W → telemetry_peers)
    : telemetry_peers → list (packet * Z * result packet) → Prop :=
  | calls_nil peers : telemetry_calls alloc_reply peers_of peers []
  | calls_cons req (w w' : W) ret rest :
      alloc_reply req w = Some (ret, w') →
      telemetry_calls alloc_reply peers_of (peers_of w') rest →
      telemetry_calls alloc_reply peers_of (peers_of w) ((req, clock w, ret) :: rest).

(** Every answer so far is remembered, or a later one to the same peer. *)
Definition remembers (peers : telemetry_peers) (past : list (Z * Z)) : Prop :=
  ∀ n t, (n, t) ∈ past → ∃ t', t ≤ t' ∧ answered peers n t'.
Definition known_in (peers : telemetry_peers) (nodes : list Z) : Prop :=
  ∀ n t, answered peers n t → n ∈ nodes.

(** The cache is large enough for four peers. *)
Lemma four_peers_fit peers from victim nodes :
  cache_wf peers → known_in peers nodes → from ∈ nodes → (length nodes ≤ TELEMETRY_PEER_SLOTS)%nat →
  forgets peers from victim → victim = None.
Proof.
  intros Hwf Hkn Hfrom Hlen Hv. destruct victim as [v|]; [|done]. exfalso.
  destruct Hv as (Hfull & Hnew & _). 
  set (ns := from :: (tp_from <$> vec_to_list peers)).
  assert (∀ i, answered peers (tp_from (peers !!! i)) (default 0 (tp_last_reply_ms (peers !!! i)))) as Hans.
  { intros i. exists i. destruct (Hfull i) as [t Ht]. rewrite Ht. cbn.
    destruct (peers !!! i); cbn in *; congruence. }
  assert (∀ k p, vec_to_list peers !! k = Some p → ∃ i, fin_to_nat i = k ∧ peers !!! i = p) as Hl.
  { intros k p Hk. apply lookup_lt_Some in Hk as Hlt. rewrite length_vec_to_list in Hlt.
    exists (nat_to_fin Hlt). rewrite fin_to_nat_to_fin. split; [done|].
    apply vlookup_lookup. by rewrite fin_to_nat_to_fin. }
  assert (NoDup ns) as Hnd.
  { apply NoDup_cons. split.
    - intros (p & -> & [k [i [<- Hi]]%Hl]%list_elem_of_lookup)%list_elem_of_fmap.
      apply (Hnew (default 0 (tp_last_reply_ms (peers !!! i)))). rewrite <-Hi. apply Hans.
    - apply NoDup_alt. intros k1 k2 n Hk1 Hk2.
      apply list_lookup_fmap_Some in Hk1 as (p1 & -> & (i1 & <- & Hi1)%Hl).
      apply list_lookup_fmap_Some in Hk2 as (p2 & Hp & (i2 & <- & Hi2)%Hl).
      f_equal. apply (cw_distinct _ Hwf); [apply Hfull|congruence]. }
  assert (length ns ≤ length nodes)%nat; [|unfold ns in *; cbn in *; rewrite length_fmap, length_vec_to_list in *; lia].
  apply submseteq_length, NoDup_submseteq; [done|].
  intros n [->|(p & -> & [k [i [<- <-]]%Hl]%list_elem_of_lookup)%list_elem_of_fmap]%elem_of_cons; [done|].
  eapply Hkn, Hans.
Qed.

(** One call: the cache stays well-formed, within the nodes, and remembers the
    past and the answer if there is one, which keeps its distance. *)
Lemma call_step alloc_reply peers_of req w ret w' past nodes :
  telemetry_call alloc_reply peers_of → alloc_reply req w = Some (ret, w') →
  cache_wf (peers_of w) → known_in (peers_of w) nodes → remembers (peers_of w) past →
  p_from req ∈ nodes → (length nodes ≤ TELEMETRY_PEER_SLOTS)%nat →
  cache_wf (peers_of w') ∧ known_in (peers_of w') nodes ∧
  remembers (peers_of w') (if is_err ret then past else (p_from req, clock w) :: past) ∧
  (is_err ret = false → ∀ t, (p_from req, t) ∈ past → reply_suppress ≤ clock w - t).
Proof.
  intros Hcall Hrun Hwf Hkn Hrem Hfrom Hlen. specialize (Hcall req w). unfold wp in Hcall.
  rewrite Hrun in Hcall. destruct Hcall as [[He ->]|(Hnz & ok & Hmay & Hok)]; [by rewrite He|].
  assert (clock w < INT64_MAX) as Hclk.
  { pose proof (uptime_range (w_kernel w)). unfold clock, INT64_MAX in *. zmod. }
  pose proof (may_reply_spec (p_from req) (clock w) (peers_of w) Hwf Hnz Hclk) as Hspec.
  rewrite Hmay in Hspec. destruct Hspec as [Hwf' Hspec]. destruct ok; cycle 1.
  { destruct Hspec as [-> _]. destruct (is_err ret); [done|]. by specialize (Hok eq_refl). }
  destruct Hspec as (Hgap & victim & Hv & Hans).
  rewrite (four_peers_fit _ _ _ _ Hwf Hkn Hfrom Hlen Hv) in Hans.
  assert (0 ≤ reply_suppress) as Hpos.
  { pose proof telemetry_suppress_range. unfold reply_suppress, MSEC_PER_SEC. lia. }
  assert (remembers (peers_of w') past) as Hrem'.
  { intros n t Hin. destruct (Hrem n t Hin) as (t' & Hle & Ht').
    destruct (decide (n = p_from req)) as [->|Hne].
    - exists (clock w). specialize (Hgap _ Ht'). split; [lia|]. apply Hans. by left.
    - exists t'. split; [done|]. apply Hans. by right. }
  split_and!; [done| | |].
  - intros n t [[-> _]|(_ & _ & Hn)]%Hans; [done|by eapply Hkn].
  - destruct (is_err ret); [done|]. intros n t [[= -> ->]|Hin]%elem_of_cons; [|by apply Hrem'].
    exists (clock w). split; [lia|]. apply Hans. by left.
  - intros _ t Hin. destruct (Hrem _ _ Hin) as (t' & Hle & Ht'). specialize (Hgap _ Ht'). lia.
Qed.

Lemma calls_spaced alloc_reply peers_of nodes peers calls :
  telemetry_call alloc_reply peers_of → (length nodes ≤ TELEMETRY_PEER_SLOTS)%nat →
  telemetry_calls alloc_reply peers_of peers calls →
  Forall (λ c, p_from c.1.1 ∈ nodes) calls → cache_wf peers → known_in peers nodes →
  ∀ past, remembers peers past →
  (∀ req t r n t0, (req, t, Ok r) ∈ calls → (n, t0) ∈ past → n = p_from req → reply_suppress ≤ t - t0) ∧
  (∀ i j req1 t1 r1 req2 t2 r2, (i < j)%nat → calls !! i = Some (req1, t1, Ok r1) →
     calls !! j = Some (req2, t2, Ok r2) → p_from req1 = p_from req2 → reply_suppress ≤ t2 - t1).
Proof.
  intros Hcall Hlen Hcalls. induction Hcalls as [peers|req w w' ret rest Hrun _ IH];
    intros Hall Hwf Hkn past Hrem.
  { split; [by intros ????? ?%elem_of_nil|]. by intros [|i] ???????. }
  inversion_clear Hall as [|? ? Hfrom Hrest]. cbn in Hfrom.
  destruct (call_step _ _ _ _ _ _ _ _ Hcall Hrun Hwf Hkn Hrem Hfrom Hlen) as (Hwf' & Hkn' & Hrem' & Hgap).
  destruct (IH Hrest Hwf' Hkn' _ Hrem') as [IH1 IH2]. split.
  - intros req' t r n t0 [Heq|Hin]%elem_of_cons Hp ->.
    { injection Heq as -> -> <-. by apply Hgap. }
    eapply IH1; [done| |done]. destruct (is_err ret); [done|by right].
  - intros [|i] [|j] req1 t1 r1 req2 t2 r2 Hij Hi Hj Heq; try lia; cbn in Hi, Hj.
    + injection Hi as <- <- ->. cbn in IH1. eapply IH1; [by eapply list_elem_of_lookup_2| |exact Heq].
      by left.
    + eapply (IH2 i j); [lia|done..].
Qed.

(** C30: answers of one kind to one peer keep their distance: in any history of
    requests of at most four nodes to the device telemetry module, or to the
    environment telemetry module, with whatever happens in between, two answers
    of that module to the same node are at least the configured time apart.
    The two modules remember their peers separately: nothing spaces a device
    answer from an environment answer. *)
Theorem telemetry_spacing nodes calls i j req1 t1 r1 req2 t2 r2 :
  (length nodes ≤ TELEMETRY_PEER_SLOTS)%nat → Forall (λ c : packet * Z * result packet, p_from c.1.1 ∈ nodes) calls →
  telemetry_calls meshtastic_module_device_telemetry_alloc_reply device_peers
    (sn_device_peers sensing_bss) calls
  ∨ telemetry_calls meshtastic_module_environment_telemetry_alloc_reply env_peers
    (sn_env_peers sensing_bss) calls →
  (i < j)%nat → calls !! i = Some (req1, t1, Ok r1) → calls !! j = Some (req2, t2, Ok r2) →
  p_from req1 = p_from req2 →
  CONFIG_TELEMETRY_REPLY_SUPPRESS_SEC * 1000 ≤ t2 - t1.
Proof.
  intros Hlen Hall Hcalls. change (CONFIG_TELEMETRY_REPLY_SUPPRESS_SEC * 1000) with reply_suppress.
  assert (known_in (sn_device_peers sensing_bss) nodes) as Hkn.
  { intros n t [k Hk]. change (sn_device_peers sensing_bss !!! k) with
      (vreplicate TELEMETRY_PEER_SLOTS (mk_telemetry_peer 0 None) !!! k) in Hk.
    by rewrite vlookup_replicate in Hk. }
  assert (remembers (sn_device_peers sensing_bss) []) as Hrem by (by intros n t ?%elem_of_nil).
  destruct Hcalls as [Hc|Hc].
  - by apply (proj2 (calls_spaced _ _ _ _ _ device_call Hlen Hc Hall bss_cache_wf Hkn [] Hrem)).
  - by apply (proj2 (calls_spaced _ _ _ _ _ env_call Hlen Hc Hall bss_cache_wf Hkn [] Hrem)).
Qed.
End telemetry_correct.

(** ** The modules keep the node's invariant *)

Section telemetry_safe.
Context {K L T : Type} `{KconfigRanges} `{PSALaws K} `{LoraLaws L} `{KernelLaws T}.
Context `{Pb Data} `{!PbLaws Data Data_ok} `{Pb Telemetry} `{TelemetryConfig} `{TelemetryDrivers T}.
Context (fx : fixed).
Notation W := (world K L T).
Notation I := (world_wf (L:=L) (T:=T) fx).

Lemma keeps_platform_only {A} (m : M W A) : platform_only m → keeps I m.
Proof.
  intros Hm. apply keeps_same. intros w _. eapply wp_mono; [apply Hm|]. intros a w' [t ->].
  by constructor.
Qed.
Lemma keeps_sensing {A} (f : sensing → A * sensing) : keeps I (zoom w_sensing (state f)).
Proof. apply keeps_same. intros w _. wps. by constructor. Qed.
Lemma keeps_telemetry_peers {A} (f : telemetry_peers → A * telemetry_peers) :
  keeps I (zoom w_sensing (zoom sn_device_peers (state f))) ∧
  keeps I (zoom w_sensing (zoom sn_env_peers (state f))).
Proof. split; apply keeps_same; intros w _; wps; by constructor. Qed.

Lemma keeps_send_data dest port payload len wait :
  safe_wait wait = true → keeps I (meshtastic_send_data dest port payload len wait).
Proof.
  intros Hwait. unfold meshtastic_send_data.
  repeat first [apply keeps_ret | by apply keeps_send_packet | apply keeps_if | case_match].
Qed.

Lemma keeps_send_telemetry dest m wait : safe_wait wait = true → keeps I (send_telemetry dest m wait).
Proof.
  intros Hwait. unfold send_telemetry. destruct (pb_encode _ _); [by apply keeps_send_data|].
  apply keeps_bind; [apply keeps_emit|]. intros _. apply keeps_ret.
Qed.

Lemma keeps_send_metrics dest wait :
  safe_wait wait = true →
  keeps I (meshtastic_send_device_metrics dest wait) ∧ keeps I (meshtastic_send_environment dest wait).
Proof.
  intros Hwait. unfold meshtastic_send_device_metrics, meshtastic_send_environment.
  split; (apply keeps_bind;
    [apply keeps_platform_only; apply device_metrics_platform || apply environment_platform|]);
    (intros [m|e]; [by apply keeps_send_telemetry|]);
    (apply keeps_bind; [apply keeps_emit|]); intros _; apply keeps_ret.
Qed.

Lemma keeps_telemetry_round : keeps I telemetry_thread_round.
Proof.
  unfold telemetry_thread_round. apply keeps_bind; [apply keeps_sleeping|].
  intros _. apply keeps_bind.
  - apply keeps_if; [|apply keeps_ret]. apply keeps_bind; [by apply keeps_send_metrics|].
    intros _. apply keeps_ret.
  - intros _. apply keeps_if; [|apply keeps_ret]. apply keeps_bind; [by apply keeps_send_metrics|].
    intros _. apply keeps_ret.
Qed.

Lemma telemetry_modules_safe :
  Forall (module_safe (L:=L) (T:=T) fx) [device_telemetry_module; environment_telemetry_module].
Proof.
  repeat constructor; cbn; try done; intros f p Hf; injection Hf as <-.
  - unfold meshtastic_module_device_telemetry_alloc_reply. apply keeps_bind; [apply keeps_gets|].
    intros mt. apply keeps_if; [apply keeps_ret|].
    assert (keeps I (now_ms ← uptime_get;
      ok ← zoom w_sensing (zoom sn_device_peers (state (telemetry_may_reply (p_from p) now_ms)));
      if negb ok then mret (Err ENOENT)
      else
        ret ← meshtastic_collect_device_metrics;
        mret (match ret with
              | Err e => Err e
              | Ok metrics => meshtastic_telemetry_encode_packet (p_from p) (p_channel p)
                                (p_id p) (Tel_device_metrics metrics)
              end))).
    { apply keeps_bind; [apply keeps_uptime|]. intros now.
      apply keeps_bind; [apply keeps_telemetry_peers|]. intros ok. apply keeps_if; [apply keeps_ret|].
      apply keeps_bind; [apply keeps_platform_only, device_metrics_platform|]. intros ret. apply keeps_ret. }
    repeat case_match; done || apply keeps_ret.
  - unfold meshtastic_module_environment_telemetry_alloc_reply. apply keeps_bind; [apply keeps_gets|].
    intros mt. apply keeps_if; [apply keeps_ret|].
    repeat (case_match; try apply keeps_ret).
    apply keeps_bind; [apply keeps_uptime|]. intros now.
    apply keeps_bind; [apply keeps_telemetry_peers|]. intros ok. apply keeps_if; [apply keeps_ret|].
    apply keeps_bind; [apply keeps_platform_only, environment_platform|]. intros ret. apply keeps_ret.
Qed.
End telemetry_safe.

(** ** Two answers on the mock platform *)

#[local] Existing Instance default_kconfig.
#[local] Existing Instance default_kconfig_ranges.
(** A board with no sensors; the codec sends one byte. *)
#[local] Instance bare_board : TelemetryConfig :=
  {| MESHTASTIC_HAS_FUEL_GAUGE0 := false; MT_ENV_HAS_TEMP := false; MT_ENV_HAS_HUM := false;
     MT_ENV_HAS_PRESS := false; MT_ENV_HAS_GAS := false; MT_ENV_HAS_LIGHT := false;
     CONFIG_TELEMETRY_REPLY_SUPPRESS_SEC := 180; CONFIG_DEVICE_METRICS_AUTO_SEND := true;
     CONFIG_DEVICE_METRICS_INTERVAL_SEC := 900; CONFIG_ENVIRONMENT_METRICS_AUTO_SEND := false;
     CONFIG_ENVIRONMENT_METRICS_INTERVAL_SEC := 900 |}.
#[local] Instance bare_board_ranges : TelemetryRanges.
Proof. constructor. cbn. lia. Defined.
#[local] Instance no_drivers : TelemetryDrivers mock_kernel :=
  {| k_uptime_seconds t := (mock_now t / 1000, t); fuel_gauge_is_ready _ := false;
     fuel_gauge_get_prop _ t := (None, t); sensor_is_ready _ _ := false;
     sensor_sample_fetch_chan _ _ t := (false, t); sensor_channel_get _ _ t := (None, t);
     sensor_value_to_float _ := S754_nan |}.
#[local] Instance byte_telemetry : Pb Telemetry :=
  {| pb_encode n _ := if (1 <=? n)%nat then Some [0] else None;
     pb_decode _ := Some (Tel_device_metrics DeviceMetrics_zero) |}.

Definition ask (from : Z) : packet :=
  packet_zero <| p_from := from |> <| p_portnum := MESHTASTIC_PORT_TELEMETRY |> <| p_want_response := true |>.
(** One call at [now] on a node whose cache is [peers]. *)
Definition asked_at (now : Z) (peers : telemetry_peers) : world toy_psa mock_lora mock_kernel :=
  (mock_world (mock_radio 0) (mk_mock_kernel now 1 false))
    <| w_sensing := sensing_bss <| sn_device_peers := peers |> |>.
Definition device_answer (from now : Z) (peers : telemetry_peers) : option bool * telemetry_peers :=
  match meshtastic_module_device_telemetry_alloc_reply (ask from) (asked_at now peers) with
  | Some (ret, w) => (Some (negb (is_err ret)), device_peers w)
  | None => (None, peers)
  end.
Fixpoint device_answers (calls : list (Z * Z)) (peers : telemetry_peers) : list (option bool) :=
  match calls with
  | [] => []
  | (from, now) :: calls =>
      let '(a, peers) := device_answer from now peers in a :: device_answers calls peers
  end.

(** Five peers defeat the cache: a sixth request ten seconds after node 1's
    first finds node 1 forgotten and is answered. *)
Lemma five_peers_forgotten :
  device_answers [(1, 1000); (1, 2000); (2, 3000); (3, 4000); (4, 5000); (5, 6000); (1, 11000)]
    (sn_device_peers sensing_bss)
  = [Some true; Some false; Some true; Some true; Some true; Some true; Some true].
Proof. vm_compute. reflexivity. Qed.

#[local] Notation calls_from :=
  (telemetry_calls (K:=toy_psa) (L:=mock_lora) (T:=mock_kernel)
     meshtastic_module_device_telemetry_alloc_reply device_peers).
Lemma ask_call from now peers ret w rest :
  0 ≤ now < 4294967296 →
  meshtastic_module_device_telemetry_alloc_reply (ask from) (asked_at now peers) = Some (ret, w) →
  calls_from (device_peers w) rest → calls_from peers ((ask from, now, ret) :: rest).
Proof.
  intros Hnow Hrun Hrest. pose proof (calls_cons _ _ _ _ _ _ _ Hrun Hrest) as Hc.
  assert (clock (asked_at now peers) = now) as Hclk by (by apply Z.mod_small).
  by rewrite Hclk in Hc.
Defined.

Lemma telemetry_spacing_witness :
  ∃ r1 r2 w1 w2, meshtastic_module_device_telemetry_alloc_reply (ask 9)
      (asked_at 1000 (sn_device_peers sensing_bss)) = Some (Ok r1, w1) ∧
    meshtastic_module_device_telemetry_alloc_reply (ask 9) (asked_at 181000 (device_peers w1))
      = Some (Ok r2, w2) ∧ 180 * 1000 ≤ 181000 - 1000.
Proof.
  assert (∃ r1 w1, meshtastic_module_device_telemetry_alloc_reply (ask 9)
      (asked_at 1000 (sn_device_peers sensing_bss)) = Some (Ok r1, w1) ∧
      ∃ r2 w2, meshtastic_module_device_telemetry_alloc_reply (ask 9) (asked_at 181000 (device_peers w1))
      = Some (Ok r2, w2)) as (r1 & w1 & Hr1 & r2 & w2 & Hr2).
  { eexists _, _. split; [vm_compute; reflexivity|]. eexists _, _. vm_compute. reflexivity. }
  exists r1, r2, w1, w2. split; [done|]. split; [done|].
  change 180 with CONFIG_TELEMETRY_REPLY_SUPPRESS_SEC.
  apply (telemetry_spacing (K:=toy_psa) (L:=mock_lora) (T:=mock_kernel)
    [9] [(ask 9, 1000, Ok r1); (ask 9, 181000, Ok r2)] 0 1 (ask 9) 1000 r1 (ask 9) 181000 r2);
    [vm_compute; lia|by repeat constructor| |lia|done..].
  left. apply (ask_call _ _ _ _ w1); [lia|done|]. apply (ask_call _ _ _ _ w2); [lia|done|]. constructor.
Defined.
