(* ===== verification/Position.v ===== *)
(** * Position (src/meshtastic_gnss.c)

    The last fix of the GNSS receiver, its conversion to the mesh's units, the
    answers to position requests, which are spaced for the mesh as a whole,
    and the work item that broadcasts the position by itself.  The receiver
    is a driver that calls [gnss_data_cb]; the work queue runs the handler of
    an item once for each submission. *)

From stdpp Require Import vector.
From S2P Require Import Prelude Types External Mock Core Airtime Channels NodeDB Wire Store World.
From S2P Require Import Radio Reliable PhoneApi Invariant Send NodeInfo Router Telemetry.

(** The options of Kconfig.gnss; the build has CONFIG_MESHTASTIC_GNSS. *)
Class PositionConfig := {
  MESHTASTIC_HAS_GNSS_ALIAS : bool;
  CONFIG_GNSS_AUTO_SEND : bool;
  CONFIG_GNSS_SEND_INTERVAL_SEC : Z;
  CONFIG_GNSS_RETRY_INTERVAL_SEC : Z;
  CONFIG_GNSS_REPLY_SUPPRESS_SEC : Z
}.
Class PositionRanges `{PositionConfig} := {
  send_interval_range : 5 ≤ CONFIG_GNSS_SEND_INTERVAL_SEC ≤ 86400;
  retry_interval_range : 5 ≤ CONFIG_GNSS_RETRY_INTERVAL_SEC ≤ 3600;
  position_reply_range : 0 ≤ CONFIG_GNSS_REPLY_SUPPRESS_SEC ≤ 86400
}.

Definition LocSource_LOC_INTERNAL : Z := 2.
Definition AltSource_ALT_INTERNAL : Z := 2.

Section position.
Context {K L T : Type} `{Kconfig} `{PSA K} `{LoraDriver L} `{Kernel T} `{Pb Data} `{Pb Position}.
Context `{PositionConfig}.
Notation W := (world K L T).

Definition gnss (w : W) : gnss_state := sn_gnss (w_sensing w).
Definition on_gnss {A} (f : gnss_state → A * gnss_state) : M W A :=
  zoom w_sensing (zoom sn_gnss (state f)).
Definition gnss_modify (f : gnss_state → gnss_state) : M W () := on_gnss (λ g, ((), f g)).

Definition mdeg_to_centideg (bearing_mdeg : Z) : Z := bearing_mdeg `div` 10.
Definition hdop_to_centidop (hdop_milli : Z) : Z := hdop_milli `div` 10.

(** Signed divisions truncate; the casts to [int32_t] are written out. *)
Definition fill_position (data : gnss_data) : Position :=
  Position_zero
    <| pos_latitude_i := Some (i32 (Z.quot (nav_latitude data) 100)) |>
    <| pos_longitude_i := Some (i32 (Z.quot (nav_longitude data) 100)) |>
    <| pos_altitude := Some (Z.quot (nav_altitude data) 1000) |>
    <| pos_location_source := LocSource_LOC_INTERNAL |>
    <| pos_altitude_source := AltSource_ALT_INTERNAL |>
    <| pos_HDOP := hdop_to_centidop (info_hdop data) |>
    <| pos_fix_quality := info_fix_quality data |>
    <| pos_fix_type := match info_fix_status data with
                       | GNSS_FIX_STATUS_DGNSS_FIX => 3
                       | GNSS_FIX_STATUS_NO_FIX => 0
                       | _ => 2
                       end |>
    <| pos_sats_in_view := info_satellites_cnt data |>
    <| pos_next_update := CONFIG_GNSS_SEND_INTERVAL_SEC |>
    <| pos_precision_bits := 32 |>
    <| pos_ground_speed := if nav_speed data =? 0 then None else Some (nav_speed data `div` 1000) |>
    <| pos_ground_track := if nav_bearing data =? 0 then None
                           else Some (mdeg_to_centideg (nav_bearing data)) |>
    <| pos_altitude_geoidal_separation :=
         if info_geoid_separation data =? 0 then None
         else Some (Z.quot (info_geoid_separation data) 1000) |>.

(** The part under the lock: the fix and the next sequence number. *)
Definition take_fix (g : gnss_state) : option (gnss_data * Z) * gnss_state :=
  if negb (gs_has_fix g) then (None, g)
  else let g := g <| gs_seq ::= λ n, u32 (n + 1) |> in (Some (gs_data g, gs_seq g), g).

Definition position_build_packet (dest : Z) (want_response : bool) (channel response_to_id : Z)
    : M W (result packet) :=
  fix_ ← on_gnss take_fix;
  match fix_ with
  | None => mret (Err ENODATA)
  | Some (data, seq) =>
      match pb_encode MESHTASTIC_MAX_PAYLOAD_LEN ((fill_position data) <| pos_seq_number := seq |>) with
      | None => mret (Err ENOMEM)
      | Some payload =>
          mret (Ok (packet_zero <| p_to := dest |> <| p_portnum := MESHTASTIC_PORT_POSITION |>
                      <| p_payload := Some payload |> <| p_payload_len := length payload |>
                      <| p_channel := channel |> <| p_want_response := want_response |>
                      <| p_request_id := response_to_id |>))
      end
  end.

(** The caller's pointer is not NULL. *)
Definition meshtastic_gnss_get_last_position : M W (result Position) :=
  if negb MESHTASTIC_HAS_GNSS_ALIAS then mret (Err ENOTSUP)
  else
    g ← gets gnss;
    mret (if gs_has_fix g then Ok (fill_position (gs_data g)) else Err ENODATA).

Definition meshtastic_send_position (dest : Z) : M W (result ()) :=
  ret ← position_build_packet dest false 0 0;
  match ret with
  | Err e => mret (Err e)
  | Ok packet => meshtastic_send_packet (Some packet) K_FOREVER
  end.

Definition packet_decode_position (p : packet) : option Position :=
  match p_payload p with
  | None => None
  | Some payload =>
      if (p_payload_len p =? 0)%nat then None else pb_decode (take (p_payload_len p) payload)
  end.

(** The position the handler writes to the log, if it writes one. *)
Definition logged_position (node_id : Z) (p : packet) : option (Z * Z * Position) :=
  if (p_from p =? 0) || (p_from p =? node_id) then None
  else if p_want_response p then None
  else (λ pos, (p_from p, p_request_id p, pos)) <$> packet_decode_position p.

(** The log is not modelled: the handler changes nothing. *)
Definition meshtastic_module_position_on_packet (p : packet) : M W () :=
  mt ← gets (S:=W) w_mt;
  match logged_position (mt_node_id mt) p with Some _ | None => mret () end.

Definition position_may_reply (now_ms : Z) (g : gnss_state) : bool * gnss_state :=
  if interval_elapsed (gs_last_reply_ms g) now_ms (CONFIG_GNSS_REPLY_SUPPRESS_SEC * MSEC_PER_SEC)
  then (true, g <| gs_last_reply_ms := Some now_ms |>)
  else (false, g).

Definition meshtastic_module_position_alloc_reply (req : packet) : M W (result packet) :=
  mt ← gets (S:=W) w_mt;
  if (p_from req =? 0) || (p_from req =? mt_node_id mt) then mret (Err EINVAL)
  else
    now_ms ← uptime_get;
    ok ← on_gnss (position_may_reply now_ms);
    if negb ok then mret (Err ENOENT)
    else
      ret ← position_build_packet (p_from req) false (p_channel req) (p_id req);
      mret (match ret with Err ENODATA => Err ENOENT | _ => ret end).

Definition position_module : module K L T :=
  mk_module MESHTASTIC_PORT_POSITION false (Some meshtastic_module_position_on_packet)
    (Some meshtastic_module_position_alloc_reply).

(** ** Sending by itself *)

(** What [position_work_handler] does once the broadcast has returned; then
    the work queue is done with the item. *)
Definition position_work_done (ret : result ()) : M W () :=
  match ret with
  | Err _ => mret ()
  | Ok _ => now ← uptime_get; gnss_modify (set gs_last_sent_ms (λ _, now))
  end ;;
  gnss_modify (set gs_work_busy (λ _, false)).
Definition position_work_handler : M W () :=
  ret ← meshtastic_send_position MESHTASTIC_NODE_BROADCAST;
  position_work_done ret.

Definition position_perhaps_auto_send (now : Z) (g : gnss_state) : gnss_state :=
  let send_interval_ms := CONFIG_GNSS_SEND_INTERVAL_SEC * MSEC_PER_SEC in
  let retry_interval_ms := CONFIG_GNSS_RETRY_INTERVAL_SEC * MSEC_PER_SEC in
  if negb CONFIG_GNSS_AUTO_SEND then g
  else if (now - gs_last_sent_ms g <? send_interval_ms)
          || (now - gs_last_attempt_ms g <? retry_interval_ms) || gs_work_busy g
  then g
  else g <| gs_last_attempt_ms := now |> <| gs_work_busy := true |>.

(** [ours] says whether the receiver is the one of the device tree. *)
Definition gnss_data_cb (ours : bool) (data : option gnss_data) : M W () :=
  match data with
  | None => mret ()
  | Some data =>
      if negb ours || bool_decide (info_fix_status data = GNSS_FIX_STATUS_NO_FIX) then mret ()
      else
        gnss_modify (λ g, g <| gs_data := data |> <| gs_has_fix := true |>) ;;
        now ← uptime_get;
        gnss_modify (position_perhaps_auto_send now) ;;
        meshtastic_emit_event GNSS_FIX None None
  end.

(** It returns 0 whether or not the receiver is ready. *)
Definition meshtastic_gnss_init : M W (result ()) :=
  gnss_modify (λ g, g
    <| gs_last_sent_ms := - (CONFIG_GNSS_SEND_INTERVAL_SEC * MSEC_PER_SEC) |>
    <| gs_last_attempt_ms := - (CONFIG_GNSS_RETRY_INTERVAL_SEC * MSEC_PER_SEC) |>) ;;
  mret (Ok ()).
End position.

(** ** Units *)

(** C31: The conversion of a fix to the mesh's units is exact to the unit:
    nanodegrees become 1e-7 degrees rounded towards zero, without wrapping in
    the 32-bit field for any angle on the globe, and millimetres become metres
    rounded towards zero; the fix type is the one of the receiver's status, and
    the whole position is sent, with nothing withheld. *)
Theorem fill_position_units `{PositionConfig} (data : gnss_data) (p := fill_position data) :
  Z.abs (nav_latitude data) ≤ 90 * 10 ^ 9 → Z.abs (nav_longitude data) ≤ 180 * 10 ^ 9 →
  (∃ lat lon alt, pos_latitude_i p = Some lat ∧ pos_longitude_i p = Some lon ∧ pos_altitude p = Some alt ∧
    Z.abs lat ≤ 90 * 10 ^ 7 ∧ Z.abs lon ≤ 180 * 10 ^ 7 ∧
    0 ≤ Z.abs (nav_latitude data) - 100 * Z.abs lat < 100 ∧ 0 ≤ lat * nav_latitude data ∧
    0 ≤ Z.abs (nav_longitude data) - 100 * Z.abs lon < 100 ∧ 0 ≤ lon * nav_longitude data ∧
    0 ≤ Z.abs (nav_altitude data) - 1000 * Z.abs alt < 1000 ∧ 0 ≤ alt * nav_altitude data) ∧
  (pos_fix_type p = 0 ↔ info_fix_status data = GNSS_FIX_STATUS_NO_FIX) ∧
  (pos_fix_type p = 3 ↔ info_fix_status data = GNSS_FIX_STATUS_DGNSS_FIX) ∧
  pos_precision_bits p = 32.
Proof.
  intros Hlat Hlon.
  assert (∀ x n, 0 < n → 0 ≤ Z.abs x - n * Z.abs (Z.quot x n) < n ∧ 0 ≤ Z.quot x n * x) as Hq.
  { intros x n Hn. pose proof (Z.quot_rem x n ltac:(lia)). pose proof (Z.rem_bound_abs x n ltac:(lia)).
    destruct (Z.le_gt_cases 0 x) as [Hx|Hx].
    - pose proof (Z.quot_pos x n ltac:(lia) ltac:(lia)). pose proof (Z.rem_nonneg x n ltac:(lia) Hx). nia.
    - pose proof (Z.quot_opp_l x n ltac:(lia)) as Ho. pose proof (Z.quot_pos (- x) n ltac:(lia) ltac:(lia)).
      pose proof (Z.rem_nonpos x n ltac:(lia) ltac:(lia)). nia. }
  assert (∀ x, Z.abs x ≤ 180 * 10 ^ 9 → i32 (Z.quot x 100) = Z.quot x 100) as Hi.
  { intros x Hx. pose proof (Hq x 100 ltac:(lia)). unfold i32. rewrite Z.mod_small; lia. }
  split; [|by destruct data as [? ? ? ? ? ? ? ? []]].
  exists (Z.quot (nav_latitude data) 100), (Z.quot (nav_longitude data) 100), (Z.quot (nav_altitude data) 1000).
  pose proof (Hq (nav_latitude data) 100 ltac:(lia)). pose proof (Hq (nav_longitude data) 100 ltac:(lia)).
  pose proof (Hq (nav_altitude data) 1000 ltac:(lia)).
  split_and!; cbn; rewrite ?Hi by lia; done || lia.
Qed.

(** ** Sending leaves the sensors' state alone *)

Section leaves.
Context {S B : Type} (f : S → B).

(** If [m] returns, [f] reads the same as before. *)
Definition leaves {A} (m : M S A) : Prop := ∀ w a w', m w = Some (a, w') → f w' = f w.

Lemma leaves_ret {A} (a : A) : leaves (mret a).
Proof. by intros w ? ? [= _ <-]. Qed.
Lemma leaves_ub {A} : leaves (ub : M S A).
Proof. by intros w a w' ?. Qed.
Lemma leaves_gets {A} (g : S → A) : leaves (gets g).
Proof. by intros w ? ? [= _ <-]. Qed.
Lemma leaves_within n cap : leaves (within n cap).
Proof. unfold within. case_if; [apply leaves_ret|apply leaves_ub]. Qed.
Lemma leaves_modify g : (∀ w, f (g w) = f w) → leaves (modify g).
Proof. by intros Hg w ? ? [= _ <-]. Qed.
Lemma leaves_zoom {X A} (proj : S → X) `{!Setter proj} (m : M X A) :
  (∀ w x, f (w <| proj := x |>) = f w) → leaves (zoom proj m).
Proof.
  intros Hf w a w'. unfold zoom. destruct (m (proj w)) as [[b x]|]; [|done]. intros Hw.
  injection Hw as _ <-. apply Hf.
Qed.
Lemma leaves_bind {A C} (m : M S A) (k : A → M S C) :
  leaves m → (∀ a, leaves (k a)) → leaves (m ≫= k).
Proof.
  intros Hm Hk w c w' Hrun. unfold mbind, M_bind in Hrun.
  destruct (m w) as [[a w1]|] eqn:Em; [|done]. by rewrite (Hk _ _ _ _ Hrun), (Hm _ _ _ Em).
Qed.
End leaves.

(** Named operations stop it. *)
Ltac leave := cbv zeta; repeat lazymatch goal with
  | |- leaves _ (mret _) => apply leaves_ret
  | |- leaves _ ub => apply leaves_ub
  | |- leaves _ (gets _) => apply leaves_gets
  | |- leaves _ (within _ _) => apply leaves_within
  | |- leaves _ (modify _) => by apply leaves_modify
  | |- leaves _ (zoom _ _) => by apply leaves_zoom
  | |- leaves _ (_ ≫= _) => apply leaves_bind; [|intros ?]
  | |- leaves _ (match _ with _ => _ end) => case_match
  end.

Section send_leaves.
Context {K L T : Type} `{Kconfig} `{PSA K} `{LoraDriver L} `{Kernel T} `{Pb Data}.
Notation W := (world K L T).
Notation still := (leaves (w_sensing (K:=K) (L:=L) (T:=T))).

Lemma emit_still ty err p : still (meshtastic_emit_event ty err p).
Proof. unfold meshtastic_emit_event. leave. Qed.
Lemma send_retry_still pkt n : still (lora_send_retry pkt n).
Proof.
  induction n as [|n IH]; cbn [lora_send_retry]; unfold lora_call, mt_busy_backoff_ms, rand32, sleep;
    leave; apply IH.
Qed.
Lemma send_wire_now_still pkt : still (meshtastic_radio_send_wire_now pkt).
Proof.
  unfold meshtastic_radio_send_wire_now, mt_radio_arm_rx, lora_call, status_modify, airtime_log,
    meshtastic_airtime_packet_ms.
  repeat first [apply emit_still | apply send_retry_still | progress leave].
Qed.
Lemma worker_step_still : still outbound_worker_step.
Proof.
  unfold outbound_worker_step. repeat first [apply send_wire_now_still | progress leave].
  intros w r w' Hrun. unfold complete_frame in Hrun. case_match; [|done]. by injection Hrun as _ <-.
Qed.
Lemma worker_still n : still (outbound_worker n).
Proof. induction n; cbn; leave; [apply worker_step_still|done]. Qed.
Lemma enqueue_still pkt wait : still (outbound_enqueue pkt wait).
Proof.
  unfold outbound_enqueue, frame_enter, frame_leave, msgq_put_forever, sem_take_forever, sem_expires.
  repeat first [apply worker_step_still | apply worker_still | progress leave].
Qed.
Lemma track_still p wire : still (meshtastic_reliable_track p wire).
Proof.
  unfold meshtastic_reliable_track, uptime_get, reliable_retry_delay_ms, rand32, reliable_reschedule. leave.
Qed.
Lemma send_packet_still p wait : still (meshtastic_send_packet p wait).
Proof.
  unfold meshtastic_send_packet, send_packet_prepare, allocate_packet_id, send_packet_complete, mqtt_hook,
    meshtastic_radio_send_wire, meshtastic_radio_send_wire_wait.
  repeat first [apply emit_still | apply enqueue_still | apply track_still | progress leave].
Qed.
End send_leaves.

(** ** The broadcasts are spaced *)

Section position_correct.
Context {K L T : Type} `{KconfigRanges} `{PSALaws K} `{LoraLaws L} `{KernelLaws T}.
Context `{Pb Data} `{!PbLaws Data Data_ok} `{Pb Position} `{PositionConfig} `{!PositionRanges}.
Notation W := (world K L T).

(** What happens to the module over time: a callback of the receiver at a
    time, which submits the work item or does not, or a run of the item, which
    stamps the time of a successful broadcast or does not. *)
Inductive gnss_entry :=
  | E_fix (now : Z) (submitted : bool)
  | E_work (sent : option Z).
Definition entry_time (x : gnss_entry) : option Z :=
  match x with E_fix now _ => Some now | E_work sent => sent end.

(** The state of the module between the entries; the rest of the node is
    free. *)
Inductive gnss_history : gnss_state → list gnss_entry → Prop :=
  | history_nil g : gnss_history g []
  | history_fix ours data (w w' : W) rest :
      gnss_data_cb ours data w = Some ((), w') → gnss_history (gnss w') rest →
      gnss_history (gnss w) (E_fix (clock w) (negb (gs_work_busy (gnss w)) && gs_work_busy (gnss w')) :: rest)
  | history_work (w w1 w' : W) ret rest :
      gs_work_busy (gnss w) = true →
      meshtastic_send_position MESHTASTIC_NODE_BROADCAST w = Some (ret, w1) →
      position_work_done ret w1 = Some ((), w') → gnss_history (gnss w') rest →
      gnss_history (gnss w) (E_work (if is_err ret then None else Some (clock w1)) :: rest).

(** [k_uptime_get] does not run backwards. *)
Definition clock_monotone (h : list gnss_entry) : Prop :=
  ∀ i j x y s t, (i < j)%nat → h !! i = Some x → h !! j = Some y →
    entry_time x = Some s → entry_time y = Some t → s ≤ t.

(** The part of the state that decides. *)
Definition schedule (g : gnss_state) : Z * Z * bool :=
  (gs_last_sent_ms g, gs_last_attempt_ms g, gs_work_busy g).

Lemma build_packet_wp dest resp ch rid (w : W) :
  wp (position_build_packet dest resp ch rid) (λ ret w', ∃ seq,
    w' = w <| w_sensing ::= set sn_gnss (set gs_seq (λ _, seq)) |> ∧
    (gs_has_fix (gnss w) = false → ret = Err ENODATA)) w.
Proof.
  unfold position_build_packet, on_gnss. wps. cbn. unfold take_fix, gnss.
  destruct (gs_has_fix (sn_gnss (w_sensing w))) eqn:Ef; cbn; [destruct (pb_encode _ _)|]; wps;
    (eexists; split; [|done]).
  1, 2: reflexivity.
  instantiate (1 := gs_seq (sn_gnss (w_sensing w))). destruct w as [? ? ? ? ? ? ? ? ? ? [? ? []]]; reflexivity.
Qed.

Lemma send_position_schedule dest (w w' : W) ret :
  meshtastic_send_position dest w = Some (ret, w') → schedule (gnss w') = schedule (gnss w).
Proof.
  unfold meshtastic_send_position. intros Hrun.
  pose proof (build_packet_wp dest false 0 0 w) as Hb. unfold wp in Hb. unfold mbind, M_bind in Hrun.
  destruct (position_build_packet _ _ _ _ w) as [[r w1]|]; [|done]. destruct Hb as (seq & -> & _).
  destruct r as [p|e]; [|by injection Hrun as _ <-].
  unfold gnss. by rewrite (send_packet_still _ _ _ _ _ Hrun).
Qed.

Lemma work_done_run ret (w w' : W) :
  position_work_done ret w = Some ((), w') →
  schedule (gnss w') = (if is_err ret then gs_last_sent_ms (gnss w) else clock w, gs_last_attempt_ms (gnss w), false).
Proof.
  intros Hrun. assert (wp (position_work_done ret) (λ _ w', schedule (gnss w') =
    (if is_err ret then gs_last_sent_ms (gnss w) else clock w, gs_last_attempt_ms (gnss w), false)) w) as Hw.
  { unfold position_work_done, gnss_modify, on_gnss, uptime_get. destruct ret; wps; reflexivity. }
  unfold wp in Hw. by rewrite Hrun in Hw.
Qed.

Definition due (now : Z) (g : gnss_state) : bool :=
  CONFIG_GNSS_AUTO_SEND && (CONFIG_GNSS_SEND_INTERVAL_SEC * 1000 <=? now - gs_last_sent_ms g)
  && (CONFIG_GNSS_RETRY_INTERVAL_SEC * 1000 <=? now - gs_last_attempt_ms g) && negb (gs_work_busy g).

Lemma auto_send_spec now (g : gnss_state) :
  position_perhaps_auto_send now g =
    if due now g then g <| gs_last_attempt_ms := now |> <| gs_work_busy := true |> else g.
Proof.
  unfold position_perhaps_auto_send, due, MSEC_PER_SEC. rewrite !Z.leb_antisym.
  by destruct CONFIG_GNSS_AUTO_SEND, (_ <? _), (_ <? _), (gs_work_busy g).
Qed.

(** A callback: dropped whole, or the fix is stored, announced, and the item
    submitted exactly when it is due. *)
Lemma data_cb_wp ours data (w : W) :
  wp (gnss_data_cb ours data) (λ _ w',
    match data with
    | Some d =>
        if ours && negb (bool_decide (info_fix_status d = GNSS_FIX_STATUS_NO_FIX)) then
          gnss w' = position_perhaps_auto_send (clock w) ((gnss w) <| gs_data := d |> <| gs_has_fix := true |>)
        else w' = w
    | None => w' = w
    end) w.
Proof.
  unfold gnss_data_cb. destruct data as [d|]; [|by wps].
  destruct ours; cbn [negb orb andb]; [|by wps]. case_match eqn:Ed; cbn [negb]; [by wps|].
  unfold gnss_modify, on_gnss, uptime_get, meshtastic_emit_event. wps.
  case_match; wps; reflexivity.
Qed.

Lemma data_cb_run ours data (w w' : W) (sub := negb (gs_work_busy (gnss w)) && gs_work_busy (gnss w')) :
  gnss_data_cb ours data w = Some ((), w') →
  if sub then due (clock w) (gnss w) = true ∧ schedule (gnss w') = (gs_last_sent_ms (gnss w), clock w, true)
  else schedule (gnss w') = schedule (gnss w).
Proof.
  intros Hrun. pose proof (data_cb_wp ours data w) as Hw. unfold wp in Hw. rewrite Hrun in Hw.
  assert (gnss w' = gnss w → if sub then due (clock w) (gnss w) = true ∧
    schedule (gnss w') = (gs_last_sent_ms (gnss w), clock w, true) else schedule (gnss w') = schedule (gnss w))
    as Hsame by (intros Heq; unfold sub; rewrite Heq; by destruct (gs_work_busy (gnss w))).
  destruct data as [d|]; cbn in Hw; [|by apply Hsame; subst w'].
  destruct (ours && _); [|by apply Hsame; subst w']. rewrite auto_send_spec in Hw. unfold sub. clear sub Hsame.
  change (due (clock w) (_ <| gs_data := d |> <| gs_has_fix := true |>)) with (due (clock w) (gnss w)) in Hw.
  destruct (due (clock w) (gnss w)) eqn:Ed; rewrite Hw; cbn; [|by destruct (gs_work_busy _)].
  unfold due in Ed. boolp. by destruct (gs_work_busy _).
Qed.

(** From any state on: a submission waits out both intervals, and the item
    that is queued runs first. *)
Definition sent_before (h : list gnss_entry) (s : Z) : Prop :=
  ∀ x t, x ∈ h → entry_time x = Some t → s ≤ t.

Lemma submission_due g h :
  gnss_history g h → clock_monotone h →
  ∀ j t, h !! j = Some (E_fix t true) →
    (sent_before h (gs_last_sent_ms g) → CONFIG_GNSS_SEND_INTERVAL_SEC * 1000 ≤ t - gs_last_sent_ms g) ∧
    CONFIG_GNSS_RETRY_INTERVAL_SEC * 1000 ≤ t - gs_last_attempt_ms g ∧
    (gs_work_busy g = true → ∃ k sent, (k < j)%nat ∧ h !! k = Some (E_work sent)).
Proof.
  pose proof retry_interval_range as Hri. pose proof send_interval_range as Hsi.
  induction 1 as [g|ours data w w' rest Hrun Hrest IH|w w1 w' ret rest Hbusy Hsend Hdone Hrest IH];
    intros Hmono j t Hj; [done|..];
    (assert (clock_monotone rest) as Hmono' by
      (intros a b x y s t' Hab Ha Hb; apply (Hmono (S a) (S b)); [lia|done..])).
  - pose proof (data_cb_run ours data w w' Hrun) as Hcb. cbv zeta in Hcb. destruct j as [|j].
    { injection Hj as <- Hsub. rewrite Hsub in Hcb. destruct Hcb as [Hdue _]. unfold due in Hdue.
      boolp. split_and!; [lia..|]. congruence. }
    assert (gs_last_sent_ms (gnss w') = gs_last_sent_ms (gnss w)) as Hs
      by (case_match; [destruct Hcb as [_ Hcb]|]; unfold schedule in Hcb; by injection Hcb).
    destruct (IH Hmono' j t Hj) as (Hi & Hr & Hb). rewrite Hs in Hi. split.
    { intros Hlast. apply Hi. intros x t' Hx. apply Hlast. by right. }
    case_match; unfold schedule in Hcb.
    + destruct Hcb as [Hdue Hcb]. injection Hcb as _ Ha Hb'. rewrite Ha in Hr. unfold due in Hdue. boolp.
      split; [lia|]. congruence.
    + injection Hcb as _ Ha Hb'. rewrite Ha in Hr. split; [done|]. rewrite <-Hb'. intros Ht.
      destruct (Hb Ht) as (k & sent & Hk & Hks). exists (S k), sent. split; [lia|done].
  - pose proof (send_position_schedule _ _ _ _ Hsend) as Hs1. pose proof (work_done_run _ _ _ Hdone) as Hs2.
    unfold schedule in Hs1, Hs2. injection Hs1 as Hs1 Ha1 Hb1. injection Hs2 as Hs2 Ha2 Hb2.
    destruct j as [|j]; [done|]. destruct (IH Hmono' j t Hj) as (Hi & Hr & _). rewrite Ha2, Ha1 in Hr.
    split; [intros Hlast|split; [done|intros _; eexists 0%nat, _; split; [lia|done]]].
    rewrite Hs2, Hs1 in Hi. destruct (is_err ret) eqn:Er.
    { apply Hi. intros x t' Hx. apply Hlast. by right. }
    assert (gs_last_sent_ms (gnss w) ≤ clock w1) by (by eapply Hlast; [by left|]).
    enough (CONFIG_GNSS_SEND_INTERVAL_SEC * 1000 ≤ t - clock w1) by lia. apply Hi.
    intros x t' [k Hk]%list_elem_of_lookup Ht. eapply (Hmono 0%nat (S k)); [lia|by cbn|done|done|done].
Qed.

Lemma history_drop g h i x :
  gnss_history g h → h !! i = Some x → ∃ g', gnss_history g' (drop (S i) h) ∧
    match x with
    | E_fix t true => gs_last_attempt_ms g' = t ∧ gs_work_busy g' = true
    | E_work (Some t) => gs_last_sent_ms g' = t
    | _ => True
    end.
Proof.
  intros Hh. revert i. induction Hh as [g|ours data w w' rest Hrun Hrest IH|w w1 w' ret rest Hbusy Hsend Hdone Hrest IH];
    intros [|i] Hi; [done..| | | |].
  - injection Hi as <-. exists (gnss w'). split; [exact Hrest|].
    pose proof (data_cb_run _ _ _ _ Hrun) as Hcb. cbv zeta in Hcb. case_match; [|done].
    destruct Hcb as [_ Hcb]. unfold schedule in Hcb. by injection Hcb.
  - by apply IH.
  - injection Hi as <-. exists (gnss w'). split; [exact Hrest|].
    pose proof (work_done_run _ _ _ Hdone) as Hd. unfold schedule in Hd. injection Hd as Hd _ _.
    by destruct (is_err ret).
  - by apply IH.
Qed.

(** C29: The node does not hammer the radio with its position: whatever the
    receiver publishes and however the broadcasts end, a fix submits a
    broadcast only when the send interval has passed since every successful
    one and the retry interval since every attempt, and never while an
    earlier attempt is still to run. *)
Theorem position_broadcasts_spaced g h i j x t :
  gnss_history g h → clock_monotone h → (i < j)%nat → h !! i = Some x → h !! j = Some (E_fix t true) →
  match x with
  | E_work (Some s) => CONFIG_GNSS_SEND_INTERVAL_SEC * 1000 ≤ t - s
  | E_fix s true => CONFIG_GNSS_RETRY_INTERVAL_SEC * 1000 ≤ t - s ∧
      ∃ k sent, (i < k < j)%nat ∧ h !! k = Some (E_work sent)
  | _ => True
  end.
Proof.
  intros Hh Hmono Hij Hi Hj. destruct (history_drop _ _ _ _ Hh Hi) as (g' & Hg' & Hx).
  assert (∀ k, drop (S i) h !! k = h !! (S i + k)%nat) as Hdrop by (intros k; apply lookup_drop).
  destruct (submission_due _ _ Hg') with (j := (j - S i)%nat) (t := t) as (Hs & Hr & Hb).
  { intros a b y z s s' Hab. rewrite !Hdrop. apply Hmono. lia. }
  { rewrite Hdrop, <-Hj. f_equal. lia. }
  destruct x as [s [|]|[s|]]; [| |subst s|]; try done.
  - destruct Hx as [<- Hbusy]. split; [done|]. destruct (Hb Hbusy) as (k & sent & Hk & Hks).
    rewrite Hdrop in Hks. eexists _, sent. split; [|done]. lia.
  - apply Hs. intros y t' [k Hk]%list_elem_of_lookup Ht. rewrite Hdrop in Hk.
    eapply (Hmono i); [|done|done|done|done]. lia.
Qed.
End position_correct.

(** ** The module keeps the node's invariant *)

Section position_safe.
Context {K L T : Type} `{KconfigRanges} `{PSALaws K} `{LoraLaws L} `{KernelLaws T}.
Context `{Pb Data} `{!PbLaws Data Data_ok} `{Pb Position} `{PositionConfig}.
Context (fx : fixed).
Notation W := (world K L T).
Notation I := (world_wf (L:=L) (T:=T) fx).

Lemma keeps_gnss {A} (f : gnss_state → A * gnss_state) : keeps I (on_gnss f).
Proof. unfold on_gnss. apply keeps_same. intros w _. wps. by constructor. Qed.

Lemma keeps_build_position dest resp ch rid : keeps I (position_build_packet dest resp ch rid).
Proof.
  unfold position_build_packet. apply keeps_bind; [apply keeps_gnss|]. intros [[data seq]|]; [|apply keeps_ret].
  destruct (pb_encode _ _); apply keeps_ret.
Qed.

Lemma keeps_send_position dest : keeps I (meshtastic_send_position dest).
Proof.
  unfold meshtastic_send_position. apply keeps_bind; [apply keeps_build_position|].
  intros [p|e]; [by apply keeps_send_packet|apply keeps_ret].
Qed.

(** The receiver's callback and the work item return and keep the node
    well-formed. *)
Lemma keeps_gnss_cb ours data : keeps I (gnss_data_cb ours data).
Proof.
  unfold gnss_data_cb, gnss_modify. destruct data; [|apply keeps_ret]. apply keeps_if; [apply keeps_ret|].
  apply keeps_bind; [apply keeps_gnss|]. intros _. apply keeps_bind; [apply keeps_uptime|]. intros now.
  apply keeps_bind; [apply keeps_gnss|]. intros _. apply keeps_emit.
Qed.
Lemma keeps_position_work : keeps I position_work_handler.
Proof.
  unfold position_work_handler, position_work_done, gnss_modify. apply keeps_bind; [apply keeps_send_position|].
  intros ret. apply keeps_bind; [|intros _; apply keeps_gnss]. destruct ret; [|apply keeps_ret].
  apply keeps_bind; [apply keeps_uptime|]. intros now. apply keeps_gnss.
Qed.

Lemma position_module_safe : module_safe (L:=L) (T:=T) fx position_module.
Proof.
  constructor; cbn; intros f p Hf; injection Hf as <-.
  - unfold meshtastic_module_position_on_packet. apply keeps_bind; [apply keeps_gets|]. intros mt.
    destruct (logged_position _ _); apply keeps_ret.
  - unfold meshtastic_module_position_alloc_reply. apply keeps_bind; [apply keeps_gets|]. intros mt.
    apply keeps_if; [apply keeps_ret|]. apply keeps_bind; [apply keeps_uptime|]. intros now.
    apply keeps_bind; [apply keeps_gnss|]. intros ok. apply keeps_if; [apply keeps_ret|].
    apply keeps_bind; [apply keeps_build_position|]. intros ret. apply keeps_ret.
Qed.

(** One request: its window is taken before the fix is looked at, for all
    peers together. *)
Lemma position_reply_wp req (w : W) :
  p_from req ≠ 0 → p_from req ≠ mt_node_id (w_mt w) →
  wp (meshtastic_module_position_alloc_reply req) (λ ret w',
    if interval_elapsed (gs_last_reply_ms (gnss w)) (clock w) (CONFIG_GNSS_REPLY_SUPPRESS_SEC * MSEC_PER_SEC)
    then gs_last_reply_ms (gnss w') = Some (clock w) ∧ (gs_has_fix (gnss w) = false → ret = Err ENOENT)
    else ret = Err ENOENT ∧ gnss w' = gnss w) w.
Proof.
  intros Hnz Hus. unfold meshtastic_module_position_alloc_reply, on_gnss, uptime_get. wps.
  rewrite (proj2 (Z.eqb_neq _ _) Hnz), (proj2 (Z.eqb_neq _ _) Hus). cbn [orb]. wps.
  fold (clock w). unfold position_may_reply.
  change (sn_gnss (w_sensing (w <| w_kernel := (k_uptime_get (w_kernel w)).2 |>))) with (gnss w).
  destruct (interval_elapsed (gs_last_reply_ms (gnss w)) _ _); cbn [fst snd negb]; wps; [|done].
  eapply wp_mono; [apply build_packet_wp|]. cbn. intros ret w' (seq & -> & Hfix). wps. cbn.
  split; [done|]. intros Hno. by rewrite Hfix.
Qed.
End position_safe.

(** ** The node with every module *)

Section full.
Context {K L T : Type} `{KconfigRanges} `{PSALaws K} `{LoraLaws L} `{KernelLaws T}.
Context `{Pb Data} `{!PbLaws Data Data_ok} `{Pb User} `{Pb Routing} `{Pb Position} `{Pb Telemetry}.
Context `{Pb StatusMessage} `{TelemetryConfig} `{TelemetryDrivers T} `{PositionConfig}.

(** The modules in the order of the linker section, which sorts them by
    name. *)
Definition full_modules : list (module K L T) :=
  device_telemetry_module :: environment_telemetry_module :: stock_modules ++ [position_module].

Lemma full_modules_safe fx : Forall (module_safe (L:=L) (T:=T) fx) full_modules.
Proof.
  unfold full_modules. pose proof (telemetry_modules_safe (L:=L) (T:=T) fx) as Ht.
  inversion_clear Ht as [|? ? Hd He]. inversion_clear He as [|? ? He' _].
  constructor; [done|]. constructor; [done|]. apply Forall_app. split; [apply stock_modules_safe|].
  constructor; [apply position_module_safe|done].
Qed.
End full.

(** ** A morning on the mock platform *)

#[local] Existing Instance default_kconfig.
#[local] Existing Instance default_kconfig_ranges.
#[local] Instance default_position_config : PositionConfig :=
  {| MESHTASTIC_HAS_GNSS_ALIAS := true; CONFIG_GNSS_AUTO_SEND := true; CONFIG_GNSS_SEND_INTERVAL_SEC := 300;
     CONFIG_GNSS_RETRY_INTERVAL_SEC := 60; CONFIG_GNSS_REPLY_SUPPRESS_SEC := 180 |}.
#[local] Instance default_position_ranges : PositionRanges.
Proof. constructor; cbn; lia. Defined.

(** Grenoble, as in tests/gnss. *)
Definition grenoble : gnss_data :=
  mk_gnss_data 45188500000 5724500000 45000 12000 212000 9 1200 50000 GNSS_FIX_STATUS_GNSS_FIX 1.
#[local] Instance byte_position : Pb Position :=
  {| pb_encode n _ := if (1 <=? n)%nat then Some [0] else None; pb_decode _ := Some (fill_position grenoble) |}.

Lemma fill_position_units_witness :
  ∃ lat lon alt, pos_latitude_i (fill_position grenoble) = Some lat ∧
    pos_longitude_i (fill_position grenoble) = Some lon ∧ pos_altitude (fill_position grenoble) = Some alt ∧
    Z.abs lat ≤ 90 * 10 ^ 7 ∧ Z.abs lon ≤ 180 * 10 ^ 7.
Proof.
  destruct (fill_position_units grenoble) as [(lat & lon & alt & Hlat & Hlon & Halt & H1' & H2' & _) _];
    [cbn; lia..|].
  by exists lat, lon, alt.
Defined.

Notation mock_node := (world toy_psa mock_lora mock_kernel).
Definition at_time (now : Z) (w : mock_node) : mock_node := w <| w_kernel := mk_mock_kernel now 1 false |>.
Definition run_or {A} (m : M mock_node A) (w : mock_node) : mock_node :=
  match m w with Some (_, w') => w' | None => w end.
(** A fix, its broadcast, and the next fix ten minutes later. *)
Definition morning_fix : mock_node :=
  at_time 1000 (run_or meshtastic_gnss_init (mock_world (mock_radio 0) (mock_clock false))).
Definition morning_submitted : mock_node := run_or (gnss_data_cb true (Some grenoble)) morning_fix.
Definition morning_broadcast : mock_node :=
  run_or (meshtastic_send_position MESHTASTIC_NODE_BROADCAST) morning_submitted.
Definition morning_done : mock_node := run_or (position_work_done (Ok ())) morning_broadcast.
Definition noon_fix : mock_node := at_time 601000 morning_done.
Definition noon_submitted : mock_node := run_or (gnss_data_cb true (Some grenoble)) noon_fix.

(** A request before the first fix takes the window of the one after it. *)
Lemma cold_request_takes_window :
  let ask now w := match meshtastic_module_position_alloc_reply (ask 9) (at_time now w) with
                   | Some (ret, w') => (is_err ret, w') | None => (true, w) end in
  let '(r1, w1) := ask 1000 (mock_world (mock_radio 0) (mock_clock false)) in
  let w1 := run_or (gnss_data_cb true (Some grenoble)) w1 in
  let '(r2, w2) := ask 2000 w1 in
  let '(r3, w3) := ask 181000 w2 in
  (r1, r2, r3) = (true, true, false).
Proof. vm_compute. reflexivity. Qed.

Definition morning : list gnss_entry :=
  [E_fix 1000 true; E_work (Some (clock morning_broadcast)); E_fix 601000 true].

Lemma morning_history : gnss_history (gnss morning_fix) morning.
Proof.
  assert (gnss_data_cb true (Some grenoble) morning_fix = Some ((), morning_submitted)) as R1
    by (vm_compute; reflexivity).
  assert (meshtastic_send_position MESHTASTIC_NODE_BROADCAST morning_submitted = Some (Ok (), morning_broadcast))
    as R2 by (vm_compute; reflexivity).
  assert (position_work_done (Ok ()) morning_broadcast = Some ((), morning_done)) as R3
    by (vm_compute; reflexivity).
  assert (gnss_data_cb true (Some grenoble) noon_fix = Some ((), noon_submitted)) as R4
    by (vm_compute; reflexivity).
  assert (gs_work_busy (gnss morning_submitted) = true) as Hb by (vm_compute; reflexivity).
  pose proof (history_fix _ _ _ _ _ R4 (history_nil _)) as Hh.
  assert (∀ now w, gnss (at_time now w) = gnss w) as Hg by done.
  assert (gnss noon_fix = gnss morning_done) as Hn by apply Hg. rewrite Hn in Hh at 1. clear Hn Hg.
  pose proof (history_work _ _ _ _ _ Hb R2 R3 Hh) as Hh'.
  pose proof (history_fix _ _ _ _ _ R1 Hh') as Hh''.
  assert (morning = E_fix (clock morning_fix) (negb (gs_work_busy (gnss morning_fix)) && gs_work_busy (gnss morning_submitted))
    :: E_work (if is_err (Ok ()) then None else Some (clock morning_broadcast))
    :: [E_fix (clock noon_fix) (negb (gs_work_busy (gnss noon_fix)) && gs_work_busy (gnss noon_submitted))]) as ->
    by (vm_compute; reflexivity).
  exact Hh''.
Defined.

Lemma position_broadcasts_spaced_witness : 300 * 1000 ≤ 601000 - clock morning_broadcast.
Proof.
  change 300 with CONFIG_GNSS_SEND_INTERVAL_SEC.
  assert (clock_monotone morning) as Hmono.
  { assert (clock morning_broadcast ≤ 601000) as Hc by (vm_compute; discriminate).
    assert (1000 ≤ clock morning_broadcast) as Hc' by (vm_compute; discriminate).
    unfold morning. revert Hc Hc'. generalize (clock morning_broadcast). intros c Hc Hc'.
    intros i j x y s t Hij Hi Hj Hs Ht.
    destruct i as [|[|[|i]]], j as [|[|[|j]]]; try lia; try done; injection Hi as <-; injection Hj as <-;
      injection Hs as <-; injection Ht as <-; lia. }
  assert (morning !! 1%nat = Some (E_work (Some (clock morning_broadcast)))) as Hi
    by (unfold morning; generalize (clock morning_broadcast); done).
  assert (morning !! 2%nat = Some (E_fix 601000 true)) as Hj
    by (unfold morning; generalize (clock morning_broadcast); done).
  pose proof (position_broadcasts_spaced _ _ 1 2 _ _ morning_history Hmono ltac:(lia) Hi Hj) as Hp.
  exact Hp.
Defined.
