(* ===== verification/Reception.v ===== *)
(** * What reception does (the properties of Router.v)

    Relaying and its bound, what acknowledging leaves alone, the safety of the
    receive path, duplicates, the hop limit of answers, and local delivery. *)

From S2P Require Import Prelude Types External Mock Core Airtime Channels NodeDB Wire Store World.
From S2P Require Import Radio Reliable PhoneApi Invariant Send NodeInfo Router.

(** ** Relaying *)

(** A frame, byte by byte. *)
Ltac open_frame wire :=
  do 16 (destruct wire as [|? wire]; [cbn in *; unfold MESHTASTIC_HDR_LEN in *; lia|]).

Section relay.
Context {K L T : Type} `{KconfigRanges} `{LoraDriver L} `{Kernel T}.
Notation W := (world K L T).

(** What this node relays: header [hdr] of a frame with packet identifier
    [id]. *)
Definition relay_wanted (w : W) (hdr : wire_header) (id : Z) : Prop :=
  meshtastic_is_rebroadcaster (w_channels w) = true ∧
  meshtastic_rebroadcast_mode (w_channels w) ≠ Rebroadcast_LOCAL_ONLY ∧
  h_src hdr ≠ mt_node_id (w_mt w) ∧ h_dest hdr ≠ mt_node_id (w_mt w) ∧
  flags_hop_limit (h_flags hdr) ≠ 0 ∧
  (h_dest hdr = MESHTASTIC_NODE_BROADCAST → id ≠ 0).
#[export] Instance relay_wanted_dec w hdr id : Decision (relay_wanted w hdr id).
Proof. unfold relay_wanted. solve_decision. Defined.

(** The frame with one hop less. *)
Definition relayed (wire : list Z) : list Z :=
  let hdr := header_of wire in
  <[12%nat := relay_flags (h_flags hdr) (flags_hop_limit (h_flags hdr))]> wire.

(** The state after the relay of [wire]. *)
Definition after_relay (wire : list Z) (w : W) : W :=
  w <| w_outbound ::= set out_queue (λ q, q ++ [mk_item (relayed wire) None]) |>
    <| w_mt ::= set mt_status (set relayed_packets inc32) |>.

(** A frame as the radio can hand it over. *)
Definition air_frame (wire : list Z) : Prop :=
  bytes_ok wire ∧ (MESHTASTIC_HDR_LEN ≤ length wire ≤ MESHTASTIC_PKT_MAX)%nat.

(** The fields a relay carries over. *)
Definition same_packet (wire wire' : list Z) : Prop :=
  let h := header_of wire in let h' := header_of wire' in
  h_dest h' = h_dest h ∧ h_src h' = h_src h ∧ h_id h' = h_id h ∧ h_channel h' = h_channel h ∧
  h_next_hop h' = h_next_hop h ∧ h_relay_node h' = h_relay_node h ∧
  flags_hop_start (h_flags h') = flags_hop_start (h_flags h) ∧
  flags_want_ack (h_flags h') = flags_want_ack (h_flags h) ∧
  flags_via_mqtt (h_flags h') = flags_via_mqtt (h_flags h) ∧
  drop MESHTASTIC_HDR_LEN wire' = drop MESHTASTIC_HDR_LEN wire ∧ length wire' = length wire.

Lemma relay_flags_fields flags (hop := flags_hop_limit flags) :
  is_u8 flags → hop ≠ 0 →
  is_u8 (relay_flags flags hop) ∧
  flags_hop_limit (relay_flags flags hop) = hop - 1 ∧
  flags_hop_start (relay_flags flags hop) = flags_hop_start flags ∧
  flags_want_ack (relay_flags flags hop) = flags_want_ack flags ∧
  flags_via_mqtt (relay_flags flags hop) = flags_via_mqtt flags.
Proof.
  subst hop. refine (byte_forall (λ flags, flags_hop_limit flags ≠ 0 →
    is_u8 (relay_flags flags (flags_hop_limit flags)) ∧
    flags_hop_limit (relay_flags flags (flags_hop_limit flags)) = flags_hop_limit flags - 1 ∧
    flags_hop_start (relay_flags flags (flags_hop_limit flags)) = flags_hop_start flags ∧
    flags_want_ack (relay_flags flags (flags_hop_limit flags)) = flags_want_ack flags ∧
    flags_via_mqtt (relay_flags flags (flags_hop_limit flags)) = flags_via_mqtt flags) flags _).
  by vm_compute.
Qed.

Lemma relayed_spec wire (hop := flags_hop_limit (h_flags (header_of wire))) :
  air_frame wire → hop ≠ 0 →
  air_frame (relayed wire) ∧ same_packet wire (relayed wire) ∧
  flags_hop_limit (h_flags (header_of (relayed wire))) = hop - 1.
Proof.
  intros [Hok Hlen] Hhop. subst hop.
  assert (is_u8 (h_flags (header_of wire))) as Hf.
  { cbn. apply (Forall_lookup_1 _ wire 12); [done|]. destruct (wire !! 12%nat) eqn:E; [done|].
    apply lookup_ge_None_1 in E. unfold MESHTASTIC_HDR_LEN in Hlen. lia. }
  destruct (relay_flags_fields _ Hf Hhop) as (Hu & Hh & Hs & Ha & Hv).
  unfold relayed. set (f := relay_flags _ _) in *. split; [split|].
  - by apply Forall_insert.
  - by rewrite length_insert.
  - clearbody f. clear Hok Hhop. open_frame wire. unfold same_packet.
    cbn in Hf, Hu, Hh, Hs, Ha, Hv |- *. by rewrite Hh, Hs, Ha, Hv.
Qed.

Lemma sniff_run wire p (w : W)
    (relay := bool_decide (relay_wanted w (header_of wire) (p_id p))
              && (length (out_queue (w_outbound w)) <? CONFIG_OUTBOUND_QUEUE_DEPTH)%nat) :
  air_frame wire →
  meshtastic_routing_sniff_rebroadcast (header_of wire) wire p w =
    Some ((), if relay then after_relay wire w else w).
Proof.
  intros [Hok Hlen]. unfold meshtastic_routing_sniff_rebroadcast.
  rewrite (proj2 (Nat.ltb_ge _ _)) by lia. unfold mbind, M_bind, gets, mret, M_ret.
  assert (∀ P : Prop, ∀ HP : Decision P, ¬ P → @bool_decide P HP = false) as Hno
    by (intros; by apply bool_decide_eq_false).
  subst relay.
  destruct (meshtastic_is_rebroadcaster (w_channels w)) eqn:E1; cbn [negb]; cycle 1.
  { rewrite Hno; [done|]. intros (? & _). congruence. }
  destruct (_ || _) eqn:E2.
  { rewrite Hno; [done|]. intros (_ & _ & ? & ? & _). apply orb_true_iff in E2 as [E%Z.eqb_eq|E%Z.eqb_eq]; congruence. }
  apply orb_false_iff in E2 as [E2%Z.eqb_neq E3%Z.eqb_neq].
  destruct (flags_hop_limit _ =? 0) eqn:E4.
  { rewrite Hno; [done|]. apply Z.eqb_eq in E4. intros (_ & _ & _ & _ & ? & _). congruence. }
  destruct ((h_dest (header_of wire) =? _) && _) eqn:E5.
  { rewrite Hno; [done|]. apply andb_true_iff in E5 as [E5%Z.eqb_eq E6%Z.eqb_eq].
    intros (_ & _ & _ & _ & _ & Hb). by apply Hb. }
  destruct (meshtastic_rebroadcast_mode (w_channels w) =? Rebroadcast_LOCAL_ONLY) eqn:E6.
  { rewrite Hno; [done|]. apply Z.eqb_eq in E6. intros (_ & ? & _). congruence. }
  apply Z.eqb_neq in E6. pose proof E4 as E4'. apply Z.eqb_neq in E4'.
  rewrite bool_decide_true; cycle 1.
  { split_and!; try done. intros Hb Hid. by rewrite Hb, Hid in E5. }
  unfold relay_packet. rewrite E4, (proj2 (Nat.ltb_ge _ _)) by lia. cbn [orb andb].
  rewrite within_bind by lia.
  unfold mbind, M_bind, meshtastic_radio_send_wire. rewrite enqueue_no_wait_run; [|..|done].
  - unfold after_relay, status_modify, modify. by case_if.
  - split; rewrite length_insert; [unfold MESHTASTIC_HDR_LEN in Hlen|]; lia.
Qed.

(** [n] relays, each on a node of its own, carry [wire] to [wire']. *)
Inductive relay_path : nat → list Z → list Z → Prop :=
  | path_start wire : relay_path 0 wire wire
  | path_hop n wire wire1 wire2 p (w w' : W) :
      relay_path n wire wire1 →
      meshtastic_routing_sniff_rebroadcast (header_of wire1) wire1 p w = Some ((), w') →
      out_queue (w_outbound w') = out_queue (w_outbound w) ++ [mk_item wire2 None] →
      relay_path (S n) wire wire2.

Lemma same_packet_trans wire1 wire2 wire3 :
  same_packet wire1 wire2 → same_packet wire2 wire3 → same_packet wire1 wire3.
Proof. unfold same_packet. intros. destruct_and!. split_and!; congruence. Qed.

Lemma relay_step wire wire' p (w w' : W) :
  air_frame wire →
  meshtastic_routing_sniff_rebroadcast (header_of wire) wire p w = Some ((), w') →
  out_queue (w_outbound w') = out_queue (w_outbound w) ++ [mk_item wire' None] →
  wire' = relayed wire ∧ relay_wanted w (header_of wire) (p_id p).
Proof.
  intros Ha Hrun Hq. rewrite sniff_run in Hrun by done. injection Hrun as <-.
  destruct (bool_decide _) eqn:Ew; cbn [andb] in Hq; [case_if_in Hq|].
  - cbn in Hq. apply app_inv_head in Hq. injection Hq as <-.
    by apply bool_decide_eq_true in Ew.
  - apply (f_equal length) in Hq. rewrite length_app in Hq. cbn in Hq. lia.
  - apply (f_equal length) in Hq. rewrite length_app in Hq. cbn in Hq. lia.
Qed.

(** C3: a received frame is queued for relaying exactly if this node
    rebroadcasts, is neither the frame's sender nor its destination, the frame
    has a hop left, the mode lets foreign traffic through and the transmit
    queue has room; the copy differs from the frame in the hop limit alone,
    which is one less, one counter moves, and nothing else changes. *)
Theorem relay_spec wire p (w : W)
    (relay := bool_decide (relay_wanted w (header_of wire) (p_id p))
              && (length (out_queue (w_outbound w)) <? CONFIG_OUTBOUND_QUEUE_DEPTH)%nat) :
  air_frame wire →
  meshtastic_routing_sniff_rebroadcast (header_of wire) wire p w =
    Some ((), if relay then after_relay wire w else w) ∧
  (relay = true → air_frame (relayed wire) ∧ same_packet wire (relayed wire) ∧
    flags_hop_limit (h_flags (header_of (relayed wire))) + 1 =
    flags_hop_limit (h_flags (header_of wire))).
Proof.
  intros Ha. split; [by apply sniff_run|]. subst relay.
  intros [(_ & _ & _ & _ & Hhop & _)%bool_decide_eq_true _]%andb_true_iff.
  destruct (relayed_spec wire Ha Hhop) as (? & ? & ->). split_and!; [done..|lia].
Qed.

(** C4: flooding ends: however the nodes of the mesh are configured, a frame
    is relayed at most as many times in a row as its hop limit says, at most
    seven times, and every node on the way gets the packet the origin sent. *)
Theorem relay_path_bounded n wire wire' :
  relay_path n wire wire' → air_frame wire →
  air_frame wire' ∧ same_packet wire wire' ∧
  Z.of_nat n + flags_hop_limit (h_flags (header_of wire')) =
    flags_hop_limit (h_flags (header_of wire)) ∧ (n ≤ 7)%nat.
Proof.
  intros Hp Ha.
  pose proof flags_hop_limit_range as Hhop.
  assert (air_frame wire' ∧ same_packet wire wire' ∧
    Z.of_nat n + flags_hop_limit (h_flags (header_of wire')) =
    flags_hop_limit (h_flags (header_of wire))) as (Ha' & Hs & Hn); cycle 1.
  { split_and!; try done. pose proof (Hhop (h_flags (header_of wire))).
    pose proof (Hhop (h_flags (header_of wire'))). lia. }
  induction Hp as [|n wire wire1 wire2 p w w' _ IH Hrun Hq]; [by split_and!|].
  destruct (IH Ha) as (Ha1 & Hs1 & Hn1).
  destruct (relay_step _ _ _ _ _ Ha1 Hrun Hq) as [-> (_ & _ & _ & _ & Hhop1 & _)].
  destruct (relayed_spec wire1 Ha1 Hhop1) as (? & ? & ->).
  split_and!; [done|by eapply same_packet_trans|lia].
Qed.
End relay.

(** ** Talking on the air leaves the tables alone *)

Section talk.
Context {K L T : Type} `{KconfigRanges} `{PSALaws K} `{LoraLaws L} `{KernelLaws T}.
Context `{Pb Data} `{!PbLaws Data Data_ok} `{Pb Routing}.
Context (fx : fixed).
Notation W := (world K L T).
Notation I := (world_wf (L:=L) (T:=T) fx).

(** What sending and acknowledging do not touch. *)
Record talk_frame (w w' : W) : Prop := {
  tf_channels : w_channels w' = w_channels w;
  tf_nodedb : w_nodedb w' = w_nodedb w;
  tf_peers : w_peers w' = w_peers w;
  tf_phones : w_phones w' = w_phones w;
  tf_store : w_store w' = w_store w;
  tf_rx_queue : w_rx_queue w' = w_rx_queue w;
  tf_dup : mt_dup_cache (w_mt w') = mt_dup_cache (w_mt w);
  tf_dup_head : mt_dup_head (w_mt w') = mt_dup_head (w_mt w)
}.
#[local] Instance talk_frame_refl : Reflexive talk_frame.
Proof. by intros w. Qed.
#[local] Instance talk_frame_trans : Transitive talk_frame.
Proof. intros ??? [] []. constructor; congruence. Qed.

Definition talks {A} (m : M W A) : Prop := ∀ w0, keeps (λ w, I w ∧ talk_frame w0 w) m.

Lemma talks_of {A} (m : M W A) :
  keeps I m → (∀ w, I w → wp m (λ _ w', talk_frame w w') w) → talks m.
Proof.
  intros Hk Hf w0 w [HI Ht]. eapply wp_mono; [apply wp_and; [by apply Hk|by apply Hf]|].
  cbn. intros a w' [? ?]. split; [done|by etrans].
Qed.
Lemma talks_wp {A} (m : M W A) w : talks m → I w → wp m (λ _ w', I w' ∧ talk_frame w w') w.
Proof. intros Hm HI. by apply Hm. Qed.

Lemma talks_ret {A} (a : A) : talks (mret a).
Proof. intros w0. apply keeps_ret. Qed.
Lemma talks_gets {A} (f : W → A) : talks (gets f).
Proof. intros w0. apply keeps_gets. Qed.
Lemma talks_bind {A B} (m : M W A) (k : A → M W B) :
  talks m → (∀ a, talks (k a)) → talks (m ≫= k).
Proof. intros Hm Hk w0. apply keeps_bind; [apply Hm|]. intros a. apply Hk. Qed.
Lemma talks_if {A} (b : bool) (m n : M W A) : talks m → talks n → talks (if b then m else n).
Proof. by destruct b. Qed.

Lemma talks_allocate : talks allocate_packet_id.
Proof.
  apply talks_of; [apply keeps_allocate|]. intros w _. unfold allocate_packet_id. wps.
  unfold meshtastic_allocate_packet_id. by destruct (next_nonzero _).
Qed.
Lemma talks_emit ty err p : talks (meshtastic_emit_event ty err p).
Proof.
  apply talks_of; [apply keeps_emit|]. intros w _. unfold meshtastic_emit_event.
  do 2 wp_step. case_if; wps; by constructor.
Qed.

Lemma talks_hook sent p wire : talks (mqtt_hook sent p wire).
Proof.
  apply talks_of; [apply keeps_hook|]. intros w _. unfold mqtt_hook. by case_if; wps.
Qed.

Lemma tx_talk_frame w w' : tx_frame w w' → talk_frame w w'.
Proof.
  intros [(st & a & E0) E1 E2 E3 E4 E5 E6 E7 E8 E9 _]. cbn in *. constructor; try done.
  - by rewrite E0.
  - by rewrite E0.
Qed.

Lemma talks_enqueue wire wait :
  safe_wait wait = true → talks (outbound_enqueue (Some wire) wait).
Proof.
  intros Hwait. apply talks_of; [by apply keeps_enqueue|]. intros w HI.
  destruct (decide (frame_ok wire)) as [Hok|Hbad]; cycle 1.
  { unfold wp. by rewrite enqueue_bad_frame. }
  unfold safe_wait in Hwait. destruct (is_no_wait wait) eqn:Enw.
  - unfold wp. rewrite enqueue_no_wait_run by done. by case_if.
  - destruct wait; try done. eapply wp_mono; [apply enqueue_forever_wp; [done|apply HI]|].
    intros ret w' (rets & _ & Hf & _). by apply tx_talk_frame.
Qed.

Lemma talks_track p wire : talks (meshtastic_reliable_track (Some p) (Some wire)).
Proof.
  apply talks_of; [apply keeps_track|]. intros w HI. eapply wp_mono; [apply track_wp|].
  intros _ w' [t Hw]. case_if_in Hw; [by subst|].
  destruct (find_index _ _) as [i|]; [|by subst]. by destruct Hw as (d & _ & ->).
Qed.

Lemma talks_on_routing p : talks (meshtastic_reliable_on_routing (Some p)).
Proof.
  apply talks_of; [apply keeps_on_routing|]. intros w HI. unfold wp. rewrite on_routing_run.
  case_if; [done|]. by destruct (waiting_for _ _).
Qed.

Lemma talks_prepare p : talks (send_packet_prepare p).
Proof.
  unfold send_packet_prepare. apply talks_bind; [apply talks_gets|]. intros mt.
  apply talks_if; [apply talks_ret|]. destruct p as [p|]; [|apply talks_ret].
  apply talks_if; [apply talks_ret|]. apply talks_bind.
  { apply talks_if; [|apply talks_ret]. apply talks_bind; [apply talks_allocate|].
    intros id. apply talks_ret. }
  intros local. apply talks_of.
  - apply keeps_tables. intros w HI. rewrite wp_bind.
    eapply wp_mono; [apply psa_wp; [done|apply build_safe, HI]|]. intros [wire|e] w' HI'; by wps.
  - intros w HI. do 4 wp_step. rewrite wp_bind, wp_zoom. eapply wp_mono; [apply build_safe, HI|].
    intros [wire|e] k _; by wps.
Qed.

Lemma talks_send_packet p wait : safe_wait wait = true → talks (meshtastic_send_packet p wait).
Proof.
  intros Hwait. unfold meshtastic_send_packet. apply talks_bind; [apply talks_prepare|].
  intros [[local wire]|e]; [|apply talks_ret]. apply talks_bind.
  { apply talks_if; by apply talks_enqueue. }
  intros ret. apply talks_bind.
  { unfold send_packet_complete. destruct ret; [|apply talks_ret]. apply talks_if; [apply talks_ret|].
    apply talks_bind; [apply talks_emit|]. intros _. apply talks_bind; [apply talks_hook|].
    intros _. apply talks_ret. }
  intros [u|e]; [|apply talks_ret]. apply talks_bind; [apply talks_track|]. intros _. apply talks_ret.
Qed.

Lemma talks_send_mesh_pb mesh : talks (meshtastic_send_mesh_pb mesh).
Proof.
  destruct mesh as [mesh|]; [|apply talks_ret]. unfold meshtastic_send_mesh_pb.
  destruct (m_variant mesh); [by apply talks_send_packet| |apply talks_ret].
  case_if; [apply talks_ret|]. do 2 (apply talks_bind; [apply talks_gets|]; intros ?).
  apply talks_bind.
  { apply talks_if; [apply talks_ret|apply talks_allocate]. }
  intros id. rewrite within_bind by by apply wire_room. apply talks_bind; [by apply talks_enqueue|]. intros ret.
  apply talks_bind; [apply talks_if; [apply talks_ret|apply talks_hook]|]. intros _. apply talks_ret.
Qed.

Lemma talks_on_decoded p : talks (meshtastic_routing_on_decoded p).
Proof.
  unfold meshtastic_routing_on_decoded. apply talks_bind; [apply talks_gets|]. intros mt.
  apply talks_if; [apply talks_ret|]. apply talks_bind; [apply talks_on_routing|]. intros b.
  apply talks_if; [|apply talks_ret]. apply talks_bind; [|intros r; apply talks_ret].
  unfold routing_send_ack. apply talks_bind; [apply talks_gets|]. intros mt'.
  apply talks_if; [apply talks_ret|]. apply talks_bind; [apply talks_gets|]. intros ch.
  apply talks_bind; [apply talks_allocate|]. intros id.
  destruct (pb_encode _ _); [apply talks_send_mesh_pb|apply talks_ret].
Qed.

Lemma talks_try_decode garbage buf rssi snr : talks (try_decode garbage buf rssi snr).
Proof.
  apply talks_of; [apply keeps_try_decode|]. intros w HI. unfold try_decode. do 4 wp_step. rewrite wp_zoom.
  eapply wp_mono; [apply try_decode_keys, HI|]. by intros.
Qed.

Lemma talks_reack garbage buf rssi snr :
  (MESHTASTIC_HDR_LEN ≤ length buf)%nat → talks (reack_duplicate garbage buf rssi snr).
Proof.
  intros Hlen. unfold reack_duplicate. rewrite read_header_bind by done. apply talks_bind; [apply talks_gets|]. intros mt.
  apply talks_if; [apply talks_ret|]. apply talks_bind; [apply talks_try_decode|].
  intros [[p []]|e]; [apply talks_on_decoded|apply talks_ret..].
Qed.
End talk.

(** ** Properties of reception *)

Section reception.
Context {K L T : Type} `{KconfigRanges} `{PSALaws K} `{LoraLaws L} `{KernelLaws T}.
Context `{Pb Data} `{!PbLaws Data Data_ok} `{Pb User} `{Pb Routing} `{Pb Position} `{Pb Telemetry}.
Context `{Pb StatusMessage} `{Pb FromRadio}.
Context (fx : fixed) (mods : list (module K L T)) (garbage : packet).
Notation W := (world K L T).
Notation I := (world_wf (L:=L) (T:=T) fx).

(** C2: the node survives whatever the air brings: for every byte string of any
    length, every signal report and every state of the node that satisfies its
    invariant, the receive path returns; it reads no header of a frame that has
    none, and copies nothing past the end of the decryption buffer, of the
    decoded payload or of a 255-byte frame buffer (each of these accesses is
    undefined in the model); it leaves a state that satisfies the invariant
    again, with every key imported on the way destroyed.  Any modules may be
    registered whose own callbacks are safe. *)
Theorem process_lora_rx_safe buf rssi snr w :
  Forall (module_safe fx) mods → I w →
  ∃ w', meshtastic_router_process_lora_rx mods garbage buf rssi snr w = Some ((), w') ∧ I w'.
Proof.
  intros Hmods HI. destruct (wp_run (meshtastic_router_process_lora_rx mods garbage buf rssi snr)
    (λ _, I) w) as [([] & w' & Hr & Hw) _]; [by apply keeps_process|]. by exists w'.
Qed.

(** The state after a duplicate has been counted. *)
Definition dup_counted (ms : Z) (w : W) : W :=
  w <| w_mt ::= set mt_status (set duplicate_packets inc32) |>
    <| w_airtime ::= meshtastic_airtime_log AIRTIME_RX_ALL ms |>.

Lemma airtime_ms_run n (w : W) : ∃ ms, meshtastic_airtime_packet_ms n w = Some (ms, w).
Proof. by eexists. Qed.

Lemma dup_check_fresh src id (w : W) Q :
  (src, id) ∉ mt_dup_cache (w_mt w) → Q false w → wp (dup_check_ src id) Q w.
Proof.
  intros Hnew HQ. unfold dup_check_. wps. unfold dup_check. rewrite bool_decide_false by done.
  cbn. replace (w <| w_mt := w_mt w |>) with w by (by destruct w). done.
Qed.

Lemma duplicate_run buf rssi snr (w : W) (hdr := header_of buf) :
  (MESHTASTIC_HDR_LEN ≤ length buf)%nat →
  CONFIG_MQTT_IGNORE_MQTT && flags_via_mqtt (h_flags hdr) = false →
  (h_src hdr, h_id hdr) ∈ mt_dup_cache (w_mt w) →
  ∃ ms, meshtastic_router_process_lora_rx mods garbage buf rssi snr w =
        reack_duplicate garbage buf rssi snr (dup_counted ms w).
Proof.
  intros Hlen Hmq Hdup. unfold meshtastic_router_process_lora_rx.
  rewrite (proj2 (Nat.ltb_ge _ _)), read_header_bind by done. fold hdr. rewrite Hmq.
  destruct (airtime_ms_run (Z.of_nat (length buf)) w) as [ms Hms]. exists ms.
  unfold mbind, M_bind. rewrite Hms. unfold dup_check_, zoom, state, dup_check.
  by rewrite bool_decide_true.
Qed.

End reception.

(** ** Duplicates *)

(** the hop limit of an answer is the distance the request travelled plus
    a margin of two, capped by the node's own limit, but never less than that
    distance, so that the answer can get back; a request without a starting
    hop count gets 0, which the send path takes for a limit left open
    ([completed]). *)
Theorem reply_hops_spec req local (used := p_hop_start req - p_hop_limit req) :
  0 ≤ p_hop_limit req < 8 → 0 ≤ p_hop_start req < 8 → 0 ≤ local < 256 →
  let reply := routing_hop_limit_for_reply (Some req) local in
  (p_hop_start req = 0 → reply = 0) ∧
  (p_hop_start req ≠ 0 → used < 0 → reply = local) ∧
  (p_hop_start req ≠ 0 → 0 ≤ used →
     reply = Z.max used (Z.min local (used + ROUTING_REPLY_HOP_MARGIN))).
Proof.
  intros Hl Hs Hloc. unfold routing_hop_limit_for_reply, ROUTING_REPLY_HOP_MARGIN. cbv zeta.
  subst used. destruct (Z.eqb_spec (p_hop_start req) 0); [split_and!; intros; lia|].
  destruct (Z.ltb_spec (p_hop_start req) (p_hop_limit req)); [split_and!; intros; lia|].
  rewrite !u8_id by zmod.
  destruct (Z.ltb_spec local (p_hop_start req - p_hop_limit req)); [split_and!; intros; lia|].
  destruct (Z.ltb_spec (p_hop_start req - p_hop_limit req + 2) local); split_and!; intros; lia.
Qed.

Section duplicates.
Context {K L T : Type} `{KconfigRanges} `{PSALaws K} `{LoraLaws L} `{KernelLaws T}.
Context `{Pb Data} `{!PbLaws Data Data_ok} `{Pb User} `{Pb Position} `{Pb Telemetry}.
Context `{Pb StatusMessage} `{Pb FromRadio} `{Pb Routing} {Routing_ok : Routing → Prop}.
Context `{!PbLaws Routing Routing_ok}.
Context (fx : fixed) (mods : list (module K L T)) (garbage : packet).
Notation W := (world K L T).
Notation I := (world_wf (L:=L) (T:=T) fx).

(** How far the answer to [p] may travel: as far as [p] has, and two hops more
    if the node's own limit allows. *)
Definition ack_hops (w : W) (p : packet) : Z :=
  let used := p_hop_start p - p_hop_limit p in
  if bool_decide (p_hop_start p = 0) then 0
  else if bool_decide (used < 0) then mt_hop_limit (w_mt w)
  else Z.max used (Z.min (mt_hop_limit (w_mt w)) (used + 2)).

(** The acknowledgement of [p]. *)
Definition ack_packet (w : W) (p : packet) (id : Z) (payload : list Z) : packet :=
  packet_zero <| p_from := mt_node_id (w_mt w) |>
    <| p_to := if bool_decide (p_from p = 0) then MESHTASTIC_NODE_BROADCAST else p_from p |>
    <| p_id := id |> <| p_portnum := MESHTASTIC_PORT_ROUTING |>
    <| p_payload := Some payload |> <| p_payload_len := length payload |>
    <| p_request_id := p_id p |> <| p_channel_index := p_channel_index p |>
    <| p_hop_limit := ack_hops w p |> <| p_hop_start := ack_hops w p |>
    <| p_want_ack := bool_decide (p_portnum p = MESHTASTIC_PORT_TEXT_MESSAGE ∨
                                  p_portnum p = PortNum_TEXT_MESSAGE_COMPRESSED_APP) |>.

(** [p] has been acknowledged: what it says of the node's own packets has been
    taken note of ([w1], nothing if it is no ROUTING packet), and a blocking
    send of the acknowledgement under a fresh identifier has been run to its
    end; when that reports success the acknowledgement is the last frame on
    the air.  The ACK table is what the note left. *)
Definition acknowledged (p : packet) (w w' : W) : Prop :=
  ∃ b w1, meshtastic_reliable_on_routing (Some p) w = Some (b, w1) ∧
    (p_portnum p ≠ MESHTASTIC_PORT_ROUTING → w1 = w) ∧
    let '(id, mt) := meshtastic_allocate_packet_id (w_mt w1) in
    let w2 := w1 <| w_mt := mt |> in
    match pb_encode MESHTASTIC_MAX_PAYLOAD_LEN (mk_Routing true Routing_Error_NONE) with
    | None => w' = w2
    | Some payload =>
        let ack := ack_packet w p id payload in
        w_reliable w' = w_reliable w1 ∧
        ∃ ret, meshtastic_send_packet (Some ack) K_FOREVER w2 = Some (ret, w') ∧
          (ret = Ok () → left_node (completed mt (w_channels w) id ack) w2 w')
    end.

Lemma ack_hops_run w p :
  0 ≤ p_hop_limit p < 8 → 0 ≤ p_hop_start p < 8 → is_u8 (mt_hop_limit (w_mt w)) →
  routing_hop_limit_for_reply (Some p) (mt_hop_limit (w_mt w)) = ack_hops w p ∧ is_u8 (ack_hops w p).
Proof.
  intros Hl Hs Hm. destruct (reply_hops_spec p (mt_hop_limit (w_mt w)) Hl Hs Hm) as (E0 & Hneg & Hpos).
  unfold ack_hops. repeat case_bool_decide; [rewrite E0|rewrite Hneg|rewrite Hpos];
    unfold ROUTING_REPLY_HOP_MARGIN; try lia; (split; [done|zmod]).
Qed.

(** The packet the code sends through [meshtastic_send_mesh_pb]. *)
Lemma ack_mesh_packet w ch p id payload :
  0 ≤ p_hop_limit p < 8 → 0 ≤ p_hop_start p < 8 → is_u8 (mt_hop_limit (w_mt w)) →
  0 ≤ p_channel_index p < 8 → p_to p = mt_node_id (w_mt w) → p_want_ack p = true →
  ∃ data, m_variant (ack_mesh (w_mt w) ch p id payload) = PV_decoded data ∧
    packet_of_decoded (ack_mesh (w_mt w) ch p id payload) data = ack_packet w p id payload.
Proof.
  intros Hl Hs Hm Hc Hto Ha. eexists. split; [done|].
  destruct (ack_hops_run w p Hl Hs Hm) as [Hh Hu].
  unfold packet_of_decoded, ack_packet, ack_mesh, routing_ack_should_request_ack.
  rewrite Hh, Ha, Hto, Z.eqb_refl, (proj2 (Z.eqb_neq (p_channel_index p) _))
    by (unfold MESHTASTIC_CHANNEL_INDEX_INVALID; lia).
  generalize dependent (ack_hops w p). intros hops _ Hu. cbn [set negb andb]. cbn.
  rewrite (proj2 (Z.ltb_lt _ _)) by (unfold MESHTASTIC_MAX_CHANNELS; lia).
  rewrite !u8_id by (done || zmod).
  replace (if negb (p_from p =? 0) then p_from p else MESHTASTIC_NODE_BROADCAST) with
    (if bool_decide (p_from p = 0) then MESHTASTIC_NODE_BROADCAST else p_from p)
    by (case_bool_decide; destruct (Z.eqb_spec (p_from p) 0); done).
  replace (_ || _) with (bool_decide (p_portnum p = MESHTASTIC_PORT_TEXT_MESSAGE ∨
    p_portnum p = PortNum_TEXT_MESSAGE_COMPRESSED_APP)); [done|].
  apply eq_true_iff_eq. by rewrite bool_decide_eq_true, orb_true_iff, !Z.eqb_eq.
Qed.

Lemma on_routing_frame p (w : W) :
  ∃ b w1, meshtastic_reliable_on_routing (Some p) w = Some (b, w1) ∧
    w_mt w1 = w_mt w ∧ w_channels w1 = w_channels w ∧
    (p_portnum p ≠ MESHTASTIC_PORT_ROUTING → w1 = w).
Proof.
  rewrite on_routing_run. case_if; [by eexists _, _|].
  assert (p_portnum p = MESHTASTIC_PORT_ROUTING) as ->.
  { apply orb_false_iff in E as [[E%negb_false_iff%Z.eqb_eq _]%orb_false_iff _]. done. }
  by destruct (waiting_for _ _); eexists _, _.
Qed.

Lemma alloc_facts mt id mt' :
  context_ok mt → meshtastic_allocate_packet_id mt = (id, mt') →
  id ≠ 0 ∧ is_u32 id ∧ ∃ n, mt' = mt <| mt_next_pkt_id := n |>.
Proof.
  intros (_ & _ & Hn). unfold meshtastic_allocate_packet_id.
  destruct (next_nonzero_spec _ Hn) as (? & ? & _). destruct (next_nonzero _) as [i n].
  intros [= <- <-]. split_and!; try done. by exists n.
Qed.

Lemma completed_header mt ch id p hash :
  is_u32 (mt_node_id mt) → is_u32 (p_to p) → is_u32 (p_from p) → is_u32 id → is_u8 hash →
  is_u8 (p_next_hop p) → is_u8 (p_relay_node p) → header_ok (header_for (completed mt ch id p) hash).
Proof.
  intros. unfold header_ok, header_for. destruct p. rgoal. split_and!; try done.
  - by case_if.
  - apply header_flags_u8.
Qed.

Lemma ack_sent w w2 p id payload :
  I w2 → mt_initialized (w_mt w2) = true → context_ok (w_mt w) → w_channels w2 = w_channels w →
  mt_node_id (w_mt w2) = mt_node_id (w_mt w) → mt_hop_limit (w_mt w2) = mt_hop_limit (w_mt w) →
  is_u32 (p_from p) → id ≠ 0 → is_u32 id →
  0 ≤ p_hop_limit p < 8 → 0 ≤ p_hop_start p < 8 → 0 ≤ p_channel_index p < 8 →
  p_to p = mt_node_id (w_mt w) → p_want_ack p = true →
  pb_encode MESHTASTIC_MAX_PAYLOAD_LEN (mk_Routing true Routing_Error_NONE) = Some payload →
  wp (meshtastic_send_mesh_pb (Some (ack_mesh (w_mt w) (w_channels w) p id payload)))
    (λ ret w', w_reliable w' = w_reliable w2 ∧
      meshtastic_send_packet (Some (ack_packet w p id payload)) K_FOREVER w2 = Some (ret, w') ∧
      (ret = Ok () →
       left_node (completed (w_mt w2) (w_channels w) id (ack_packet w p id payload)) w2 w')) w2.
Proof.
  intros HI Hinit (Hnode & Hhop & _) Hch Hnid Hml Hf Hnz Hid Hl Hs Hc Hto Ha Hpb.
  destruct (ack_mesh_packet w (w_channels w) p id payload) as (data & Hv & Hp); try done.
  unfold meshtastic_send_mesh_pb. rewrite Hv, Hp. set (ack := ack_packet w p id payload).
  pose proof (ack_hops_run w p Hl Hs Hhop) as [_ Hah].
  assert (sent_id (w_mt w2) (p_id ack) = id) as Hsid.
  { unfold sent_id. cbn. by rewrite (proj2 (Z.eqb_neq _ _)). }
  assert (p_to ack ≠ 0 ∧ is_u32 (p_to ack)) as [Hto0 Htou].
  { cbn. case_bool_decide; [split; [done|unfold is_u32, MESHTASTIC_NODE_BROADCAST; lia]|done]. }
  assert (payload_invalid ack = false) as Hpi.
  { apply (pb_encode_length (X:=Routing)) in Hpb. by apply Nat.ltb_ge in Hpb. }
  assert (∀ hash, is_u8 hash → header_ok (header_for (completed (w_mt w2) (w_channels w2)
    (sent_id (w_mt w2) (p_id ack)) ack) hash)) as Hhdr.
  { intros hash Hh. rewrite Hsid. apply completed_header; try done. by rewrite Hnid. }
  destruct (proj1 (wp_run _ _ _) (send_forever_wp fx ack w2 HI Hinit Hto0 Hpi Hhdr))
    as (ret & w' & Hrun & _ & Hret). rewrite Hsid, Hch in Hret.
  apply wp_run. exists ret, w'. split_and!; try done.
  - destruct ret; [|apply Hret]. destruct Hret as (hash & rest & before & _ & _ & _ & _ & Ht).
    unfold tracked_if_awaited in Ht. rewrite bool_decide_false in Ht; [by case_match|].
    unfold awaits_ack. by intros (_ & _ & _ & _ & []).
  - by intros ->.
Qed.

(** What [meshtastic_routing_on_decoded] does with a packet that another node
    sent this one and wants acknowledged. *)
Lemma on_decoded_acknowledges p (w : W) :
  I w → mt_initialized (w_mt w) = true → context_ok (w_mt w) →
  is_u32 (p_from p) → is_u32 (p_id p) →
  0 ≤ p_hop_limit p < 8 → 0 ≤ p_hop_start p < 8 → 0 ≤ p_channel_index p < 8 →
  p_to p = mt_node_id (w_mt w) → p_from p ≠ mt_node_id (w_mt w) → p_want_ack p = true →
  wp (meshtastic_routing_on_decoded p) (λ _ w', acknowledged p w w') w.
Proof.
  intros HI Hinit Hctx Hf Hid Hl Hs Hc Hto Hne Ha. unfold meshtastic_routing_on_decoded.
  do 2 wp_step. rewrite Ha, Hto, Z.eqb_refl. rewrite (proj2 (Z.eqb_neq (p_from p) _)) by done.
  cbn [orb negb andb].
  destruct (on_routing_frame p w) as (b & w1 & Hrun & Hmt & Hch & Hsame).
  pose proof (keeps_on_routing fx p w HI) as HI1.
  rewrite wp_bind. unfold wp at 1 in HI1. unfold wp at 1. rewrite Hrun in HI1 |- *.
  unfold routing_send_ack. rewrite wp_bind. do 2 wp_step.
  rewrite Hmt, Hto, Z.eqb_refl. cbn [negb]. do 2 wp_step. unfold allocate_packet_id.
  rewrite wp_bind, wp_zoom, wp_state. rewrite Hmt, Hch.
  destruct (meshtastic_allocate_packet_id (w_mt w)) as [id mt] eqn:Ealloc. cbn [fst snd].
  destruct (alloc_facts _ _ _ Hctx Ealloc) as (Hnz & Hidu & n & Hn).
  assert (I (w1 <| w_mt := mt |>)) as HI2 by (subst mt; rewrite <- Hmt; by apply (same_wf_keeps fx w1)).
  destruct (pb_encode MESHTASTIC_MAX_PAYLOAD_LEN (mk_Routing true Routing_Error_NONE))
    as [payload|] eqn:Epb; cycle 1.
  { wps. exists b, w1. split_and!; try done. by rewrite Hmt, Ealloc, Epb. }
  eapply wp_mono; [eapply (ack_sent w _ p id payload)|]; try done.
  - subst mt. by destruct (w_mt w).
  - subst mt. by destruct (w_mt w).
  - subst mt. by destruct (w_mt w).
  - cbn. intros ret w' (Hr & Hsend & Hleft). wps. exists b, w1. split_and!; try done.
    rewrite Hmt, Ealloc, Epb. split; [done|]. by exists ret.
Qed.

Lemma header_fields_range buf :
  bytes_ok buf → is_u32 (h_src (header_of buf)) ∧ is_u32 (h_id (header_of buf)) ∧
  0 ≤ flags_hop_limit (h_flags (header_of buf)) < 8 ∧
  0 ≤ flags_hop_start (h_flags (header_of buf)) < 8.
Proof.
  intros Hok. split; [by apply get_le32_range, Forall_drop|].
  split; [by apply get_le32_range, Forall_drop|].
  split; [apply flags_hop_limit_range|apply flags_hop_start_range].
Qed.

(** C6: a repeated frame has no effect but its accounting: it is not delivered,
    not relayed, and reaches neither the modules nor the node database.  Only
    when its sender asks this node for an acknowledgement is it decoded again
    (first line of the branch) and, if it still decodes and is not the node's
    own, acknowledged once more: the acknowledgement is sent to the frame's
    sender, names its identifier, goes back on the channel it came in on with
    the hop limit of an answer, and is on the air when the send reports
    success.  Channels, node database, caches, phones, receive queue and
    duplicate cache stay as they were; so does the ACK table, unless the
    repeated packet is itself a ROUTING packet. *)
Theorem duplicate_dropped buf rssi snr w (hdr := header_of buf) :
  (MESHTASTIC_HDR_LEN ≤ length buf)%nat → bytes_ok buf →
  CONFIG_MQTT_IGNORE_MQTT && flags_via_mqtt (h_flags hdr) = false →
  (h_src hdr, h_id hdr) ∈ mt_dup_cache (w_mt w) →
  I w → context_ok (w_mt w) → mt_initialized (w_mt w) = true →
  ∃ ms w', meshtastic_router_process_lora_rx mods garbage buf rssi snr w = Some ((), w') ∧ I w' ∧
    if flags_want_ack (h_flags hdr) && (h_dest hdr =? mt_node_id (w_mt w)) then
      ∃ r k, meshtastic_try_decode_wire_packet (w_nodedb w) (w_channels w) garbage (Some buf)
               rssi snr MESHTASTIC_MAX_PAYLOAD_LEN (w_psa w) = Some (r, k) ∧
        let w1 := dup_counted ms w <| w_psa := k |> in
        talk_frame w1 w' ∧
        match r with
        | Ok (p, true) =>
            p_from p = h_src hdr ∧ p_id p = h_id hdr ∧
            if h_src hdr =? mt_node_id (w_mt w) then w' = w1 else acknowledged p w1 w'
        | _ => w' = w1
        end
    else w' = dup_counted ms w.
Proof.
  intros Hlen Hok Hmq Hdup HI Hctx Hinit.
  destruct (duplicate_run mods garbage buf rssi snr w Hlen Hmq Hdup) as [ms Hrun].
  exists ms. rewrite Hrun. clear Hrun. case_if; cycle 1.
  { exists (dup_counted ms w). split_and!; try done; [|by apply (same_wf_keeps fx w)].
    unfold reack_duplicate. rewrite read_header_bind by done. unfold mbind, M_bind, gets.
    fold hdr. change (mt_node_id (w_mt (dup_counted ms w))) with (mt_node_id (w_mt w)).
    apply andb_false_iff in E as [-> | ->]; [done|]. by rewrite orb_true_r. }
  apply andb_true_iff in E as [Ewa Edst%Z.eqb_eq].
  assert (I (dup_counted ms w)) as HI' by (by apply (same_wf_keeps fx w); [constructor|]).
  pose proof (talks_wp _ _ _ (talks_reack fx garbage buf rssi snr Hlen) HI') as Hw.
  apply wp_run in Hw as ([] & w' & Hrun & HIw & Ht). exists w'. split_and!; [done..|].
  pose proof (try_decode_keys (w_nodedb w) (w_channels w) garbage buf rssi snr
    MESHTASTIC_MAX_PAYLOAD_LEN (w_psa w) (ww_channels _ _ HI)) as Hkeys.
  pose proof (try_decode_safe (w_nodedb w) (w_channels w) garbage buf rssi snr
    MESHTASTIC_MAX_PAYLOAD_LEN (w_psa w) (ww_channels _ _ HI)) as Hdec.
  apply wp_run in Hdec as (r & k & Hdec & Hk & Hr). exists r, k.
  split; [done|]. cbv zeta. split; [by destruct Ht|].
  set (w1 := dup_counted ms w <| w_psa := k |>).
  assert (I w1) as HI1 by (by apply (same_wf_keeps fx (dup_counted ms w)); [constructor|]).
  assert (reack_duplicate garbage buf rssi snr (dup_counted ms w) =
    match r with
    | Ok (p, true) => meshtastic_routing_on_decoded p w1
    | _ => Some ((), w1)
    end) as Hre.
  { unfold reack_duplicate. rewrite read_header_bind by done. fold hdr.
    unfold try_decode, zoom, mbind, M_bind, gets.
    change (mt_node_id (w_mt (dup_counted ms w))) with (mt_node_id (w_mt w)).
    rewrite Ewa, Edst, Z.eqb_refl. cbn [negb orb].
    change (w_nodedb (dup_counted ms w)) with (w_nodedb w).
    change (w_channels (dup_counted ms w)) with (w_channels w).
    change (w_psa (dup_counted ms w)) with (w_psa w). rewrite Hdec.
    by destruct r as [[p []]|e]. }
  rewrite Hre in Hrun.
  destruct r as [[p []]|e]; [|by injection Hrun..].
  destruct Hr as (Hf & Hto & Hid & Hl & Hs & Ha & _ & _ & Hch & _). split_and!; [done..|].
  fold hdr in Hf, Hto, Hid, Hl, Hs, Ha. case_if.
  - apply Z.eqb_eq in E. revert Hrun. unfold meshtastic_routing_on_decoded, mbind, M_bind, gets.
    change (mt_node_id (w_mt w1)) with (mt_node_id (w_mt w)).
    rewrite Hf, E, Z.eqb_refl, orb_true_r. by intros [= <-].
  - apply Z.eqb_neq in E.
    assert (wp (meshtastic_routing_on_decoded p) (λ _ w', acknowledged p w1 w') w1) as Hack.
    { destruct (header_fields_range buf Hok) as (? & ? & ? & ?).
      apply on_decoded_acknowledges; rewrite ?Hf, ?Hid, ?Hl, ?Hs, ?Hto, ?Ha; done. }
    unfold wp in Hack. by rewrite Hrun in Hack.
Qed.

End duplicates.

(** ** Local delivery *)

Section delivery.
Context {K L T : Type} `{KconfigRanges} `{PSALaws K} `{LoraDriver L} `{Kernel T} `{Pb Data} `{Pb FromRadio}.
Context (fx : fixed).
Notation W := (world K L T).
Notation I := (world_wf (L:=L) (T:=T) fx).

(** The frame has been appended to a phone's queue, the oldest one giving way
    in a full queue. *)
Definition phone_got (f : list Z) (api api' : phoneapi) : Prop :=
  ∀ l, ring_repr api l →
    ring_repr api' ((if (length l =? ph_queue_size api)%nat then tail l else l) ++ [f]).

Lemma push_all_wp from f post : ∀ pre (w : W),
  meshtastic_phoneapi_encode_fromradio_frame from = Ok f →
  w_phones w = pre ++ post → Forall (λ api, ∃ l, ring_repr api l) post →
  wp (mapM_ (λ i, meshtastic_phoneapi_enqueue_fromradio i from ;; mret ())
        (seq (length pre) (length post)))
    (λ _ w', ∃ post', Forall2 (phone_got f) post post' ∧ w' = w <| w_phones := pre ++ post' |>) w.
Proof.
  induction post as [|api post IH]; intros pre w Hf Hp Hr; cbn [length seq mapM_].
  { wps. exists []. split; [constructor|]. rewrite <- Hp. by destruct w. }
  apply Forall_cons in Hr as [[l Hl] Hr]. rewrite wp_bind.
  destruct (proj1 (wp_run _ _ _) (ring_push_wp api l f Hl)) as ([] & api' & Hrun & _).
  assert (wp (meshtastic_phoneapi_enqueue_fromradio (length pre) from ;; mret ())
    (λ _ w', w' = w <| w_phones := (pre ++ [api']) ++ post |>) w) as Hone.
  { unfold meshtastic_phoneapi_enqueue_fromradio. rewrite Hf. do 2 rewrite wp_bind.
    unfold wp at 1, on_phone. rewrite Hp, list_lookup_middle by done. rewrite Hrun. wps.
    unfold set. f_equal. rewrite Hp, <- app_assoc. cbn.
    by rewrite insert_app_r_alt, Nat.sub_diag by done. }
  eapply wp_mono; [exact Hone|]. cbn beta. intros u w1 ->.
  replace (S (length pre)) with (length (pre ++ [api'])) by (rewrite length_app; cbn; lia).
  eapply wp_mono; [by apply IH|]. cbn beta. intros u' w2 (post' & Hall & ->).
  exists (api' :: post'). split; [|by rewrite <- app_assoc]. constructor; [|done].
  intros l' Hl'. pose proof (ring_push_wp api l' f Hl') as Hw. unfold wp in Hw. rewrite Hrun in Hw.
  apply Hw.
Qed.

(** C7: delivery reaches every consumer: the application's receive callback and
    its event callback run with the packet, in this order and once each where
    they are registered, and, unless the packet cannot be encoded, every
    connected phone's queue gains the same frame, a FromRadio message with a
    fresh non-zero number and the packet, at its end. *)
Theorem deliver_spec p (w : W) (mt := w_mt w) :
  I w → is_u32 (mt_next_fromradio_id mt) →
  ∃ w', deliver_packet p w = Some ((), w') ∧
    w_trace w' = w_trace w ++ (if mt_recv_cb mt then [Ob_recv p] else []) ++
      (if mt_event_cb mt then [Ob_event (mk_event PACKET_RECEIVED None (Some p))] else []) ∧
    match meshtastic_packet_to_mesh_pb (Some p) with
    | Err _ => w_phones w' = w_phones w
    | Ok mesh => ∃ id, id ≠ 0 ∧
        match meshtastic_phoneapi_encode_fromradio_frame (mk_FromRadio id (FR_packet mesh)) with
        | Err _ => w_phones w' = w_phones w
        | Ok f => Forall2 (phone_got f) (w_phones w) (w_phones w')
        end
    end.
Proof.
  intros HI Hid. unfold deliver_packet.
  set (tr := (if mt_recv_cb mt then [Ob_recv p] else []) ++
      (if mt_event_cb mt then [Ob_event (mk_event PACKET_RECEIVED None (Some p))] else [])).
  enough (wp (mt ← gets (S:=W) w_mt;
    (if mt_recv_cb mt then modify (set w_trace (λ tr, tr ++ [Ob_recv p])) else mret ()) ;;
    meshtastic_emit_event PACKET_RECEIVED None (Some p) ;; meshtastic_phoneapi_on_packet p)
    (λ _ w', w_trace w' = w_trace w ++ tr ∧
      match meshtastic_packet_to_mesh_pb (Some p) with
      | Err _ => w_phones w' = w_phones w
      | Ok mesh => ∃ id, id ≠ 0 ∧
          match meshtastic_phoneapi_encode_fromradio_frame (mk_FromRadio id (FR_packet mesh)) with
          | Err _ => w_phones w' = w_phones w
          | Ok f => Forall2 (phone_got f) (w_phones w) (w_phones w')
          end
      end) w) as Hw.
  { apply wp_run in Hw as ([] & w' & ? & ?). by exists w'. }
  do 2 wp_step. fold mt. rewrite wp_bind.
  apply wp_mono with (Q := λ _ w', w' = w <| w_trace := w_trace w ++
    (if mt_recv_cb mt then [Ob_recv p] else []) |>).
  { case_if; wps; [done|]. rewrite app_nil_r. by destruct w. }
  intros u1 w1 ->. rewrite wp_bind.
  apply wp_mono with (Q := λ _ w', w' = w <| w_trace := w_trace w ++ tr |>).
  { unfold meshtastic_emit_event. do 2 wp_step. cbn. fold mt. subst tr.
    destruct (mt_event_cb mt); wps; unfold set; cbn; [by rewrite <- app_assoc|by rewrite app_nil_r]. }
  intros u2 w2 ->. unfold meshtastic_phoneapi_on_packet, next_fromradio_id. do 3 wp_step.
  cbn -[meshtastic_packet_to_mesh_pb]. unfold meshtastic_next_fromradio_id. pose proof (next_nonzero_spec _ Hid) as (Hnz & _).
  fold mt. destruct (next_nonzero _) as [id n]. cbn -[meshtastic_packet_to_mesh_pb] in Hnz |- *.
  destruct (meshtastic_packet_to_mesh_pb (Some p)) as [mesh|e]; [|by wps].
  do 2 wp_step. cbn. set (w1 := w <| w_trace := _ |> <| w_mt := _ |>).
  destruct (meshtastic_phoneapi_encode_fromradio_frame (mk_FromRadio id (FR_packet mesh)))
    as [f|] eqn:Ef.
  - eapply wp_mono; [apply (push_all_wp _ f (w_phones w) [] w1); [done..|apply HI]|].
    cbn beta. intros u3 w3 (post' & Hall & ->). split; [done|]. exists id. rewrite Ef. done.
  - eapply wp_mono with (Q := λ _ w', w' = w1).
    + apply (wp_mapM _ (λ w', w' = w1)); [done|]. intros i ? _ ->.
      unfold meshtastic_phoneapi_enqueue_fromradio. rewrite Ef. by wps.
    + intros u3 ? ->. split; [done|]. exists id. by rewrite Ef.
Qed.
End delivery.

(** ** The mock node hears a frame *)

#[local] Existing Instance default_kconfig.
#[local] Existing Instance default_kconfig_ranges.
#[local] Instance no_User : Pb User := pb_silent User.
#[local] Instance no_Position : Pb Position := pb_silent Position.
#[local] Instance no_Telemetry : Pb Telemetry := pb_silent Telemetry.
#[local] Instance no_Status : Pb StatusMessage := pb_silent StatusMessage.
#[local] Instance one_FromRadio : Pb FromRadio :=
  {| pb_encode _ from := Some [fr_id from `mod` 256]; pb_decode _ := None |}.

(** A broadcast of node 9 with three hops left. *)
Definition heard_frame : list Z :=
  [255; 255; 255; 255; 9; 0; 0; 0; 55; 0; 0; 0; 0x63; 8; 0; 0; 1; 2; 3].
Definition hearing_world : world toy_psa mock_lora mock_kernel :=
  (mock_world (mock_radio 0) (mock_clock false)) <| w_phones := [meshtastic_phoneapi_init [[]; []]] |>.
Lemma hearing_world_wf : world_wf (mk_fixed ∅ 1 store_bss []) hearing_world.
Proof.
  destruct (mock_world_wf (mock_radio 0) (mock_clock false)). constructor; try done.
  repeat constructor. exists []. by constructor; cbn; lia || done.
Qed.
Lemma heard_frame_air : air_frame heard_frame.
Proof. split; [by apply (bool_decide_unpack _); vm_compute|cbn; unfold MESHTASTIC_HDR_LEN, MESHTASTIC_PKT_MAX; lia]. Qed.

Lemma process_lora_rx_safe_witness :
  ∃ w', meshtastic_router_process_lora_rx stock_modules packet_zero heard_frame (-80) 6 hearing_world
    = Some ((), w') ∧ world_wf (mk_fixed ∅ 1 store_bss []) w'.
Proof.
  apply process_lora_rx_safe; [apply stock_modules_safe|apply hearing_world_wf].
Defined.

(** A text of node 9 to this node, heard again, that asks for an
    acknowledgement. *)
Definition asking_frame : list Z :=
  [7; 0; 0; 0; 9; 0; 0; 0; 55; 0; 0; 0; 107; 8; 0; 0; 128; 128; 130; 131; 132; 133; 134; 135;
   136; 137; 138; 139; 140; 141; 142; 143; 144; 145; 146; 147; 148; 253; 255].
Definition asked_world : world toy_psa mock_lora mock_kernel := hearing_world <| w_mt ::= dup_add 9 55 |>.
Lemma asked_world_wf : world_wf (mk_fixed ∅ 1 store_bss []) asked_world.
Proof. pose proof hearing_world_wf as []. constructor; done || (cbn; lia). Qed.

Lemma duplicate_dropped_witness (w := asked_world) :
  ∃ ms w' p k, meshtastic_router_process_lora_rx stock_modules packet_zero asking_frame (-80) 6 w
    = Some ((), w') ∧ p_from p = 9 ∧ p_id p = 55 ∧
    acknowledged p (dup_counted ms w <| w_psa := k |>) w'.
Proof.
  destruct (duplicate_dropped (mk_fixed ∅ 1 store_bss []) stock_modules packet_zero asking_frame (-80) 6 w)
    as (ms & w' & Hr & _ & H).
  - cbn. unfold MESHTASTIC_HDR_LEN. lia.
  - by apply (bool_decide_unpack _); vm_compute.
  - done.
  - by apply (bool_decide_unpack _); vm_compute.
  - apply asked_world_wf.
  - split_and!; by apply (bool_decide_unpack _); vm_compute.
  - done.
  - assert (flags_want_ack (h_flags (header_of asking_frame))
      && (h_dest (header_of asking_frame) =? mt_node_id (w_mt w)) = true) as E1 by by vm_compute.
    assert ((h_src (header_of asking_frame) =? mt_node_id (w_mt w)) = false) as E2 by by vm_compute.
    assert (h_src (header_of asking_frame) = 9) as E3 by by vm_compute.
    assert (h_id (header_of asking_frame) = 55) as E4 by by vm_compute.
    rewrite E1 in H. destruct H as (r & k & Hdec & _ & Hp). rewrite E2, E3, E4 in Hp.
    assert (∃ p k, meshtastic_try_decode_wire_packet (w_nodedb w) (w_channels w) packet_zero
      (Some asking_frame) (-80) 6 MESHTASTIC_MAX_PAYLOAD_LEN (w_psa w) = Some (Ok (p, true), k))
      as (p & k' & Hd) by (eexists _, _; by vm_compute).
    rewrite Hd in Hdec. injection Hdec as <- <-. destruct Hp as (Hf & Hid & Hack).
    exists ms, w', p, k'. exact (conj Hr (conj Hf (conj Hid Hack))).
Defined.

Lemma relay_spec_witness :
  meshtastic_routing_sniff_rebroadcast (header_of heard_frame) heard_frame
    (packet_zero <| p_id := 55 |>) hearing_world =
    Some ((), after_relay heard_frame hearing_world) ∧
  relayed heard_frame = <[12%nat := 0x62]> heard_frame.
Proof.
  split; [|by vm_compute].
  destruct (relay_spec heard_frame (packet_zero <| p_id := 55 |>) hearing_world heard_frame_air)
    as [-> _].
  assert (bool_decide (relay_wanted hearing_world (header_of heard_frame)
      (p_id (packet_zero <| p_id := 55 |>))) &&
    (length (out_queue (w_outbound hearing_world)) <? CONFIG_OUTBOUND_QUEUE_DEPTH)%nat = true)
    as E by (by vm_compute).
  by rewrite E.
Defined.

Lemma relay_path_bounded_witness :
  same_packet heard_frame (relayed heard_frame) ∧ (1 ≤ 7)%nat.
Proof.
  destruct (relay_path_bounded (K:=toy_psa) (L:=mock_lora) (T:=mock_kernel) 1 heard_frame
    (relayed heard_frame)) as (_ & ? & _ & ?); [|apply heard_frame_air|done].
  eapply (path_hop 0 _ heard_frame _ (packet_zero <| p_id := 55 |>) hearing_world);
    [constructor|by vm_compute|by vm_compute].
Defined.

Lemma reply_hops_spec_witness :
  routing_hop_limit_for_reply (Some (packet_zero <| p_hop_start := 7 |> <| p_hop_limit := 2 |>)) 3
    = 5.
Proof.
  destruct (reply_hops_spec (packet_zero <| p_hop_start := 7 |> <| p_hop_limit := 2 |>) 3)
    as (_ & _ & ->); cbn; done || lia.
Defined.

Lemma deliver_spec_witness :
  ∃ w', deliver_packet hello_packet hearing_world = Some ((), w') ∧
    w_trace w' = [Ob_recv hello_packet; Ob_event (mk_event PACKET_RECEIVED None (Some hello_packet))].
Proof.
  destruct (deliver_spec (mk_fixed ∅ 1 store_bss []) hello_packet hearing_world hearing_world_wf) as (w' & Hr & Ht & _).
  { by apply (bool_decide_unpack _); vm_compute. }
  by exists w'.
Defined.
