(* ===== verification/Node.v ===== *)
(** * The whole node as a transition system

    What the environment can make the node do, as one sequence of events in
    the order the kernel runs them: frames from the radio, the receive thread,
    the transmit worker, the retry timer, the application, the NodeInfo and
    telemetry threads, the position service, phones and a gateway.  The theorem
    is that no sequence of events reaches undefined behaviour or breaks the
    invariant. *)

From S2P Require Import Prelude Types External Mock Core Airtime Channels NodeDB Wire Store World.
From S2P Require Import Radio Reliable PhoneApi Handshake Invariant Send NodeInfo Router Telemetry Position Reception.

(** An event.  The transports name their phone by its number. *)
Inductive node_event :=
  | Ev_air (data : list Z) (rssi snr : Z)        (** the driver's receive callback *)
  | Ev_rx_thread                                 (** one turn of the receive thread *)
  | Ev_tx_worker                                 (** one turn of the transmit worker *)
  | Ev_retry_timer                               (** the retransmission work item *)
  | Ev_tick                                      (** the airtime tick *)
  | Ev_send (p : option packet) (wait : timeout) (** the application sends *)
  | Ev_send_node_info (dest : Z)
  | Ev_nodeinfo                                  (** one round of the NodeInfo thread *)
  | Ev_telemetry                                 (** one round of the telemetry thread *)
  | Ev_fix (ours : bool) (data : option gnss_data) (** the GNSS receiver publishes *)
  | Ev_position_work                             (** the position work item *)
  | Ev_gateway (mesh : option MeshPacket)        (** a packet from a gateway *)
  | Ev_phone_write (i : nat) (buf : list Z)
  | Ev_phone_read (i : nat)
  | Ev_phone_peek (i : nat)
  | Ev_phone_done (i : nat)
  | Ev_phone_unread (i : nat) (frame : list Z)
  | Ev_phone_reset (i : nat).

Section node.
Context {K L T : Type} `{Kconfig} `{PSA K} `{LoraDriver L} `{Kernel T} `{Libc}.
Context `{Pb Data} `{Pb User} `{Pb Routing} `{Pb Position} `{Pb Telemetry} `{Pb StatusMessage}.
Context `{Pb FromRadio} `{Pb ToRadio} `{TelemetryConfig} `{TelemetryDrivers T} `{PositionConfig}.
Notation W := (world K L T).
Context (mods : list (module K L T)) (garbage : packet).

(** Only a registered transport calls in. *)
Definition registered (i : nat) (m : M W ()) : M W () :=
  phones ← gets (S:=W) w_phones;
  if (i <? length phones)%nat then m else mret ().

Definition node_exec (ev : node_event) : M W () :=
  match ev with
  | Ev_air data rssi snr => mt_rx_cb data rssi snr
  | Ev_rx_thread => mt_thread_step (meshtastic_router_process_lora_rx mods garbage)
  | Ev_tx_worker => outbound_worker_step
  | Ev_retry_timer => reliable_work_fn
  | Ev_tick => modify (set w_airtime meshtastic_airtime_tick)
  | Ev_send p wait => meshtastic_send_packet p wait ;; mret ()
  | Ev_send_node_info dest => meshtastic_send_node_info dest ;; mret ()
  | Ev_nodeinfo => nodeinfo_thread_round
  | Ev_telemetry => telemetry_thread_round
  | Ev_fix ours data => gnss_data_cb ours data
  | Ev_position_work => position_work_handler
  | Ev_gateway mesh => meshtastic_inject_downlink_mesh_packet mods mesh ;; mret ()
  | Ev_phone_write i buf => registered i (meshtastic_phoneapi_handle_toradio i buf)
  | Ev_phone_read i => registered i (meshtastic_phoneapi_pop_frame i ;; mret ())
  | Ev_phone_peek i => registered i (meshtastic_phoneapi_current_frame i ;; mret ())
  | Ev_phone_done i => registered i (on_phone i meshtastic_phoneapi_current_frame_complete)
  | Ev_phone_unread i frame => registered i (on_phone i (meshtastic_phoneapi_push_frame_front frame))
  | Ev_phone_reset i => registered i (on_phone i meshtastic_phoneapi_reset)
  end.

Fixpoint node_run (evs : list node_event) : M W () :=
  match evs with [] => mret () | ev :: evs => node_exec ev ;; node_run evs end.
End node.

(** The one thing the environment must not do: wait on the transmit queue with
    a time limit ([Radio.enqueue_timeout_dangles] says why). *)
Definition event_ok (ev : node_event) : Prop :=
  match ev with Ev_send _ wait => safe_wait wait = true | _ => True end.

(** ** The threads *)

(** Nobody waits for a retransmission. *)
Lemma waiters_live_retries q es n fr :
  waiters_live q fr → waiters_live (q ++ take n (retry_item <$> es)) fr.
Proof.
  intros Hl it f [Hin|Hin]%elem_of_app Hf; [by eapply Hl|].
  apply elem_of_take in Hin as (i & Hi & _). rewrite list_lookup_fmap in Hi.
  destruct (es !! i); [|done]. by injection Hi as <-.
Qed.

Section threads.
Context {K L T : Type} `{KconfigRanges} `{PSALaws K} `{LoraLaws L} `{KernelLaws T}.
Context (fx : fixed).
Notation W := (world K L T).
Notation I := (world_wf (L:=L) (T:=T) fx).

Lemma keeps_rx_cb data rssi snr : keeps I (mt_rx_cb data rssi snr).
Proof.
  intros w HI. unfold wp. pose proof (rx_cb_run (data, rssi, snr) w) as Hr. cbn [fst snd] in Hr.
  rewrite Hr. repeat case_if; try done; by apply (same_wf_keeps fx w).
Qed.

Lemma keeps_arm_rx : keeps I mt_radio_arm_rx.
Proof.
  intros w HI. eapply wp_mono; [apply arm_rx_spec|]. intros ret w' [Hf _].
  eapply tx_frame_wf; [by apply tx_frame_radio|done|]. destruct Hf as [_ _ _ _ -> _ _ _ _ _]. apply HI.
Qed.

Lemma keeps_thread_step process :
  (∀ buf rssi snr, keeps I (process buf rssi snr)) → keeps I (mt_thread_step process).
Proof.
  intros Hp w HI. unfold mt_thread_step. do 2 wp_step. destruct (w_rx_queue w) as [|slot q].
  - do 2 wp_step. case_if; [|by wps]. rewrite wp_bind.
    eapply wp_mono; [by apply keeps_arm_rx|]. intros ret w' HI'. by wps.
  - do 2 wp_step. apply Hp. by apply (same_wf_keeps fx w).
Qed.

Lemma keeps_worker_step : keeps I outbound_worker_step.
Proof.
  intros w HI. destruct (out_queue (w_outbound w)) as [|it q] eqn:Hq.
  { unfold outbound_worker_step. do 2 wp_step. rewrite Hq. by wps. }
  destruct (ww_outbound _ _ HI) as [Hb Hl Hf]. rewrite Hq in *.
  eapply wp_mono; [apply (worker_step_spec it q w Hq); by eapply waiters_live_head|].
  cbn beta. intros u w' (ret & Htx & _ & Hout & _). eapply tx_frame_wf; [done..|]. rewrite Hout.
  constructor; cbn [out_queue out_frames out_next_frame].
  - cbn in Hb. lia.
  - apply store_result_live. intros it' f Hin. apply Hl. by right.
  - intros f Hle. unfold store_result. cbn. destruct (it_waiter it) as [g|] eqn:Eg; [|by apply Hf].
    rewrite lookup_insert_ne; [by apply Hf|]. intros ->.
    destruct (Hl it f) as [x Hx]; [left|done|]. by rewrite (Hf f Hle) in Hx.
Qed.

Lemma keeps_work_fn : keeps I reliable_work_fn.
Proof.
  intros w HI. eapply wp_mono; [apply work_fn_wp, HI|]. cbn beta.
  intros u w' (es' & t & Hs & ->). pose proof (ww_entries _ _ HI) as Hes.
  destruct (ww_outbound _ _ HI) as [Hb Hl Hf]. destruct HI. constructor; try done.
  - constructor; cbn; [|by apply waiters_live_retries|done].
    rewrite length_app, length_take. lia.
  - cbn. rewrite rearm_entries. cbn. by rewrite <- (Forall2_length _ _ _ Hs).
  - cbn. rewrite rearm_entries. cbn. by eapply entry_step_all_wf.
Qed.
End threads.

(** ** The phones *)

Section phones.
Context {K L T : Type} `{KconfigRanges} `{PSALaws K} `{LoraLaws L} `{KernelLaws T}.
Context `{Pb Data} `{!PbLaws Data Data_ok} `{Pb FromRadio} `{Pb ToRadio} `{Libc}.
Context (fx : fixed).
Notation W := (world K L T).
Notation I := (world_wf (L:=L) (T:=T) fx).

Definition ring_ok (api : phoneapi) : Prop := ∃ l, ring_repr api l.

(** The invariant while transport [i] is being served. *)
Definition serving (i : nat) (w : W) : Prop := I w ∧ (i < length (w_phones w))%nat.

Lemma ring_ok_ext api api' :
  ph_queue api' = ph_queue api → ph_head api' = ph_head api → ph_tail api' = ph_tail api →
  ph_count api' = ph_count api → ring_ok api → ring_ok api'.
Proof.
  intros Eq Eh Et Ec [l []]. exists l. unfold ph_queue_size in *.
  constructor; unfold ph_queue_size; rewrite ?Eq, ?Eh, ?Et, ?Ec; done.
Qed.
Lemma ring_ok_reset api api' :
  ph_queue api' = ph_queue api → ph_head api' = 0%nat → ph_tail api' = 0%nat →
  ph_count api' = 0%nat → ring_ok api → ring_ok api'.
Proof.
  intros Eq Eh Et Ec [l []]. exists []. unfold ph_queue_size in *.
  constructor; unfold ph_queue_size; rewrite ?Eq, ?Eh, ?Et, ?Ec; cbn; try done; try lia.
  by rewrite Nat.Div0.mod_0_l.
Qed.

(** What is done to the phone's own state. *)
Lemma serving_phone {A} i (m : M phoneapi A) (Q : A → phoneapi → Prop) (w : W) :
  serving i w →
  (∀ api, w_phones w !! i = Some api → ring_ok api → wp m (λ a api', ring_ok api' ∧ Q a api') api) →
  wp (on_phone i m) (λ a w', serving i w' ∧ ∃ api', w_phones w' !! i = Some api' ∧ Q a api') w.
Proof.
  intros [HI Hi] Hm.
  eapply wp_mono; [apply (on_phone_wp fx i m (λ a w', (i < length (w_phones w'))%nat ∧
    ∃ api', w_phones w' !! i = Some api' ∧ Q a api') w HI)|].
  - by apply lookup_lt_is_Some.
  - intros api l Hapi Hl. eapply wp_mono; [apply (Hm api Hapi); by exists l|]. cbn beta.
    intros a api' [Hr HQ]. split; [done|]. cbn. rewrite length_insert. split; [done|].
    exists api'. split; [by apply list_lookup_insert_eq|done].
  - intros a w' [HI' [Hlen Hex]]. by split.
Qed.
Lemma serving_on_phone {A} i (m : M phoneapi A) :
  keeps ring_ok m → keeps (serving i) (on_phone i m).
Proof.
  intros Hm w Hs. eapply wp_mono; [apply (serving_phone i m (λ _ _, True) w Hs)|].
  - intros api _ Hr. eapply wp_mono; [by apply Hm|]. by intros.
  - by intros a w' [].
Qed.

Lemma serving_same {A} i (m : M W A) :
  keeps I m → (∀ w, I w → wp m (λ _ w', w_phones w' = w_phones w) w) → keeps (serving i) m.
Proof.
  intros Hk Hf w [HI Hi]. eapply wp_mono; [apply wp_and; [by apply Hk|by apply Hf]|].
  cbn beta. intros a w' [HI' Hp]. split; [done|]. by rewrite Hp.
Qed.
Lemma serving_next_id i : keeps (serving i) next_fromradio_id.
Proof.
  apply serving_same; [apply keeps_fromradio_id|]. intros w _. unfold wp.
  by rewrite next_id_run.
Qed.

Lemma keeps_ring_modify f :
  (∀ api, ph_queue (f api) = ph_queue api ∧ ph_head (f api) = ph_head api ∧
     ph_tail (f api) = ph_tail api ∧ ph_count (f api) = ph_count api) →
  keeps ring_ok (modify f).
Proof. intros Hf. apply keeps_modify. intros api. apply ring_ok_ext; apply Hf. Qed.

Lemma keeps_ring_push f : keeps ring_ok (ring_push f).
Proof.
  intros api [l Hl]. eapply wp_mono; [by apply ring_push_wp|]. intros u api' (_ & _ & Hr).
  by eexists.
Qed.
Lemma keeps_ring_front f : keeps ring_ok (meshtastic_phoneapi_push_frame_front f).
Proof.
  intros api [l Hl]. eapply wp_mono; [by apply ring_front_wp|]. intros u api' (_ & Hr). by eexists.
Qed.

Lemma serving_enqueue i from : keeps (serving i) (meshtastic_phoneapi_enqueue_fromradio i from).
Proof.
  unfold meshtastic_phoneapi_enqueue_fromradio.
  destruct (meshtastic_phoneapi_encode_fromradio_frame from); [|apply keeps_ret].
  apply keeps_bind; [apply serving_on_phone, keeps_ring_push|]. intros u. apply keeps_ret.
Qed.

Lemma serving_emit i from state index : keeps (serving i) (emit_frame i from state index).
Proof.
  unfold emit_frame. destruct (meshtastic_phoneapi_encode_fromradio_frame from); [|apply keeps_ret].
  apply keeps_bind; [by apply serving_on_phone, keeps_ring_modify|]. intros u. apply keeps_ret.
Qed.

Lemma serving_loop i fill this next tags : ∀ index,
  keeps (serving i) (config_loop i fill tags this next index).
Proof.
  induction tags as [|tag tags IH]; intros index; cbn [config_loop]; [apply keeps_ret|].
  apply keeps_bind; [apply serving_next_id|]. intros id.
  apply keeps_bind; [apply keeps_gets|]. intros st. destruct (fill st tag id).
  - apply keeps_bind; [apply serving_emit|]. intros ret. apply keeps_ret.
  - apply keeps_bind; [by apply serving_on_phone, keeps_ring_modify|]. intros u. apply IH.
Qed.

(** How often the outer loop may still go round from a state. *)
Definition rounds (state : config_state) : nat :=
  match state with CONFIG_CONFIGS => 2 | CONFIG_MODULES => 1 | _ => 0 end.
Definition rounds_left (i : nat) (w : W) : nat :=
  match w_phones w !! i with Some api => rounds (ph_config_state api) | None => 0%nat end.

Definition progress (i n : nat) (r : option (result (list Z))) (w' : W) : Prop :=
  serving i w' ∧ (r = None → (rounds_left i w' < n)%nat).

Lemma progress_some i n (m : M W (result (list Z))) w :
  keeps (serving i) m → serving i w →
  wp (ret ← m; mret (Some ret)) (progress i n) w.
Proof.
  intros Hm Hs. rewrite wp_bind. eapply wp_mono; [by apply Hm|]. intros r w' Hs'. by wps.
Qed.

Lemma progress_loop i fill tags this next index state n w :
  (rounds state < n)%nat → serving i w →
  wp (ret ← config_loop i fill tags this next index;
      match ret with
      | Some ret => mret (Some ret)
      | None => on_phone i (modify (λ api, api <| ph_config_state := state |>
                                              <| ph_config_index := 0%nat |>)) ;; mret None
      end) (progress i n) w.
Proof.
  intros Hn Hs. rewrite wp_bind. eapply wp_mono; [by apply serving_loop|].
  intros [ret|] w1 Hs1; [by wps|]. rewrite wp_bind.
  eapply wp_mono; [apply (serving_phone i _ (λ _ api', ph_config_state api' = state) w1 Hs1)|].
  - intros api _ Hr. wps. split; [by apply (ring_ok_ext api)|done].
  - intros u w2 [Hs2 (api' & Hi & Hst)]. wps. split; [done|]. intros _. unfold rounds_left.
    by rewrite Hi, Hst.
Qed.

Lemma iteration_wp i w : serving i w → wp (config_iteration i) (progress i (rounds_left i w)) w.
Proof.
  intros Hs. unfold config_iteration.
  destruct (lookup_lt_is_Some_2 _ _ (proj2 Hs)) as [api Hi].
  rewrite wp_bind. unfold wp at 1. rewrite (on_phone_gets id i api w Hi). cbn [id].
  do 6 wp_step. unfold rounds_left. rewrite Hi.
  destruct (ph_config_state api) eqn:Est; try (by wps);
    try (rewrite wp_bind; eapply wp_mono; [by apply serving_next_id|]; intros n w1 Hs1;
         apply progress_some; [apply serving_emit|done]).
  - apply progress_loop; [cbn; lia|done].
  - apply progress_loop; [cbn; lia|done].
Qed.

(** Three iterations are enough. *)
Lemma next_config_frame_total i fuel : ∀ w,
  serving i w → (rounds_left i w < fuel)%nat → wp (next_config_frame_ fuel i) (λ _, serving i) w.
Proof.
  induction fuel as [|fuel IH]; intros w Hs Hr; cbn [next_config_frame_]; [lia|].
  rewrite wp_bind. eapply wp_mono; [by apply iteration_wp|].
  intros [ret|] w' [Hs' Hn]; [by wps|]. apply IH; [done|]. specialize (Hn eq_refl). lia.
Qed.
Lemma serving_next_config i : keeps (serving i) (meshtastic_phoneapi_next_config_frame i).
Proof.
  intros w Hs. apply next_config_frame_total; [done|]. unfold rounds_left.
  destruct (w_phones w !! i) as [api|]; [|lia]. destruct (ph_config_state api); cbn; lia.
Qed.

Lemma serving_pop i w api :
  serving i w → w_phones w !! i = Some api → ph_count api ≠ 0%nat →
  wp (on_phone i ring_pop) (λ _, serving i) w.
Proof.
  intros Hs Hi Hc. eapply wp_mono; [apply (serving_phone i _ (λ _ _, True) w Hs)|by intros a w' []].
  intros api' Hi' [l Hl]. rewrite Hi in Hi'. injection Hi' as <-.
  destruct l as [|f l]; [by destruct Hl|]. eapply wp_mono; [by apply ring_pop_wp|].
  intros g api' (_ & _ & _ & Hr). split; [by eexists|done].
Qed.

Lemma serving_pop_frame i : keeps (serving i) (meshtastic_phoneapi_pop_frame i).
Proof.
  intros w Hs. unfold meshtastic_phoneapi_pop_frame.
  destruct (lookup_lt_is_Some_2 _ _ (proj2 Hs)) as [api Hi].
  rewrite wp_bind. unfold wp at 1. rewrite (on_phone_gets id i api w Hi). cbn [id].
  destruct (Nat.eqb_spec (ph_count api) 0) as [Hz|Hc].
  - case_if; [|by wps]. rewrite wp_bind. eapply wp_mono; [by apply serving_next_config|].
    intros [f|e] w' Hs'; by wps.
  - rewrite wp_bind. eapply wp_mono; [by eapply serving_pop|]. intros f w' Hs'. by wps.
Qed.

Lemma serving_current i : keeps (serving i) (meshtastic_phoneapi_current_frame i).
Proof.
  assert (∀ frame, keeps (serving i) (on_phone i (modify (set ph_current (λ _, Some frame))) ;;
    mret (Some frame))) as Hset.
  { intros frame. apply keeps_bind; [by apply serving_on_phone, keeps_ring_modify|].
    intros u. apply keeps_ret. }
  intros w Hs. unfold meshtastic_phoneapi_current_frame.
  destruct (lookup_lt_is_Some_2 _ _ (proj2 Hs)) as [api Hi].
  rewrite wp_bind. unfold wp at 1. rewrite (on_phone_gets id i api w Hi). cbn [id].
  destruct (ph_current api); [by wps|].
  destruct (Nat.ltb_spec 0 (ph_count api)) as [Hc|Hz].
  - rewrite wp_bind. eapply wp_mono; [eapply serving_pop; [done..|lia]|].
    intros f w' Hs'. by apply Hset.
  - case_if; [|by wps]. rewrite wp_bind. eapply wp_mono; [by apply serving_next_config|].
    intros [f|e] w' Hs'; [by apply Hset|by wps].
Qed.

Lemma serving_queue_status i res id :
  keeps (serving i) (meshtastic_phoneapi_enqueue_queue_status i res id).
Proof.
  unfold meshtastic_phoneapi_enqueue_queue_status.
  do 2 (apply keeps_bind; [apply serving_on_phone, keeps_gets|]; intros ?).
  apply keeps_bind; [apply serving_next_id|]. intros n.
  apply keeps_bind; [apply serving_enqueue|]. intros u. apply keeps_ret.
Qed.

Lemma serving_phone_config i req : keeps (serving i) (meshtastic_phoneapi_enqueue_phone_config i req).
Proof.
  unfold meshtastic_phoneapi_enqueue_phone_config. apply keeps_bind.
  { apply serving_on_phone, keeps_modify. intros api. by apply ring_ok_reset. }
  intros u. apply keeps_bind; [by apply serving_on_phone, keeps_ring_modify|]. intros u'.
  by apply serving_on_phone, keeps_ring_modify.
Qed.

Lemma serving_toradio i buf : keeps (serving i) (meshtastic_phoneapi_handle_toradio i buf).
Proof.
  unfold meshtastic_phoneapi_handle_toradio. cbv zeta.
  lazymatch goal with |- keeps _ (match ?d with Some to => _ | None => _ end) => destruct d as [to|] end;
    [|apply keeps_ret]. destruct to as [mesh|id| | |].
  - apply keeps_bind; [|intros ret; apply serving_queue_status].
    apply serving_same; [apply keeps_send_mesh_pb|]. intros w HI.
    eapply wp_mono; [apply (talks_wp fx _ w (talks_send_mesh_pb fx (Some mesh)) HI)|].
    by intros ret w' [_ [_ _ _ Hp _ _ _ _]].
  - apply serving_phone_config.
  - by apply serving_on_phone, keeps_ring_modify.
  - apply serving_queue_status.
  - apply keeps_ret.
Qed.

Lemma keeps_registered i m : keeps (serving i) m → keeps I (registered i m).
Proof.
  intros Hm w HI. unfold registered. do 2 wp_step. case_if; [|by wps].
  eapply wp_mono; [apply Hm; split; [done|by apply Nat.ltb_lt]|]. by intros u w' [].
Qed.
End phones.

(** ** No event breaks the node *)

Section node_safe.
Context {K L T : Type} `{KconfigRanges} `{PSALaws K} `{LoraLaws L} `{KernelLaws T} `{Libc}.
Context `{Pb Data} `{!PbLaws Data Data_ok} `{Pb User} `{Pb Routing} `{Pb Position} `{Pb Telemetry}.
Context `{Pb StatusMessage} `{Pb FromRadio} `{Pb ToRadio}.
Context `{TelemetryConfig} `{TelemetryDrivers T} `{PositionConfig}.
Context (fx : fixed) (mods : list (module K L T)) (garbage : packet).
Context (Hmods : Forall (module_safe fx) mods).
Notation W := (world K L T).
Notation I := (world_wf (L:=L) (T:=T) fx).

Lemma keeps_then {A} (m : M W A) : keeps I m → keeps I (m ;; mret ()).
Proof. intros Hm. apply keeps_bind; [done|]. intros a. apply keeps_ret. Qed.

Lemma keeps_send_node_info dest : keeps I (meshtastic_send_node_info dest).
Proof.
  unfold meshtastic_send_node_info, meshtastic_send_node_info_ex, nodeinfo_build_packet.
  apply keeps_bind.
  - do 2 (apply keeps_bind; [apply keeps_gets|]; intros ?). apply keeps_ret.
  - intros [p|e]; [by apply keeps_send_packet|apply keeps_ret].
Qed.

Lemma keeps_event ev : event_ok ev → keeps I (node_exec mods garbage ev).
Proof.
  intros Hok. destruct ev; cbn [node_exec].
  - apply keeps_rx_cb.
  - apply keeps_thread_step. intros. by apply keeps_process.
  - apply keeps_worker_step.
  - apply keeps_work_fn.
  - apply keeps_modify. intros w. by apply (same_wf_keeps fx w).
  - by apply keeps_then, keeps_send_packet.
  - apply keeps_then, keeps_send_node_info.
  - apply keeps_bind; [apply keeps_send_node_info|]. intros _. apply keeps_sleeping.
  - apply keeps_telemetry_round.
  - apply keeps_gnss_cb.
  - apply keeps_position_work.
  - by apply keeps_then, keeps_inject.
  - apply (keeps_registered fx), serving_toradio.
  - apply (keeps_registered fx), keeps_bind; [apply serving_pop_frame|]. intros. apply keeps_ret.
  - apply (keeps_registered fx), keeps_bind; [apply serving_current|]. intros. apply keeps_ret.
  - by apply (keeps_registered fx), serving_on_phone, keeps_ring_modify.
  - apply (keeps_registered fx), serving_on_phone, keeps_ring_front.
  - apply (keeps_registered fx), serving_on_phone, keeps_modify. intros api. by apply ring_ok_reset.
Qed.

(** C1: no history breaks the node: from every state that satisfies the
    invariant, any sequence of received frames, thread turns, timer firings,
    sends, telemetry rounds, position fixes, gateway packets and phone
    accesses runs to its end (no operation
    loops for ever or touches memory it must not), and the invariant holds
    after it: the channel table, the node table, the transmit queue and its
    waiting callers, the pending packets, the phone queues and the caches are
    well-formed, the crypto service holds no key it did not hold before, the
    transports are as many, and the stored configuration is untouched. *)
Theorem node_safe evs w :
  Forall event_ok evs → I w →
  ∃ w', node_run mods garbage evs w = Some ((), w') ∧ I w'.
Proof.
  intros Hevs. revert w. induction Hevs as [|ev evs Hok _ IH]; intros w HI; cbn [node_run].
  - by exists w.
  - destruct (proj1 (wp_run _ _ _) (keeps_event ev Hok w HI)) as ([] & w1 & Hr & HI1).
    destruct (IH w1 HI1) as (w2 & Hr2 & HI2). exists w2.
    unfold mbind, M_bind. by rewrite Hr.
Qed.
End node_safe.

(** ** A history of the mock node *)

#[local] Existing Instance default_kconfig.
#[local] Existing Instance default_kconfig_ranges.
#[local] Instance no_User : Pb User := pb_silent User.
#[local] Existing Instance byte_position.
#[local] Existing Instance byte_telemetry.
#[local] Existing Instance bare_board.
#[local] Existing Instance no_drivers.
#[local] Existing Instance default_position_config.
#[local] Instance no_Status : Pb StatusMessage := pb_silent StatusMessage.
#[local] Instance plain_FromRadio : Pb FromRadio :=
  {| pb_encode _ from := Some [fr_id from `mod` 256]; pb_decode _ := None |}.
(** A phone whose every message asks for the configuration. *)
#[local] Instance asking_ToRadio : Pb ToRadio :=
  {| pb_encode _ _ := None; pb_decode _ := Some (TR_want_config_id 77) |}.

Definition busy_day : list node_event :=
  [Ev_air heard_frame (-80) 6; Ev_rx_thread; Ev_tx_worker; Ev_air heard_frame (-80) 6; Ev_rx_thread;
   Ev_phone_write 0 [1]; Ev_phone_read 0; Ev_phone_peek 0; Ev_phone_unread 0 [5]; Ev_phone_read 1;
   Ev_send (Some hello_packet) K_FOREVER; Ev_telemetry; Ev_nodeinfo; Ev_fix true (Some grenoble); Ev_position_work;
   Ev_retry_timer; Ev_tick; Ev_phone_reset 0].

Lemma node_safe_witness :
  (∃ w', node_run full_modules packet_zero busy_day hearing_world = Some ((), w') ∧ world_wf (mk_fixed ∅ 1 store_bss []) w') ∧
  (∃ w', node_run full_modules packet_zero busy_day hearing_world = Some ((), w') ∧
     length (mock_air (w_lora w')) = 4%nat ∧ duplicate_packets (mt_status (w_mt w')) = 1).
Proof.
  split.
  - apply node_safe; [apply full_modules_safe|by repeat constructor|apply hearing_world_wf].
  - eexists. by split; [vm_compute; reflexivity|].
Defined.
