(* ===== verification/Ble.v ===== *)
(** * Bluetooth transport (src/meshtastic_ble.c)

    The GATT service between a phone and its PhoneAPI queue: the frame staged
    for the FromRadio characteristic and read in pieces, the ToRadio buffer,
    the two work items, and the connection callbacks.  Proved: a client that
    reads each frame to its last short piece gets the queue's frames in order;
    one whose frame is a multiple of the piece loses the frame after it. *)

From S2P Require Import Prelude Types External Mock Core Airtime Channels NodeDB Wire Store World.
From S2P Require Import Radio Reliable PhoneApi Handshake Invariant Send NodeInfo Router Telemetry Position Reception Node.

(** The options of Kconfig.ble, and what the code relies on of the Bluetooth
    host: [bt_gatt_attr_read buf_len offset value] gives the piece it copied,
    or [None] for the error INVALID_OFFSET. *)
Class BtHost := {
  bt_gatt_attr_read : nat → nat → list Z → option (list Z)
}.
Class BtHostLaws `{BtHost} := {
  attr_read_piece len offset value :
    (offset ≤ length value)%nat → bt_gatt_attr_read len offset value = Some (take len (drop offset value));
  attr_read_past len offset value :
    (length value < offset)%nat → bt_gatt_attr_read len offset value = None
}.

(** The static [ble], whose [api] is transport [bl_phone], and the statics of
    the staged frame.  A connection is named by a number.  [bl_staged] and
    [bl_buf] are the [len] data bytes of [fromradio_staged] and the
    [fromradio_len] bytes of [fromradio_buf].  A work item is whether it is
    queued.  [bl_notified] and [bl_hangups] are what the host was asked: the
    values notified and the connections to close. *)
Record ble := mk_ble {
  bl_phone : nat; bl_fromnum_notify_enabled : bool; bl_log_notify_enabled : bool; bl_conn : option nat;
  bl_to_radio_buf : list Z; bl_to_radio_len : nat; bl_to_radio_work : bool; bl_fromradio_work : bool;
  bl_staged : list Z; bl_buf : list Z; bl_ready : bool;
  bl_notified : list (nat * Z); bl_hangups : list nat
}.
#[export] Instance ble_set : Settable ble := λ x,
  mk_ble (bl_phone x) (bl_fromnum_notify_enabled x) (bl_log_notify_enabled x) (bl_conn x)
    (bl_to_radio_buf x) (bl_to_radio_len x) (bl_to_radio_work x) (bl_fromradio_work x)
    (bl_staged x) (bl_buf x) (bl_ready x) (bl_notified x) (bl_hangups x).

Definition BT_GATT_CCC_NOTIFY : Z := 1.
Definition BT_GATT_CCC_INDICATE : Z := 2.
Definition BT_GATT_WRITE_FLAG_PREPARE : Z := 1.
Definition logradio_msg : list Z := str_bytes "Zephyr Meshtastic" ++ [10].

Section ble.
Context {K L T : Type} `{Kconfig} `{PSA K} `{LoraDriver L} `{Kernel T} `{Libc}.
Context `{Pb Data} `{Pb User} `{Pb Routing} `{Pb Position} `{Pb Telemetry} `{Pb StatusMessage}.
Context `{Pb FromRadio} `{Pb ToRadio} `{TelemetryConfig} `{TelemetryDrivers T} `{PositionConfig} `{BtHost}.
Notation W := (world K L T).
Notation G := (ble * W)%type.
Context (mods : list (module K L T)) (garbage : packet).

Definition on_ble {A} (m : M ble A) : M G A := λ s,
  match m s.1 with Some (a, b) => Some (a, (b, s.2)) | None => None end.
Definition on_world {A} (m : M W A) : M G A := λ s,
  match m s.2 with Some (a, w) => Some (a, (s.1, w)) | None => None end.
Definition ble_api {A} (m : M phoneapi A) : M G A :=
  i ← gets (S:=G) (λ s, bl_phone s.1);
  on_world (on_phone i m).

Definition schedule_fromradio_prepare : M ble () := modify (set bl_fromradio_work (λ _, true)).
Definition ble_data_ready : M ble () := schedule_fromradio_prepare.
Definition ble_invalidate_delivery : M G () :=
  on_ble (modify (λ b, b <| bl_ready := false |> <| bl_buf := [] |>)) ;;
  ble_api meshtastic_phoneapi_current_frame_reset.
Definition ble_disconnect : M ble () :=
  modify (λ b, match bl_conn b with
               | Some conn => b <| bl_hangups ::= (λ l, l ++ [conn]) |>
               | None => b
               end).

(** Run something of the node, with the callbacks it makes on this transport:
    the model counts them, none returns a value, and none reads what the
    caller still has to write. *)
Definition with_callbacks {A} (m : M W A) : M G A :=
  before ← gets (S:=G) (λ s, w_phones s.2 !! bl_phone s.1);
  a ← on_world m;
  after ← gets (S:=G) (λ s, w_phones s.2 !! bl_phone s.1);
  match before, after with
  | Some api, Some api' =>
      (if (ph_invalidations api <? ph_invalidations api')%nat then ble_invalidate_delivery else mret ()) ;;
      (if (ph_data_ready api <? ph_data_ready api')%nat then on_ble ble_data_ready else mret ()) ;;
      (if (ph_disconnects api <? ph_disconnects api')%nat then on_ble ble_disconnect else mret ()) ;;
      mret a
  | _, _ => mret a
  end.

(** ** FromRadio *)

Definition notify_fromnum : M G () :=
  num ← ble_api (gets ph_from_num);
  on_ble (modify (λ b,
    match bl_conn b with
    | Some conn => if bl_fromnum_notify_enabled b then b <| bl_notified ::= (λ l, l ++ [(conn, num)]) |> else b
    | None => b
    end)).

Definition fromradio_work_handler : M G () :=
  ready ← gets (S:=G) (λ s, bl_ready s.1);
  if (ready : bool) then mret ()
  else
    i ← gets (S:=G) (λ s, bl_phone s.1);
    frame ← on_world (meshtastic_phoneapi_current_frame i);
    match frame with
    | None => mret ()
    | Some frame =>
        on_ble (modify (set bl_staged (λ _, frame))) ;;
        ble_api (modify (set ph_from_num (λ n, u32 (n + 1)))) ;;
        on_ble (modify (set bl_ready (λ _, true))) ;;
        notify_fromnum
    end.

Definition read_fromnum (len offset : nat) : M G (option (list Z)) :=
  num ← ble_api (gets ph_from_num);
  mret (bt_gatt_attr_read len offset (le32 num)).

Definition read_fromradio (len offset : nat) : M G (option (list Z)) :=
  (if (offset =? 0)%nat
   then on_ble (modify (λ b, b <| bl_buf := if bl_ready b then bl_staged b else [] |>))
   else mret ()) ;;
  buf ← gets (S:=G) (λ s, bl_buf s.1);
  let ret := bt_gatt_attr_read len offset buf in
  match ret with
  | None => mret ret
  | Some piece =>
      if (0 <? length buf)%nat && (length buf <=? offset + length piece)%nat then
        ble_api meshtastic_phoneapi_release_current_frame ;;
        on_ble (modify (set bl_ready (λ _, false)) ;; schedule_fromradio_prepare) ;;
        mret ret
      else mret ret
  end.

Definition read_logradio (len offset : nat) : option (list Z) := bt_gatt_attr_read len offset logradio_msg.

Definition fromnum_ccc_changed (value : Z) : M ble () :=
  modify (set bl_fromnum_notify_enabled (λ _, value =? BT_GATT_CCC_NOTIFY)).
Definition logradio_ccc_changed (value : Z) : M ble () :=
  modify (set bl_log_notify_enabled
    (λ _, negb (Z.land value (Z.lor BT_GATT_CCC_NOTIFY BT_GATT_CCC_INDICATE) =? 0))).

(** ** ToRadio *)

Definition to_radio_work_handler : M G () :=
  b ← gets (S:=G) fst;
  on_ble (modify (set bl_to_radio_len (λ _, 0%nat))) ;;
  with_callbacks (meshtastic_phoneapi_handle_toradio (bl_phone b)
                    (take (bl_to_radio_len b) (bl_to_radio_buf b))).

(** [None]: the error INVALID_ATTRIBUTE_LEN. *)
Definition write_toradio (buf : list Z) (offset : nat) (flags : Z) : M ble (option nat) :=
  let len := length buf in
  let prepare := negb (Z.land flags BT_GATT_WRITE_FLAG_PREPARE =? 0) in
  if (MESHTASTIC_API_FRAME_MAX <? offset + len)%nat then mret None
  else
    modify (λ b,
      let b := if (offset =? 0)%nat && negb prepare then b <| bl_to_radio_len := 0%nat |> else b in
      b <| bl_to_radio_buf := take offset (bl_to_radio_buf b) ++ buf ++ drop (offset + len) (bl_to_radio_buf b) |>
        <| bl_to_radio_len := (bl_to_radio_len b `max` (offset + len))%nat |>) ;;
    (if prepare then mret () else modify (set bl_to_radio_work (λ _, true))) ;;
    mret (Some len).

(** ** Connections *)

Definition connected (conn : nat) (err : bool) : M G () :=
  if err then mret ()
  else
    on_ble (modify (λ b, b <| bl_conn := match bl_conn b with Some c => Some c | None => Some conn end |>)) ;;
    on_world (modify (set w_mt (meshtastic_set_ble_connected true)) ;;
              meshtastic_emit_event BLE_CONNECTED None None).

Definition disconnected (conn : nat) : M G () :=
  on_ble (modify (λ b, if bool_decide (bl_conn b = Some conn) then b <| bl_conn := None |> else b)) ;;
  ble_invalidate_delivery ;;
  ble_api meshtastic_phoneapi_reset ;;
  on_ble (modify (set bl_fromradio_work (λ _, false))) ;;
  on_world (modify (set w_mt (meshtastic_set_ble_connected false)) ;;
            meshtastic_emit_event BLE_DISCONNECTED None None).

(** ** The service as a transition system *)

(** The callbacks of the host, the work queue's turns, and the rest of the
    node. *)
Inductive ble_event :=
  | Bl_connected (conn : nat) (err : bool)
  | Bl_disconnected (conn : nat)
  | Bl_read_fromradio (len offset : nat)
  | Bl_read_fromnum (len offset : nat)
  | Bl_write (buf : list Z) (offset : nat) (flags : Z)
  | Bl_fromnum_ccc (value : Z)
  | Bl_logradio_ccc (value : Z)
  | Bl_fromradio_work
  | Bl_to_radio_work
  | Bl_node (ev : node_event).

(** A queued item leaves the queue, then its handler runs. *)
Definition run_work (queued : ble → bool) `{!Setter queued} (handler : M G ()) : M G () :=
  q ← gets (S:=G) (λ s, queued s.1);
  if (q : bool) then on_ble (modify (set queued (λ _, false))) ;; handler else mret ().

Definition ble_exec (ev : ble_event) : M G () :=
  match ev with
  | Bl_connected conn err => connected conn err
  | Bl_disconnected conn => disconnected conn
  | Bl_read_fromradio len offset => read_fromradio len offset ;; mret ()
  | Bl_read_fromnum len offset => read_fromnum len offset ;; mret ()
  | Bl_write buf offset flags => on_ble (write_toradio buf offset flags) ;; mret ()
  | Bl_fromnum_ccc value => on_ble (fromnum_ccc_changed value)
  | Bl_logradio_ccc value => on_ble (logradio_ccc_changed value)
  | Bl_fromradio_work => run_work bl_fromradio_work fromradio_work_handler
  | Bl_to_radio_work => run_work bl_to_radio_work to_radio_work_handler
  | Bl_node ev => with_callbacks (node_exec mods garbage ev)
  end.
Fixpoint ble_run (evs : list ble_event) : M G () :=
  match evs with [] => mret () | ev :: evs => ble_exec ev ;; ble_run evs end.

(** ** A client *)

(** It reads one frame with pieces of at most [n] bytes until a piece is
    shorter; the work queue has its turn before a read where [sched] says. *)
Fixpoint long_read (sched : list bool) (n offset : nat) : M G (list Z) :=
  match sched with
  | [] => mret []
  | turn :: sched =>
      (if (turn : bool) then run_work bl_fromradio_work fromradio_work_handler else mret ()) ;;
      piece ← read_fromradio n offset;
      match piece with
      | None => mret []
      | Some piece =>
          if (length piece <? n)%nat then mret piece
          else rest ← long_read sched n (offset + n); mret (piece ++ rest)
      end
  end.

(** Frame after frame, with a turn of the work queue before each. *)
Fixpoint client (scheds : list (list bool)) (n : nat) : M G (list (list Z)) :=
  match scheds with
  | [] => mret []
  | sched :: scheds =>
      run_work bl_fromradio_work fromradio_work_handler ;;
      frame ← long_read sched n 0;
      frames ← client scheds n;
      mret (frame :: frames)
  end.
End ble.

(** ** Frames staged, read and released *)

Section delivery.
Context {K L T : Type} `{KconfigRanges} `{Pb FromRadio} `{BtHostLaws}.
Notation W := (world K L T).
Notation G := (ble * W)%type.

Lemma wp_on_ble {A} (m : M ble A) Q (s : G) : wp (on_ble m) Q s ↔ wp m (λ a b, Q a (b, s.2)) s.1.
Proof. unfold wp, on_ble. by destruct (m s.1) as [[a b]|]. Qed.
Lemma wp_on_world {A} (m : M W A) Q (s : G) : wp (on_world m) Q s ↔ wp m (λ a w, Q a (s.1, w)) s.2.
Proof. unfold wp, on_world. by destruct (m s.2) as [[a w]|]. Qed.
Lemma wp_on_phone {A} i (m : M phoneapi A) Q (w : W) api :
  w_phones w !! i = Some api → wp m (λ a api', Q a (w <| w_phones ::= <[i := api']> |>)) api → wp (on_phone i m) Q w.
Proof. intros Hi Hm. unfold wp, on_phone in *. rewrite Hi. by destruct (m api) as [[a api']|]. Qed.
Lemma wp_ble_api {A} (m : M phoneapi A) Q (s : G) api :
  w_phones s.2 !! bl_phone s.1 = Some api →
  wp m (λ a api', Q a (s.1, s.2 <| w_phones ::= <[bl_phone s.1 := api']> |>)) api → wp (ble_api m) Q s.
Proof. intros Hi Hm. unfold ble_api. wps. rewrite wp_on_world. by eapply wp_on_phone. Qed.

(** The service between operations: the frame offered to the client, the
    frames queued behind it, the FromNum value, what was notified, and the
    subscriber; no handshake is going on. *)
Record offers (s : G) (current : option (list Z)) (l : list (list Z)) (num : Z)
    (notes : list (nat * Z)) (link : option nat * bool) (api : phoneapi) : Prop := {
  of_api : w_phones s.2 !! bl_phone s.1 = Some api;
  of_ring : ring_repr api l;
  of_idle : ph_config_state api = CONFIG_IDLE;
  of_current : ph_current api = current;
  of_num : ph_from_num api = num;
  of_ready : bl_ready s.1 = bool_decide (is_Some current);
  of_staged f : current = Some f → bl_staged s.1 = f;
  of_notes : bl_notified s.1 = notes;
  of_link : (bl_conn s.1, bl_fromnum_notify_enabled s.1) = link
}.
Definition offering s current l num notes link : Prop := ∃ api, offers s current l num notes link api.

(** What a subscriber is told of the new value. *)
Definition told (link : option nat * bool) (num : Z) : list (nat * Z) :=
  match link with (Some conn, true) => [(conn, num)] | _ => [] end.

Lemma phones_insert (w : W) i api api' :
  w_phones w !! i = Some api → w_phones (w <| w_phones ::= <[i := api']> |>) !! i = Some api'.
Proof. intros Hi. cbn. apply list_lookup_insert_eq. by eapply lookup_lt_Some. Qed.

Lemma current_takes i f l api (w : W) :
  w_phones w !! i = Some api → ring_repr api (f :: l) → ph_current api = None →
  wp (meshtastic_phoneapi_current_frame i) (λ r w', r = Some f ∧ ∃ api', w_phones w' !! i = Some api' ∧
    ring_repr api' l ∧ ph_current api' = Some f ∧ ph_from_num api' = ph_from_num api ∧
    ph_config_state api' = ph_config_state api) w.
Proof.
  intros Hapi Hring Hcur. unfold meshtastic_phoneapi_current_frame. rewrite wp_bind.
  eapply wp_on_phone; [exact Hapi|]. wps. cbn [id]. rewrite Hcur, (rr_count _ _ Hring).
  cbn [length Nat.ltb Nat.leb]. rewrite wp_bind.
  eapply wp_on_phone; [by eapply phones_insert|]. eapply wp_mono; [by apply ring_pop_wp|].
  intros g api1 (-> & (Hcur1 & Hnum1 & Hidle1 & _) & _ & Hring1).
  rewrite wp_bind. eapply wp_on_phone; [by eapply phones_insert, phones_insert|]. wps. split; [done|].
  eexists. split; [by eapply phones_insert, phones_insert, phones_insert|]. cbn.
  split_and!; [by destruct Hring1|done..].
Qed.

(** An empty service stages the oldest frame. *)
Lemma work_stages (s : G) f l num notes link :
  offering s None (f :: l) num notes link → bl_fromradio_work s.1 = true →
  wp (run_work bl_fromradio_work fromradio_work_handler) (λ _ s', bl_fromradio_work s'.1 = false ∧
    bl_buf s'.1 = bl_buf s.1 ∧ offering s' (Some f) l (u32 (num + 1)) (notes ++ told link (u32 (num + 1))) link) s.
Proof.
  intros [api [Hapi Hring Hidle Hcur Hnum Hready _ Hnotes Hlink]] Hq. unfold run_work. wps. rewrite Hq. wps.
  rewrite wp_on_ble. wps. unfold fromradio_work_handler. wps. cbn. rewrite Hready. cbn. wps. cbn.
  rewrite wp_on_world. cbn [fst snd]. eapply wp_mono; [by eapply current_takes|].
  intros r w1 (-> & api1 & Hapi1 & Hring1 & Hcur1 & Hnum1 & Hidle1). cbn [fst snd]. wps.
  rewrite wp_on_ble. wps.
  eapply wp_ble_api; [exact Hapi1|]. wps. cbn [fst snd]. rewrite wp_on_ble. wps. cbn [fst snd].
  unfold notify_fromnum. rewrite wp_bind. eapply wp_ble_api; [by eapply phones_insert|]. wps. cbn [fst snd].
  rewrite wp_on_ble. wps. cbn [fst snd].
  cbn. subst link. unfold offering.
  destruct (bl_conn s.1) as [conn|] eqn:Ec; [destruct (bl_fromnum_notify_enabled s.1) eqn:Ee|];
    (split; [done|]; split; [done|]); eexists; (constructor; [by eapply phones_insert, phones_insert|cbn..]); try done.
  all: first [by destruct Hring1|rewrite ?app_nil_r; congruence].
Qed.

Lemma current_none i api (w : W) :
  w_phones w !! i = Some api → ring_repr api [] → ph_current api = None → ph_config_state api = CONFIG_IDLE →
  wp (meshtastic_phoneapi_current_frame i) (λ r w', r = None ∧ w_phones w' !! i = Some api) w.
Proof.
  intros Hapi Hring Hcur Hidle. unfold meshtastic_phoneapi_current_frame. rewrite wp_bind.
  eapply wp_on_phone; [exact Hapi|]. wps. cbn [id]. rewrite Hcur, (rr_count _ _ Hring).
  cbn [length Nat.ltb Nat.leb]. unfold config_active. rewrite Hidle. cbn. wps. split; [done|].
  by eapply phones_insert.
Qed.

(** A turn changes nothing while a frame is staged, or with none to stage. *)
Lemma work_quiet (s : G) current l num notes link :
  offering s current l num notes link → (is_Some current ∨ l = []) →
  wp (run_work bl_fromradio_work fromradio_work_handler) (λ _ s', bl_buf s'.1 = bl_buf s.1 ∧
    offering s' current l num notes link) s.
Proof.
  intros [api Ho] Hc. unfold run_work. wps. destruct (bl_fromradio_work s.1); wps; [|by split; [|exists api]].
  rewrite wp_on_ble. wps. unfold fromradio_work_handler. wps. cbn. destruct Ho as [Hapi Hring Hidle Hcur Hnum Hready Hst Hnotes Hlink].
  rewrite Hready. case_bool_decide as Hs; wps.
  { split; [done|]. exists api. constructor; try done. cbn. by rewrite Hready, bool_decide_true. }
  destruct Hc as [Hc|Hc]; [done|]. subst l. destruct current; [by destruct Hs|]. cbn.
  rewrite wp_on_world. cbn [fst snd]. eapply wp_mono; [by eapply current_none|].
  intros r w' [-> Hapi']. wps. split; [done|]. exists api. by constructor.
Qed.

(** One read, of the buffer [f] that was copied from the staged frame when the
    read at offset 0 came: the piece at [offset]; the last piece releases what
    is staged now and wakes the work queue. *)
Lemma read_piece (s : G) f g l num notes link n offset :
  offering s (Some g) l num notes link → (offset ≤ length f)%nat → f ≠ [] →
  (if (offset =? 0)%nat then f = g else bl_buf s.1 = f) →
  wp (read_fromradio n offset) (λ r s', r = Some (take n (drop offset f)) ∧ bl_buf s'.1 = f ∧
    if (length f <=? offset + n)%nat then offering s' None l num notes link ∧ bl_fromradio_work s'.1 = true
    else offering s' (Some g) l num notes link) s.
Proof.
  intros [api [Hapi Hring Hidle Hcur Hnum Hready Hst Hnotes Hlink]] Hoff Hne Hbuf.
  specialize (Hst g eq_refl). unfold read_fromradio. rewrite wp_bind.
  eapply wp_mono with (Q := λ _ s1, bl_buf s1.1 = f ∧ s1.2 = s.2 ∧ bl_phone s1.1 = bl_phone s.1 ∧
    bl_ready s1.1 = true ∧ bl_staged s1.1 = g ∧ bl_notified s1.1 = notes ∧
    (bl_conn s1.1, bl_fromnum_notify_enabled s1.1) = link).
  { destruct (offset =? 0)%nat; [rewrite wp_on_ble|]; wps; cbn;
      rewrite Hready; cbn; split_and!; congruence || auto. }
  intros _ [b w] (Hb & Hw & Hp & Hr & Hst' & Hn & Hl). cbn [fst snd] in *. subst w. wps. cbn [fst].
  rewrite Hb, attr_read_piece by done.
  assert ((0 <? length f)%nat = true) as -> by (apply Nat.ltb_lt; destruct f; [done|cbn; lia]).
  assert ((length f <=? offset + length (take n (drop offset f)))%nat = (length f <=? offset + n)%nat) as ->.
  { rewrite length_take, length_drop. destruct (Nat.leb_spec (length f) (offset + n)).
    - apply Nat.leb_le. lia.
    - apply Nat.leb_gt. lia. }
  cbn [andb]. destruct (length f <=? offset + n)%nat; wps; cycle 1.
  { split_and!; [done..|]. exists api. rewrite <-Hp in Hapi. constructor; try done. cbn. intros h Hh. by injection Hh as <-. }
  rewrite <-Hp in Hapi. eapply wp_ble_api; [exact Hapi|].
  unfold meshtastic_phoneapi_release_current_frame, schedule_fromradio_prepare. wps. rewrite wp_on_ble. wps.
  split_and!; try done. eexists. constructor; [by eapply phones_insert|cbn..]; try done. by destruct Hring.
Qed.

Lemma read_staged (s : G) f l num notes link n offset :
  offering s (Some f) l num notes link → (offset ≤ length f)%nat → f ≠ [] →
  (offset ≠ 0%nat → bl_buf s.1 = f) →
  wp (read_fromradio n offset) (λ r s', r = Some (take n (drop offset f)) ∧ bl_buf s'.1 = f ∧
    if (length f <=? offset + n)%nat then offering s' None l num notes link ∧ bl_fromradio_work s'.1 = true
    else offering s' (Some f) l num notes link) s.
Proof. intros Ho Hoff Hne Hbuf. apply read_piece; try done. destruct (Nat.eqb_spec offset 0); auto. Qed.

(** A whole frame, in pieces that do not divide it. *)
Lemma long_read_staged f l num notes link n : ∀ sched offset (s : G),
  offering s (Some f) l num notes link → (offset ≤ length f)%nat → f ≠ [] → (0 < n)%nat →
  (offset ≠ 0%nat → bl_buf s.1 = f) →
  ((length f - offset) `mod` n ≠ 0)%nat → ((length f - offset) / n < length sched)%nat →
  wp (long_read sched n offset) (λ r s', r = drop offset f ∧ offering s' None l num notes link ∧
    bl_fromradio_work s'.1 = true) s.
Proof.
  induction sched as [|turn sched IH]; intros offset s Ho Hoff Hne Hn Hbuf Hmod Hlen; cbn [length long_read] in *; [lia|].
  rewrite wp_bind. eapply wp_mono with (Q := λ _ s', bl_buf s'.1 = bl_buf s.1 ∧ offering s' (Some f) l num notes link).
  { destruct turn; [|by wps]. apply work_quiet; [done|by left]. }
  intros _ s1 [Hb1 Ho1]. rewrite wp_bind. eapply wp_mono; [apply read_staged; try done; intros; rewrite Hb1; auto|].
  intros r s2 (-> & Hb2 & Hpost). rewrite length_take, length_drop.
  destruct (Nat.ltb_spec (n `min` (length f - offset)) n) as [Hlt|Hge].
  - rewrite (proj2 (Nat.leb_le _ _)) in Hpost by lia. destruct Hpost as [Ho2 Hq]. wps.
    rewrite take_ge by (rewrite length_drop; lia). done.
  - assert (length f - offset ≠ n)%nat as Hnn by (intros Heq; by rewrite Heq, Nat.Div0.mod_same in Hmod).
    rewrite (proj2 (Nat.leb_gt _ _)) in Hpost by lia.
    replace (length f - offset)%nat with (length f - (offset + n) + 1 * n)%nat in Hmod, Hlen by lia.
    rewrite Nat.Div0.mod_add in Hmod. rewrite Nat.div_add in Hlen by lia.
    wps. eapply wp_mono; [apply IH; try done; lia|]. intros r s3 (-> & Ho3 & Hq3). wps. split_and!; try done.
    rewrite <-(take_drop n (drop offset f)) at 2. by rewrite drop_drop.
Qed.

(** The FromNum values a subscriber is told, one for each frame. *)
Definition tolds (link : option nat * bool) (num : Z) (n : nat) : list (nat * Z) :=
  concat ((λ k, told link (u32 (num + Z.of_nat k + 1))) <$> seq 0 n).

Lemma tolds_cons link num n : tolds link num (S n) = told link (u32 (num + 1)) ++ tolds link (u32 (num + 1)) n.
Proof.
  unfold tolds. cbn. rewrite Z.add_0_r. f_equal. rewrite <-fmap_S_seq, <-list_fmap_compose. f_equal.
  apply list_fmap_ext. intros i k _. cbn. f_equal. zmod.
Qed.

Lemma client_wp n l : ∀ scheds num notes link (s : G),
  offering s None l num notes link → bl_fromradio_work s.1 = true → (0 < n)%nat →
  Forall2 (λ f sched, f ≠ [] ∧ length f `mod` n ≠ 0 ∧ length f / n < length sched)%nat l scheds →
  wp (client scheds n) (λ r s', r = l ∧
    offering s' None [] (if decide (l = []) then num else u32 (num + Z.of_nat (length l)))
      (notes ++ tolds link num (length l)) link) s.
Proof.
  induction l as [|f l IH]; intros scheds num notes link s Ho Hq Hn Hall.
  { inversion Hall; subst. cbn [client]. wps. split; [done|]. rewrite decide_True by done. by rewrite app_nil_r. }
  inversion Hall as [|? sched ? scheds' (Hne & Hmod & Hlen) Hall']; subst. cbn [client].
  rewrite wp_bind. eapply wp_mono; [by apply (work_stages s f l)|]. intros _ s1 (_ & _ & Ho1).
  rewrite wp_bind. eapply wp_mono; [apply (long_read_staged f l); try done; rewrite ?Nat.sub_0_r; auto; lia|].
  intros r s2 (-> & Ho2 & Hq2). rewrite drop_0, wp_bind. eapply wp_mono; [by apply (IH scheds')|].
  intros r s3 (-> & Ho3). wps. split; [done|]. rewrite decide_False by done. cbn [length].
  rewrite tolds_cons, app_assoc. 
  replace (u32 (num + Z.of_nat (S (length l)))) with
    (if decide (l = []) then u32 (num + 1) else u32 (u32 (num + 1) + Z.of_nat (length l))); [done|].
  case_decide as Hl; [by subst l|]. zmod.
Qed.

(** C17: A phone gets its frames: a client that reads each staged frame in
    pieces to its last, shorter piece receives exactly the frames of the queue,
    whole and in order, whenever the work queue has its turns; FromNum goes up
    by one for each, a subscriber is told of every value, and the queue is
    empty at the end. *)
Theorem ble_delivers n l scheds num notes link (s : G) :
  offering s None l num notes link → bl_fromradio_work s.1 = true → (0 < n)%nat → l ≠ [] →
  Forall2 (λ f sched, f ≠ [] ∧ length f `mod` n ≠ 0 ∧ length f / n < length sched)%nat l scheds →
  ∃ s', client scheds n s = Some (l, s') ∧
    offering s' None [] (u32 (num + Z.of_nat (length l))) (notes ++ tolds link num (length l)) link.
Proof.
  intros Ho Hq Hn Hl Hall. apply (client_wp n l scheds num notes link s Ho Hq Hn), wp_run in Hall
    as (r & s' & Hrun & -> & Ho'). rewrite decide_False in Ho' by done. by exists s'.
Qed.

(** A frame in pieces that divide it: released by the last, full one; the read
    after it releases the next frame. *)
Lemma long_read_full f g l num notes link n : (0 < n)%nat → ∀ k offset (s : G),
  offering s (Some f) (g :: l) num notes link → (0 < k)%nat → length f = (offset + k * n)%nat →
  (offset ≠ 0%nat → bl_buf s.1 = f) →
  wp (long_read (replicate k false ++ [true]) n offset) (λ r s', r = drop offset f ∧
    offering s' None l (u32 (num + 1)) (notes ++ told link (u32 (num + 1))) link) s.
Proof.
  intros Hn. induction k as [|k IH]; intros offset s Ho Hk Hlen Hbuf; [lia|].
  assert (f ≠ []) as Hne by (intros ->; cbn in Hlen; lia).
  cbn [replicate app long_read]. rewrite wp_bind. wps.
  eapply wp_mono; [apply read_staged; try done; lia|]. intros r s1 (-> & Hb1 & Hpost).
  rewrite length_take, length_drop, (proj2 (Nat.ltb_ge _ _)) by lia. wps.
  destruct k as [|k].
  - rewrite (proj2 (Nat.leb_le _ _)) in Hpost by lia. destruct Hpost as [Ho1 Hq1].
    cbn [replicate app long_read]. rewrite wp_bind. eapply wp_mono; [by apply (work_stages s1 g l)|].
    intros _ s2 (_ & Hb2 & Ho2). rewrite wp_bind.
    eapply wp_mono; [apply (read_piece s2 f g); try done; [lia|]|].
    { rewrite (proj2 (Nat.eqb_neq _ _)) by lia. congruence. }
    intros r s3 (-> & _ & Hpost). rewrite (proj2 (Nat.leb_le _ _)) in Hpost by lia.
    rewrite drop_ge by lia. rewrite take_nil. cbn [length]. rewrite (proj2 (Nat.ltb_lt _ _)) by done. wps.
    rewrite app_nil_r, take_ge by (rewrite length_drop; lia). split; [done|]. apply Hpost.
  - rewrite (proj2 (Nat.leb_gt _ _)) in Hpost by lia.
    eapply wp_mono; [apply (IH (offset + n)%nat s1 Hpost); [lia|lia|auto]|].
    intros r s2 (-> & Ho2). wps. split; [|done]. rewrite <-(take_drop n (drop offset f)) at 2. by rewrite drop_drop.
Qed.

(** C18: A frame whose length is a multiple of the piece costs the next one: the
    client cannot know that it has the whole frame and reads once more, past
    its end; by then the work queue has staged the next frame, which the
    subscriber has been told of, and that read releases it unread. *)
Theorem ble_full_pieces_lose n k f g l num notes link (s : G) :
  offering s (Some f) (g :: l) num notes link → (0 < n)%nat → (0 < k)%nat → length f = (k * n)%nat →
  ∃ s', long_read (replicate k false ++ [true]) n 0 s = Some (f, s') ∧
    offering s' None l (u32 (num + 1)) (notes ++ told link (u32 (num + 1))) link.
Proof.
  intros Ho Hn Hk Hlen. apply (long_read_full f g l num notes link n Hn k 0 s Ho Hk) in Hlen as Hw; [|done].
  apply wp_run in Hw as (r & s' & Hrun & -> & Ho'). rewrite drop_0 in Hrun. by exists s'.
Qed.
End delivery.

(** ** No history breaks the service *)

Section safe.
Context {K L T : Type} `{KconfigRanges} `{PSALaws K} `{LoraLaws L} `{KernelLaws T} `{Libc}.
Context `{Pb Data} `{!PbLaws Data Data_ok} `{Pb User} `{Pb Routing} `{Pb Position} `{Pb Telemetry}.
Context `{Pb StatusMessage} `{Pb FromRadio} `{Pb ToRadio}.
Context `{TelemetryConfig} `{TelemetryDrivers T} `{PositionConfig} `{BtHost}.
Context (fx : fixed) (mods : list (module K L T)) (garbage : packet).
Context (Hmods : Forall (module_safe fx) mods).
Notation W := (world K L T).
Notation G := (ble * W)%type.
Notation I := (world_wf (L:=L) (T:=T) fx).

(** The phone is one of the node's, the ToRadio buffer keeps its size, and the
    length it is used to is within it. *)
Record service_ok (b : ble) : Prop := {
  so_phone : (bl_phone b < fx_phones fx)%nat;
  so_buf : length (bl_to_radio_buf b) = MESHTASTIC_API_FRAME_MAX;
  so_len : (bl_to_radio_len b ≤ MESHTASTIC_API_FRAME_MAX)%nat
}.
Definition service_wf (s : G) : Prop := service_ok s.1 ∧ I s.2.

Definition ble_event_ok (ev : ble_event) : Prop :=
  match ev with Bl_node ev => event_ok ev | _ => True end.

Lemma keeps_on_ble {A} (m : M ble A) : keeps service_ok m → keeps service_wf (on_ble m).
Proof. intros Hm s [Hb HI]. rewrite wp_on_ble. eapply wp_mono; [by apply Hm|]. by split. Qed.
Lemma keeps_on_world {A} (m : M W A) : keeps I m → keeps service_wf (on_world m).
Proof. intros Hm s [Hb HI]. rewrite wp_on_world. eapply wp_mono; [by apply Hm|]. by split. Qed.

(** A change of the fields the invariant does not mention. *)
Lemma keeps_field (f : ble → ble) :
  (∀ b, bl_phone (f b) = bl_phone b ∧ bl_to_radio_buf (f b) = bl_to_radio_buf b ∧
     bl_to_radio_len (f b) = bl_to_radio_len b) → keeps service_wf (on_ble (modify f)).
Proof.
  intros Hf. apply keeps_on_ble, keeps_modify. intros b [Hp Hb Hl].
  destruct (Hf b) as (Ep & Eb & El). constructor; congruence.
Qed.

Lemma keeps_gets_then {A B} (f : G → A) (k : A → M G B) :
  (∀ s, service_wf s → wp (k (f s)) (λ _, service_wf) s) → keeps service_wf (gets f ≫= k).
Proof. intros Hk s Hs. wps. by apply Hk. Qed.

Lemma served_wp {A} (m : M W A) s :
  keeps (serving fx (bl_phone s.1)) m → service_wf s → wp (on_world m) (λ _, service_wf) s.
Proof.
  intros Hm [Hb HI]. rewrite wp_on_world. eapply wp_mono; [apply Hm; split; [done|]|].
  - destruct Hb as [Hp _ _]. by rewrite (ww_count _ _ HI).
  - intros a w' [HI' _]. by split.
Qed.
Lemma keeps_api {A} (m : M phoneapi A) : keeps ring_ok m → keeps service_wf (ble_api m).
Proof. intros Hm. apply keeps_gets_then. intros s. by apply served_wp, serving_on_phone. Qed.

Lemma keeps_invalidate : keeps service_wf ble_invalidate_delivery.
Proof.
  apply keeps_bind; [by apply keeps_field|]. intros u. by apply keeps_api, keeps_ring_modify.
Qed.
Lemma keeps_disconnect : keeps service_wf (on_ble ble_disconnect).
Proof. apply keeps_field. intros b. by destruct (bl_conn b). Qed.

Lemma callbacks_wp {A} (m : M W A) s :
  wp (on_world m) (λ _, service_wf) s → wp (with_callbacks m) (λ _, service_wf) s.
Proof.
  intros Hm. unfold with_callbacks. rewrite wp_bind. wps. eapply wp_mono; [exact Hm|]. intros a s1 Hs1. wps.
  revert s1 Hs1. generalize (w_phones s.2 !! bl_phone s.1). intros before s1 Hs1.
  destruct before as [api|], (w_phones s1.2 !! bl_phone s1.1) as [api'|]; try by wps.
  revert s1 Hs1. change (keeps service_wf ?m) with (∀ s, service_wf s → wp m (λ _, service_wf) s).
  apply keeps_bind; [apply keeps_if; [apply keeps_invalidate|apply keeps_ret]|]. intros ?.
  apply keeps_bind; [apply keeps_if; [by apply keeps_field|apply keeps_ret]|]. intros ?.
  apply keeps_bind; [apply keeps_if; [apply keeps_disconnect|apply keeps_ret]|]. intros ?. apply keeps_ret.
Qed.

Lemma keeps_notify : keeps service_wf notify_fromnum.
Proof.
  apply keeps_bind; [apply keeps_api, keeps_gets|]. intros num. apply keeps_field. intros b.
  by destruct (bl_conn b), (bl_fromnum_notify_enabled b).
Qed.

Lemma keeps_fromradio_work : keeps service_wf fromradio_work_handler.
Proof.
  apply keeps_bind; [apply keeps_gets|]. intros ready. apply keeps_if; [apply keeps_ret|].
  assert (∀ frame, keeps service_wf (match frame with
    | None => mret ()
    | Some frame =>
        on_ble (modify (set bl_staged (λ _, frame))) ;;
        ble_api (modify (set ph_from_num (λ n, u32 (n + 1)))) ;;
        on_ble (modify (set bl_ready (λ _, true))) ;; notify_fromnum
    end : M G ())) as Hstage.
  { intros [frame|]; [|apply keeps_ret].
    apply keeps_bind; [by apply keeps_field|]. intros ?.
    apply keeps_bind; [by apply keeps_api, keeps_ring_modify|]. intros ?.
    apply keeps_bind; [by apply keeps_field|]. intros ?. apply keeps_notify. }
  apply keeps_gets_then. intros s Hs. rewrite wp_bind.
  eapply wp_mono; [apply served_wp; [apply serving_current|done]|]. intros frame s1. apply Hstage.
Qed.

Lemma keeps_read_fromradio len offset : keeps service_wf (read_fromradio len offset).
Proof.
  apply keeps_bind; [apply keeps_if; [by apply keeps_field|apply keeps_ret]|]. intros u.
  apply keeps_bind; [apply keeps_gets|]. intros buf. cbv zeta.
  destruct (bt_gatt_attr_read len offset buf) as [piece|]; [|apply keeps_ret]. apply keeps_if; [|apply keeps_ret].
  apply keeps_bind; [by apply keeps_api, keeps_ring_modify|]. intros ?.
  apply keeps_bind; [|intros; apply keeps_ret]. apply keeps_on_ble.
  apply keeps_bind; [|intros ?]; apply keeps_modify; intros b []; by constructor.
Qed.

Lemma keeps_write buf offset flags : keeps service_ok (write_toradio buf offset flags).
Proof.
  unfold write_toradio. cbv zeta. destruct (Nat.ltb_spec MESHTASTIC_API_FRAME_MAX (offset + length buf)); [apply keeps_ret|].
  apply keeps_bind.
  - apply keeps_modify. intros b [Hp Hb Hl]. case_if; constructor; cbn;
      rewrite ?length_app, ?length_take, ?length_drop; done || lia.
  - intros u. apply keeps_bind; [apply keeps_if; [apply keeps_ret|]|intros; apply keeps_ret].
    apply keeps_modify. intros b []. by constructor.
Qed.

Lemma keeps_to_radio_work : keeps service_wf to_radio_work_handler.
Proof.
  apply keeps_gets_then. intros s [Hb HI]. rewrite wp_bind, wp_on_ble. wps. apply callbacks_wp.
  apply served_wp; [apply serving_toradio|]. split; [|done]. destruct Hb. constructor; cbn; done || lia.
Qed.

Lemma keeps_turn (queued : ble → bool) `{!Setter queued} (handler : M G ()) :
  keeps service_wf (on_ble (modify (set queued (λ _, false)))) → keeps service_wf handler →
  keeps service_wf (run_work queued handler).
Proof.
  intros Hq Hm. apply keeps_bind; [apply keeps_gets|]. intros q. apply keeps_if; [|apply keeps_ret].
  by apply keeps_bind.
Qed.

Lemma keeps_link connected ty :
  keeps I (modify (set w_mt (meshtastic_set_ble_connected connected)) ;; meshtastic_emit_event ty None None).
Proof.
  apply keeps_bind; [|intros; apply keeps_emit]. apply keeps_modify. intros w. by apply same_wf_keeps.
Qed.

Lemma keeps_ble_event ev : ble_event_ok ev → keeps service_wf (ble_exec mods garbage ev).
Proof.
  intros Hok. destruct ev; cbn [ble_exec].
  - apply keeps_if; [apply keeps_ret|]. apply keeps_bind; [by apply keeps_field|]. intros ?.
    by apply keeps_on_world, keeps_link.
  - unfold disconnected. apply keeps_bind; [apply keeps_field; intros b; by case_bool_decide|]. intros ?.
    apply keeps_bind; [apply keeps_invalidate|]. intros ?.
    apply keeps_bind; [apply keeps_api, keeps_modify; intros api; by apply ring_ok_reset|]. intros ?.
    apply keeps_bind; [by apply keeps_field|]. intros ?. by apply keeps_on_world, keeps_link.
  - apply keeps_bind; [apply keeps_read_fromradio|]. intros. apply keeps_ret.
  - apply keeps_bind; [|intros; apply keeps_ret].
    apply keeps_bind; [apply keeps_api, keeps_gets|]. intros. apply keeps_ret.
  - apply keeps_bind; [apply keeps_on_ble, keeps_write|]. intros. apply keeps_ret.
  - by apply keeps_field.
  - by apply keeps_field.
  - apply keeps_turn; [by apply keeps_field|apply keeps_fromradio_work].
  - apply keeps_turn; [by apply keeps_field|apply keeps_to_radio_work].
  - intros s Hs. apply callbacks_wp, keeps_on_world; [by apply keeps_event|done].
Qed.

(** C19: no history breaks the Bluetooth service or the node under it: whatever
    the host calls back in any order (connections, reads and writes at any
    offset, subscriptions), interleaved with the work queue's turns and every
    event of the node, runs to its end; the ToRadio buffer is never left, and
    the node's invariant holds after it. *)
Theorem ble_safe evs s :
  Forall ble_event_ok evs → service_wf s →
  ∃ s', ble_run mods garbage evs s = Some ((), s') ∧ service_wf s'.
Proof.
  intros Hevs Hs. cut (keeps service_wf (ble_run mods garbage evs)).
  { intros Hk. destruct (proj1 (wp_run _ _ _) (Hk s Hs)) as ([] & s' & Hr & Hs'). by exists s'. }
  clear s Hs. induction Hevs as [|ev evs Hok _ IH]; cbn [ble_run]; [apply keeps_ret|].
  apply keeps_bind; [by apply keeps_ble_event|]. by intros.
Qed.
End safe.

(** ** The mock node, its phone and a host *)

#[local] Existing Instances default_kconfig default_kconfig_ranges.
#[local] Existing Instances byte_position byte_telemetry bare_board no_drivers default_position_config.
#[local] Instance no_User : Pb User := pb_silent User.
#[local] Instance no_Status : Pb StatusMessage := pb_silent StatusMessage.
#[local] Instance plain_FromRadio : Pb FromRadio :=
  {| pb_encode _ from := Some [fr_id from `mod` 256; 42]; pb_decode _ := None |}.
(** A phone whose every message asks for the configuration. *)
#[local] Instance asking_ToRadio : Pb ToRadio :=
  {| pb_encode _ _ := None; pb_decode _ := Some (TR_want_config_id 77) |}.
#[local] Instance plain_host : BtHost :=
  {| bt_gatt_attr_read len offset value :=
       if (offset <=? length value)%nat then Some (take len (drop offset value)) else None |}.
#[local] Instance plain_host_laws : BtHostLaws.
Proof.
  split; intros len offset value Hl; cbn.
  - by rewrite (proj2 (Nat.leb_le _ _) Hl).
  - by rewrite (proj2 (Nat.leb_gt _ _) Hl).
Defined.

(** A phone connected and subscribed as connection 7, with these frames queued
    behind the current one, if any. *)
Definition phone_with (current : option (list Z)) (frames : list (list Z)) : phoneapi :=
  (meshtastic_phoneapi_init (frames ++ [[]])) <| ph_count := length frames |>
    <| ph_head := length frames |> <| ph_current := current |>
    <| ph_from_num := if current is Some _ then 1 else 0 |>.
Definition service_with (current : option (list Z)) (frames : list (list Z)) : ble * world toy_psa mock_lora mock_kernel :=
  (mk_ble 0 true false (Some 7%nat) (replicate 512 0) 0 false (bool_decide (current = None))
     (default [] current) [] (bool_decide (is_Some current)) [] [],
   (mock_world (mock_radio 0) (mock_clock false)) <| w_phones := [phone_with current frames] |>).

Lemma service_offering current frames :
  offering (service_with current frames) current frames (if current is Some _ then 1 else 0) [] (Some 7%nat, true).
Proof.
  exists (phone_with current frames). constructor; try done; [|by intros f ->].
  unfold phone_with. constructor; unfold ph_queue_size; cbn; rewrite ?length_app; cbn; try lia.
  - rewrite Nat.mod_small; lia.
  - intros j f Hj. cbn. rewrite Nat.mod_small by (apply lookup_lt_Some in Hj; lia). by apply lookup_app_l_Some.
Qed.

Lemma ble_delivers_witness :
  ∃ s', client [[true; true]; [false; true; true]] 2 (service_with None [[1]; [2; 3; 4; 5; 6]])
      = Some ([[1]; [2; 3; 4; 5; 6]], s') ∧
    offering s' None [] 2 [(7%nat, 1); (7%nat, 2)] (Some 7%nat, true).
Proof.
  apply (ble_delivers 2 [[1]; [2; 3; 4; 5; 6]] [[true; true]; [false; true; true]] 0 [] (Some 7%nat, true)).
  - apply (service_offering None).
  - done.
  - lia.
  - done.
  - repeat constructor; cbn; done || lia.
Defined.

Lemma ble_full_pieces_lose_witness :
  ∃ s', long_read [false; false; true] 2 0 (service_with (Some [1; 2; 3; 4]) [[5; 6; 7]; [8]])
      = Some ([1; 2; 3; 4], s') ∧
    offering s' None [[8]] 2 [(7%nat, 2)] (Some 7%nat, true).
Proof.
  apply (ble_full_pieces_lose 2 2 [1; 2; 3; 4] [5; 6; 7] [[8]] 1 [] (Some 7%nat, true)).
  - apply (service_offering (Some [1; 2; 3; 4])).
  - lia.
  - lia.
  - done.
Defined.

(** A phone whose second write comes before the work queue has taken the
    first: the queue hands over the second only. *)
Example two_writes_one_handled :
  (λ r, (take (bl_to_radio_len r.2) (bl_to_radio_buf r.2), bl_to_radio_work r.2)) <$>
    (write_toradio [1; 2; 3] 0 0 ;; write_toradio [9] 0 0) (service_with None []).1
  = Some ([9], true).
Proof. by vm_compute. Qed.

(** A phone connects, subscribes, asks for the configuration and reads; a frame
    comes in from the radio; the phone reads past the end, writes too much, and
    goes. *)
Definition visit : list ble_event :=
  [Bl_connected 7 false; Bl_fromnum_ccc 1; Bl_write [1; 2] 0 0; Bl_to_radio_work; Bl_fromradio_work;
   Bl_read_fromnum 4 0; Bl_read_fromradio 1 0; Bl_read_fromradio 1 1; Bl_node (Ev_air heard_frame (-80) 6);
   Bl_node Ev_rx_thread; Bl_fromradio_work; Bl_read_fromradio 9 7; Bl_write [0; 0] 511 0;
   Bl_write [3] 511 1; Bl_disconnected 7; Bl_read_fromradio 9 0].
Definition idle_service : ble * world toy_psa mock_lora mock_kernel :=
  (mk_ble 0 false false None (replicate 512 0) 0 false false [] [] false [] [], hearing_world).

Lemma ble_safe_witness :
  (∃ s', ble_run full_modules packet_zero visit idle_service = Some ((), s') ∧ service_wf (mk_fixed ∅ 1 store_bss []) s') ∧
  (∃ s', ble_run full_modules packet_zero visit idle_service = Some ((), s') ∧
     bl_notified s'.1 = [(7%nat, 1); (7%nat, 2)] ∧ bl_to_radio_len s'.1 = 512%nat).
Proof.
  split.
  - apply ble_safe; [apply full_modules_safe|by repeat constructor|].
    split; [constructor; cbn; done || lia|apply hearing_world_wf].
  - eexists. by split; [vm_compute; reflexivity|].
Defined.
