(* ===== verification/Shell.v ===== *)
(** * Shell (src/meshtastic_shell.c)

    The command line: the parsing of its arguments, the commands that show and
    change the channels, the device settings and the node table, and the queue
    of sends that a thread of its own carries out.  Proved: what a command
    prints can be given back to it (node numbers, channel keys, role and mode
    names), and what `text send' does.  ShellNode.v has whole sessions. *)

From stdpp Require Import pretty.
From S2P Require Import Prelude Types External Mock Core Airtime Channels NodeDB Wire Store World StoreApply.
From S2P Require Import Radio Reliable PhoneApi Handshake Invariant Send NodeInfo Router Telemetry Position Reception Node.

(** The option of Kconfig.shell, and the C library's error texts. *)
Class ShellConfig := {
  CONFIG_SHELL_QUEUE_SIZE : nat;
  strerror : errno → string
}.

Inductive shell_work_op :=
  | SHELL_WORK_SEND_TEXT | SHELL_WORK_SEND_POSITION | SHELL_WORK_SEND_METRICS
  | SHELL_WORK_SEND_ENVIRONMENT | SHELL_WORK_SEND_NODEINFO.

(** [wi_payload] are the first [payload_len] bytes of [payload]; the rest is
    zero.  [portnum] is never read. *)
Record shell_work_item := mk_work {
  wi_op : shell_work_op; wi_dest : Z; wi_channel_index : Z; wi_want_ack : bool; wi_payload : list Z
}.
#[export] Instance shell_work_item_set : Settable shell_work_item := λ x,
  mk_work (wi_op x) (wi_dest x) (wi_channel_index x) (wi_want_ack x) (wi_payload x).

(** The pieces the shell has printed, without its colours, and the message
    queue. *)
Record shell := mk_shell { sh_out : list string; sh_queue : list shell_work_item }.
#[export] Instance shell_set : Settable shell := λ x, mk_shell (sh_out x) (sh_queue x).

(** ** Printing *)

Definition newline : string := String (Ascii.ascii_of_N 10) "".
Definition quoted (s : string) : string := String (Ascii.ascii_of_N 34) (s +:+ String (Ascii.ascii_of_N 34) "").
(** [%d] and [%u]; [%0nx]; [%03u]. *)
Definition dec (z : Z) : string := pretty z.
Fixpoint hex (n : nat) (z : Z) : string :=
  match n with
  | O => ""
  | S n => String (hex_digit (Z.land (Z.shiftr z (4 * Z.of_nat n)) 15)) (hex n z)
  end.
Definition hex32 (z : Z) : string := "0x" +:+ hex 8 z.
Definition dec3 (z : Z) : string := (if z <? 10 then "00" else if z <? 100 then "0" else "") +:+ dec z.
Definition yes_no (b : bool) : string := if b then "yes" else "no".
Definition on_off (b : bool) : string := if b then "on" else "off".

Definition shell_fprintf (s : string) : M shell () := modify (set sh_out (λ out, out ++ [s])).
Definition shell_print (s : string) : M shell () := shell_fprintf (s +:+ newline).
Definition shell_error (s : string) : M shell () := shell_print s.
Definition shell_warn (s : string) : M shell () := shell_print s.

(** ** Floats

    [(int32_t)f] truncates and is undefined outside the type. *)
Definition trunc_i32 (f : spec_float) : option Z :=
  match f with
  | S754_zero _ => Some 0
  | S754_finite s m e =>
      let a := if 0 <=? e then Z.pos m * 2 ^ e else Z.pos m / 2 ^ (- e) in
      let z := if s then - a else a in
      if (- 2147483648 <=? z) && (z <=? 2147483647) then Some z else None
  | _ => None
  end.
Definition scaled_tenths (value : spec_float) : option Z :=
  trunc_i32 (SFmul 24 128 value (float32_of_Z 10)).
Definition scaled_thousandths (value : spec_float) : option Z :=
  trunc_i32 (SFmul 24 128 value (float32_of_Z 1000)).
Definition scaled_whole (scaled divisor : Z) : Z := scaled `quot` divisor.
Definition scaled_fraction (scaled divisor : Z) : Z :=
  let fraction := scaled `rem` divisor in if fraction <? 0 then - fraction else fraction.

(** ** Numbers *)

Definition digit_value (b : Z) : Z :=
  if (48 <=? b) && (b <=? 57) then b - 48
  else if (97 <=? b) && (b <=? 122) then b - 87
  else if (65 <=? b) && (b <=? 90) then b - 55
  else 36.
Fixpoint digits_in (base : Z) (bs : list Z) (acc : Z) : Z * list Z :=
  match bs with
  | b :: bs' => if digit_value b <? base then digits_in base bs' (acc * base + digit_value b) else (acc, bs)
  | [] => (acc, [])
  end.
Definition detect_base (bs : list Z) : Z * list Z :=
  match bs with
  | 48 :: x :: d :: _ =>
      if ((x =? 120) || (x =? 88)) && (digit_value d <? 16) then (16, drop 2 bs) else (8, bs)
  | 48 :: _ => (8, bs)
  | _ => (10, bs)
  end.
(** [strtoul(arg, &end, 0)] with a 32-bit [unsigned long]: the value and the
    characters from [end] on. *)
Definition strtoul_any (arg : list Z) : Z * list Z :=
  let bs := skip_space arg in
  let '(neg, bs) := match bs with
                    | 45 :: bs' => (true, bs')
                    | 43 :: bs' => (false, bs')
                    | _ => (false, bs)
                    end in
  let '(base, bs) := detect_base bs in
  match bs with
  | b :: _ =>
      if digit_value b <? base then
        let '(v, rest) := digits_in base bs 0 in
        (if ULONG_MAX <? v then ULONG_MAX else if neg then u32 (- v) else v, rest)
      else (0, arg)
  | [] => (0, arg)
  end.

(** A parser that fails prints why and gives -EINVAL: [inl] is what it prints. *)
Definition UINT32_MAX : Z := 4294967295.
Definition parse_u32 (arg : string) : string + Z :=
  if (arg =? "broadcast")%string then inr MESHTASTIC_NODE_BROADCAST
  else
    let '(parsed, rest) := strtoul_any (str_bytes arg) in
    if negb (bool_decide (rest = [])) || (UINT32_MAX <? parsed) then inl ("invalid integer: " +:+ arg)
    else inr (u32 parsed).

Definition parse_optional_dest (argv : list string) : string + Z :=
  match argv with
  | [_] => inr MESHTASTIC_NODE_BROADCAST
  | [_; dest] => parse_u32 dest
  | _ => inl "too many arguments"
  end.

Definition shell_parse_channel_index (arg : string) : string + Z :=
  let '(parsed, rest) := strtoul_any (str_bytes arg) in
  if negb (bool_decide (rest = [])) || (MESHTASTIC_MAX_CHANNELS <=? parsed)
  then inl ("invalid channel index: " +:+ arg) else inr (u8 parsed).

(** ** Names

    A table row is one case of the [switch] and one comparison of the [if]
    chain, in the parser's order. *)
Definition name_for (names : list (string * Z)) (v : Z) : option string :=
  fst <$> (snd <$> list_find (λ p, p.2 = v) names).
Definition value_for (names : list (string * Z)) (arg : string) : option Z :=
  snd <$> (snd <$> list_find (λ p, p.1 = arg) names).

Definition channel_role_names : list (string * Z) :=
  [("primary", Role_PRIMARY); ("secondary", Role_SECONDARY); ("disabled", Role_DISABLED)].
(** The roles of config.proto; two deprecated ones have no name. *)
Definition device_role_names : list (string * Z) :=
  [("client", 0); ("client_mute", 1); ("router", 2); ("router_late", 11); ("client_base", 12);
   ("sensor", 6); ("tracker", 5); ("tak", 7); ("client_hidden", 8); ("lost_and_found", 9);
   ("tak_tracker", 10)].
Definition rebroadcast_mode_names : list (string * Z) :=
  [("all", 0); ("all_skip_decoding", 1); ("local_only", 2); ("known_only", 3); ("none", 4);
   ("core_portnums_only", 5)].

Definition shell_channel_role_name (role : Z) : string := default "disabled" (name_for channel_role_names role).
Definition shell_device_role_name (role : Z) : string := default "unknown" (name_for device_role_names role).
Definition shell_rebroadcast_mode_name (mode : Z) : string :=
  default "unknown" (name_for rebroadcast_mode_names mode).

Definition parsed_or (msg arg : string) (v : option Z) : string + Z :=
  match v with Some v => inr v | None => inl (msg +:+ arg) end.
Definition shell_parse_channel_role (arg : string) : string + Z :=
  parsed_or "invalid channel role: " arg (value_for channel_role_names arg).
Definition shell_parse_device_role (arg : string) : string + Z :=
  parsed_or "invalid device role: " arg (value_for device_role_names arg).
Definition shell_parse_rebroadcast_mode (arg : string) : string + Z :=
  parsed_or "invalid rebroadcast mode: " arg (value_for rebroadcast_mode_names arg).

(** ** Keys *)

Definition shell_parse_hex_nibble (c : Z) : Z :=
  if (48 <=? c) && (c <=? 57) then c - 48
  else if (97 <=? c) && (c <=? 102) then c - 97 + 10
  else if (65 <=? c) && (c <=? 70) then c - 65 + 10
  else -1.
Fixpoint hex_pairs (bs : list Z) : option (list Z) :=
  match bs with
  | h :: l :: bs' =>
      let hi := shell_parse_hex_nibble h in
      let lo := shell_parse_hex_nibble l in
      if (hi <? 0) || (lo <? 0) then None
      else rest ← hex_pairs bs'; Some (u8 (Z.lor (Z.shiftl hi 4) lo) :: rest)
  | _ => Some []
  end.
Definition shell_parse_hex_psk (arg : string) : string + list Z :=
  if negb (String.length arg =? 32)%nat && negb (String.length arg =? 64)%nat
  then inl "psk hex must be 32 or 64 characters"
  else
    match hex_pairs (str_bytes arg) with
    | Some out => inr out
    | None => inl "invalid hex in psk"
    end.

Section shell.
Context {K L T : Type} `{Kconfig} `{PSA K} `{LoraDriver L} `{Kernel T} `{Libc}.
Context `{Pb Data} `{Pb User} `{Pb Position} `{Pb Telemetry}.
Context `{TelemetryConfig} `{TelemetryDrivers T} `{PositionConfig} `{ShellConfig}.
Notation W := (world K L T).
Notation G := (shell * W)%type.

Definition on_shell {A} (m : M shell A) : M G A := λ s,
  match m s.1 with Some (a, b) => Some (a, (b, s.2)) | None => None end.
Definition on_node {A} (m : M W A) : M G A := λ s,
  match m s.2 with Some (a, w) => Some (a, (s.1, w)) | None => None end.
Notation out s := (on_shell (shell_print s)).

(** Print why and give up. *)
Definition refuse {A} (msg : string) (e : errno) : M G (result A) :=
  on_shell (shell_error msg) ;; mret (Err e).
Definition parsed {A B} (r : string + A) (k : A → M G (result B)) : M G (result B) :=
  match r with inl msg => refuse msg EINVAL | inr a => k a end.

(** ** The work queue and its thread *)

Definition shell_err_msg (e : errno) : string :=
  match e with
  | ENODATA => "no GNSS fix available yet"
  | ENODEV => "no sensor readings available"
  | ENOTSUP => "not enabled in Kconfig"
  | _ => strerror e
  end.
Definition shell_report_result (ret : result ()) : M shell () :=
  match ret with
  | Err e => shell_error ("failed: " +:+ shell_err_msg e +:+ " (" +:+ dec (errno_code e) +:+ ")")
  | Ok _ => shell_print "done"
  end.

Definition shell_work_packet (item : shell_work_item) : packet :=
  packet_zero <| p_to := wi_dest item |> <| p_portnum := MESHTASTIC_PORT_TEXT_MESSAGE |>
    <| p_payload := Some (wi_payload item) |> <| p_payload_len := length (wi_payload item) |>
    <| p_channel_index := wi_channel_index item |> <| p_want_ack := wi_want_ack item |>.

Definition shell_work (item : shell_work_item) : M W (result ()) :=
  match wi_op item with
  | SHELL_WORK_SEND_TEXT =>
      if negb (wi_channel_index item =? MESHTASTIC_CHANNEL_INDEX_INVALID) || wi_want_ack item
      then meshtastic_send_packet (Some (shell_work_packet item)) K_FOREVER
      else meshtastic_send_text (wi_dest item) (Some (string_of_bytes (c_string (wi_payload item))))
  | SHELL_WORK_SEND_POSITION => meshtastic_send_position (wi_dest item)
  | SHELL_WORK_SEND_METRICS => meshtastic_send_device_metrics (wi_dest item) K_FOREVER
  | SHELL_WORK_SEND_ENVIRONMENT => meshtastic_send_environment (wi_dest item) K_FOREVER
  | SHELL_WORK_SEND_NODEINFO => meshtastic_send_node_info (wi_dest item)
  end.

(** One round of the loop of [shell_work_thread_fn]; it sleeps on an empty queue. *)
Definition shell_work_round : M G () :=
  q ← gets (S:=G) (λ s, sh_queue s.1);
  match q with
  | [] => mret ()
  | item :: q =>
      on_shell (modify (set sh_queue (λ _, q))) ;;
      ret ← on_node (shell_work item);
      on_shell (shell_report_result ret)
  end.

Definition enqueue_shell_work (item : shell_work_item) : M G (result ()) :=
  q ← gets (S:=G) (λ s, sh_queue s.1);
  if (CONFIG_SHELL_QUEUE_SIZE <=? length q)%nat then refuse "Meshtastic shell queue is full" ENOMSG
  else
    on_shell (modify (set sh_queue (λ q, q ++ [item]))) ;;
    out "queued" ;;
    mret (Ok ()).

Definition cmd_deferred_send (op : shell_work_op) (argv : list string) : M G (result ()) :=
  parsed (parse_optional_dest argv) (λ dest, enqueue_shell_work (mk_work op dest 0 false [])).
Definition cmd_gnss_send := cmd_deferred_send SHELL_WORK_SEND_POSITION.
Definition cmd_metrics_send := cmd_deferred_send SHELL_WORK_SEND_METRICS.
Definition cmd_environment_send := cmd_deferred_send SHELL_WORK_SEND_ENVIRONMENT.
Definition cmd_nodeinfo_send := cmd_deferred_send SHELL_WORK_SEND_NODEINFO.

(** ** Text *)

(** [buf] holds what was appended so far; [first]: no word was.  A write past
    [buf_max] bytes is undefined. *)
Fixpoint append_message_from_argv (buf_max : nat) (first : bool) (words : list string) (buf : list Z)
    : M G (result (list Z)) :=
  match words with
  | [] => mret (Ok buf)
  | w :: words =>
      if negb first && (buf_max <=? length buf)%nat then mret (Err ENOMEM)
      else
        buf ← (if first then mret buf
               else within (length buf + 1) buf_max ;; mret (buf ++ [32]));
        if (buf_max <? length buf + String.length w)%nat then mret (Err ENOMEM)
        else
          within (length buf + String.length w) buf_max ;;
          append_message_from_argv buf_max false words (buf ++ str_bytes w)
  end.

(** [sizeof(item.payload)]. *)
Definition SHELL_WORK_PAYLOAD : nat := MESHTASTIC_MAX_TEXT_LEN + 1.

Definition text_usage : string :=
  "usage: meshtastic text send [-a] [-c <index>] [dest|broadcast] <message>".

(** The loop over the options: the arguments it leaves. *)
Fixpoint text_options (rest : list string) (item : shell_work_item)
    : string + (list string * shell_work_item) :=
  match rest with
  | [] => inr ([], item)
  | option :: rest1 =>
      if (option =? "-c")%string then
        match rest1 with
        | index :: ((_ :: _) as rest2) =>
            match shell_parse_channel_index index with
            | inl msg => inl msg
            | inr i => text_options rest2 (item <| wi_channel_index := i |>)
            end
        | _ => inl text_usage
        end
      else if (option =? "-a")%string then
        match rest1 with [] => inl text_usage | _ => text_options rest1 (item <| wi_want_ack := true |>) end
      else inr (rest, item)
  end.
Definition text_target (rest : list string) : string + (Z * list string) :=
  match rest with
  | [] => inl "message required"
  | [word] => inr (MESHTASTIC_NODE_BROADCAST, [word])
  | dest :: words => match parse_u32 dest with inl msg => inl msg | inr dest => inr (dest, words) end
  end.

Definition cmd_text_send (argv : list string) : M G (result ()) :=
  if (length argv <? 2)%nat then refuse text_usage EINVAL
  else
    parsed (text_options (drop 1 argv)
              (mk_work SHELL_WORK_SEND_TEXT 0 MESHTASTIC_CHANNEL_INDEX_INVALID false [])) (λ '(rest, item),
    parsed (text_target rest) (λ '(dest, words),
      len ← append_message_from_argv MESHTASTIC_MAX_TEXT_LEN true words [];
      want_ack ← (if wi_want_ack item && (dest =? MESHTASTIC_NODE_BROADCAST)
                  then on_shell (shell_warn "-a ignored: broadcasts are not acknowledged") ;; mret false
                  else mret (wi_want_ack item));
      match len with
      | Err e => refuse ("message too long (max " +:+ dec (Z.of_nat MESHTASTIC_MAX_TEXT_LEN) +:+ ")") e
      | Ok payload =>
          if (length payload =? 0)%nat then refuse "message must not be empty" EINVAL
          else
            within (length payload + 1) SHELL_WORK_PAYLOAD ;;
            enqueue_shell_work (mk_work (wi_op item) dest (wi_channel_index item) want_ack payload)
      end)).

(** ** Channels *)

Definition shell_print_psk_summary (ch : option Channel) : M shell () :=
  match ch with
  | None => shell_print "psk: (none)"
  | Some ch =>
      let psk := cs_psk (c_settings ch) in
      if negb (c_has_settings ch) then shell_print "psk: (none)"
      else if c_role ch =? Role_DISABLED then shell_print "psk: n/a"
      else if (length psk =? 0)%nat then
        if c_role ch =? Role_SECONDARY then shell_print "psk: inherit primary"
        else shell_print "psk: cleartext"
      else if (length psk =? 1)%nat then shell_print ("psk: shorthand " +:+ dec (nth 0 psk 0))
      else shell_print ("psk: " +:+ dec (Z.of_nat (length psk)) +:+ "-byte key")
  end.

Definition psk_hex (psk : list Z) : string := foldr (λ b s, hex 2 b +:+ s) "" psk.
Definition shell_print_psk_hex (ch : option Channel) : M shell () :=
  match ch with
  | None => mret ()
  | Some c =>
      let psk := cs_psk (c_settings c) in
      if negb (c_has_settings c) || (c_role c =? Role_DISABLED) then mret ()
      else if negb (length psk =? 16)%nat && negb (length psk =? 32)%nat then shell_print_psk_summary ch
      else
        shell_fprintf "psk hex: " ;;
        mapM_ (λ b, shell_fprintf (hex 2 b)) psk ;;
        shell_print ""
  end.

Definition uplink_of (ch : Channel) : bool := c_has_settings ch && cs_uplink_enabled (c_settings ch).
Definition downlink_of (ch : Channel) : bool := c_has_settings ch && cs_downlink_enabled (c_settings ch).

Definition shell_print_channel_line (index : Z) : M G () :=
  st ← gets (S:=G) (λ s, w_channels s.2);
  match meshtastic_channels_get st index with
  | None => mret ()
  | Some ch =>
      out ("[" +:+ dec index +:+ "] role=" +:+ shell_channel_role_name (c_role ch) +:+
           " name=" +:+ quoted (channel_name st index) +:+
           " hash=0x" +:+ hex 2 (meshtastic_channels_get_hash st index) +:+
           " uplink=" +:+ on_off (uplink_of ch) +:+ " downlink=" +:+ on_off (downlink_of ch)) ;;
      on_shell (shell_print_psk_summary (Some ch))
  end.

Definition cmd_channel_list (argv : list string) : M G (result ()) :=
  mapM_ shell_print_channel_line channel_indices ;; mret (Ok ()).

Definition cmd_channel_show (argv : list string) : M G (result ()) :=
  match argv with
  | [_; arg] =>
      parsed (shell_parse_channel_index arg) (λ index,
        st ← gets (S:=G) (λ s, w_channels s.2);
        match meshtastic_channels_get st index with
        | None => mret (Err EINVAL)
        | Some ch =>
            out ("index: " +:+ dec index) ;;
            out ("role: " +:+ shell_channel_role_name (c_role ch)) ;;
            out ("name: " +:+ quoted (channel_name st index)) ;;
            out ("hash: 0x" +:+ hex 2 (meshtastic_channels_get_hash st index)) ;;
            (if c_has_settings ch then
               out ("uplink: " +:+ on_off (cs_uplink_enabled (c_settings ch))) ;;
               out ("downlink: " +:+ on_off (cs_downlink_enabled (c_settings ch)))
             else mret ()) ;;
            on_shell (shell_print_psk_summary (Some ch)) ;;
            on_shell (shell_print_psk_hex (Some ch)) ;;
            mret (Ok ())
        end)
  | _ => refuse "usage: meshtastic channel show <index>" EINVAL
  end.

Definition with_settings (f : ChannelSettings → ChannelSettings) (ch : Channel) : Channel :=
  ch <| c_settings ::= f |>.

Definition shell_apply_channel_psk (ch : Channel) (kind : string) (arg : option string)
    : string + Channel :=
  let psk bytes := with_settings (set cs_psk (λ _, bytes)) ch in
  if (kind =? "none")%string then inr (psk [])
  else if (kind =? "default")%string then inr (psk [1])
  else if (kind =? "hex")%string then
    match arg with
    | None => inl "usage: psk hex <32|64 hex chars>"
    | Some arg => match shell_parse_hex_psk arg with inl msg => inl msg | inr key => inr (psk key) end
    end
  else
    let '(shorthand, rest) := strtoul_any (str_bytes kind) in
    if negb (bool_decide (rest = [])) || (10 <? shorthand) then inl ("invalid psk: " +:+ kind)
    else inr (psk [u8 shorthand]).

(** The loop over the options: the channel, and whether any option was given. *)
Fixpoint channel_options (argv : list string) (ch : Channel) (changed : bool) : string + (Channel * bool) :=
  match argv with
  | [] => inr (ch, changed)
  | option :: argv =>
      if (option =? "name")%string then
        match argv with
        | [] => inl "name requires a value"
        | v :: argv => channel_options argv (with_settings (set cs_name (λ _, strncpy 11 v)) ch) true
        end
      else if (option =? "role")%string then
        match argv with
        | [] => inl "role requires a value"
        | v :: argv =>
            match shell_parse_channel_role v with
            | inl msg => inl msg
            | inr role => channel_options argv (ch <| c_role := role |>) true
            end
        end
      else if (option =? "psk")%string then
        match argv with
        | [] => inl "psk requires a value"
        | v :: argv =>
            if (v =? "hex")%string then
              match argv with
              | [] => inl "psk hex requires hex digits"
              | digits :: argv =>
                  match shell_apply_channel_psk ch "hex" (Some digits) with
                  | inl msg => inl msg
                  | inr ch => channel_options argv ch true
                  end
              end
            else
              match shell_apply_channel_psk ch v None with
              | inl msg => inl msg
              | inr ch => channel_options argv ch true
              end
        end
      else if (option =? "uplink")%string then
        match argv with
        | [] => inl "uplink requires on|off"
        | v :: argv =>
            channel_options argv (with_settings (set cs_uplink_enabled (λ _, (v =? "on")%string)) ch) true
        end
      else if (option =? "downlink")%string then
        match argv with
        | [] => inl "downlink requires on|off"
        | v :: argv =>
            channel_options argv (with_settings (set cs_downlink_enabled (λ _, (v =? "on")%string)) ch) true
        end
      else inl ("unknown option: " +:+ option)
  end.

Definition channel_usage : string :=
  "usage: meshtastic channel set <index> [name <str>] [role primary|secondary|disabled] [psk none|default|<0-10>|hex <hex>] [uplink on|off] [downlink on|off]".

Definition cmd_channel_set (argv : list string) : M G (result ()) :=
  match argv with
  | _ :: arg :: ((_ :: _) as options) =>
      parsed (shell_parse_channel_index arg) (λ index,
        st ← gets (S:=G) (λ s, w_channels s.2);
        match meshtastic_channels_get st index with
        | None => mret (Err EINVAL)
        | Some cur =>
            parsed (channel_options options (cur <| c_index := index |> <| c_has_settings := true |>) false)
              (λ '(ch, changed),
              if negb changed then refuse "no channel options specified" EINVAL
              else
                ret ← on_node (meshtastic_config_store_set_channel index (Some ch));
                match ret with
                | Err e => refuse ("channel set failed: " +:+ dec (ret_code (Err e))) e
                | Ok _ =>
                    st ← gets (S:=G) (λ s, w_channels s.2);
                    out ("channel " +:+ dec index +:+ " updated (hash=0x" +:+
                         hex 2 (meshtastic_channels_get_hash st index) +:+ ")") ;;
                    mret (Ok ())
                end)
        end)
  | _ => refuse channel_usage EINVAL
  end.

Definition cmd_channel_disable (argv : list string) : M G (result ()) :=
  match argv with
  | [_; arg] =>
      parsed (shell_parse_channel_index arg) (λ index,
        st ← gets (S:=G) (λ s, w_channels s.2);
        match meshtastic_channels_get st index with
        | None => mret (Err EINVAL)
        | Some cur =>
            ret ← on_node (meshtastic_config_store_set_channel index
                             (Some (cur <| c_role := Role_DISABLED |> <| c_has_settings := true |>)));
            match ret with
            | Err e => refuse ("channel disable failed: " +:+ dec (ret_code (Err e))) e
            | Ok _ => out ("channel " +:+ dec index +:+ " disabled") ;; mret (Ok ())
            end
        end)
  | _ => refuse "usage: meshtastic channel disable <index>" EINVAL
  end.

(** ** The device *)

Definition cmd_device_role (argv : list string) : M G (result ()) :=
  match argv with
  | [_] =>
      st ← gets (S:=G) (λ s, w_channels s.2);
      out ("role: " +:+ shell_device_role_name (meshtastic_device_role st)) ;; mret (Ok ())
  | [_; arg] =>
      parsed (shell_parse_device_role arg) (λ role,
        ret ← on_node (meshtastic_config_store_set_device_role role);
        match ret with
        | Err e => refuse ("role set failed: " +:+ dec (ret_code (Err e))) e
        | Ok _ => out ("role set to " +:+ shell_device_role_name role) ;; mret (Ok ())
        end)
  | _ => refuse "usage: meshtastic device role [name]" EINVAL
  end.

Definition cmd_device_rebroadcast (argv : list string) : M G (result ()) :=
  match argv with
  | [_] =>
      st ← gets (S:=G) (λ s, w_channels s.2);
      out ("rebroadcast: " +:+ shell_rebroadcast_mode_name (meshtastic_rebroadcast_mode st)) ;; mret (Ok ())
  | [_; arg] =>
      parsed (shell_parse_rebroadcast_mode arg) (λ mode,
        ret ← on_node (meshtastic_config_store_set_rebroadcast_mode mode);
        match ret with
        | Err e => refuse ("rebroadcast set failed: " +:+ dec (ret_code (Err e))) e
        | Ok _ => out ("rebroadcast set to " +:+ shell_rebroadcast_mode_name mode) ;; mret (Ok ())
        end)
  | _ => refuse "usage: meshtastic device rebroadcast [mode]" EINVAL
  end.

Definition cmd_status (argv : list string) : M G (result ()) :=
  w ← gets (S:=G) snd;
  match meshtastic_get_status true (w_mt w) with
  | Err e => refuse ("status failed: " +:+ dec (ret_code (Err e))) e
  | Ok snap =>
      let status := snap_status snap in
      let st := w_channels w in
      out ("node: " +:+ hex32 (snap_node_id snap)) ;;
      out ("initialized: " +:+ yes_no (snap_initialized snap)) ;;
      out ("ble connected: " +:+ yes_no (ble_connected status)) ;;
      out ("tx: " +:+ dec (tx_packets status) +:+ " ok, " +:+ dec (tx_failures status) +:+ " failed") ;;
      out ("rx: " +:+ dec (rx_packets status) +:+ " decoded, " +:+ dec (duplicate_packets status) +:+
           " duplicates, " +:+ dec (decode_failures status) +:+ " decode failures") ;;
      out ("rx dropped: " +:+ dec (rx_dropped status) +:+ ", rx re-arm failures: " +:+
           dec (rx_rearm_failures status)) ;;
      out ("relayed: " +:+ dec (relayed_packets status)) ;;
      pending ← on_node meshtastic_reliable_pending;
      out ("awaiting ack: " +:+ dec (Z.of_nat pending)) ;;
      out ("last rx: from=" +:+ hex32 (last_rx_from status) +:+ " rssi=" +:+ dec (last_rssi status) +:+
           " snr=" +:+ dec (last_snr status)) ;;
      hash ← on_node (zoom w_channels meshtastic_channels_primary_hash);
      out ("primary channel: " +:+ dec (meshtastic_channels_primary_index st) +:+ " " +:+
           quoted (name_of st (meshtastic_channels_primary_name st)) +:+ " hash=0x" +:+ hex 2 hash) ;;
      out ("device role: " +:+ shell_device_role_name (meshtastic_device_role st)) ;;
      out ("rebroadcast mode: " +:+ shell_rebroadcast_mode_name (meshtastic_rebroadcast_mode st)) ;;
      out ("rebroadcasting: " +:+ yes_no (meshtastic_is_rebroadcaster st)) ;;
      mret (Ok ())
  end.

(** ** The node table *)

(** A conversion of a float that is undefined ends the run. *)
Definition converted (z : option Z) : M G Z := match z with Some z => mret z | None => ub end.
Definition one_decimal (z : Z) : string := dec (scaled_whole z 10) +:+ "." +:+ dec (scaled_fraction z 10).

Definition shell_print_node_summary (n : nodedb_node) : M G () :=
  snr ← converted (scaled_tenths (float32_of_Z (out_snr n)));
  let long_name := if out_has_user n then out_long_name n else "" in
  let short_name := if out_has_user n then out_short_name n else "" in
  let hops := match out_hops_away n with Some hops => dec hops | None => "?" end in
  out (hex32 (out_num n) +:+ " last=" +:+ dec (out_last_heard_uptime_sec n) +:+ "s snr=" +:+
       one_decimal snr +:+ " hops=" +:+ hops +:+ " via=" +:+ yes_no (out_via_mqtt n) +:+
       " long=" +:+ quoted long_name +:+ " short=" +:+ quoted short_name).

Definition cmd_nodedb_list (argv : list string) : M G (result ()) :=
  db ← gets (S:=G) (λ s, w_nodedb s.2);
  let count := meshtastic_nodedb_count db in
  out ("nodes: " +:+ dec (Z.of_nat count)) ;;
  mapM_ (λ i, match meshtastic_nodedb_get_by_index i true db with
              | Err e => on_shell (shell_warn ("index " +:+ dec (Z.of_nat i) +:+ " unavailable (" +:+
                                               dec (ret_code (Err e)) +:+ ")"))
              | Ok node => shell_print_node_summary node
              end) (seq 0 count) ;;
  mret (Ok ()).

Definition shell_print_optional_voltage (label : string) (value : option spec_float) : M G () :=
  match value with
  | None => mret ()
  | Some value =>
      mv ← converted (scaled_thousandths value);
      out (label +:+ ": " +:+ dec (scaled_whole mv 1000) +:+ "." +:+ dec3 (scaled_fraction mv 1000))
  end.
Definition shell_print_optional_tenths (label : string) (value : option spec_float) : M G () :=
  match value with
  | None => mret ()
  | Some value => tenths ← converted (scaled_tenths value); out (label +:+ ": " +:+ one_decimal tenths)
  end.

Definition print_user (n : nodedb_node) : M G () :=
  out ("long name: " +:+ out_long_name n) ;;
  out ("short name: " +:+ out_short_name n) ;;
  out ("hw model: " +:+ dec (out_hw_model n)) ;;
  out ("role: " +:+ dec (out_role n)) ;;
  out ("licensed: " +:+ yes_no (out_is_licensed n)) ;;
  (if out_has_is_unmessagable n then out ("unmessagable: " +:+ yes_no (out_is_unmessagable n)) else mret ()) ;;
  out ("public key bytes: " +:+ dec (Z.of_nat (length (out_public_key n)))).
Definition print_position (p : PositionLite) : M G () :=
  out ("position: lat_i=" +:+ dec (pl_latitude_i p) +:+ " lon_i=" +:+ dec (pl_longitude_i p) +:+
       " alt=" +:+ dec (pl_altitude p) +:+ " time=" +:+ dec (pl_time p) +:+
       " precision=" +:+ dec (pl_precision_bits p)).
Definition print_device_metrics (d : DeviceMetrics) : M G () :=
  (match dm_battery_level d with Some level => out ("battery: " +:+ dec level +:+ "%") | None => mret () end) ;;
  shell_print_optional_voltage "voltage" (dm_voltage d) ;;
  match dm_uptime_seconds d with Some up => out ("uptime: " +:+ dec up +:+ "s") | None => mret () end.
Definition print_environment_metrics (e : EnvironmentMetrics) : M G () :=
  shell_print_optional_tenths "temperature" (em_temperature e) ;;
  shell_print_optional_tenths "humidity" (em_relative_humidity e) ;;
  shell_print_optional_tenths "pressure" (em_barometric_pressure e).
Definition when_some {A} (x : option A) (k : A → M G ()) : M G () :=
  match x with Some a => k a | None => mret () end.

Definition cmd_nodedb_show (argv : list string) : M G (result ()) :=
  match argv with
  | [_; arg] =>
      parsed (parse_u32 arg) (λ node_num,
        db ← gets (S:=G) (λ s, w_nodedb s.2);
        match meshtastic_nodedb_get node_num true db with
        | Err e => refuse ("node " +:+ hex32 node_num +:+ " not found") e
        | Ok n =>
            snr ← converted (scaled_tenths (float32_of_Z (out_snr n)));
            out ("node: " +:+ hex32 (out_num n)) ;;
            out ("last heard: " +:+ dec (out_last_heard_uptime_sec n) +:+ "s") ;;
            out ("snr: " +:+ one_decimal snr) ;;
            out ("channel: " +:+ dec (out_channel n)) ;;
            out ("next hop: 0x" +:+ hex 2 (out_next_hop n)) ;;
            out ("via mqtt: " +:+ yes_no (out_via_mqtt n)) ;;
            when_some (out_hops_away n) (λ hops, out ("hops away: " +:+ dec hops)) ;;
            (if out_has_user n then print_user n else mret ()) ;;
            when_some (out_position n) print_position ;;
            when_some (out_device_metrics n) print_device_metrics ;;
            when_some (out_environment_metrics n) print_environment_metrics ;;
            when_some (out_status n) (λ status, out ("status: " +:+ status)) ;;
            mret (Ok ())
        end)
  | _ => refuse "usage: meshtastic nodedb show <node|0xnode>" EINVAL
  end.

(** ** The command table *)

Notation handler := (list string → M G (result ())).
Definition meshtastic_channel_cmds : list (string * handler) :=
  [("list", cmd_channel_list); ("show", cmd_channel_show); ("set", cmd_channel_set);
   ("disable", cmd_channel_disable)].
Definition meshtastic_device_cmds : list (string * handler) :=
  [("role", cmd_device_role); ("rebroadcast", cmd_device_rebroadcast)].
Definition meshtastic_nodedb_cmds : list (string * handler) :=
  [("list", cmd_nodedb_list); ("show", cmd_nodedb_show)].
Definition meshtastic_text_cmds : list (string * handler) := [("send", cmd_text_send)].
Definition meshtastic_gnss_cmds : list (string * handler) := [("send", cmd_gnss_send)].
Definition meshtastic_metrics_cmds : list (string * handler) := [("send", cmd_metrics_send)].
Definition meshtastic_environment_cmds : list (string * handler) := [("send", cmd_environment_send)].
Definition meshtastic_nodeinfo_cmds : list (string * handler) := [("send", cmd_nodeinfo_send)].
(** A command with a handler, or with subcommands. *)
Definition meshtastic_cmds : list (string * (handler + list (string * handler))) :=
  [("status", inl cmd_status); ("channel", inr meshtastic_channel_cmds);
   ("device", inr meshtastic_device_cmds); ("text", inr meshtastic_text_cmds);
   ("nodedb", inr meshtastic_nodedb_cmds); ("gnss", inr meshtastic_gnss_cmds);
   ("metrics", inr meshtastic_metrics_cmds); ("environment", inr meshtastic_environment_cmds);
   ("nodeinfo", inr meshtastic_nodeinfo_cmds)].

(** The words after "meshtastic": the shell finds the handler in the tables and
    gives it the words from its own name on; [None] when there is none. *)
Definition named {A} (name : string) (table : list (string * A)) : option A :=
  snd <$> (snd <$> list_find (λ p, p.1 = name) table).
Definition find_handler (line : list string) : option (handler * list string) :=
  match line with
  | [] => None
  | word :: argv =>
      match named word meshtastic_cmds with
      | Some (inl h) => Some (h, line)
      | Some (inr table) => match argv with
                            | sub :: _ => (λ h, (h, argv)) <$> named sub table
                            | [] => None
                            end
      | None => None
      end
  end.
Definition meshtastic_cmd (line : list string) : M G (option (result ())) :=
  match find_handler line with
  | Some (h, argv) => ret ← h argv; mret (Some ret)
  | None => mret None
  end.
End shell.

(** ** What is printed can be parsed *)

Lemma str_bytes_app s t : str_bytes (s +:+ t) = str_bytes s ++ str_bytes t.
Proof.
  induction s as [|c s IH]; [done|]. change (String c s +:+ t) with (String c (s +:+ t)).
  cbn [str_bytes app]. by rewrite IH.
Qed.
Lemma string_length_app s t : String.length (s +:+ t) = (String.length s + String.length t)%nat.
Proof. by rewrite <-!length_str_bytes, str_bytes_app, length_app. Qed.

Lemma hex_digit_parse d : 0 ≤ d < 16 →
  digit_value (char_byte (hex_digit d)) = d ∧ shell_parse_hex_nibble (char_byte (hex_digit d)) = d.
Proof.
  intros Hd. assert (d ∈ seqZ 0 16) as Hin by (apply elem_of_seqZ; lia).
  revert d Hd Hin. assert (Forall (λ d, digit_value (char_byte (hex_digit d)) = d ∧
    shell_parse_hex_nibble (char_byte (hex_digit d)) = d) (seqZ 0 16)) as Hall.
  { apply (bool_decide_unpack _). by vm_compute. }
  intros d _ Hin. by apply (proj1 (Forall_forall _ _) Hall).
Qed.

(** The [n]th hexadecimal digit. *)
Lemma hex_nibble z n : 0 ≤ z → Z.land (Z.shiftr z (4 * Z.of_nat n)) 15 = (z / 16 ^ Z.of_nat n) `mod` 16.
Proof.
  intros Hz. change 15 with (Z.ones 4). rewrite Z.land_ones, Z.shiftr_div_pow2 by lia.
  by rewrite Z.pow_mul_r by lia.
Qed.

Lemma digits_in_hex z n : ∀ acc, 0 ≤ z →
  digits_in 16 (str_bytes (hex n z)) acc = (acc * 16 ^ Z.of_nat n + z `mod` 16 ^ Z.of_nat n, []).
Proof.
  induction n as [|n IH]; intros acc Hz; cbn [hex str_bytes digits_in].
  { change (16 ^ Z.of_nat 0) with 1. rewrite Z.mod_1_r. f_equal. lia. }
  rewrite hex_nibble by done. set (d := (z / 16 ^ Z.of_nat n) `mod` 16).
  assert (0 ≤ d < 16) as Hd by (apply Z.mod_pos_bound; lia). destruct (hex_digit_parse d Hd) as [-> _].
  rewrite (proj2 (Z.ltb_lt _ _)) by lia. rewrite IH by done. f_equal.
  rewrite Nat2Z.inj_succ, Z.pow_succ_r by lia. unfold d.
  rewrite (Z.mul_comm 16), Z.rem_mul_r by lia. lia.
Qed.

Lemma strtoul_hex b bs : digit_value b < 16 →
  strtoul_any (48 :: 120 :: b :: bs) =
    (let '(v, rest) := digits_in 16 (b :: bs) 0 in (if ULONG_MAX <? v then ULONG_MAX else v, rest)).
Proof.
  intros Hb%Z.ltb_lt. unfold strtoul_any. change (skip_space (48 :: 120 :: b :: bs)) with (48 :: 120 :: b :: bs).
  cbv beta iota zeta. unfold detect_base. rewrite Hb. change ((120 =? 120) || (120 =? 88)) with true.
  cbn [andb drop]. by rewrite Hb.
Qed.

(** A node number as the shell prints it. *)
Lemma parse_hex32 z : 0 ≤ z < 2 ^ 32 → parse_u32 (hex32 z) = inr z.
Proof.
  intros Hz. unfold parse_u32, hex32. set (c0 := Ascii.ascii_of_N 48). set (cx := Ascii.ascii_of_N 120).
  change ("0x" +:+ hex 8 z) with (String c0 (String cx (hex 8 z))).
  change ((String c0 (String cx (hex 8 z)) =? "broadcast")%string) with false. cbv iota.
  assert (strtoul_any (str_bytes (String c0 (String cx (hex 8 z)))) = (z, [])) as ->.
  { pose proof (digits_in_hex z 8 0) as Hd. cbn [hex str_bytes] in *. rewrite strtoul_hex.
    - change (char_byte c0) with 48 in *. rewrite Hd by lia. rewrite Z.mul_0_l, Z.mod_small by (cbn; lia).
      rewrite (proj2 (Z.ltb_ge _ _)) by (unfold ULONG_MAX; lia). done.
    - rewrite (hex_nibble z 7) by lia.
      destruct (hex_digit_parse ((z / 16 ^ Z.of_nat 7) `mod` 16)) as [-> _]; apply Z.mod_pos_bound; lia. }
  rewrite bool_decide_true by done. cbn [negb orb]. unfold UINT32_MAX.
  rewrite (proj2 (Z.ltb_ge _ _)) by lia. f_equal. zmod.
Qed.

(** A slot number as the shell prints it. *)
Lemma parse_index i : (i < 8)%nat → shell_parse_channel_index (dec (Z.of_nat i)) = inr (Z.of_nat i).
Proof. intros Hi. do 8 (destruct i as [|i]; [by vm_compute|]). lia. Qed.

(** The names of roles and modes. *)
Lemma names_parse (names : list (string * Z)) name v :
  NoDup names.*1 → NoDup names.*2 → (name, v) ∈ names →
  value_for names name = Some v ∧ name_for names v = Some name.
Proof.
  intros Hn Hv Hin. unfold value_for, name_for.
  induction names as [|[n x] names IH]; [by apply elem_of_nil in Hin|].
  cbn in Hn, Hv. apply NoDup_cons in Hn as [Hn Hn'], Hv as [Hv Hv'].
  apply elem_of_cons in Hin as [[= -> ->]|Hin].
  - cbn. by rewrite !decide_True by done.
  - assert (name ∈ names.*1) by (apply list_elem_of_fmap; by exists (name, v)).
    assert (v ∈ names.*2) by (apply list_elem_of_fmap; by exists (name, v)).
    cbn. rewrite !decide_False by (intros <-; done). destruct (IH Hn' Hv' Hin) as [IHv IHn].
    destruct (list_find _ names) as [[? ?]|], (list_find (λ p, p.2 = v) names) as [[? ?]|]; done.
Qed.

Lemma role_names_parse name role :
  (name, role) ∈ channel_role_names →
  shell_parse_channel_role name = inr role ∧ shell_channel_role_name role = name.
Proof.
  intros [Hv Hn]%names_parse; [|by apply (bool_decide_unpack _); vm_compute..].
  unfold shell_parse_channel_role, shell_channel_role_name. by rewrite Hv, Hn.
Qed.
Lemma device_names_parse name role :
  (name, role) ∈ device_role_names →
  shell_parse_device_role name = inr role ∧ shell_device_role_name role = name.
Proof.
  intros [Hv Hn]%names_parse; [|by apply (bool_decide_unpack _); vm_compute..].
  unfold shell_parse_device_role, shell_device_role_name. by rewrite Hv, Hn.
Qed.
Lemma mode_names_parse name mode :
  (name, mode) ∈ rebroadcast_mode_names →
  shell_parse_rebroadcast_mode name = inr mode ∧ shell_rebroadcast_mode_name mode = name.
Proof.
  intros [Hv Hn]%names_parse; [|by apply (bool_decide_unpack _); vm_compute..].
  unfold shell_parse_rebroadcast_mode, shell_rebroadcast_mode_name. by rewrite Hv, Hn.
Qed.

(** A key as [channel show] prints it. *)
Lemma byte_hex b : is_u8 b →
  str_bytes (hex 2 b) = [char_byte (hex_digit (b / 16)); char_byte (hex_digit (b `mod` 16))].
Proof.
  intros Hb. cbn [hex str_bytes]. rewrite (hex_nibble b 1), (hex_nibble b 0) by zmod.
  change (16 ^ Z.of_nat 1) with 16. change (16 ^ Z.of_nat 0) with 1. rewrite Z.div_1_r.
  by rewrite (Z.mod_small (b / 16)) by zmod.
Qed.

Lemma lor_nibbles h l : 0 ≤ h < 16 → 0 ≤ l < 16 → Z.lor (Z.shiftl h 4) l = h * 16 + l.
Proof.
  intros Hh Hl. assert (Forall (λ h, Forall (λ l, Z.lor (Z.shiftl h 4) l = h * 16 + l) (seqZ 0 16)) (seqZ 0 16)) as Hall.
  { apply (bool_decide_unpack _). by vm_compute. }
  assert (h ∈ seqZ 0 16 ∧ l ∈ seqZ 0 16) as [Hih Hil] by (rewrite !elem_of_seqZ; lia).
  by apply (proj1 (Forall_forall _ _) (proj1 (Forall_forall _ _) Hall h Hih)).
Qed.

Lemma hex_pairs_psk psk : bytes_ok psk → hex_pairs (str_bytes (psk_hex psk)) = Some psk.
Proof.
  induction 1 as [|b psk Hb _ IH]; [done|]. cbn [psk_hex foldr]. fold (psk_hex psk).
  rewrite str_bytes_app, byte_hex by done. cbn [app hex_pairs].
  destruct (hex_digit_parse (b / 16)) as [_ ->]; [zmod|].
  destruct (hex_digit_parse (b `mod` 16)) as [_ ->]; [zmod|].
  rewrite !(proj2 (Z.ltb_ge _ _)) by zmod. cbn [orb]. rewrite IH. cbn. do 2 f_equal.
  transitivity (u8 (b / 16 * 16 + b `mod` 16)); [f_equal|zmod].
  by apply lor_nibbles; zmod.
Qed.

Lemma parse_psk psk : bytes_ok psk → (length psk = 16 ∨ length psk = 32)%nat →
  shell_parse_hex_psk (psk_hex psk) = inr psk.
Proof.
  intros Hb Hl. unfold shell_parse_hex_psk. rewrite hex_pairs_psk by done.
  assert (∀ psk, String.length (psk_hex psk) = 2 * length psk)%nat as ->.
  { clear. induction psk as [|b psk IH]; [done|]. cbn [psk_hex foldr]. fold (psk_hex psk).
    rewrite string_length_app, IH. cbn. lia. }
  destruct Hl as [-> | ->]; done.
Qed.

(** ** Text messages *)

Lemma mret_bind {S A B} (a : A) (f : A → M S B) : (mret a ≫= f) = f a.
Proof. done. Qed.

Lemma str_bytes_concat w words :
  str_bytes (String.concat " " (w :: words)) = str_bytes w ++ concat ((λ w, 32 :: str_bytes w) <$> words).
Proof.
  revert w. induction words as [|v words IH]; intros w; [by rewrite app_nil_r|].
  change (String.concat " " (w :: v :: words)) with (w +:+ " " +:+ String.concat " " (v :: words)).
  rewrite !str_bytes_app, IH. done.
Qed.

(** The options of [text send] and the words they are given by. *)
Inductive text_option := O_channel (i : nat) | O_ack.
Definition option_words (o : text_option) : list string :=
  match o with O_channel i => ["-c"; dec (Z.of_nat i)] | O_ack => ["-a"] end.
Definition option_ok (o : text_option) : Prop := match o with O_channel i => (i < 8)%nat | O_ack => True end.
Definition option_item (item : shell_work_item) (o : text_option) : shell_work_item :=
  match o with
  | O_channel i => item <| wi_channel_index := Z.of_nat i |>
  | O_ack => item <| wi_want_ack := true |>
  end.

Lemma text_options_words opts : ∀ item w rest,
  Forall option_ok opts → (w =? "-c")%string = false → (w =? "-a")%string = false →
  text_options (concat (option_words <$> opts) ++ w :: rest) item = inr (w :: rest, foldl option_item item opts).
Proof.
  induction opts as [|o opts IH]; intros item w rest Hok Hc Ha.
  { cbn. by rewrite Hc, Ha. }
  apply Forall_cons in Hok as [Ho Hok].
  assert (∃ v vs, concat (option_words <$> opts) ++ w :: rest = v :: vs) as (v & vs & Hv).
  { destruct (concat _) as [|v vs]; by do 2 eexists. }
  specialize (λ item, IH item w rest Hok Hc Ha). cbn [fmap list_fmap concat foldl]. rewrite <-app_assoc, Hv in *.
  destruct o as [i|]; cbn [option_words app option_item].
  - change (text_options ("-c" :: dec (Z.of_nat i) :: v :: vs) item) with
      (match shell_parse_channel_index (dec (Z.of_nat i)) with
       | inl msg => inl msg
       | inr i => text_options (v :: vs) (item <| wi_channel_index := i |>)
       end). rewrite parse_index by done. apply IH.
  - change (text_options ("-a" :: v :: vs) item) with (text_options (v :: vs) (item <| wi_want_ack := true |>)).
    apply IH.
Qed.

Lemma option_item_op opts : ∀ item, wi_op (foldl option_item item opts) = wi_op item.
Proof. induction opts as [|[] opts IH]; intros item; cbn [foldl]; [done|..]; by rewrite IH. Qed.

Section shell_text.
Context {K L T : Type} `{Kconfig} `{PSA K} `{LoraDriver L} `{Kernel T} `{Libc}.
Context `{Pb Data} `{Pb User} `{Pb Position} `{Pb Telemetry}.
Context `{TelemetryConfig} `{TelemetryDrivers T} `{PositionConfig} `{ShellConfig}.
Notation W := (world K L T).
Notation G := (shell * W)%type.

Lemma wp_on_shell {A} (m : M shell A) Q (s : G) : wp (on_shell m) Q s ↔ wp m (λ a b, Q a (b, s.2)) s.1.
Proof. unfold wp, on_shell. by destruct (m s.1) as [[a b]|]. Qed.
Lemma wp_on_shell_node {A} (m : M W A) Q (s : G) : wp (on_node m) Q s ↔ wp m (λ a w, Q a (s.1, w)) s.2.
Proof. unfold wp, on_node. by destruct (m s.2) as [[a w]|]. Qed.

Lemma append_tail buf_max words : ∀ buf, (length buf ≤ buf_max)%nat →
  append_message_from_argv (K:=K) (L:=L) (T:=T) buf_max false words buf =
    mret (let m := buf ++ concat ((λ w, 32 :: str_bytes w) <$> words) in
          if (length m <=? buf_max)%nat then Ok m else Err ENOMEM).
Proof.
  induction words as [|w words IH]; intros buf Hb;
    cbn [append_message_from_argv negb andb fmap list_fmap concat]; cbv zeta.
  { rewrite app_nil_r. by rewrite (proj2 (Nat.leb_le _ _)). }
  destruct (Nat.leb_spec buf_max (length buf)).
  { rewrite (proj2 (Nat.leb_gt _ _)) by (rewrite length_app; cbn; lia). done. }
  rewrite within_bind, mret_bind, length_app by lia. cbn [length].
  destruct (Nat.ltb_spec buf_max (length buf + 1 + String.length w)) as [Hlt|Hge].
  { rewrite (proj2 (Nat.leb_gt _ _)); [done|].
    rewrite !length_app. cbn. rewrite ?length_app, ?length_str_bytes. lia. }
  rewrite within_bind by done.
  rewrite IH by (rewrite ?length_app, ?length_str_bytes; cbn; rewrite ?length_app, ?length_str_bytes; cbn; lia). cbv zeta.
  by rewrite <-!app_assoc.
Qed.

(** The message is the words with a space between them, if it fits. *)
Lemma append_joins buf_max words :
  append_message_from_argv (K:=K) (L:=L) (T:=T) buf_max true words [] =
    mret (let m := str_bytes (String.concat " " words) in
          if (length m <=? buf_max)%nat then Ok m else Err ENOMEM).
Proof.
  destruct words as [|w words]; [done|]. rewrite str_bytes_concat. cbn [append_message_from_argv negb andb].
  rewrite mret_bind. cbn [app length].
  destruct (Nat.ltb_spec buf_max (0 + String.length w)).
  - rewrite (proj2 (Nat.leb_gt _ _)); [done|]. rewrite length_app, length_str_bytes. lia.
  - rewrite within_bind by done. rewrite append_tail by (rewrite length_str_bytes; lia). done.
Qed.

(** Only the output differs. *)
Definition printed (s s' : G) : Prop := s'.2 = s.2 ∧ sh_queue s'.1 = sh_queue s.1.

Lemma print_wp msg (Q : () → G → Prop) s :
  (∀ s', printed s s' → Q () s') → wp (on_shell (shell_print msg)) Q s.
Proof. intros HQ. rewrite wp_on_shell. unfold shell_print, shell_fprintf. wps. by apply HQ. Qed.
Lemma refuse_wp {A} msg e (Q : result A → G → Prop) s :
  (∀ s', printed s s' → Q (Err e) s') → wp (refuse msg e) Q s.
Proof. intros HQ. unfold refuse. rewrite wp_bind. apply print_wp. intros s' Hs. wps. by apply HQ. Qed.

Lemma enqueue_work_wp item (s : G) :
  wp (enqueue_shell_work (K:=K) (L:=L) (T:=T) item) (λ r s', s'.2 = s.2 ∧
    if (CONFIG_SHELL_QUEUE_SIZE <=? length (sh_queue s.1))%nat
    then r = Err ENOMSG ∧ sh_queue s'.1 = sh_queue s.1
    else r = Ok () ∧ sh_queue s'.1 = sh_queue s.1 ++ [item]) s.
Proof.
  unfold enqueue_shell_work. wps. case_if.
  - apply refuse_wp. by intros s' [].
  - wps. rewrite wp_on_shell. wps. apply print_wp. intros s1 [Hw Hq]. by wps.
Qed.

(** What [text send] asks the work thread to do. *)
Definition text_request (opts : list text_option) (dest : Z) (text : string) : shell_work_item :=
  let item := foldl option_item (mk_work SHELL_WORK_SEND_TEXT 0 MESHTASTIC_CHANNEL_INDEX_INVALID false []) opts in
  mk_work SHELL_WORK_SEND_TEXT dest (wi_channel_index item)
    (wi_want_ack item && negb (dest =? MESHTASTIC_NODE_BROADCAST)) (str_bytes text).

(** C23: `text send' with any options, a destination written the way the shell
    prints node numbers, and any words queues exactly the words with a space
    between them, for that destination and the chosen channel, and asks for an
    acknowledgement unless the destination is everybody; or it says why not
    (too long, empty, queue full) and leaves the queue alone.  The thread then
    sends that text: with `meshtastic_send_text' when neither a channel nor an
    acknowledgement was asked for. *)
Theorem text_send_spec opts dest words (s : G) (text := String.concat " " words) (item := text_request opts dest text) :
  Forall option_ok opts → 0 ≤ dest < 2 ^ 32 → words ≠ [] → no_nul text →
  wp (cmd_text_send (K:=K) (L:=L) (T:=T) ("send" :: concat (option_words <$> opts) ++ hex32 dest :: words)) (λ r s', s'.2 = s.2 ∧
    if (MESHTASTIC_MAX_TEXT_LEN <? String.length text)%nat then r = Err ENOMEM ∧ sh_queue s'.1 = sh_queue s.1
    else if (String.length text =? 0)%nat then r = Err EINVAL ∧ sh_queue s'.1 = sh_queue s.1
    else if (CONFIG_SHELL_QUEUE_SIZE <=? length (sh_queue s.1))%nat
    then r = Err ENOMSG ∧ sh_queue s'.1 = sh_queue s.1
    else r = Ok () ∧ sh_queue s'.1 = sh_queue s.1 ++ [item]) s ∧
  shell_work (K:=K) (L:=L) item =
    if negb (wi_channel_index item =? MESHTASTIC_CHANNEL_INDEX_INVALID) || wi_want_ack item
    then meshtastic_send_packet (Some (shell_work_packet item)) K_FOREVER
    else meshtastic_send_text dest (Some text).
Proof.
  intros Hok Hd Hw Hn. split; cycle 1.
  { unfold shell_work, item, text_request. cbn [wi_op wi_payload wi_dest]. case_if; [done|].
    pose proof (c_string_app text 0 Hn) as Hc. cbn in Hc. rewrite app_nil_r in Hc. by rewrite Hc, string_of_str_bytes. }
  unfold cmd_text_send. rewrite (proj2 (Nat.ltb_ge _ _)) by (cbn; rewrite length_app; cbn; lia).
  cbn [drop]. rewrite drop_0, text_options_words by done. unfold parsed at 1.
  destruct words as [|w words]; [done|]. cbn [text_target]. rewrite parse_hex32 by done. unfold parsed.
  rewrite append_joins, mret_bind. fold text. cbv zeta. rewrite length_str_bytes, wp_bind. set (it := foldl _ _ _).
  eapply wp_mono with (Q := λ ack s', ack = wi_want_ack it && negb (dest =? MESHTASTIC_NODE_BROADCAST) ∧ printed s s').
  { destruct (wi_want_ack it), (dest =? MESHTASTIC_NODE_BROADCAST); cbn [andb negb]; by wps. }
  intros ack s1 [-> [Hs1 Hq1]]. rewrite <-Hs1, <-Hq1.
  destruct (Nat.ltb_spec MESHTASTIC_MAX_TEXT_LEN (String.length text)) as [Hlong|Hshort].
  { rewrite (proj2 (Nat.leb_gt _ _)) by done. apply refuse_wp. by intros s' []. }
  rewrite (proj2 (Nat.leb_le _ _)) by done. rewrite length_str_bytes. case_if; [apply refuse_wp; by intros s' []|].
  rewrite within_bind by (rewrite ?length_str_bytes; unfold SHELL_WORK_PAYLOAD; lia). unfold it. rewrite option_item_op. apply enqueue_work_wp.
Qed.
End shell_text.

(** ** The mock node *)

#[local] Existing Instances default_kconfig default_kconfig_ranges.
#[local] Existing Instances byte_position byte_telemetry bare_board no_drivers default_position_config.
#[local] Instance no_User : Pb User := pb_silent User.
#[local] Instance no_Status : Pb StatusMessage := pb_silent StatusMessage.
#[local] Instance no_FromRadio : Pb FromRadio := pb_silent FromRadio.
#[local] Instance no_ToRadio : Pb ToRadio := pb_silent ToRadio.
#[local] Instance small_shell : ShellConfig := {| CONFIG_SHELL_QUEUE_SIZE := 4; strerror _ := "error" |}.

Definition desk_world (st : store) : world toy_psa mock_lora mock_kernel :=
  (mock_world (mock_radio 0) (mock_clock false)) <| w_store := st |>.
Definition desk : shell * world toy_psa mock_lora mock_kernel := (mk_shell [] [], desk_world factory_store).
Definition desk_fixed : fixed := mk_fixed ∅ 0 factory_store [].

Lemma desk_wf : world_wf desk_fixed (desk_world factory_store).
Proof. destruct (mock_world_wf (mock_radio 0) (mock_clock false)). by constructor. Qed.

Lemma text_send_spec_witness :
  let item := text_request [O_channel 2; O_ack] 0x1234 "on my way" in
  wp (cmd_text_send ["send"; "-c"; "2"; "-a"; "0x00001234"; "on"; "my"; "way"]) (λ r s', s'.2 = desk.2 ∧
    r = Ok () ∧ sh_queue s'.1 = [item]) desk ∧
  shell_work (K:=toy_psa) (L:=mock_lora) (T:=mock_kernel) item =
    meshtastic_send_packet (Some (shell_work_packet item)) K_FOREVER.
Proof.
  refine (text_send_spec [O_channel 2; O_ack] 0x1234 ["on"; "my"; "way"] desk _ _ _ _).
  - repeat constructor.
  - by vm_compute.
  - done.
  - by apply (bool_decide_unpack _); vm_compute.
Defined.

(** ** What the commands do not expect *)

(** A reading between -1 and 0 loses its sign. *)
Example sign_lost : (one_decimal 5, one_decimal (-5), one_decimal (-15)) = ("0.5", "0.5", "-1.5").
Proof. by vm_compute. Qed.

(** A destination that is out of range, or empty, is taken for one that is
    meant: everybody, or node 0. *)
Example careless_numbers :
  (parse_u32 "99999999999", parse_u32 "-1", parse_u32 "", shell_parse_channel_index "-4294967295") =
    (inr MESHTASTIC_NODE_BROADCAST, inr MESHTASTIC_NODE_BROADCAST, inr 0, inr 1).
Proof. by vm_compute. Qed.
