(* ===== verification/ShellNode.v ===== *)
(** * The shell and the node (src/meshtastic_shell.c, continued)

    The commands that change the channels, and whole sessions at the command
    line interleaved with the node.  Proved: a channel shown on one node can be
    typed in on another, and no command line breaks the node but for two named
    cases, which are shown on examples. *)

From S2P Require Import Prelude Types External Mock Core Airtime Channels NodeDB Wire Store World StoreApply.
From S2P Require Import Radio Reliable PhoneApi Handshake Invariant Send NodeInfo Router Telemetry Position Reception Node Shell.

(** ** Channels *)

Lemma digit_value_pos b : 0 ≤ digit_value b.
Proof. unfold digit_value. repeat case_if; try lia; boolp; lia. Qed.
Lemma digits_in_pos base bs : ∀ acc, 0 < base → 0 ≤ acc → 0 ≤ (digits_in base bs acc).1.
Proof.
  induction bs as [|b bs IH]; intros acc Hb Ha; cbn [digits_in]; [done|]. case_if; [|done].
  apply IH; [done|]. pose proof (digit_value_pos b). nia.
Qed.
Lemma strtoul_any_pos arg : 0 ≤ (strtoul_any arg).1.
Proof.
  unfold strtoul_any. set (p := match skip_space arg with 45 :: bs' => _ | 43 :: bs' => _ | _ => _ end).
  destruct p as [neg bs]. destruct (detect_base bs) as [base bs'] eqn:Eb.
  assert (0 < base) as Hbase.
  { unfold detect_base in Eb. repeat case_match; simplify_eq; lia. }
  destruct bs' as [|b bs']; [done|]. case_if; [|done].
  pose proof (digits_in_pos base (b :: bs') 0 Hbase ltac:(lia)) as Hv.
  destruct (digits_in base (b :: bs') 0) as [v rest]. cbn in *. repeat case_if; unfold ULONG_MAX; try lia. zmod.
Qed.

Lemma parse_index_bounds arg i : shell_parse_channel_index arg = inr i → 0 ≤ i < 8.
Proof.
  unfold shell_parse_channel_index. pose proof (strtoul_any_pos (str_bytes arg)).
  destruct (strtoul_any (str_bytes arg)) as [v rest]. cbn in *. case_if; [done|]. intros [= <-].
  apply orb_false_iff in E as [_ Hc%Z.leb_gt]. unfold MESHTASTIC_MAX_CHANNELS in *. zmod.
Qed.

Lemma hex_pairs_ok : ∀ bs out, hex_pairs bs = Some out → bytes_ok out ∧ (2 * length out ≤ length bs)%nat.
Proof.
  fix IH 1. intros [|h [|l bs]] out; cbn [hex_pairs]; [(intros [= <-]; split; [constructor|cbn; lia])..|].
  case_if; [done|]. destruct (hex_pairs bs) as [rest|] eqn:Er; [|done]. intros [= <-].
  destruct (IH bs rest Er) as [Hb Hl]. split; [constructor; [zmod|done]|cbn; lia].
Qed.
Lemma parse_psk_ok arg out : shell_parse_hex_psk arg = inr out → bytes_ok out ∧ (length out ≤ 32)%nat.
Proof.
  unfold shell_parse_hex_psk. case_if; [done|]. destruct (hex_pairs _) as [o|] eqn:Ho; [|done].
  intros [= <-]. apply hex_pairs_ok in Ho as [Hb Hlen]. rewrite length_str_bytes in Hlen. split; [done|].
  apply andb_false_iff in E as [Hl|Hl]; apply negb_false_iff, Nat.eqb_eq in Hl; lia.
Qed.

(** What the options may not change. *)
Definition option_frame (ch ch' : Channel) : Prop :=
  (psk_ok ch → psk_ok ch') ∧ c_index ch' = c_index ch ∧ c_has_settings ch' = c_has_settings ch.

Lemma apply_psk_frame ch kind arg ch' :
  shell_apply_channel_psk ch kind arg = inr ch' → option_frame ch ch'.
Proof.
  assert (∀ psk, bytes_ok psk → (length psk ≤ 32)%nat → option_frame ch (with_settings (set cs_psk (λ _, psk)) ch)) as Hset.
  { intros psk Hb Hl. by destruct ch. }
  unfold shell_apply_channel_psk. repeat case_if.
  - intros [= <-]. apply Hset; [constructor|cbn; lia].
  - intros [= <-]. apply Hset; [by constructor; [zmod|]|cbn; lia].
  - destruct arg as [arg|]; [|done]. destruct (shell_parse_hex_psk arg) as [|key] eqn:Ek; [done|].
    intros [= <-]. apply parse_psk_ok in Ek as [? ?]. by apply Hset.
  - destruct (strtoul_any _) as [v rest]. case_if; [done|]. intros [= <-].
    apply Hset; [constructor; [zmod|constructor]|cbn; lia].
Qed.

Lemma channel_options_frame : ∀ argv ch changed ch' b,
  channel_options argv ch changed = inr (ch', b) → option_frame ch ch'.
Proof.
  fix IH 1. intros [|option argv] ch changed ch' b; cbn [channel_options]; [by intros [= <- _]|].
  assert (∀ ch1 argv b1, option_frame ch ch1 → channel_options argv ch1 b1 = inr (ch', b) →
    (channel_options argv ch1 b1 = inr (ch', b) → option_frame ch1 ch') → option_frame ch ch') as Htrans.
  { intros ch1 argv' b1 [H1a [H1b H1c]] Hrun Hx. destruct (Hx Hrun) as [? [? ?]]. split; [auto|]. split; congruence. }
  repeat case_if; try done; destruct argv as [|v argv]; try done.
  - intros Hrun. eapply Htrans; [|exact Hrun|apply IH]. by destruct ch.
  - destruct (shell_parse_channel_role v) as [|role]; [done|].
    intros Hrun. eapply Htrans; [|exact Hrun|apply IH]. by destruct ch.
  - case_if.
    + destruct argv as [|digits argv]; [done|].
      destruct (shell_apply_channel_psk ch "hex" (Some digits)) as [|ch1] eqn:Ep; [done|].
      intros Hrun. eapply Htrans; [by eapply apply_psk_frame|exact Hrun|apply IH].
    + destruct (shell_apply_channel_psk ch v None) as [|ch1] eqn:Ep; [done|].
      intros Hrun. eapply Htrans; [by eapply apply_psk_frame|exact Hrun|apply IH].
  - intros Hrun. eapply Htrans; [|exact Hrun|apply IH]. by destruct ch.
  - intros Hrun. eapply Htrans; [|exact Hrun|apply IH]. by destruct ch.
Qed.

(** The slot and the channel a [channel set] line stores. *)
Definition set_target (st : channels) (argv : list string) : option (Z * Channel) :=
  match argv with
  | _ :: arg :: ((_ :: _) as options) =>
      match shell_parse_channel_index arg with
      | inl _ => None
      | inr index =>
          match meshtastic_channels_get st index with
          | None => None
          | Some cur =>
              match channel_options options (cur <| c_index := index |> <| c_has_settings := true |>) false with
              | inr (ch, true) => Some (index, ch)
              | _ => None
              end
          end
      end
  | _ => None
  end.

Section shell_channels.
Context {K L T : Type} `{KconfigRanges} `{Libc} `{ShellConfig}.
Notation W := (world K L T).
Notation G := (shell * W)%type.

(** A channel in its slot of the store and of the running table. *)
Definition stored (i : nat) (ch : Channel) (w : W) (st' : channels) : W :=
  w <| w_store ::= set st_channels <[i := ch <| c_index := Z.of_nat i |>]> |> <| w_channels := st' |>.

Lemma store_channel_wp i ch (w : W) :
  chan_base (w_channels w) → (i < 8)%nat → psk_ok ch →
  (Z.of_nat i = primary_index (w_channels w) → inherits ch = false) →
  wp (meshtastic_config_store_set_channel (Z.of_nat i) (Some ch)) (λ r w',
    if channel_is_valid (Some ch)
    then r = Ok () ∧ ∃ st', w' = stored i ch w st' ∧ set_slot_post i ch (w_channels w) st'
    else r = Err EINVAL ∧ w' = w) w.
Proof.
  intros Hb Hi Hpsk Hinh. unfold meshtastic_config_store_set_channel.
  rewrite (proj2 (Z.leb_gt _ _)) by (unfold MESHTASTIC_MAX_CHANNELS; lia). cbn [orb].
  destruct (channel_is_valid (Some ch)); cbn [negb]; [|by wps]. rewrite Nat2Z.id. wps.
  eapply wp_mono; [by apply set_slot_spec|]. intros r st' [-> Hpost]. split; [done|]. by exists st'.
Qed.

Lemma channels_get_slot (st : channels) i :
  meshtastic_channels_get st (Z.of_nat i) = if (i <? 8)%nat then channel_slots st !! i else None.
Proof.
  unfold meshtastic_channels_get, MESHTASTIC_MAX_CHANNELS. rewrite Nat2Z.id.
  destruct (Nat.ltb_spec i 8); [rewrite (proj2 (Z.leb_gt _ _)) by lia|rewrite (proj2 (Z.leb_le _ _)) by lia]; done.
Qed.

Lemma set_target_ok (st : channels) argv index ch :
  chan_base st → set_target st argv = Some (index, ch) →
  ∃ i, index = Z.of_nat i ∧ (i < 8)%nat ∧ psk_ok ch ∧ c_has_settings ch = true.
Proof.
  intros Hb Ht. unfold set_target in Ht. destruct argv as [|a0 [|arg [|o options]]]; try done.
  destruct (shell_parse_channel_index arg) as [|i] eqn:Ei; [done|]. apply parse_index_bounds in Ei.
  destruct (meshtastic_channels_get st i) as [cur|] eqn:Ec; [|done].
  destruct (channel_options _ _ _) as [|[ch' []]] eqn:Eo; try done. injection Ht as -> ->.
  exists (Z.to_nat index). rewrite <-(Z2Nat.id index), channels_get_slot in Ec by lia.
  rewrite (proj2 (Nat.ltb_lt _ _)) in Ec by lia. split; [lia|]. split; [lia|].
  apply channel_options_frame in Eo as (Hpsk & _ & Hs). split; [|by rewrite Hs].
  apply Hpsk. apply (Forall_lookup_1 _ _ _ _ (base_psk _ Hb)) in Ec. by destruct cur.
Qed.

(** A line that names no channel to store says why; any other stores it. *)
Lemma channel_set_wp argv (s : G) :
  chan_base (w_channels s.2) →
  (∀ ch, set_target (w_channels s.2) argv = Some (primary_index (w_channels s.2), ch) → inherits ch = false) →
  wp (cmd_channel_set (K:=K) (L:=L) (T:=T) argv) (λ r s', sh_queue s'.1 = sh_queue s.1 ∧
    match set_target (w_channels s.2) argv with
    | Some (index, ch) =>
        if channel_is_valid (Some ch)
        then r = Ok () ∧ ∃ st', s'.2 = stored (Z.to_nat index) ch s.2 st' ∧
               set_slot_post (Z.to_nat index) ch (w_channels s.2) st'
        else r = Err EINVAL ∧ s'.2 = s.2
    | None => r = Err EINVAL ∧ s'.2 = s.2
    end) s.
Proof.
  intros Hb Hinh. pose proof (set_target_ok (w_channels s.2) argv) as Hok. unfold cmd_channel_set, set_target in *.
  destruct argv as [|a0 [|arg [|o options]]]; try (apply refuse_wp; by intros s' []). unfold parsed at 1.
  destruct (shell_parse_channel_index arg) as [msg|index]; [apply refuse_wp; by intros s' []|]. wps.
  destruct (meshtastic_channels_get (w_channels s.2) index) as [cur|]; [|by wps]. unfold parsed.
  destruct (channel_options _ _ _) as [msg|[ch []]]; [apply refuse_wp; by intros s' []| |apply refuse_wp; by intros s' []].
  destruct (Hok index ch Hb eq_refl) as (i & -> & Hi & Hpsk & _). cbn [negb]. rewrite Nat2Z.id, wp_bind, wp_on_shell_node.
  eapply wp_mono; [apply (store_channel_wp i ch); try done; intros Hp; apply Hinh; by rewrite Hp|].
  intros r w' Hpost. destruct (channel_is_valid (Some ch)).
  - destruct Hpost as [-> Hpost]. wps. apply print_wp. intros s' [Hs Hq]. wps. cbn in Hs, Hq.
    rewrite Hs. done.
  - destruct Hpost as [-> ->]. apply refuse_wp. by intros s' [].
Qed.
End shell_channels.

(** ** No command line breaks the node *)

Section shell_safe.
Context {K L T : Type} `{KconfigRanges} `{PSALaws K} `{LoraLaws L} `{KernelLaws T} `{Libc}.
Context `{Pb Data} `{!PbLaws Data Data_ok} `{Pb User} `{Pb Routing} `{Pb Position} `{Pb Telemetry}.
Context `{Pb StatusMessage} `{Pb FromRadio} `{Pb ToRadio}.
Context `{TelemetryConfig} `{TelemetryDrivers T} `{PositionConfig} `{ShellConfig}.
Notation W := (world K L T).
Notation G := (shell * W)%type.
Context (fx : fixed) (mods : list (module K L T)) (garbage : packet).
Context (Hmods : ∀ st, Forall (module_safe (with_store fx st)) mods).
Notation I st := (world_wf (L:=L) (T:=T) (with_store fx st)).

(** The invariant of the running node, whatever is stored, as long as the
    device settings are where they are looked for. *)
Definition node_ok (w : W) : Prop := ∃ st, is_Some (stored_device st) ∧ I st w.
Definition shell_ok (s : G) : Prop :=
  (length (sh_queue s.1) ≤ CONFIG_SHELL_QUEUE_SIZE)%nat ∧ node_ok s.2.

Lemma keeps_each {A} (m : M W A) : (∀ st, keeps (I st) m) → keeps node_ok m.
Proof. intros Hm w (st & Hst & HI). eapply wp_mono; [by apply (Hm st)|]. intros a w' HI'. by exists st. Qed.
Lemma keeps_node {A} (m : M W A) : keeps node_ok m → keeps shell_ok (on_node m).
Proof. intros Hm s [Hq Hn]. rewrite wp_on_shell_node. eapply wp_mono; [by apply Hm|]. by split. Qed.
Lemma keeps_print msg : keeps shell_ok (on_shell (shell_print msg)).
Proof. intros s [Hq Hn]. apply print_wp. intros s' [Hs Hq']. split; [by rewrite Hq'|by rewrite Hs]. Qed.
Lemma keeps_refuse {A} msg e : keeps shell_ok (refuse (A:=A) msg e : M G _).
Proof. apply keeps_bind; [apply keeps_print|]. intros _. apply keeps_ret. Qed.
Lemma keeps_parsed {A B} (r : string + A) (k : A → M G (result B)) :
  (∀ a, keeps shell_ok (k a)) → keeps shell_ok (parsed r k).
Proof. intros Hk. destruct r; [apply keeps_refuse|apply Hk]. Qed.
Lemma keeps_enqueue_work item : keeps shell_ok (enqueue_shell_work (K:=K) (L:=L) (T:=T) item).
Proof.
  intros s [Hq Hn]. eapply wp_mono; [apply enqueue_work_wp|]. intros r s' [Hs Hif].
  split; [|by rewrite Hs]. destruct (Nat.leb_spec CONFIG_SHELL_QUEUE_SIZE (length (sh_queue s.1))); destruct Hif as [_ ->]; [done|].
  rewrite length_app. cbn. lia.
Qed.

Ltac quiet := cbv zeta; repeat lazymatch goal with
  | |- keeps _ (mret _) => apply keeps_ret
  | |- keeps _ (gets _) => apply keeps_gets
  | |- keeps _ (on_shell (shell_print _)) => apply keeps_print
  | |- keeps _ (refuse _ _) => apply keeps_refuse
  | |- keeps _ (enqueue_shell_work _) => apply keeps_enqueue_work
  | |- keeps _ (parsed _ _) => apply keeps_parsed; intros ?
  | |- keeps _ (_ ≫= _) => apply keeps_bind; [|intros ?]
  | |- keeps _ (mapM_ _ _) => apply keeps_mapM; intros ?
  | |- keeps _ (match _ with _ => _ end) => case_match
  end.

Lemma keeps_summary ch : keeps shell_ok (on_shell (shell_print_psk_summary ch) : M G ()).
Proof. unfold shell_print_psk_summary. repeat case_match; apply keeps_print. Qed.

Lemma psk_hex_printed ch (b : shell) :
  wp (shell_print_psk_hex ch) (λ _ b', sh_queue b' = sh_queue b) b.
Proof.
  assert (∀ psk (b : shell), wp (mapM_ (λ x, shell_fprintf (hex 2 x)) psk) (λ _ b', sh_queue b' = sh_queue b) b) as Hmap.
  { clear. intros psk b. apply wp_mapM; [done|]. intros x b' _ Hb. unfold shell_fprintf. wps. by rewrite <-Hb. }
  unfold shell_print_psk_hex, shell_print_psk_summary, shell_print, shell_fprintf.
  repeat case_match; wps; try done. eapply wp_mono; [apply Hmap|]. cbn. intros _ b' Hb. by wps.
Qed.
Lemma keeps_psk_hex ch : keeps shell_ok (on_shell (shell_print_psk_hex ch) : M G ()).
Proof.
  intros s [Hq Hn]. rewrite wp_on_shell. eapply wp_mono; [apply psk_hex_printed|].
  intros a b' Hb. split; [cbn; by rewrite Hb|done].
Qed.

Lemma keeps_channel_list argv : keeps shell_ok (cmd_channel_list argv : M G _).
Proof. unfold cmd_channel_list, shell_print_channel_line. quiet. apply keeps_summary. Qed.
Lemma keeps_channel_show argv : keeps shell_ok (cmd_channel_show argv : M G _).
Proof. unfold cmd_channel_show. quiet; apply keeps_summary || apply keeps_psk_hex. Qed.
Lemma keeps_deferred op argv : keeps shell_ok (cmd_deferred_send op argv : M G _).
Proof. unfold cmd_deferred_send. quiet. Qed.
Lemma keeps_text argv : keeps shell_ok (cmd_text_send argv : M G _).
Proof.
  unfold cmd_text_send, shell_warn. case_if; [quiet|].
  apply keeps_parsed; intros [rest item]. apply keeps_parsed; intros [dest words].
  rewrite append_joins, mret_bind. cbv zeta. apply keeps_bind; [quiet|]. intros ack.
  case_if; [|quiet]. case_if; [quiet|].
  rewrite within_bind; [quiet|]. unfold SHELL_WORK_PAYLOAD.
  by rewrite Nat.add_comm; apply le_n_S, Nat.leb_le.
Qed.

Lemma keeps_primary_hash : keeps node_ok (zoom w_channels meshtastic_channels_primary_hash : M W _).
Proof.
  apply keeps_each. intros st w HI. rewrite wp_zoom. unfold wp, meshtastic_channels_primary_hash.
  destruct (wf_base _ (ww_channels _ _ HI)) as [_ Hh _ Hp _ _].
  destruct (lookup_lt_is_Some_2 (channel_hashes (w_channels w)) (Z.to_nat (primary_index (w_channels w)))) as [h ->]; [lia|].
  cbn. apply (same_wf_keeps _ w); [by constructor|done].
Qed.
Lemma keeps_status_cmd argv : keeps shell_ok (cmd_status argv : M G _).
Proof.
  unfold cmd_status. quiet; apply keeps_node; [|apply keeps_primary_hash].
  apply keeps_each. intros st. unfold meshtastic_reliable_pending. apply keeps_bind; [apply keeps_gets|].
  intros ?. apply keeps_ret.
Qed.

(** The device settings. *)
Lemma update_device_ok f st : is_Some (stored_device st) →
  ∃ st', update_device f st = Some st' ∧ is_Some (stored_device st').
Proof.
  unfold update_device, stored_device. change (index_for_tag config_names Config_device_tag) with (Some 0%nat).
  cbv iota beta. intros [d Hd]. destruct (st_configs st) as [|c l] eqn:Ec; [done|]. cbn in *.
  destruct c; try done. eexists. split; [done|]. cbn. rewrite Ec. cbn. by eexists.
Qed.
Lemma keeps_device_change f (g : channels → channels) :
  (∀ st, chan_wf st → chan_wf (g st)) →
  keeps node_ok (store_update_device f ;; modify (set w_channels g) ;; mret (Ok ()) : M W _).
Proof.
  intros Hg w (st & Hst & HI). rewrite wp_bind. unfold wp at 1, store_update_device.
  rewrite (ww_store _ _ HI). cbn [fx_store with_store].
  destruct (update_device_ok f st Hst) as (st' & -> & Hst'). wps. exists st'. split; [done|].
  destruct HI. constructor; try done. by apply Hg.
Qed.
Lemma keeps_device_role argv : keeps shell_ok (cmd_device_role argv : M G _).
Proof.
  unfold cmd_device_role. quiet. apply keeps_node. unfold meshtastic_config_store_set_device_role.
  apply keeps_if; [apply keeps_ret|]. apply keeps_device_change. intros st Hwf. by destruct Hwf as [[] ? ?].
Qed.
Lemma keeps_device_rebroadcast argv : keeps shell_ok (cmd_device_rebroadcast argv : M G _).
Proof.
  unfold cmd_device_rebroadcast. quiet. apply keeps_node. unfold meshtastic_config_store_set_rebroadcast_mode.
  apply keeps_if; [apply keeps_ret|]. apply keeps_device_change. intros st Hwf. by destruct Hwf as [[] ? ?].
Qed.

(** The conversions the node table's commands make are defined. *)
Definition convertible (value : option spec_float) (scale : spec_float → option Z) : Prop :=
  ∀ v, value = Some v → is_Some (scale v).
Definition printable (n : nodedb_node) : Prop :=
  is_Some (scaled_tenths (float32_of_Z (out_snr n))) ∧
  (∀ d, out_device_metrics n = Some d → convertible (dm_voltage d) scaled_thousandths) ∧
  (∀ e, out_environment_metrics n = Some e →
    convertible (em_temperature e) scaled_tenths ∧ convertible (em_relative_humidity e) scaled_tenths ∧
    convertible (em_barometric_pressure e) scaled_tenths).
Definition all_printable (db : nodedb) : Prop := ∀ e, e ∈ nodedb_entries db → printable (fill_snapshot e).

Ltac by_keeps := lazymatch goal with |- wp ?m _ _ => cut (keeps shell_ok m); [intros Hkeeps; by apply Hkeeps|] end.

Lemma keeps_converted z : is_Some z → keeps shell_ok (converted z : M G Z).
Proof. intros [x ->]. apply keeps_ret. Qed.
Lemma keeps_tenths label value :
  convertible value scaled_tenths → keeps shell_ok (shell_print_optional_tenths label value : M G ()).
Proof.
  intros Hc. unfold shell_print_optional_tenths. destruct value as [v|]; [|apply keeps_ret].
  apply keeps_bind; [apply keeps_converted; by apply Hc|]. intros. apply keeps_print.
Qed.
Lemma keeps_voltage label value :
  convertible value scaled_thousandths → keeps shell_ok (shell_print_optional_voltage label value : M G ()).
Proof.
  intros Hc. unfold shell_print_optional_voltage. destruct value as [v|]; [|apply keeps_ret].
  apply keeps_bind; [apply keeps_converted; by apply Hc|]. intros. apply keeps_print.
Qed.
Lemma keeps_node_summary n : printable n → keeps shell_ok (shell_print_node_summary n : M G ()).
Proof.
  intros (Hsnr & _). unfold shell_print_node_summary. apply keeps_bind; [by apply keeps_converted|].
  intros. apply keeps_print.
Qed.

Lemma get_printable num db n : all_printable db → meshtastic_nodedb_get num true db = Ok n → printable n.
Proof.
  intros Hall. unfold meshtastic_nodedb_get. cbn. destruct (find_entry_locked num db) as [i|]; [|done].
  destruct (nodedb_entries db !! i) as [e|] eqn:Ee; [|done]. intros [= <-]. apply Hall.
  by eapply list_elem_of_lookup_2.
Qed.
Lemma index_printable i db n : all_printable db → meshtastic_nodedb_get_by_index i true db = Ok n → printable n.
Proof.
  intros Hall. unfold meshtastic_nodedb_get_by_index. cbn. case_if; [done|].
  destruct (nodedb_entries db !! i) as [e|] eqn:Ee; [|done]. case_if; [done|]. intros [= <-]. apply Hall.
  by eapply list_elem_of_lookup_2.
Qed.

Lemma nodedb_list_wp argv (s : G) :
  all_printable (w_nodedb s.2) → shell_ok s → wp (cmd_nodedb_list argv) (λ _, shell_ok) s.
Proof.
  intros Hall Hs. unfold cmd_nodedb_list. rewrite wp_bind, wp_gets. cbv beta zeta. generalize dependent (w_nodedb s.2). intros db Hall.
  by_keeps.
  apply keeps_bind; [apply keeps_print|]. intros ?. apply keeps_bind; [|intros; apply keeps_ret].
  apply keeps_mapM. intros i. destruct (meshtastic_nodedb_get_by_index i true db) eqn:Ei; [|apply keeps_print].
  apply keeps_node_summary. by eapply index_printable.
Qed.

Lemma nodedb_show_wp argv (s : G) :
  all_printable (w_nodedb s.2) → shell_ok s → wp (cmd_nodedb_show argv) (λ _, shell_ok) s.
Proof.
  intros Hall Hs. unfold cmd_nodedb_show. destruct argv as [|a [|arg [|]]]; try by apply keeps_refuse.
  unfold parsed. destruct (parse_u32 arg) as [msg|num]; [by apply keeps_refuse|]. rewrite wp_bind, wp_gets.
  cbv beta. generalize dependent (w_nodedb s.2). intros db Hall.
  by_keeps.
  destruct (meshtastic_nodedb_get num true db) as [n|e] eqn:En; [|apply keeps_refuse].
  apply get_printable in En as (Hsnr & Hd & He); [|done].
  apply keeps_bind; [by apply keeps_converted|]. intros snr. unfold when_some, print_user, print_position,
    print_device_metrics, print_environment_metrics.
  quiet; first [apply keeps_voltage; by apply Hd | apply keeps_tenths; by apply He].
Qed.

(** ** Whole histories *)

Lemma node_ok_base (w : W) : node_ok w → chan_base (w_channels w).
Proof. intros (st & _ & HI). apply wf_base, HI. Qed.
Lemma stored_ok i ch (w : W) st' :
  node_ok w → set_slot_post i ch (w_channels w) st' → node_ok (stored i ch w st').
Proof.
  intros (st & Hst & HI) Hpost. exists (set st_channels <[i := ch <| c_index := Z.of_nat i |>]> st).
  split; [done|]. pose proof (ww_store _ _ HI) as Hw. pose proof (set_slot_post_wf _ _ _ _ (ww_channels _ _ HI) Hpost).
  destruct HI. constructor; try done. cbn. by rewrite Hw.
Qed.
Lemma keeps_channel_change i ch (w : W) :
  chan_base (w_channels w) → (i < 8)%nat → psk_ok ch →
  (Z.of_nat i = primary_index (w_channels w) → inherits ch = false) →
  node_ok w → wp (meshtastic_config_store_set_channel (Z.of_nat i) (Some ch)) (λ _, node_ok) w.
Proof.
  intros Hb Hi Hpsk Hinh Hn. eapply wp_mono; [by apply store_channel_wp|]. intros r w' Hpost.
  destruct (channel_is_valid (Some ch)); destruct Hpost as [_ Hpost]; [|by subst].
  destruct Hpost as (st' & -> & Hpost). by eapply stored_ok.
Qed.

Lemma shell_work_ok item : keeps node_ok (shell_work item : M W _).
Proof.
  apply keeps_each. intros st. unfold shell_work, meshtastic_send_text. destruct (wi_op item).
  - apply keeps_if; [by apply keeps_send_packet|]. apply keeps_if; [apply keeps_ret|]. by apply keeps_send_data.
  - apply keeps_send_position.
  - by apply keeps_send_metrics.
  - by apply keeps_send_metrics.
  - apply keeps_send_node_info.
Qed.
Lemma keeps_work_round : keeps shell_ok (shell_work_round : M G ()).
Proof.
  intros [[o q] w] [Hq Hn]. unfold shell_work_round. wps. destruct q as [|item q]; cbn [sh_queue fst]; wps; [done|].
  rewrite wp_on_shell. wps. rewrite wp_on_shell_node. eapply wp_mono; [by apply shell_work_ok|].
  intros r w' Hn'. unfold shell_report_result. cbn [fst snd].
  destruct r; apply keeps_print; (split; [cbn in *; lia|done]).
Qed.

(** The command line, the work thread, and everything else. *)
Inductive shell_event := Sh_line (words : list string) | Sh_round | Sh_node (ev : node_event).
Definition shell_exec (ev : shell_event) : M G () :=
  match ev with
  | Sh_line words => meshtastic_cmd words ;; mret ()
  | Sh_round => shell_work_round
  | Sh_node ev => on_node (node_exec mods garbage ev)
  end.
Fixpoint shell_run (evs : list shell_event) : M G () :=
  match evs with [] => mret () | ev :: evs => shell_exec ev ;; shell_run evs end.

(** What a user must not type: a [channel set] that leaves the running primary
    slot without a key of its own, and a look at the node table while it holds
    a reading that cannot be converted. *)
Definition shell_event_ok (ev : shell_event) (s : G) : Prop :=
  match ev with
  | Sh_line words =>
      (∀ args ch, words = "channel" :: "set" :: args →
        set_target (w_channels s.2) ("set" :: args) = Some (primary_index (w_channels s.2), ch) →
        inherits ch = false) ∧
      (head words = Some "nodedb" → all_printable (w_nodedb s.2))
  | Sh_round => True
  | Sh_node ev => event_ok ev
  end.
Fixpoint history_ok (evs : list shell_event) (s : G) : Prop :=
  match evs with
  | [] => True
  | ev :: evs => shell_event_ok ev s ∧ ∀ s', shell_exec ev s = Some ((), s') → history_ok evs s'
  end.

Lemma channel_set_ok argv (s : G) :
  (∀ ch, set_target (w_channels s.2) argv = Some (primary_index (w_channels s.2), ch) → inherits ch = false) →
  shell_ok s → wp (cmd_channel_set argv) (λ _, shell_ok) s.
Proof.
  intros Hinh [Hq Hn]. pose proof (node_ok_base _ Hn) as Hb.
  eapply wp_mono; [by apply channel_set_wp|]. intros r s' [Hq' Hpost]. split; [by rewrite Hq'|].
  destruct (set_target (w_channels s.2) argv) as [[index ch]|]; [|by destruct Hpost as [_ ->]].
  destruct (channel_is_valid (Some ch)); [|by destruct Hpost as [_ ->]].
  destruct Hpost as (_ & st' & -> & Hpost). by eapply stored_ok.
Qed.

Lemma channel_disable_ok argv : keeps shell_ok (cmd_channel_disable argv : M G _).
Proof.
  intros s Hs. unfold cmd_channel_disable. destruct argv as [|a [|arg [|]]]; try by apply keeps_refuse.
  unfold parsed. destruct (shell_parse_channel_index arg) as [msg|index] eqn:Ei; [by apply keeps_refuse|].
  apply parse_index_bounds in Ei. wps.
  destruct (meshtastic_channels_get (w_channels s.2) index) as [cur|] eqn:Ec; [|by wps].
  rewrite <-(Z2Nat.id index) in Ec |- * by lia. rewrite channels_get_slot in Ec.
  rewrite (proj2 (Nat.ltb_lt _ _)) in Ec by lia. pose proof (node_ok_base _ (proj2 Hs)) as Hb.
  rewrite wp_bind, wp_on_shell_node. eapply wp_mono.
  { apply (keeps_channel_change (Z.to_nat index)); [done|lia| | |apply Hs].
    - apply (Forall_lookup_1 _ _ _ _ (base_psk _ Hb)) in Ec. by destruct cur.
    - intros _. by destruct cur. }
  intros r w' Hn'. assert (shell_ok (s.1, w')) as Hs' by (split; [apply Hs|done]). destruct r; [|by apply keeps_refuse].
  by_keeps.
  apply keeps_bind; [apply keeps_print|]. intros. apply keeps_ret.
Qed.

Lemma named_elem {A} name (table : list (string * A)) a : named name table = Some a → (name, a) ∈ table.
Proof.
  unfold named. destruct (list_find _ table) as [[i [n b]]|] eqn:Ef; [|done]. intros [= <-].
  apply list_find_Some in Ef as (Hl & Hn & _). cbn in Hn. subst n. by eapply list_elem_of_lookup_2.
Qed.

Lemma meshtastic_cmd_ok words (s : G) :
  shell_event_ok (Sh_line words) s → shell_ok s → wp (meshtastic_cmd words) (λ _, shell_ok) s.
Proof.
  intros [Hset Hdb] Hs. unfold meshtastic_cmd. destruct (find_handler words) as [[h argv]|] eqn:Ef; [|by wps].
  rewrite wp_bind. eapply wp_mono with (Q := λ _, shell_ok); [|intros r s' Hs'; by wps].
  unfold find_handler in Ef. destruct words as [|word rest]; [done|].
  destruct (named word meshtastic_cmds) as [[h'|table]|] eqn:Ew; [|destruct rest as [|sub args]|]; try done;
    apply named_elem in Ew; unfold meshtastic_cmds in Ew;
    repeat (apply elem_of_cons in Ew as [[= -> ->]|Ew]); try (by apply elem_of_nil in Ew); simplify_eq.
  { by apply keeps_status_cmd. }
  all: destruct (named sub _) as [h'|] eqn:Es; [|done]; injection Ef as -> <-;
    apply named_elem in Es; repeat (apply elem_of_cons in Es as [[= -> ->]|Es]); try (by apply elem_of_nil in Es).
  - by apply keeps_channel_list.
  - by apply keeps_channel_show.
  - apply channel_set_ok; [|done]. intros ch. by apply Hset.
  - by apply channel_disable_ok.
  - by apply keeps_device_role.
  - by apply keeps_device_rebroadcast.
  - by apply keeps_text.
  - apply nodedb_list_wp; auto.
  - apply nodedb_show_wp; auto.
  - by apply keeps_deferred.
  - by apply keeps_deferred.
  - by apply keeps_deferred.
  - by apply keeps_deferred.
Qed.

(** C21: no command line breaks the node: whatever is typed, in any order and
    interleaved with the shell's work thread and every event of the node, runs
    to its end and leaves the invariant of the node in force, with the work
    queue within its size; except for a `channel set' that would leave the
    running primary slot without a key of its own, and a look at the node table
    while it holds a reading that cannot be converted to an integer. *)
Theorem shell_safe evs (s : G) :
  shell_ok s → history_ok evs s → ∃ s', shell_run evs s = Some ((), s') ∧ shell_ok s'.
Proof.
  revert s. induction evs as [|ev evs IH]; intros s Hs Hh; cbn [shell_run history_ok] in *; [by exists s|].
  destruct Hh as [Hok Hh].
  assert (wp (shell_exec ev) (λ _, shell_ok) s) as Hw.
  { destruct ev as [words| |ev]; cbn [shell_exec].
    - rewrite wp_bind. eapply wp_mono; [by apply meshtastic_cmd_ok|]. intros r s' Hs'. by wps.
    - by apply keeps_work_round.
    - apply keeps_node; [|done]. apply keeps_each. intros st. by apply keeps_event. }
  apply wp_run in Hw as ([] & s1 & Hr & Hs1). destruct (IH s1 Hs1 (Hh s1 Hr)) as (s' & Hr' & Hs').
  exists s'. unfold mbind, M_bind. by rewrite Hr.
Qed.
End shell_safe.

(** ** Sharing a channel *)

Section shell_share.
Context {K L T : Type} `{KconfigRanges} `{Libc} `{ShellConfig}.
Notation W := (world K L T).
Notation G := (shell * W)%type.

Lemma print_hex psk : ∀ (b : shell),
  mapM_ (λ x, shell_fprintf (hex 2 x)) psk b = Some ((), b <| sh_out ::= (λ o, o ++ (hex 2 <$> psk)) |>).
Proof.
  induction psk as [|x psk IH]; intros [o q]; cbn [mapM_].
  { change (Some ((), mk_shell o q) = Some ((), mk_shell (o ++ []) q)). by rewrite app_nil_r. }
  unfold mbind, M_bind, shell_fprintf at 1, modify. rewrite IH.
  change (Some ((), mk_shell ((o ++ [hex 2 x]) ++ (hex 2 <$> psk)) q) =
    Some ((), mk_shell (o ++ hex 2 x :: (hex 2 <$> psk)) q)). by rewrite <-app_assoc.
Qed.

(** A slot with a key of its own of full length. *)
Definition keyed (ch : Channel) : Prop :=
  c_has_settings ch = true ∧ (c_role ch = Role_PRIMARY ∨ c_role ch = Role_SECONDARY) ∧
  (length (cs_psk (c_settings ch)) = 16 ∨ length (cs_psk (c_settings ch)) = 32)%nat.

Lemma keyed_own_key ch : keyed ch →
  own_key ch = Ok (mk_key (pad32 (cs_psk (c_settings ch))) (pad_key_len (length (cs_psk (c_settings ch))))).
Proof.
  intros (Hs & Hr & Hl). unfold own_key. rewrite Hs. cbn [negb orb].
  assert ((c_role ch =? Role_DISABLED) = false) as -> by (by destruct Hr as [-> | ->]).
  destruct (cs_psk (c_settings ch)) as [|a [|b psk]]; cbn in Hl; [lia|lia|]. by destruct a.
Qed.
Lemma keyed_inherits ch : keyed ch → inherits ch = false.
Proof.
  intros (_ & _ & Hl). unfold inherits. rewrite bool_decide_false; [by rewrite andb_false_r|].
  intros Hp. rewrite Hp in Hl. cbn in Hl. lia.
Qed.

(** Its key and its hash in any well-formed table. *)
Lemma keyed_slot (st : channels) i ch :
  chan_base st → hash_coherent st i → channel_slots st !! i = Some ch → keyed ch →
  meshtastic_channels_get_key st (Z.of_nat i) = Some (own_key ch) ∧
  meshtastic_channels_get_hash st (Z.of_nat i) = hash_of (own_key ch) (slot_name ch).
Proof.
  intros Hb Hh Hch Hk.
  assert (i < 8)%nat as Hi by (rewrite <-(base_slots st) by done; by eapply lookup_lt_Some).
  pose proof (Forall_lookup_1 _ _ _ _ (base_psk _ Hb) Hch) as Hpsk. split.
  - apply (get_key_own 1); try done. by apply keyed_inherits.
  - unfold meshtastic_channels_get_hash. rewrite (proj2 (Z.leb_gt _ _)) by (unfold MESHTASTIC_MAX_CHANNELS; lia).
    rewrite Nat2Z.id, Hh, (generate_hash_own st i ch) by (done || by apply keyed_inherits). done.
Qed.

Lemma role_name_parse role : role = Role_PRIMARY ∨ role = Role_SECONDARY →
  shell_parse_channel_role (shell_channel_role_name role) = inr role.
Proof. by intros [-> | ->]. Qed.

(** The words that describe a channel. *)
Definition channel_words (ch : Channel) : list string :=
  ["name"; slot_name ch; "role"; shell_channel_role_name (c_role ch);
   "psk"; "hex"; psk_hex (cs_psk (c_settings ch))].
Definition told_channel (ch cur : Channel) : Channel :=
  with_settings (set cs_psk (λ _, cs_psk (c_settings ch)))
    (with_settings (set cs_name (λ _, slot_name ch)) cur <| c_role := c_role ch |>).

Lemma channel_words_options ch cur :
  keyed ch → psk_ok ch → (String.length (slot_name ch) ≤ 11)%nat →
  channel_options (channel_words ch) cur false = inr (told_channel ch cur, true).
Proof.
  intros (_ & Hr & Hl) [_ Hb] Hn. unfold channel_words.
  change (channel_options _ cur false) with
    (match shell_parse_channel_role (shell_channel_role_name (c_role ch)) with
     | inl msg => inl msg
     | inr role =>
         match shell_apply_channel_psk
                 (with_settings (set cs_name (λ _, strncpy 11 (slot_name ch))) cur <| c_role := role |>)
                 "hex" (Some (psk_hex (cs_psk (c_settings ch)))) with
         | inl msg => inl msg
         | inr ch => inr (ch, true)
         end
     end).
  rewrite role_name_parse by done. unfold shell_apply_channel_psk. cbn [String.eqb].
  rewrite substring0_id by done. rewrite (parse_psk (cs_psk (c_settings ch))) by done. done.
Qed.

(** Running and printing, as equations. *)
Definition say (t : list string) (s : G) : G := (mk_shell (sh_out s.1 ++ t) (sh_queue s.1), s.2).

Lemma say_print msg (s : G) : on_shell (shell_print msg) s = Some ((), say [msg +:+ newline] s).
Proof. by destruct s as [[o q] w]. Qed.
Lemma say_say t u (s : G) : say u (say t s) = say (t ++ u) s.
Proof. unfold say. cbn. by rewrite <-app_assoc. Qed.
Lemma say_summary ch (s : G) :
  ∃ line, on_shell (shell_print_psk_summary ch) s = Some ((), say [line] s).
Proof. unfold shell_print_psk_summary. repeat case_match; eexists; apply say_print. Qed.

(** A key as [channel show] prints it. *)
Definition hex_pieces (ch : Channel) : list string := "psk hex: " :: (hex 2 <$> cs_psk (c_settings ch)) ++ [newline].
Lemma say_psk_hex ch (s : G) : keyed ch →
  on_shell (shell_print_psk_hex (Some ch)) s = Some ((), say (hex_pieces ch) s).
Proof.
  intros (Hs & Hr & Hl). destruct s as [[o q] w]. unfold on_shell, shell_print_psk_hex. rewrite Hs.
  assert ((c_role ch =? Role_DISABLED) = false) as -> by (by destruct Hr as [-> | ->]). cbn [negb orb].
  assert (negb (length (cs_psk (c_settings ch)) =? 16)%nat && negb (length (cs_psk (c_settings ch)) =? 32)%nat = false)
    as -> by (by destruct Hl as [-> | ->]).
  unfold mbind, M_bind, shell_fprintf at 1, modify. rewrite print_hex.
  change (Some ((), (mk_shell (((o ++ ["psk hex: "]) ++ (hex 2 <$> cs_psk (c_settings ch))) ++ [newline]) q, w)) =
    Some ((), say (hex_pieces ch) (mk_shell o q, w))). by rewrite <-!app_assoc.
Qed.

Lemma channel_show_prints i ch (s : G) :
  (i < 8)%nat → channel_slots (w_channels s.2) !! i = Some ch → keyed ch →
  ∃ pre mid, cmd_channel_show (K:=K) (L:=L) (T:=T) ["show"; dec (Z.of_nat i)] s =
    Some (Ok (), say (pre ++ (("role: " +:+ shell_channel_role_name (c_role ch)) +:+ newline) ::
      (("name: " +:+ quoted (slot_name ch)) +:+ newline) :: mid ++ hex_pieces ch) s).
Proof.
  intros Hi Hch Hk. unfold cmd_channel_show, parsed. rewrite parse_index by done.
  erewrite bind_run by reflexivity.
  rewrite channels_get_slot, (proj2 (Nat.ltb_lt _ _)), Hch, (slot_name_spec _ _ ch) by done.
  do 4 (erewrite bind_run by apply say_print). rewrite (proj1 Hk).
  erewrite bind_run; [|erewrite bind_run by apply say_print; apply say_print].
  edestruct (say_summary (Some ch)) as [line Hline]. erewrite bind_run by exact Hline.
  rewrite (bind_run _ _ _ _ _ (say_psk_hex ch _ Hk)). 
  rewrite !say_say. exists [("index: " +:+ dec (Z.of_nat i)) +:+ newline]. eexists [_; _; _; _].
  reflexivity.
Qed.

(** The channel that was told has the key and the name of the one shown. *)
Lemma told_channel_key ch cur j : keyed ch →
  let new := told_channel ch (cur <| c_index := Z.of_nat j |> <| c_has_settings := true |>) in
  own_key (new <| c_index := Z.of_nat j |>) = own_key ch ∧
  slot_name (new <| c_index := Z.of_nat j |>) = slot_name ch.
Proof.
  intros Hk. cbv zeta. split.
  - destruct Hk as (Hs & Hr & Hl). rewrite !keyed_own_key; [by destruct cur| |]; (split; [by destruct cur|done]).
  - unfold slot_name at 1. destruct cur as [ci cb cset cr]. cbn. rewrite bool_decide_false; [done|].
    unfold slot_name. destruct (negb (c_has_settings ch)); cbn; [done|]. by case_bool_decide.
Qed.

(** C22: a channel shown on one node can be typed in on another: `channel show'
    prints the role, the name and the key of a slot with a full key, and
    `channel set' with these words stores, in any slot of the other node, a
    channel with the same key and the same hash, so that the two nodes can read
    each other; the other node's table keeps its invariant. *)
Theorem channel_shared i j ch (sA sB : G) :
  chan_wf (w_channels sA.2) → channel_slots (w_channels sA.2) !! i = Some ch → keyed ch →
  (String.length (slot_name ch) ≤ 11)%nat → slot_name ch ≠ "Default" →
  chan_wf (w_channels sB.2) → (j < 8)%nat →
  (∃ pre mid, cmd_channel_show (K:=K) (L:=L) (T:=T) ["show"; dec (Z.of_nat i)] sA =
    Some (Ok (), say (pre ++ (("role: " +:+ shell_channel_role_name (c_role ch)) +:+ newline) ::
      (("name: " +:+ quoted (slot_name ch)) +:+ newline) :: mid ++ hex_pieces ch) sA)) ∧
  ∃ sB', cmd_channel_set (K:=K) (L:=L) (T:=T) ("set" :: dec (Z.of_nat j) :: channel_words ch) sB = Some (Ok (), sB') ∧
    chan_wf (w_channels sB'.2) ∧
    meshtastic_channels_get_key (w_channels sB'.2) (Z.of_nat j) =
      meshtastic_channels_get_key (w_channels sA.2) (Z.of_nat i) ∧
    meshtastic_channels_get_hash (w_channels sB'.2) (Z.of_nat j) =
      meshtastic_channels_get_hash (w_channels sA.2) (Z.of_nat i).
Proof.
  intros HA Hch Hk Hlen Hname HB Hj. pose proof (wf_base _ HA) as HbA.
  assert (i < 8)%nat as Hi by (rewrite <-(base_slots (w_channels sA.2)) by done; by eapply lookup_lt_Some).
  pose proof (Forall_lookup_1 _ _ _ _ (base_psk _ HbA) Hch) as Hpsk.
  split; [by apply channel_show_prints|].
  destruct (keyed_slot _ i ch HbA (wf_own_hash _ HA i ch Hch (keyed_inherits _ Hk)) Hch Hk) as [-> ->].
  destruct (lookup_lt_is_Some_2 (channel_slots (w_channels sB.2)) j) as [cur Hcur];
    [rewrite base_slots; [done|apply HB]|].
  set (new := told_channel ch (cur <| c_index := Z.of_nat j |> <| c_has_settings := true |>)).
  assert (keyed new) as Hkn by (destruct Hk as (_ & Hr & Hl); by destruct cur).
  assert (set_target (w_channels sB.2) ("set" :: dec (Z.of_nat j) :: channel_words ch) = Some (Z.of_nat j, new)) as Ht.
  { unfold set_target. change (channel_words ch) with ("name" :: tail (channel_words ch)). cbv iota beta.
    rewrite parse_index, channels_get_slot, (proj2 (Nat.ltb_lt _ _)), Hcur by done.
    change ("name" :: tail (channel_words ch)) with (channel_words ch). by rewrite channel_words_options. }
  assert (channel_is_valid (Some new) = true) as Hv.
  { destruct Hkn as (_ & Hr & Hl). unfold channel_is_valid.
    assert ((Role_SECONDARY <? c_role new) = false) as -> by (by destruct Hr as [-> | ->]).
    rewrite (proj2 (Nat.ltb_ge _ _)) by (destruct Hl; lia). done. }
  pose proof (channel_set_wp ("set" :: dec (Z.of_nat j) :: channel_words ch) sB (wf_base _ HB)) as Hw.
  rewrite Ht, Hv in Hw. apply wp_run in Hw as (r & sB' & Hrun & _ & -> & st' & Hs & Hpost);
    [|intros c [= _ <-]; by apply keyed_inherits].
  rewrite Nat2Z.id in Hs, Hpost. exists sB'. split; [done|]. rewrite Hs. change (w_channels (stored _ _ _ ?st)) with st.
  pose proof (set_slot_post_wf _ _ _ _ HB Hpost) as Hwf. split; [done|].
  assert (fixup_slot (Z.of_nat j) new = new <| c_index := Z.of_nat j |>) as Hfix.
  { unfold fixup_slot. destruct ch as [? ? [] ?], cur. cbn in *. by rewrite bool_decide_false. }
  pose proof (ss_slot _ _ _ _ Hpost) as Hslot. rewrite Hfix in Hslot.
  destruct (keyed_slot st' j _ (wf_base _ Hwf) (ss_hash _ _ _ _ Hpost) Hslot) as [-> ->]; [done|].
  pose proof (told_channel_key ch cur j Hk) as Hnew. cbv zeta in Hnew. fold new in Hnew.
  by destruct Hnew as [-> ->].
Qed.
End shell_share.

(** ** The mock node *)

#[local] Existing Instances default_kconfig default_kconfig_ranges.
#[local] Existing Instances byte_position byte_telemetry bare_board no_drivers default_position_config.
#[local] Existing Instance small_shell.
#[local] Instance no_User : Pb User := pb_silent User.
#[local] Instance no_Status : Pb StatusMessage := pb_silent StatusMessage.
#[local] Instance no_FromRadio : Pb FromRadio := pb_silent FromRadio.
#[local] Instance no_ToRadio : Pb ToRadio := pb_silent ToRadio.

(** A day at the command line: a channel is set and shown, the role changed, a
    message queued and sent, the tables looked at, and some things refused. *)
Definition session : list shell_event :=
  [Sh_line ["channel"; "set"; "1"; "role"; "secondary"; "psk"; "hex"; "000102030405060708090a0b0c0d0e0f"; "name"; "Ops"];
   Sh_line ["channel"; "show"; "1"]; Sh_line ["channel"; "set"; "0"; "uplink"; "on"];
   Sh_line ["device"; "role"; "client_mute"]; Sh_line ["text"; "send"; "-c"; "1"; "hello"; "there"];
   Sh_line ["text"; "send"; "hello"]; Sh_round; Sh_node Ev_tick; Sh_line ["nodedb"; "list"]; Sh_line ["status"];
   Sh_line ["channel"; "set"; "9"; "psk"; "none"]; Sh_line ["reboot"]; Sh_line ["metrics"; "send"; "broadcast"];
   Sh_round; Sh_line ["channel"; "disable"; "1"]].

(** The two conditions on a session, computed (for a node table without
    metrics). *)
Definition plain_entry (e : nodedb_entry) : bool :=
  bool_decide (is_Some (scaled_tenths (float32_of_Z (snr (node e))))) &&
  bool_decide (device_metrics e = None ∧ environment_metrics e = None).
Fixpoint history_ok_bool (evs : list shell_event) (s : shell * world toy_psa mock_lora mock_kernel) : bool :=
  match evs with
  | [] => true
  | ev :: evs =>
      match ev with
      | Sh_line ("channel" :: "set" :: args) =>
          match set_target (w_channels s.2) ("set" :: args) with
          | Some (i, ch) => negb ((i =? primary_index (w_channels s.2)) && inherits ch)
          | None => true
          end
      | Sh_line ("nodedb" :: _) => forallb plain_entry (nodedb_entries (w_nodedb s.2))
      | Sh_line _ => true
      | Sh_round => true
      | Sh_node (Ev_send _ wait) => safe_wait wait
      | Sh_node _ => true
      end && match shell_exec full_modules packet_zero ev s with Some (_, s') => history_ok_bool evs s' | None => true end
  end.

Lemma plain_printable db : forallb plain_entry (nodedb_entries db) = true → all_printable db.
Proof.
  intros Hall e He. apply list_elem_of_In in He. apply (proj1 (forallb_forall _ _) Hall) in He.
  apply andb_true_iff in He as [Hs%bool_decide_eq_true [Hd Hm]%bool_decide_eq_true].
  split; [done|]. cbn. rewrite Hd, Hm. by split.
Qed.
Lemma history_ok_by evs : ∀ s, history_ok_bool evs s = true → history_ok full_modules packet_zero evs s.
Proof.
  induction evs as [|ev evs IH]; intros s Hb; [done|]. cbn [history_ok_bool history_ok] in *.
  apply andb_true_iff in Hb as [Hev Hb]. split.
  - destruct ev as [words| |[]]; try done. split.
    + intros args ch -> Ht. rewrite Ht, Z.eqb_refl in Hev. by destruct (inherits ch).
    + destruct words as [|word args]; [done|]. intros [= ->]. by apply plain_printable.
  - intros s' Hr. rewrite Hr in Hb. by apply IH.
Qed.

Lemma shell_safe_witness :
  (∃ s', shell_run full_modules packet_zero session desk = Some ((), s') ∧ shell_ok desk_fixed s') ∧
  (∃ s', shell_run full_modules packet_zero session desk = Some ((), s') ∧ sh_queue s'.1 = [] ∧
     length (mock_air (w_lora s'.2)) = 2%nat).
Proof.
  split.
  - apply shell_safe; [intros st; apply full_modules_safe| |].
    + split; [cbn; lia|]. exists factory_store. split; [by eexists|apply desk_wf].
    + apply history_ok_by. by vm_compute.
  - eexists. by split; [vm_compute; reflexivity|].
Defined.

(** A slot with a key, on a node where it was set. *)
Definition ops_slot : Channel :=
  mk_Channel 1 true (mk_ChannelSettings (seqZ 0 16) "Ops" false false None) Role_SECONDARY.
Lemma ops_table : ∃ st, chan_wf st ∧ channel_slots st !! 1%nat = Some ops_slot.
Proof.
  pose proof (store_channel_wp 1 ops_slot (desk_world factory_store) (wf_base _ default_table_wf)) as Hw.
  apply wp_run in Hw as (r & w' & _ & _ & st & _ & Hpost); [|lia|by apply (bool_decide_unpack _); vm_compute|done].
  exists st. split; [eapply set_slot_post_wf; [apply default_table_wf|exact Hpost]|].
  rewrite (ss_slot _ _ _ _ Hpost). by vm_compute.
Qed.

Lemma channel_shared_witness : ∃ sA sB' : shell * world toy_psa mock_lora mock_kernel,
  (∃ pre mid, cmd_channel_show ["show"; "1"] sA =
    Some (Ok (), say (pre ++ (("role: " +:+ "secondary") +:+ newline) :: (("name: " +:+ quoted "Ops") +:+ newline) ::
      mid ++ hex_pieces ops_slot) sA)) ∧
  cmd_channel_set ["set"; "3"; "name"; "Ops"; "role"; "secondary"; "psk"; "hex"; "000102030405060708090a0b0c0d0e0f"]
    desk = Some (Ok (), sB') ∧
  meshtastic_channels_get_hash (w_channels sB'.2) 3 = meshtastic_channels_get_hash (w_channels sA.2) 1.
Proof.
  destruct ops_table as (st & Hst & Hch).
  set (sA := (mk_shell [] [], set w_channels (λ _, st) (desk_world factory_store))).
  destruct (channel_shared 1 3 ops_slot sA desk) as (Hshow & sB' & Hset & _ & _ & Hhash); try done.
  - split; [done|]. split; [by right|by left].
  - apply Nat.leb_le. by vm_compute.
  - apply default_table_wf.
  - lia.
  - exists sA, sB'. by split_and!.
Defined.

(** ** What the commands do not expect *)

(** Taking the key of the primary channel away by making it a secondary one
    recurses for ever. *)
Example keyless_primary_hangs :
  meshtastic_cmd ["channel"; "set"; "0"; "role"; "secondary"; "psk"; "none"] desk = None.
Proof. by vm_compute. Qed.

(** A node that has reported a temperature too large for an [int32_t] (any node
    may) makes its own entry impossible to show. *)
Definition hot_desk : shell * world toy_psa mock_lora mock_kernel :=
  (mk_shell [] [], (desk_world factory_store) <| w_nodedb := mk_nodedb
     [(new_entry 9) <| environment_metrics :=
        Some (EnvironmentMetrics_zero <| em_temperature := Some (S754_infinity false) |>) |>] 1 |>).
Example hot_node_unprintable : meshtastic_cmd ["nodedb"; "show"; "9"] hot_desk = None.
Proof. by vm_compute. Qed.
