(* ===== verification/Serial.v ===== *)
(** * The serial transport (src/meshtastic_serial.c)

    The phone protocol over a UART: stream framing, the receive handler that
    finds the frames in a byte stream again, and the transmit handler that
    moves frames from the phone's queue to the UART's ring.  A ring buffer is
    the list of its bytes; the UART is the bytes it delivers. *)

From S2P Require Import Prelude Types External Mock Core Airtime Channels NodeDB Wire Store World.
From S2P Require Import Radio Reliable PhoneApi Handshake Invariant Send NodeInfo Router Reception Node.

Definition MESHTASTIC_SERIAL_START1 : Z := 0x94.
Definition MESHTASTIC_SERIAL_START2 : Z := 0xc3.
Definition MESHTASTIC_SERIAL_HEADER : nat := 4.
Definition MESHTASTIC_SERIAL_WIRE_MAX : nat := MESHTASTIC_API_FRAME_MAX + MESHTASTIC_SERIAL_HEADER.

(** The static [serial] structure and the two rings: the work items are
    counted as submitted, [tx_irq] is the UART's transmit interrupt. *)
Record serial := mk_serial {
  serial_rx_rb : list Z; serial_tx_rb : list Z; rx_overflow : bool; tx_irq : bool;
  rx_work : nat; tx_work : nat; tx_cont_work : nat
}.
#[export] Instance serial_set : Settable serial := λ x,
  mk_serial (serial_rx_rb x) (serial_tx_rb x) (rx_overflow x) (tx_irq x) (rx_work x) (tx_work x)
    (tx_cont_work x).
Definition serial_zero : serial := mk_serial [] [] false false 0 0 0.

(** The bytes written to [out]; [[]] is the answer 0. *)
Definition meshtastic_serial_encode_frame (payload : list Z) (out_len : nat) : list Z :=
  if (MESHTASTIC_API_FRAME_MAX <? length payload)%nat
     || (out_len <? length payload + MESHTASTIC_SERIAL_HEADER)%nat then []
  else
    [MESHTASTIC_SERIAL_START1; MESHTASTIC_SERIAL_START2;
     u8 (Z.shiftr (Z.of_nat (length payload)) 8); u8 (Z.of_nat (length payload))] ++ payload.

(** One attempt to take a frame from the receive ring: what is left in it, and
    the verdict. *)
Inductive rx_pop := Rx_need_data | Rx_resync (rest : list Z) | Rx_frame (payload rest : list Z).

Definition rx_pkt_len (b2 b3 : Z) : nat := Z.to_nat (Z.lor (u16 (Z.shiftl b2 8)) b3).

Definition serial_rx_pop_frame (rb : list Z) : rx_pop :=
  match rb with
  | b0 :: b1 :: b2 :: b3 :: body =>
      if negb (b0 =? MESHTASTIC_SERIAL_START1) then Rx_resync (tail rb)
      else if negb (b1 =? MESHTASTIC_SERIAL_START2) then Rx_resync (tail rb)
      else
        let pkt_len := rx_pkt_len b2 b3 in
        if (MESHTASTIC_API_FRAME_MAX <? pkt_len)%nat then Rx_resync (tail rb)
        else
          let frame_len := (MESHTASTIC_SERIAL_HEADER + pkt_len)%nat in
          if (length rb <? frame_len)%nat then Rx_need_data
          else Rx_frame (take pkt_len body) (drop frame_len rb)
  | _ => Rx_need_data
  end.

(** The UART interrupt.  [space] is the contiguous room [ring_buf_put_ptr]
    finds in the ring and [fifo] what the UART has received; the bytes left in
    its FIFO are returned. *)
Definition serial_isr_rx (space : nat) (fifo : list Z) (s : serial) : list Z * serial :=
  if (space =? 0)%nat then ([], s <| rx_overflow := true |>)
  else match take space fifo with
       | [] => (fifo, s)
       | got => (drop space fifo, s <| serial_rx_rb ::= (λ rb, rb ++ got) |> <| rx_work ::= S |>)
       end.

(** [sent]: what [uart_fifo_fill] accepts of the [len] bytes offered. *)
Definition serial_tx_finish (s : serial) : serial :=
  match serial_tx_rb s with
  | [] => s <| tx_irq := false |> <| tx_cont_work ::= S |>
  | _ => s
  end.
Definition serial_isr_tx (sent : nat) (s : serial) : serial :=
  match serial_tx_rb s with
  | [] => serial_tx_finish s
  | _ => s <| serial_tx_rb ::= drop sent |>
  end.

Section serial.
Context {K L T : Type} `{Kconfig} `{PSA K} `{LoraDriver L} `{Kernel T} `{Libc} `{Pb Data}.
Context `{Pb FromRadio} `{Pb ToRadio}.
Notation W := (world K L T).
Notation SW := (serial * W)%type.

(** Run on one of the two halves of the state. *)
Definition on_serial {A} (f : serial → A * serial) : M SW A := λ s,
  let '(a, s1) := f s.1 in Some (a, (s1, s.2)).
Definition on_world {A} (m : M W A) : M SW A := λ s,
  match m s.2 with Some (a, w) => Some (a, (s.1, w)) | None => None end.

Definition serial_tx_queue (data : list Z) (s : serial) : bool * serial :=
  let ok := (length data <=? CONFIG_SERIAL_TX_BUF_SIZE - length (serial_tx_rb s))%nat in
  (ok, (if ok then s <| serial_tx_rb ::= (λ rb, rb ++ data) |> else s) <| tx_irq := true |>).

(** [api] is the phone with number [i]. *)
Context (i : nat).

Fixpoint rx_work_loop (fuel : nat) : M SW () :=
  match fuel with
  | O => ub
  | S fuel =>
      rb ← gets (S:=SW) (λ s, serial_rx_rb s.1);
      match serial_rx_pop_frame rb with
      | Rx_need_data => mret ()
      | Rx_resync rest =>
          on_serial (λ s, ((), s <| serial_rx_rb := rest |>)) ;; rx_work_loop fuel
      | Rx_frame payload rest =>
          on_serial (λ s, ((), s <| serial_rx_rb := rest |>)) ;;
          (if (length payload =? 0)%nat then mret ()
           else on_world (meshtastic_phoneapi_handle_toradio i payload)) ;;
          rx_work_loop fuel
      end
  end.
(** Every turn but the last takes a byte from the ring. *)
Definition rx_work_handler : M SW () :=
  on_serial (λ s, ((), s <| rx_overflow := false |>)) ;;
  rb ← gets (S:=SW) (λ s, serial_rx_rb s.1);
  rx_work_loop (S (length rb)).

Fixpoint tx_work_loop (fuel : nat) : M SW () :=
  match fuel with
  | O => ub
  | S fuel =>
      frame ← on_world (meshtastic_phoneapi_pop_frame (L:=L) i);
      match frame with
      | None => mret ()
      | Some frame =>
          let wire := meshtastic_serial_encode_frame frame MESHTASTIC_SERIAL_WIRE_MAX in
          if (length wire =? 0)%nat then tx_work_loop fuel
          else
            rb ← gets (S:=SW) (λ s, serial_tx_rb s.1);
            if (CONFIG_SERIAL_TX_BUF_SIZE - length rb <? length wire)%nat
            then on_world (on_phone i (meshtastic_phoneapi_push_frame_front frame))
            else
              ok ← on_serial (serial_tx_queue wire);
              if (ok : bool) then tx_work_loop fuel
              else on_world (on_phone i (meshtastic_phoneapi_push_frame_front frame))
      end
  end.
(** While the phone has frames and the ring has room: a frame takes at least
    four bytes of it. *)
Definition tx_work_handler : M SW () := tx_work_loop (S CONFIG_SERIAL_TX_BUF_SIZE).

(** One interrupt with the bytes of [chunk], then the work it submits. *)
Definition serial_receive (chunk : list Z) : M SW () :=
  rb ← gets (S:=SW) (λ s, serial_rx_rb s.1);
  on_serial (serial_isr_rx (CONFIG_SERIAL_RX_BUF_SIZE - length rb) chunk) ;;
  rx_work_handler.
Definition serial_feed (chunks : list (list Z)) : M SW () := mapM_ serial_receive chunks.
End serial.

(** ** The stream as a whole *)

(** All payloads a buffer holds, and the bytes of an unfinished frame. *)
Fixpoint rx_split_ (fuel : nat) (rb : list Z) : list (list Z) * list Z :=
  match fuel with
  | O => ([], rb)
  | S fuel =>
      match serial_rx_pop_frame rb with
      | Rx_need_data => ([], rb)
      | Rx_resync rest => rx_split_ fuel rest
      | Rx_frame payload rest =>
          let '(ps, r) := rx_split_ fuel rest in
          (if (length payload =? 0)%nat then ps else payload :: ps, r)
      end
  end.
Definition rx_split (rb : list Z) : list (list Z) * list Z := rx_split_ (S (length rb)) rb.

Lemma pop_shape rb :
  match serial_rx_pop_frame rb with
  | Rx_need_data => (length rb < MESHTASTIC_SERIAL_WIRE_MAX)%nat
  | Rx_resync rest => (length rest < length rb)%nat ∧
      ∀ more, serial_rx_pop_frame (rb ++ more) = Rx_resync (rest ++ more)
  | Rx_frame payload rest => (length rest < length rb)%nat ∧
      (length payload ≤ MESHTASTIC_API_FRAME_MAX)%nat ∧
      ∀ more, serial_rx_pop_frame (rb ++ more) = Rx_frame payload (rest ++ more)
  end.
Proof.
  unfold serial_rx_pop_frame, MESHTASTIC_SERIAL_WIRE_MAX, MESHTASTIC_SERIAL_HEADER.
  destruct rb as [|b0 [|b1 [|b2 [|b3 body]]]]; try (cbn; lia). cbn [app tail].
  case_if; [split; [cbn; lia|done]|]. case_if; [split; [cbn; lia|done]|].
  destruct (Nat.ltb_spec MESHTASTIC_API_FRAME_MAX (rx_pkt_len b2 b3)) as [|Hmax];
    [split; [cbn; lia|done]|].
  cbn [length]. destruct (Nat.ltb_spec (S (S (S (S (length body))))) (4 + rx_pkt_len b2 b3))
    as [Hlt|Hge]; [lia|].
  cbn [Nat.add drop]. split_and!.
  - cbn. rewrite length_drop. lia.
  - rewrite length_take. lia.
  - intros more. rewrite length_app.
    rewrite (proj2 (Nat.ltb_ge _ _)) by lia.
    by rewrite take_app_le, drop_app_le by lia.
Qed.

Lemma rx_split_fuel n : ∀ m rb, (length rb < n)%nat → (length rb < m)%nat →
  rx_split_ n rb = rx_split_ m rb.
Proof.
  induction n as [|n IH]; intros [|m] rb Hn Hm; [lia..|]. cbn [rx_split_].
  pose proof (pop_shape rb) as Hp. destruct (serial_rx_pop_frame rb) as [|rest|payload rest]; [done| |].
  - destruct Hp as [Hl _]. apply IH; lia.
  - destruct Hp as [Hl _]. by rewrite (IH m rest) by lia.
Qed.

Lemma rx_split_eq rb : rx_split rb =
  match serial_rx_pop_frame rb with
  | Rx_need_data => ([], rb)
  | Rx_resync rest => rx_split rest
  | Rx_frame payload rest =>
      let '(ps, r) := rx_split rest in (if (length payload =? 0)%nat then ps else payload :: ps, r)
  end.
Proof.
  unfold rx_split at 1. cbn [rx_split_]. pose proof (pop_shape rb) as Hp.
  destruct (serial_rx_pop_frame rb) as [|rest|payload rest]; [done| |]; destruct Hp as [Hl _].
  - apply rx_split_fuel; lia.
  - unfold rx_split. by rewrite (rx_split_fuel (length rb) (S (length rest)) rest) by lia.
Qed.

(** Bytes that arrive later do not change what has been found. *)
Lemma rx_split_app a : ∀ b,
  rx_split (a ++ b) =
    let '(ps, r) := rx_split a in let '(qs, r') := rx_split (r ++ b) in (ps ++ qs, r').
Proof.
  remember (length a) as n eqn:Hn. revert a Hn.
  induction n as [n IH] using lt_wf_ind; intros a -> b.
  rewrite (rx_split_eq a). pose proof (pop_shape a) as Hp.
  destruct (serial_rx_pop_frame a) as [|rest|payload rest].
  - by destruct (rx_split (a ++ b)).
  - destruct Hp as [Hl Ha]. rewrite rx_split_eq, Ha. by apply (IH (length rest)).
  - destruct Hp as (Hl & _ & Ha). rewrite rx_split_eq, Ha, (IH (length rest) Hl rest) by done.
    destruct (rx_split rest) as [ps r]. destruct (rx_split (r ++ b)) as [qs r'].
    by destruct (length payload =? 0)%nat.
Qed.

Lemma rx_split_rest rb : (length (rx_split rb).2 < MESHTASTIC_SERIAL_WIRE_MAX)%nat.
Proof.
  remember (length rb) as n eqn:Hn. revert rb Hn.
  induction n as [n IH] using lt_wf_ind; intros rb ->.
  rewrite rx_split_eq. pose proof (pop_shape rb) as Hp.
  destruct (serial_rx_pop_frame rb) as [|rest|payload rest]; [done| |].
  - destruct Hp as [Hl _]. by apply (IH (length rest)).
  - destruct Hp as [Hl _]. specialize (IH _ Hl rest eq_refl). by destruct (rx_split rest).
Qed.

Lemma rx_split_idem rb : rx_split (rx_split rb).2 = ([], (rx_split rb).2).
Proof.
  pose proof (rx_split_app rb []) as Ha. rewrite app_nil_r in Ha.
  destruct (rx_split rb) as [ps r]. cbn [snd]. rewrite app_nil_r in Ha.
  destruct (rx_split r) as [qs r']. injection Ha as Hps <-. f_equal.
  apply (f_equal length) in Hps. rewrite length_app in Hps. destruct qs; [done|cbn in Hps; lia].
Qed.

(** ** Framing *)

Definition payload_ok (p : list Z) : Prop := (0 < length p ≤ MESHTASTIC_API_FRAME_MAX)%nat.

Lemma encode_frame_eq p out_len :
  (length p ≤ MESHTASTIC_API_FRAME_MAX)%nat → (length p + MESHTASTIC_SERIAL_HEADER ≤ out_len)%nat →
  meshtastic_serial_encode_frame p out_len =
    [MESHTASTIC_SERIAL_START1; MESHTASTIC_SERIAL_START2;
     u8 (Z.shiftr (Z.of_nat (length p)) 8); u8 (Z.of_nat (length p))] ++ p.
Proof.
  intros Hp Ho. unfold meshtastic_serial_encode_frame.
  by rewrite !(proj2 (Nat.ltb_ge _ _)) by lia.
Qed.

Lemma pkt_len_roundtrip n :
  (n ≤ MESHTASTIC_API_FRAME_MAX)%nat →
  rx_pkt_len (u8 (Z.shiftr (Z.of_nat n) 8)) (u8 (Z.of_nat n)) = n.
Proof.
  intros Hn. assert (Forall (λ n, rx_pkt_len (u8 (Z.shiftr (Z.of_nat n) 8)) (u8 (Z.of_nat n)) = n)
    (seq 0 513)) as Hall by (apply (bool_decide_unpack _); by vm_compute).
  rewrite Forall_seq in Hall. apply Hall. unfold MESHTASTIC_API_FRAME_MAX in Hn. lia.
Qed.

Lemma pop_encoded p rest :
  payload_ok p →
  serial_rx_pop_frame (meshtastic_serial_encode_frame p MESHTASTIC_SERIAL_WIRE_MAX ++ rest)
    = Rx_frame p rest.
Proof.
  intros [_ Hp]. rewrite encode_frame_eq by (unfold MESHTASTIC_SERIAL_WIRE_MAX; lia).
  cbn [app]. unfold serial_rx_pop_frame, MESHTASTIC_SERIAL_HEADER.
  rewrite !Z.eqb_refl. cbn [negb]. rewrite pkt_len_roundtrip by done.
  rewrite (proj2 (Nat.ltb_ge _ _)) by done.
  rewrite (proj2 (Nat.ltb_ge _ _)) by (cbn [length]; rewrite length_app; lia).
  cbn [Nat.add drop]. by rewrite take_app_length, drop_app_length.
Qed.

(** Bytes that are not the first of a frame are skipped. *)
Lemma skip_noise noise rb :
  Forall (λ b, b ≠ MESHTASTIC_SERIAL_START1) noise → (MESHTASTIC_SERIAL_HEADER ≤ length rb)%nat →
  rx_split (noise ++ rb) = rx_split rb.
Proof.
  intros Hn Hl. induction Hn as [|b noise Hb _ IH]; [done|]. rewrite rx_split_eq. cbn [app].
  assert (serial_rx_pop_frame (b :: noise ++ rb) = Rx_resync (noise ++ rb)) as ->; [|done].
  unfold serial_rx_pop_frame.
  assert (3 ≤ length (noise ++ rb))%nat as H3
    by (rewrite length_app; unfold MESHTASTIC_SERIAL_HEADER in Hl; lia).
  destruct (noise ++ rb) as [|b1 [|b2 [|b3 l]]]; cbn in H3; try lia.
  by rewrite (proj2 (Z.eqb_neq _ _)).
Qed.

(** A stream: each frame after some bytes of other output. *)
Definition stream (l : list (list Z * list Z)) : list Z :=
  concat ((λ np, np.1 ++ meshtastic_serial_encode_frame np.2 MESHTASTIC_SERIAL_WIRE_MAX) <$> l).
Definition stream_ok (l : list (list Z * list Z)) : Prop :=
  Forall (λ np, Forall (λ b, b ≠ MESHTASTIC_SERIAL_START1) np.1 ∧ payload_ok np.2) l.

Lemma rx_split_stream l : stream_ok l → rx_split (stream l) = (snd <$> l, []).
Proof.
  unfold stream. induction 1 as [|[noise p] l [Hn Hp] _ IH]; [done|].
  rewrite !fmap_cons. cbn [concat fst snd].
  rewrite <- app_assoc, skip_noise; [|done|].
  - rewrite rx_split_eq, pop_encoded, IH by done.
    rewrite (proj2 (Nat.eqb_neq _ _)); [done|]. unfold payload_ok in Hp. cbn in Hp. lia.
  - destruct Hp as [_ Hp]. cbn [snd] in Hp. rewrite encode_frame_eq; [|done|unfold MESHTASTIC_SERIAL_WIRE_MAX; lia].
    rewrite !length_app. unfold MESHTASTIC_SERIAL_HEADER. cbn [length]. lia.
Qed.

Section serial_correct.
Context {K L T : Type} `{Kconfig} `{PSA K} `{LoraDriver L} `{Kernel T} `{Libc} `{Pb Data}.
Context `{Pb FromRadio} `{Pb ToRadio}.
Notation W := (world K L T).
Notation SW := (serial * W)%type.
Context (i : nat).

(** Handle payloads in order. *)
Definition handle_all (ps : list (list Z)) : M W () :=
  mapM_ (meshtastic_phoneapi_handle_toradio i) ps.

Lemma handle_all_app ps qs (w : W) :
  handle_all (ps ++ qs) w =
    match handle_all ps w with Some (_, w') => handle_all qs w' | None => None end.
Proof.
  revert w. induction ps as [|p ps IH]; intros w; [done|]. cbn [app]. unfold handle_all. cbn [mapM_].
  unfold mbind, M_bind. destruct (meshtastic_phoneapi_handle_toradio i p w) as [[u w']|]; [|done].
  apply IH.
Qed.

Lemma rx_loop_run fuel : ∀ (s : serial) (w : W), (length (serial_rx_rb s) < fuel)%nat →
  rx_work_loop i fuel (s, w) =
    match handle_all (rx_split (serial_rx_rb s)).1 w with
    | Some (_, w') => Some ((), (s <| serial_rx_rb := (rx_split (serial_rx_rb s)).2 |>, w'))
    | None => None
    end.
Proof.
  induction fuel as [|fuel IH]; intros s w Hl; [lia|]. cbn [rx_work_loop].
  unfold mbind at 1, M_bind, gets. cbn [fst]. rewrite rx_split_eq.
  pose proof (pop_shape (serial_rx_rb s)) as Hp.
  destruct (serial_rx_pop_frame (serial_rx_rb s)) as [|rest|payload rest].
  - cbn. unfold mret, M_ret. destruct s. done.
  - destruct Hp as [Hlt _]. unfold mbind at 1, M_bind, on_serial. cbn [fst snd].
    rewrite (IH (s <| serial_rx_rb := rest |>)) by (cbn; lia). done.
  - destruct Hp as (Hlt & _). unfold mbind at 1, M_bind, on_serial. cbn [fst snd].
    destruct (rx_split rest) as [ps r] eqn:Er. unfold mbind at 1, M_bind, on_world. 
    assert (∀ w', rx_work_loop i fuel (s <| serial_rx_rb := rest |>, w') =
      match handle_all ps w' with
      | Some (_, w') => Some ((), (s <| serial_rx_rb := r |>, w')) | None => None end) as Hgo.
    { intros w'. rewrite (IH (s <| serial_rx_rb := rest |>)) by (cbn; lia). cbn [serial_rx_rb].
      change (serial_rx_rb (s <| serial_rx_rb := rest |>)) with rest. by rewrite Er. }
    destruct (length payload =? 0)%nat; cbn [fst snd mret M_ret]; [apply Hgo|].
    unfold handle_all at 1. cbn [mapM_]. unfold mbind at 1, M_bind.
    destruct (meshtastic_phoneapi_handle_toradio i payload w) as [[u w']|]; [|done].
    apply Hgo.
Qed.

Lemma receive_run chunk (s : serial) (w : W) (rb := serial_rx_rb s ++ chunk) :
  (length rb ≤ CONFIG_SERIAL_RX_BUF_SIZE)%nat →
  (length (serial_rx_rb s) < CONFIG_SERIAL_RX_BUF_SIZE)%nat →
  ∃ s', serial_receive i chunk (s, w) =
      match handle_all (rx_split rb).1 w with
      | Some (_, w') => Some ((), (s', w')) | None => None end ∧
    serial_rx_rb s' = (rx_split rb).2 ∧ serial_tx_rb s' = serial_tx_rb s.
Proof.
  intros Hlen Hroom. unfold serial_receive, rx_work_handler, mbind, M_bind, gets, on_serial.
  cbn [fst snd]. set (space := (CONFIG_SERIAL_RX_BUF_SIZE - length (serial_rx_rb s))%nat).
  subst rb. rewrite length_app in Hlen.
  assert ((serial_isr_rx space chunk s).1 = [] ∧
    serial_rx_rb (serial_isr_rx space chunk s).2 = serial_rx_rb s ++ chunk ∧
    serial_tx_rb (serial_isr_rx space chunk s).2 = serial_tx_rb s) as (H1' & H2' & H3').
  { unfold serial_isr_rx. rewrite (proj2 (Nat.eqb_neq _ _)) by lia.
    rewrite take_ge, drop_ge by lia. destruct chunk as [|b chunk]; [by rewrite app_nil_r|done]. }
  destruct (serial_isr_rx space chunk s) as [left s1]. cbn [fst snd] in *.
  rewrite rx_loop_run by (cbn; lia). cbn [serial_rx_rb]. 
  exists (s1 <| rx_overflow := false |> <| serial_rx_rb := (rx_split (serial_rx_rb s ++ chunk)).2 |>).
  split_and!; [|done|done]. change (serial_rx_rb (s1 <| rx_overflow := false |>)) with (serial_rx_rb s1).
  by rewrite H2'.
Qed.

Lemma feed_run chunks : ∀ (s : serial) (w : W),
  (MESHTASTIC_SERIAL_WIRE_MAX ≤ CONFIG_SERIAL_RX_BUF_SIZE)%nat →
  Forall (λ c, (length c + MESHTASTIC_SERIAL_WIRE_MAX ≤ S CONFIG_SERIAL_RX_BUF_SIZE)%nat) chunks →
  (rx_split (serial_rx_rb s)) = ([], serial_rx_rb s) →
  ∃ s', serial_feed i chunks (s, w) =
      match handle_all (rx_split (serial_rx_rb s ++ concat chunks)).1 w with
      | Some (_, w') => Some ((), (s', w')) | None => None end ∧
    serial_rx_rb s' = (rx_split (serial_rx_rb s ++ concat chunks)).2.
Proof.
  intros s w Hbuf Hc. revert s w. induction Hc as [|c chunks Hc _ IH]; intros s w Hs.
  - exists s. cbn [concat]. rewrite app_nil_r, Hs. done.
  - pose proof (rx_split_rest (serial_rx_rb s)) as Hr. rewrite Hs in Hr. cbn [snd] in Hr.
    destruct (receive_run c s w) as (s1 & Hrun & Hrb & _); [rewrite length_app; lia|lia|].
    cbn [concat]. rewrite app_assoc. pose proof (rx_split_app (serial_rx_rb s ++ c) (concat chunks)) as Happ.
    destruct (rx_split (serial_rx_rb s ++ c)) as [ps r] eqn:Esp. cbn [fst snd] in *. subst r.
    assert (rx_split (serial_rx_rb s1) = ([], serial_rx_rb s1)) as Hs1.
    { pose proof (rx_split_idem (serial_rx_rb s ++ c)) as Hi. by rewrite Esp in Hi. }
    rewrite Happ. destruct (rx_split (serial_rx_rb s1 ++ concat chunks)) as [qs r'] eqn:Eq.
    cbn [fst snd]. unfold serial_feed. cbn [mapM_]. unfold mbind at 1, M_bind. rewrite Hrun.
    rewrite handle_all_app. destruct (handle_all ps w) as [[u w1]|].
    + destruct (IH s1 w1 Hs1) as (s2 & Hrun2 & Hrb2). rewrite Eq in Hrun2, Hrb2. by exists s2.
    + exists (s1 <| serial_rx_rb := r' |>). done.
Qed.

(** ** Transmission *)

(** A phone outside the handshake, with the frames [l] in its queue. *)
Definition phone_holds (w : W) (l : list (list Z)) : Prop :=
  ∃ api, w_phones w !! i = Some api ∧ ring_repr api l ∧ ph_config_state api = CONFIG_IDLE.

Lemma on_phone_run {A} (m : M phoneapi A) Q api (w : W) :
  w_phones w !! i = Some api →
  wp m (λ a api', Q a (w <| w_phones ::= <[i := api']> |>)) api → wp (on_phone i m) Q w.
Proof. intros Hi Hm. unfold wp, on_phone in *. rewrite Hi. by destruct (m api) as [[a api']|]. Qed.

Lemma pop_idle l (w : W) :
  phone_holds w l →
  wp (meshtastic_phoneapi_pop_frame i) (λ f w', f = head l ∧ phone_holds w' (tail l) ∧
    (l ≠ [] → ∀ api, w_phones w' !! i = Some api → length (tail l) < ph_queue_size api)%nat) w.
Proof.
  intros (api & Hi & Hr & Hidle). unfold meshtastic_phoneapi_pop_frame.
  rewrite wp_bind. unfold wp at 1. rewrite (on_phone_gets id i api w Hi). cbn [id].
  rewrite (rr_count _ _ Hr). destruct l as [|f l]; cbn [length Nat.eqb head tail].
  - unfold config_active. rewrite bool_decide_true by done. wps. split_and!; [done|by exists api|done].
  - rewrite wp_bind. apply (on_phone_run _ _ api); [done|].
    eapply wp_mono; [by apply ring_pop_wp|]. intros g api' (-> & Hrest & _ & Hr'). wps.
    assert (w_phones (w <| w_phones ::= <[i := api']> |>) !! i = Some api') as Hi'.
    { cbn. apply list_lookup_insert_eq. by eapply lookup_lt_Some. }
    destruct Hrest as (_ & _ & Hst & _ & _ & _ & _ & Hsz). split_and!; [done| |].
    + exists api'. by rewrite Hst.
    + intros _ api'' Hi''. rewrite Hi' in Hi''. injection Hi'' as <-. rewrite Hsz.
      apply (rr_bound _ _ Hr).
Qed.

Lemma push_back_idle f l (w : W) api :
  phone_holds w l → w_phones w !! i = Some api → (length l < ph_queue_size api)%nat →
  wp (on_phone i (meshtastic_phoneapi_push_frame_front f)) (λ _ w', phone_holds w' (f :: l)) w.
Proof.
  intros (api' & Hi' & Hr & Hidle) Hi Hroom. rewrite Hi in Hi'. injection Hi' as <-.
  apply (on_phone_run _ _ api); [done|]. eapply wp_mono; [by apply ring_front_wp|].
  intros u api' [Hrest Hr']. rewrite (proj2 (Nat.eqb_neq _ _)) in Hr' by lia.
  exists api'. split; [|split; [done|]].
  - cbn. apply list_lookup_insert_eq. by eapply lookup_lt_Some.
  - destruct Hrest as (_ & _ & -> & _). done.
Qed.

Definition wire_of (f : list Z) : list Z :=
  meshtastic_serial_encode_frame f MESHTASTIC_SERIAL_WIRE_MAX.

(** The frames [fs] have joined the ring. *)
Definition tx_more (fs : list (list Z)) (s : serial) : serial :=
  mk_serial (serial_rx_rb s) (serial_tx_rb s ++ concat fs) (rx_overflow s)
    (tx_irq s || negb (bool_decide (fs = []))) (rx_work s) (tx_work s) (tx_cont_work s).
Lemma tx_more_none s : s = tx_more [] s.
Proof. destruct s. unfold tx_more. cbn. by rewrite app_nil_r, orb_false_r. Qed.

(** What a run of the transmit handler leaves: the first [k] frames are in the
    ring, the others in the queue, and the next one has no room. *)
Definition tx_flushed (l : list (list Z)) (s : serial) (sw : SW) : Prop := ∃ k,
  (k ≤ length l)%nat ∧
  sw.1 = tx_more (wire_of <$> take k l) s ∧
  (length (serial_tx_rb sw.1) ≤ CONFIG_SERIAL_TX_BUF_SIZE)%nat ∧ phone_holds sw.2 (drop k l) ∧
  ∀ f, l !! k = Some f →
    (CONFIG_SERIAL_TX_BUF_SIZE < length (serial_tx_rb sw.1) + length (wire_of f))%nat.

Lemma wire_length f : (length f ≤ MESHTASTIC_API_FRAME_MAX)%nat →
  length (wire_of f) = (length f + MESHTASTIC_SERIAL_HEADER)%nat.
Proof.
  intros Hf. unfold wire_of. rewrite encode_frame_eq; [|done|unfold MESHTASTIC_SERIAL_WIRE_MAX; lia].
  rewrite length_app. unfold MESHTASTIC_SERIAL_HEADER. cbn [length]. lia.
Qed.

Lemma tx_loop_wp fuel : ∀ l (s : serial) (w : W),
  (CONFIG_SERIAL_TX_BUF_SIZE - length (serial_tx_rb s) < fuel)%nat →
  (length (serial_tx_rb s) ≤ CONFIG_SERIAL_TX_BUF_SIZE)%nat →
  Forall (λ f, (length f ≤ MESHTASTIC_API_FRAME_MAX)%nat) l → phone_holds w l →
  wp (tx_work_loop i fuel) (λ _, tx_flushed l s) (s, w).
Proof.
  induction fuel as [|fuel IH]; intros l s w Hfuel Hroom Hl Hw; [lia|]. cbn [tx_work_loop].
  rewrite wp_bind. unfold wp at 1, on_world. cbn [fst snd].
  destruct (proj1 (wp_run _ _ _) (pop_idle l w Hw)) as (fr & w1 & -> & -> & Hw1 & Hsz). cbn [fst snd].
  destruct l as [|f l]; cbn [head tail] in *.
  { wps. exists 0%nat. cbn. split_and!; try done; try lia. apply tx_more_none. }
  apply Forall_cons in Hl as [Hf Hl]. pose proof (wire_length f Hf) as Hwl. unfold wire_of in Hwl.
  rewrite Hwl. rewrite (proj2 (Nat.eqb_neq _ 0)) by (unfold MESHTASTIC_SERIAL_HEADER; lia).
  do 2 wp_step. cbn [fst].
  destruct (Nat.ltb_spec (CONFIG_SERIAL_TX_BUF_SIZE - length (serial_tx_rb s))
    (length f + MESHTASTIC_SERIAL_HEADER)) as [Hno|Hok].
  - unfold wp, on_world. cbn [fst snd]. destruct Hw1 as (api & Hi & Hrest).
    destruct (proj1 (wp_run _ _ _) (push_back_idle f l w1 api ltac:(by exists api) Hi
      ltac:(by apply Hsz))) as (u & w2 & -> & Hw2).
    exists 0%nat. cbn [take fmap list_fmap concat drop fst snd].
    split_and!; try done; [cbn; lia|apply tx_more_none|]. intros g [= <-]. rewrite wire_length by done. lia.
  - rewrite wp_bind. unfold wp at 1, on_serial, serial_tx_queue. cbn [fst snd]. rewrite Hwl.
    rewrite (proj2 (Nat.leb_le _ _)) by done.
    set (s1 := s <| serial_tx_rb ::= (λ rb, rb ++ meshtastic_serial_encode_frame f MESHTASTIC_SERIAL_WIRE_MAX) |>
      <| tx_irq := true |>).
    assert (length (serial_tx_rb s1) = length (serial_tx_rb s) + length f + MESHTASTIC_SERIAL_HEADER)%nat
      as Hl1.
    { change (serial_tx_rb s1) with
        (serial_tx_rb s ++ meshtastic_serial_encode_frame f MESHTASTIC_SERIAL_WIRE_MAX).
      rewrite length_app, Hwl. lia. }
    unfold MESHTASTIC_SERIAL_HEADER in *. eapply wp_mono; [apply (IH l s1 w1); [lia|lia|done|done]|].
    intros u [s2 w2] (k & Hk & Htx & Hle & Hh & Hnext). exists (S k). cbn [fst snd] in *.
    cbn [take drop]. rewrite fmap_cons. cbn [concat]. split_and!; try done; [cbn; lia|].
    rewrite Htx. unfold tx_more. cbn. by rewrite <-app_assoc, orb_true_r.
Qed.
(** ** Properties *)

(** C15: on a ring that can hold a whole frame (516 bytes at least; a smaller
    one can stall, [serial_small_ring_stalls]) the receiver finds exactly the
    frames that were sent: for any list of payloads of legal size, each framed
    and preceded by any other output that contains no start byte 0x94, and
    however the bytes are cut into interrupts of at most RX_BUF_SIZE - 515
    bytes each, the phone's messages are handled once each, in order and unchanged, and
    nothing is left in the ring. *)
Theorem serial_stream_received l chunks s (w : W) :
  (MESHTASTIC_SERIAL_WIRE_MAX ≤ CONFIG_SERIAL_RX_BUF_SIZE)%nat →
  Forall (λ c, (length c + MESHTASTIC_SERIAL_WIRE_MAX ≤ S CONFIG_SERIAL_RX_BUF_SIZE)%nat) chunks →
  stream_ok l → concat chunks = stream l → serial_rx_rb s = [] →
  ∃ s', serial_feed i chunks (s, w) =
      match handle_all (snd <$> l) w with
      | Some (_, w') => Some ((), (s', w')) | None => None end ∧
    serial_rx_rb s' = [].
Proof.
  intros Hbuf Hc Hl Hcat Hs. destruct (feed_run chunks s w Hbuf Hc) as (s' & Hrun & Hrb).
  { by rewrite Hs. }
  rewrite Hs in Hrun, Hrb. cbn [app] in Hrun, Hrb. rewrite Hcat, rx_split_stream in Hrun, Hrb by done.
  by exists s'.
Qed.

(** a receive ring smaller than the largest frame wedges the transport: once
    it is full of the beginning of a frame that it cannot hold, every further
    byte is thrown away, no message is handled any more and the ring never
    changes again. *)
Theorem serial_small_ring_stalls chunks s (w : W) b2 b3 body :
  serial_rx_rb s = MESHTASTIC_SERIAL_START1 :: MESHTASTIC_SERIAL_START2 :: b2 :: b3 :: body →
  length (serial_rx_rb s) = CONFIG_SERIAL_RX_BUF_SIZE →
  (rx_pkt_len b2 b3 ≤ MESHTASTIC_API_FRAME_MAX)%nat →
  (CONFIG_SERIAL_RX_BUF_SIZE < MESHTASTIC_SERIAL_HEADER + rx_pkt_len b2 b3)%nat →
  ∃ s', serial_feed i chunks (s, w) = Some ((), (s', w)) ∧ serial_rx_rb s' = serial_rx_rb s.
Proof.
  intros Hrb Hfull Hmax Hbig. revert s Hrb Hfull.
  induction chunks as [|c chunks IH]; intros s Hrb Hfull; [by exists s|].
  unfold serial_feed. cbn [mapM_]. unfold mbind at 1, M_bind.
  assert (serial_receive i c (s, w) = Some ((), (s <| rx_overflow := false |>, w))) as ->.
  { unfold serial_receive, rx_work_handler, mbind, M_bind, gets, on_serial. cbn [fst snd].
    unfold serial_isr_rx. rewrite Hfull, Nat.sub_diag. cbn [Nat.eqb fst snd].
    rewrite rx_loop_run by (cbn; lia). cbn [serial_rx_rb].
    change (serial_rx_rb (_ <| rx_overflow := false |>)) with (serial_rx_rb s).
    assert (serial_rx_pop_frame (serial_rx_rb s) = Rx_need_data) as Hpop.
    { rewrite Hrb in Hfull |- *. unfold serial_rx_pop_frame. rewrite !Z.eqb_refl. cbn [negb].
      rewrite (proj2 (Nat.ltb_ge _ _)) by done. by rewrite (proj2 (Nat.ltb_lt _ _)) by lia. }
    rewrite rx_split_eq, Hpop. cbn. by destruct s. }
  destruct (IH (s <| rx_overflow := false |>)) as (s' & Hr & He); [done..|]. by exists s'.
Qed.

(** the transmit handler loses and reorders nothing: outside the handshake
    it always returns, having moved a first part of the phone's queue, framed
    and in order, to the end of the transmit ring; the frames after it are
    still queued, in order, because the next one does not fit into the ring,
    which never overflows. *)
Theorem serial_tx_flushes l s (w : W) :
  (length (serial_tx_rb s) ≤ CONFIG_SERIAL_TX_BUF_SIZE)%nat →
  Forall (λ f, (length f ≤ MESHTASTIC_API_FRAME_MAX)%nat) l → phone_holds w l →
  ∃ sw, tx_work_handler i (s, w) = Some ((), sw) ∧ tx_flushed l s sw.
Proof.
  intros Hroom Hl Hw. destruct (proj1 (wp_run _ _ _)
    (tx_loop_wp (S CONFIG_SERIAL_TX_BUF_SIZE) l s w ltac:(lia) Hroom Hl Hw)) as ([] & sw & Hr & Hf).
  by exists sw.
Qed.
End serial_correct.

(** ** A phone on a UART *)

(** The same build with the smallest receive ring the Kconfig range admits. *)
Definition small_ring_kconfig : Kconfig := {|
  CONFIG_DUP_CACHE_SIZE := @CONFIG_DUP_CACHE_SIZE default_kconfig;
  CONFIG_OUTBOUND_QUEUE_DEPTH := @CONFIG_OUTBOUND_QUEUE_DEPTH default_kconfig;
  CONFIG_RX_QUEUE_DEPTH := @CONFIG_RX_QUEUE_DEPTH default_kconfig;
  CONFIG_DEFAULT_HOP_LIMIT := @CONFIG_DEFAULT_HOP_LIMIT default_kconfig;
  CONFIG_TX_POWER := @CONFIG_TX_POWER default_kconfig;
  CONFIG_TX_BUSY_RETRIES := @CONFIG_TX_BUSY_RETRIES default_kconfig;
  CONFIG_TX_BUSY_BACKOFF_MIN_MS := @CONFIG_TX_BUSY_BACKOFF_MIN_MS default_kconfig;
  CONFIG_TX_BUSY_BACKOFF_MAX_MS := @CONFIG_TX_BUSY_BACKOFF_MAX_MS default_kconfig;
  CONFIG_RELIABLE_MAX_PENDING := @CONFIG_RELIABLE_MAX_PENDING default_kconfig;
  CONFIG_RELIABLE_RETRANSMISSIONS := @CONFIG_RELIABLE_RETRANSMISSIONS default_kconfig;
  CONFIG_RELIABLE_RETRY_INTERVAL_MS := @CONFIG_RELIABLE_RETRY_INTERVAL_MS default_kconfig;
  CONFIG_RELIABLE_RETRY_JITTER_MS := @CONFIG_RELIABLE_RETRY_JITTER_MS default_kconfig;
  CONFIG_NODEDB_MAX_NODES := @CONFIG_NODEDB_MAX_NODES default_kconfig;
  CONFIG_NODEINFO_PEER_CACHE_SIZE := @CONFIG_NODEINFO_PEER_CACHE_SIZE default_kconfig;
  CONFIG_NODEINFO_UNKNOWN_SUPPRESS_SEC := @CONFIG_NODEINFO_UNKNOWN_SUPPRESS_SEC default_kconfig;
  CONFIG_NODEINFO_REPLY_SUPPRESS_SEC := @CONFIG_NODEINFO_REPLY_SUPPRESS_SEC default_kconfig;
  CONFIG_NODEINFO_START_DELAY_SEC := @CONFIG_NODEINFO_START_DELAY_SEC default_kconfig;
  CONFIG_NODEINFO_INTERVAL_SEC := @CONFIG_NODEINFO_INTERVAL_SEC default_kconfig;
  CONFIG_SERIAL_RX_BUF_SIZE := 64;
  CONFIG_SERIAL_TX_BUF_SIZE := @CONFIG_SERIAL_TX_BUF_SIZE default_kconfig;
  CONFIG_MQTT := @CONFIG_MQTT default_kconfig;
  CONFIG_MQTT_IGNORE_MQTT := @CONFIG_MQTT_IGNORE_MQTT default_kconfig;
  CONFIG_BLE := @CONFIG_BLE default_kconfig;
  CONFIG_NODE_LONG_NAME := @CONFIG_NODE_LONG_NAME default_kconfig;
  CONFIG_NODE_SHORT_NAME := @CONFIG_NODE_SHORT_NAME default_kconfig;
  CONFIG_NODE_ID_DEFAULT := @CONFIG_NODE_ID_DEFAULT default_kconfig;
  MESHTASTIC_BOARD_HW_MODEL := @MESHTASTIC_BOARD_HW_MODEL default_kconfig
|}.

#[local] Instance serial_FromRadio : Pb FromRadio :=
  {| pb_encode _ from := Some [fr_id from `mod` 256]; pb_decode _ := None |}.
(** A phone whose every message asks for the configuration. *)
#[local] Instance serial_ToRadio : Pb ToRadio :=
  {| pb_encode _ _ := None; pb_decode _ := Some (TR_want_config_id 77) |}.

(** Two messages, the first after two bytes of console output, cut in the
    middle of headers. *)
Definition two_messages : list (list Z * list Z) := [([65; 10], [1]); ([], [2; 3])].
Definition two_messages_cut : list (list Z) :=
  [[65; 10; 0x94]; [0xc3; 0; 1; 1; 0x94]; [0xc3; 0; 2; 2]; [3]].

Lemma serial_stream_received_witness :
  ∃ s', serial_feed (H:=default_kconfig) 0 two_messages_cut (serial_zero, hearing_world) =
    match handle_all (H:=default_kconfig) 0 [[1]; [2; 3]] hearing_world with
    | Some (_, w') => Some ((), (s', w')) | None => None end ∧ serial_rx_rb s' = [].
Proof.
  apply (serial_stream_received (H:=default_kconfig) 0 two_messages).
  - apply Nat.leb_le. by vm_compute.
  - repeat constructor; apply Nat.leb_le; by vm_compute.
  - repeat constructor; done || (apply Nat.leb_le; by vm_compute).
  - by vm_compute.
  - done.
Defined.

(** A frame of 512 bytes has begun on a ring of 64. *)
Definition wedged : serial :=
  serial_zero <| serial_rx_rb := 0x94 :: 0xc3 :: 2 :: 0 :: replicate 60 0 |>.

Lemma serial_small_ring_stalls_witness :
  ∃ s', serial_feed (H:=small_ring_kconfig) 0 [[1; 2; 3]; [0x94; 0xc3; 0; 1; 9]] (wedged, hearing_world)
      = Some ((), (s', hearing_world)) ∧ serial_rx_rb s' = serial_rx_rb wedged.
Proof.
  apply (serial_small_ring_stalls (H:=small_ring_kconfig) 0 _ wedged hearing_world 2 0 (replicate 60 0));
    try done; apply Nat.leb_le; by vm_compute.
Defined.

Lemma serial_tx_flushes_witness
    (w := hearing_world <| w_phones := [(meshtastic_phoneapi_init [[7]; [8; 9]]) <| ph_count := 2%nat |>] |>) :
  ∃ sw, tx_work_handler (H:=default_kconfig) 0 (serial_zero, w) = Some ((), sw) ∧
    tx_flushed (H:=default_kconfig) 0 [[7]; [8; 9]] serial_zero sw.
Proof.
  apply (serial_tx_flushes (H:=default_kconfig) 0).
  - apply Nat.leb_le. by vm_compute.
  - repeat constructor; apply Nat.leb_le; by vm_compute.
  - eexists. split; [done|]. split; [|done].
    constructor; unfold ph_queue_size; cbn; try done; try lia.
    intros [|[|k]] f; cbn; try done.
Defined.
