(* ===== verification/SerialTx.v ===== *)
(** * Transmission on the serial port (src/meshtastic_serial.c)

    The interrupt handler, the work items that follow each other between it
    and the phone's queue, and the theorem that together they get every frame
    out. *)

From S2P Require Import Prelude Types External Mock Core Airtime Channels NodeDB Wire Store World.
From S2P Require Import Radio Reliable PhoneApi Handshake Invariant Send NodeInfo Router Reception Node Serial.

(** What the UART answers while an interrupt is served: [ready n] is [None]
    when it is asked for the [n]-th time and is not ready to transmit, and
    otherwise how many bytes it then takes of those it is offered. *)
Notation uart_tx := (nat → option nat).

(** The loop of [serial_isr]: the bytes that left, and the state. *)
Fixpoint isr_tx_loop (fuel n : nat) (ready : uart_tx) (s : serial) : option (list Z * serial) :=
  match fuel with
  | O => None
  | S fuel =>
      match ready n with
      | None => Some ([], s)
      | Some sent =>
          let pending := length (serial_tx_rb s) in
          let s' := serial_isr_tx sent s in
          let out := take sent (serial_tx_rb s) in
          if (length (serial_tx_rb s') =? pending)%nat then Some (out, s')
          else
            match isr_tx_loop fuel (S n) ready s' with
            | Some (rest, s'') => Some (out ++ rest, s'')
            | None => None
            end
      end
  end.

(** Every turn but the last takes a byte from the ring. *)
Definition serial_isr_tx_all (ready : uart_tx) (s : serial) : option (list Z * serial) :=
  isr_tx_loop (S (length (serial_tx_rb s))) 0 ready s.

(** [rx]: the room in the ring and the bytes received, if any; the bytes the
    UART keeps are returned first. *)
Definition serial_isr (rx : option (nat * list Z)) (ready : uart_tx) (s : serial)
    : option (list Z * list Z * serial) :=
  let '(kept, s) := match rx with Some (space, fifo) => serial_isr_rx space fifo s | None => ([], s) end in
  match serial_isr_tx_all ready s with
  | Some (out, s) => Some (kept, out, s)
  | None => None
  end.

Definition tx_cont_work_handler (s : serial) : serial := s <| tx_work ::= S |>.
Definition serial_data_ready (s : serial) : serial := s <| tx_work ::= S |>.

Section rounds.
Context {K L T : Type} `{Kconfig} `{PSA K} `{LoraDriver L} `{Kernel T} `{Libc} `{Pb Data}.
Context `{Pb FromRadio} `{Pb ToRadio}.
Notation W := (world K L T).
Notation SW := (serial * W)%type.
Context (i : nat).

(** A work item that was submitted leaves the queue, then its handler runs. *)
Definition run_serial_work (work : serial → nat) `{!Setter work} (handler : M SW ()) : M SW () :=
  n ← gets (S:=SW) (λ s, work s.1);
  if (0 <? n)%nat then on_serial (λ s, ((), set work (λ _, 0%nat) s)) ;; handler else mret ().

(** A turn of the work queue and the next transmit interrupt, if it is
    enabled: the bytes that left. *)
Definition serial_tx_round (ready : uart_tx) : M SW (list Z) :=
  run_serial_work tx_cont_work (on_serial (λ s, ((), tx_cont_work_handler s))) ;;
  run_serial_work tx_work (tx_work_handler i) ;;
  s ← gets (S:=SW) fst;
  if tx_irq s then
    match serial_isr_tx_all ready s with
    | Some (out, s) => on_serial (λ _, ((), s)) ;; mret out
    | None => ub
    end
  else mret [].

Fixpoint serial_tx_rounds (readys : list uart_tx) : M SW (list Z) :=
  match readys with
  | [] => mret []
  | ready :: readys =>
      out ← serial_tx_round ready;
      rest ← serial_tx_rounds readys;
      mret (out ++ rest)
  end.
End rounds.

(** ** The interrupt *)

(** The ring with [rb] left in it. *)
Definition keep_ring (rb : list Z) (s : serial) : serial := s <| serial_tx_rb := rb |>.

(** The interrupt ends; what left and what stays is the ring, in order.  An
    empty ring switches the interrupt off and asks for more. *)
Lemma isr_tx_loop_spec fuel : ∀ n ready s,
  (length (serial_tx_rb s) < fuel)%nat →
  ∃ out s', isr_tx_loop fuel n ready s = Some (out, s') ∧ out ++ serial_tx_rb s' = serial_tx_rb s ∧
    (s' = keep_ring (serial_tx_rb s') s ∨ s' = serial_tx_finish (keep_ring [] s)) ∧
    (∀ sent, ready n = Some sent → (0 < sent)%nat →
       if bool_decide (serial_tx_rb s = []) then s' = serial_tx_finish s else out ≠ []).
Proof.
  induction fuel as [|fuel IH]; intros n ready s Hlen; [lia|]. cbn [isr_tx_loop].
  destruct (ready n) as [sent|] eqn:Er; cycle 1.
  { exists [], s. split_and!; [done|done|left; by destruct s|done]. }
  destruct (serial_tx_rb s) as [|b rb] eqn:Erb.
  { unfold serial_isr_tx, serial_tx_finish. rewrite Erb. cbn [length].
    rewrite take_nil. exists [], (serial_tx_finish s). unfold serial_tx_finish. rewrite Erb. cbn.
    rewrite Erb. split_and!; [done|done|right; destruct s; cbn in *; by subst|]. done. }
  unfold serial_isr_tx. rewrite Erb. set (s1 := s <| serial_tx_rb ::= drop sent |>).
  assert (serial_tx_rb s1 = drop sent (b :: rb)) as E1 by (unfold s1; cbn; by rewrite Erb).
  rewrite E1, length_drop. destruct (Nat.eqb_spec (length (b :: rb) - sent) (length (b :: rb))) as [Heq|Hne].
  - cbn [length] in Heq. assert (sent = 0%nat) as -> by lia. exists [], s1.
    split_and!; [done|by rewrite E1|left; unfold keep_ring; rewrite E1; unfold s1; clear -Erb; destruct s; cbn in *; by subst|].
    intros ? [= <-]. lia.
  - assert (0 < sent)%nat as Hs by (cbn in *; lia).
    destruct (IH (S n) ready s1) as (out & s2 & -> & Hout & Hs2 & _).
    { rewrite E1, length_drop. cbn in *. lia. }
    exists (take sent (b :: rb) ++ out), s2.
    split_and!; [done|by rewrite <-app_assoc, Hout, E1, take_drop|exact Hs2|].
    intros ? [= <-] _. rewrite bool_decide_false by done. destruct sent; [lia|done].
Qed.

Lemma serial_isr_tx_spec ready s :
  ∃ out s', serial_isr_tx_all ready s = Some (out, s') ∧ out ++ serial_tx_rb s' = serial_tx_rb s ∧
    (s' = keep_ring (serial_tx_rb s') s ∨ s' = serial_tx_finish (keep_ring [] s)) ∧
    (∀ sent, ready 0%nat = Some sent → (0 < sent)%nat →
       if bool_decide (serial_tx_rb s = []) then s' = serial_tx_finish s else out ≠ []).
Proof. apply isr_tx_loop_spec. lia. Qed.

(** The interrupt handler ends, whatever the UART answers, even one that is
    always ready; what it sends is the beginning of the ring. *)
Theorem serial_isr_ends rx ready s :
  ∃ kept out s', serial_isr rx ready s = Some (kept, out, s') ∧ out ++ serial_tx_rb s' = serial_tx_rb s.
Proof.
  unfold serial_isr.
  assert (∃ kept s1, match rx with Some (space, fifo) => serial_isr_rx space fifo s | None => ([], s) end = (kept, s1)
    ∧ serial_tx_rb s1 = serial_tx_rb s) as (kept & s1 & -> & <-).
  { destruct rx as [[space fifo]|]; [|by eexists _, _]. unfold serial_isr_rx.
    case_if; [by eexists _, _|]. destruct (take space fifo); by eexists _, _. }
  destruct (serial_isr_tx_spec ready s1) as (out & s' & -> & Hout & _). by eexists _, _, _.
Qed.

(** ** The way of the frames *)

(** No work item is queued. *)
Definition no_work (s : serial) : serial := s <| tx_work := 0%nat |> <| tx_cont_work := 0%nat |>.

Definition after_cont (s : serial) : serial :=
  if (0 <? tx_cont_work s)%nat then tx_cont_work_handler (s <| tx_cont_work := 0%nat |>) else s.
Lemma after_cont_work s :
  (0 <? tx_work (after_cont s))%nat = (0 <? tx_work s + tx_cont_work s)%nat ∧
  no_work (after_cont s) = no_work s ∧ serial_tx_rb (after_cont s) = serial_tx_rb s ∧
  tx_cont_work (after_cont s) = 0%nat.
Proof.
  unfold after_cont, tx_cont_work_handler. destruct (Nat.ltb_spec 0 (tx_cont_work s)); cbn.
  - split_and!; try done. by destruct (tx_work s + tx_cont_work s)%nat eqn:E; [lia|].
  - split_and!; try done; [|lia]. assert (tx_cont_work s = 0%nat) as -> by lia. by rewrite Nat.add_0_r.
Qed.

Section delivery.
Context {K L T : Type} `{Kconfig} `{PSA K} `{LoraDriver L} `{Kernel T} `{Libc} `{Pb Data}.
Context `{Pb FromRadio} `{Pb ToRadio}.
Notation W := (world K L T).
Notation SW := (serial * W)%type.
Context (i : nat) (Hbuf : (MESHTASTIC_SERIAL_WIRE_MAX ≤ CONFIG_SERIAL_TX_BUF_SIZE)%nat).

Definition wires (l : list (list Z)) : list Z := concat (wire_of <$> l).
Notation fits := (Forall (λ f : list Z, (length f ≤ MESHTASTIC_API_FRAME_MAX)%nat)).

Lemma wires_app l l' : wires (l ++ l') = wires l ++ wires l'.
Proof. unfold wires. by rewrite fmap_app, concat_app. Qed.
Lemma wires_nil l : fits l → wires l = [] → l = [].
Proof.
  intros Hl Hw. destruct Hl as [|f l Hf _]; [done|]. apply (f_equal length) in Hw.
  unfold wires in Hw. cbn in Hw. rewrite length_app, wire_length in Hw by done.
  unfold MESHTASTIC_SERIAL_HEADER in Hw. lia.
Qed.

(** The frames [l] wait, and somebody will see to them: an enabled interrupt
    or a work item. *)
Record tx_live (l : list (list Z)) (sw : SW) : Prop := {
  tl_phone : phone_holds i sw.2 l;
  tl_fits : fits l;
  tl_room : (length (serial_tx_rb sw.1) ≤ CONFIG_SERIAL_TX_BUF_SIZE)%nat;
  tl_on : serial_tx_rb sw.1 ≠ [] → tx_irq sw.1 = true;
  tl_next : l ≠ [] → serial_tx_rb sw.1 ≠ [] ∨ (0 < tx_work sw.1 + tx_cont_work sw.1)%nat ∨ tx_irq sw.1 = true
}.

Lemma work_turn_wp l s (w : W) :
  tx_live l (s, w) →
  wp (run_serial_work tx_cont_work (on_serial (λ s, ((), tx_cont_work_handler s))) ;;
      run_serial_work tx_work (tx_work_handler i))
    (λ _ sw, ∃ k, (k ≤ length l)%nat ∧ sw.1 = tx_more (wire_of <$> take k l) (no_work s) ∧
      phone_holds i sw.2 (drop k l) ∧ (length (serial_tx_rb sw.1) ≤ CONFIG_SERIAL_TX_BUF_SIZE)%nat ∧
      (if (0 <? tx_work s + tx_cont_work s)%nat then serial_tx_rb sw.1 = [] → drop k l = [] else k = 0%nat)) (s, w).
Proof.
  intros [Hp Hl Hr _ _]. cbn [fst snd] in *. unfold run_serial_work. rewrite wp_bind.
  apply wp_mono with (Q := λ _ sw, sw = (after_cont s, w)).
  { wps. cbn [fst]. unfold after_cont. case_if; [|by wps]. done. }
  intros [] sw ->. wps. cbn [fst]. destruct (after_cont_work s) as (-> & Hno & Hrb & Hc). rewrite <-Hno, <-Hrb in *.
  destruct (0 <? tx_work s + tx_cont_work s)%nat eqn:E.
  - set (s1 := after_cont s) in *. rewrite wp_bind.
    change (wp (tx_work_handler i) (λ _ sw, ∃ k, (k ≤ length l)%nat ∧ sw.1 = tx_more (wire_of <$> take k l) (no_work s1) ∧
      phone_holds i sw.2 (drop k l) ∧ (length (serial_tx_rb sw.1) ≤ CONFIG_SERIAL_TX_BUF_SIZE)%nat ∧
      (serial_tx_rb sw.1 = [] → drop k l = [])) (s1 <| tx_work := 0%nat |>, w)).
    eapply wp_mono; [apply (tx_loop_wp i _ l (s1 <| tx_work := 0%nat |>) w); [cbn; lia|done|done|done]|].
    intros [] sw (k & Hk & Hs & Hroom & Hph & Hnext). exists k. split_and!; try done.
    + rewrite Hs. unfold no_work, tx_more. cbn. by rewrite Hc.
    + intros Hempty. destruct (drop k l) as [|f rest] eqn:Ed; [done|].
      assert (l !! k = Some f) as Hf by (rewrite <-(Nat.add_0_r k), <-lookup_drop, Ed; done).
      pose proof (proj1 (Forall_lookup _ _) Hl k f Hf) as Hlen. cbn beta in Hlen.
      specialize (Hnext f Hf). rewrite Hempty, wire_length in Hnext by exact Hlen.
      unfold MESHTASTIC_SERIAL_WIRE_MAX in Hbuf. cbn [length] in Hnext. lia.
  - wps. exists 0%nat. cbn [take fmap list_fmap drop fst snd]. split_and!; try done; [lia|].
    rewrite <-tx_more_none. unfold no_work. destruct (after_cont_work s) as (Hw & _ & _ & _).
    rewrite E in Hw. apply Nat.ltb_ge in Hw. destruct (after_cont s) as [? ? ? ? ? n m]; cbn in *. assert (n = 0%nat) as -> by lia. by subst m.
Qed.

(** What is still to go out, and how many rounds that may take: each sends a
    byte, or is the interrupt that finds the ring empty. *)
Definition to_send (l : list (list Z)) (s : serial) : list Z := serial_tx_rb s ++ wires l.
Definition weight (l : list (list Z)) (s : serial) : nat :=
  (2 * length (to_send l s) + if tx_irq s && (tx_work s + tx_cont_work s =? 0)%nat then 1 else 0)%nat.

(** A UART that takes something when an interrupt begins. *)
Definition takes_some (ready : uart_tx) : Prop := ∃ sent, ready 0%nat = Some sent ∧ (0 < sent)%nat.

Lemma isr_live l out s s' (w : W) :
  phone_holds i w l → fits l → (length (serial_tx_rb s) ≤ CONFIG_SERIAL_TX_BUF_SIZE)%nat → tx_irq s = true →
  out ++ serial_tx_rb s' = serial_tx_rb s →
  s' = keep_ring (serial_tx_rb s') s ∨ s' = serial_tx_finish (keep_ring [] s) → tx_live l (s', w).
Proof.
  intros Hp Hl Hr Hirq Hout Hs. apply (f_equal length) in Hout. rewrite length_app in Hout.
  constructor; cbn [fst snd]; try done; [lia|..]; destruct Hs as [-> | ->]; cbn; try done; auto with lia.
Qed.

Lemma tx_round_wp l ready sw :
  tx_live l sw → takes_some ready →
  wp (serial_tx_round i ready) (λ out sw', ∃ l', tx_live l' sw' ∧
    out ++ to_send l' sw'.1 = to_send l sw.1 ∧ (to_send l sw.1 ≠ [] → weight l' sw'.1 < weight l sw.1)%nat) sw.
Proof.
  destruct sw as [s w]. intros Hlive (sent & Hready & Hsent). pose proof (work_turn_wp l s w Hlive) as Hw.
  rewrite wp_bind in Hw. unfold serial_tx_round. rewrite wp_bind. eapply wp_mono; [exact Hw|]. intros [] sw0 Hw0. cbn beta in Hw0.
  rewrite wp_bind. eapply wp_mono; [exact Hw0|]. clear Hw Hw0 sw0.
  intros [] [s1 w1] (k & Hk & Hs1 & Hp1 & Hr1 & Hwork). cbn [fst snd] in *. destruct Hlive as [_ Hl _ Hon Hnext].
  cbn [fst snd] in *.
  assert (fits (drop k l)) as Hl1 by by apply Forall_drop.
  assert (to_send l s = serial_tx_rb s1 ++ wires (drop k l)) as Hsend.
  { unfold to_send. rewrite Hs1. unfold tx_more, no_work, wires. cbn.
    by rewrite <-app_assoc, <-concat_app, <-fmap_app, take_drop. }
  assert (tx_irq s1 = tx_irq s || negb (bool_decide (wire_of <$> take k l = []))) as Hirq1 by by rewrite Hs1.
  do 2 wp_step. cbn [fst]. destruct (tx_irq s1) eqn:Eirq.
  - destruct (serial_isr_tx_spec ready s1) as (out & s2 & Hrun & Hout & Hs2 & Hprog). rewrite Hrun.
    apply wp_run. exists out, (s2, w1). split; [done|]. exists (drop k l). cbn [fst snd].
    split; [by eapply isr_live|]. unfold to_send at 1. rewrite app_assoc, Hout. split; [done|]. intros Hne.
    specialize (Hprog sent Hready Hsent). unfold weight. rewrite Hsend. unfold to_send.
    apply (f_equal length) in Hout. rewrite length_app in Hout. rewrite !length_app.
    case_bool_decide as Erb; [|destruct out; [done|cbn [length] in Hout; repeat case_if; lia]].
    rewrite Hprog in Hout |- *. unfold serial_tx_finish in *. rewrite Erb in *. cbn in Hout |- *. rewrite Erb.
    destruct (Nat.ltb_spec 0 (tx_work s + tx_cont_work s)); [by rewrite Hsend, Hwork in Hne|]. subst k.
    rewrite orb_false_r in Hirq1. rewrite <-Hirq1, (proj2 (Nat.eqb_eq _ 0)) by lia. cbn. lia.
  - wps. exists (drop k l). cbn [fst snd app]. symmetry in Hirq1. apply orb_false_iff in Hirq1 as [Eirq0 Hnone].
    assert (serial_tx_rb s = []) as Erb by (destruct (serial_tx_rb s); [done|by rewrite Hon in Eirq0]).
    assert (wire_of <$> take k l = []) as Hno by (by case_bool_decide).
    assert (serial_tx_rb s1 = []) as Erb1 by (rewrite Hs1; unfold tx_more; cbn; by rewrite Erb, Hno).
    assert (drop k l = []) as Ed.
    { destruct (Nat.ltb_spec 0 (tx_work s + tx_cont_work s)); [by apply Hwork|]. subst k. cbn.
      destruct l as [|f l']; [done|]. destruct Hnext as [?|[?|?]]; [done|done|lia|congruence]. }
    rewrite Ed in *. split; [by constructor|]. unfold to_send at 1. rewrite Erb1. split; [by rewrite Hsend, Erb1|].
    by rewrite Hsend, Erb1.
Qed.

Lemma tx_rounds_wp readys : ∀ l sw,
  tx_live l sw → Forall takes_some readys → (to_send l sw.1 ≠ [] → weight l sw.1 ≤ length readys)%nat →
  wp (serial_tx_rounds i readys) (λ out sw', tx_live [] sw' ∧ serial_tx_rb sw'.1 = [] ∧ out = to_send l sw.1) sw.
Proof.
  assert (∀ l sw, tx_live l sw → to_send l sw.1 = [] → tx_live [] sw ∧ serial_tx_rb sw.1 = []) as Hdone.
  { intros l sw Hlive Hnil. apply app_nil in Hnil as [Hrb Hw]. apply wires_nil in Hw; [by subst|apply Hlive]. }
  induction readys as [|ready readys IH]; intros l sw Hlive Hr Hw; cbn [serial_tx_rounds].
  - wps. assert (to_send l sw.1 = []) as E.
    { destruct (decide (to_send l sw.1 = [])) as [|Hne]; [done|]. specialize (Hw Hne). unfold weight in Hw.
      destruct (to_send l sw.1); [done|]. cbn in Hw. lia. }
    destruct (Hdone l sw Hlive E). by rewrite E.
  - inversion_clear Hr as [|? ? Hr1 Hr2]. rewrite wp_bind. eapply wp_mono; [by apply tx_round_wp|].
    intros out sw1 (l1 & Hlive1 & Hout & Hdec). rewrite wp_bind. eapply wp_mono; [apply (IH l1 sw1 Hlive1 Hr2)|].
    + intros Hne1. assert (to_send l sw.1 ≠ []) as Hne.
      { intros E. rewrite E in Hout. by apply app_nil in Hout as [_ E1]. }
      specialize (Hw Hne). specialize (Hdec Hne). cbn [length] in Hw. lia.
    + intros rest sw2 (Hlive2 & Hrb & ->). wps. by rewrite <-Hout.
Qed.

(** C16: the serial port delivers: outside a handshake, when the frames [l] wait
    in the phone's queue with some work item or the transmit interrupt to see
    to them, on a transmit ring that can hold the largest frame, what the UART
    sends in the next turns of the work queue and interrupts, in which it
    always takes something first, is the rest of the ring and then exactly
    these frames, framed, in order and once each; queue and ring are then
    empty. *)
Theorem serial_delivers l s (w : W) readys :
  tx_live l (s, w) → Forall takes_some readys →
  (2 * length (serial_tx_rb s ++ wires l) + 1 ≤ length readys)%nat →
  ∃ sw, serial_tx_rounds i readys (s, w) = Some (serial_tx_rb s ++ wires l, sw) ∧
    serial_tx_rb sw.1 = [] ∧ phone_holds i sw.2 [].
Proof.
  intros Hlive Hr Hlen. destruct (proj1 (wp_run _ _ _) (tx_rounds_wp readys l (s, w) Hlive Hr
    ltac:(unfold weight, to_send; cbn [fst]; intros _; case_if; lia))) as (out & sw & Hrun & Hlive' & Hrb & ->).
  exists sw. split; [exact Hrun|]. split; [exact Hrb|apply Hlive'].
Qed.
End delivery.

(** ** A ring smaller than a frame *)

Section stall.
Context {K L T : Type} `{Kconfig} `{PSA K} `{LoraDriver L} `{Kernel T} `{Libc} `{Pb Data}.
Context `{Pb FromRadio} `{Pb ToRadio}.
Notation W := (world K L T).
Context (i : nat).

(** A frame that does not fit into the transmit ring, which the Kconfig range
    admits, holds up the queue: whatever the work items and the UART do,
    nothing is sent and nothing leaves the queue. *)
Theorem serial_small_tx_stalls f l readys : ∀ s (w : W),
  (CONFIG_SERIAL_TX_BUF_SIZE < length f + MESHTASTIC_SERIAL_HEADER)%nat →
  Forall (λ f, (length f ≤ MESHTASTIC_API_FRAME_MAX)%nat) (f :: l) →
  phone_holds i w (f :: l) → serial_tx_rb s = [] → tx_irq s = false →
  ∃ s' w', serial_tx_rounds i readys (s, w) = Some ([], (s', w')) ∧ phone_holds i w' (f :: l).
Proof.
  induction readys as [|ready readys IH]; intros s w Hbig Hl Hp Hrb Hirq; [by exists s, w|].
  assert (wp (serial_tx_round i ready) (λ out sw, out = [] ∧ phone_holds i sw.2 (f :: l) ∧
    serial_tx_rb sw.1 = [] ∧ tx_irq sw.1 = false) (s, w)) as Hw.
  { unfold serial_tx_round. rewrite wp_bind. unfold run_serial_work at 1.
    apply wp_mono with (Q := λ _ sw, sw = (after_cont s, w)).
    { wps. cbn [fst]. unfold after_cont. case_if; [|by wps]. done. }
    intros [] sw ->. destruct (after_cont_work s) as (_ & _ & Hrb' & _). rewrite Hrb in Hrb'.
    assert (tx_irq (after_cont s) = false) as Hirq' by (unfold after_cont; by case_if).
    set (s1 := after_cont s) in *. rewrite wp_bind.
    apply wp_mono with (Q := λ _ sw, phone_holds i sw.2 (f :: l) ∧ serial_tx_rb sw.1 = [] ∧ tx_irq sw.1 = false).
    2: { intros [] [s2 w2] (Hp2 & Hrb2 & Hirq2). cbn [fst snd] in *. do 2 wp_step. cbn [fst]. rewrite Hirq2. by wps. }
    unfold run_serial_work. wps. cbn [fst]. case_if; [|by wps].
    change (wp (tx_work_handler i) (λ _ sw, phone_holds i sw.2 (f :: l) ∧ serial_tx_rb sw.1 = [] ∧ tx_irq sw.1 = false)
      (s1 <| tx_work := 0%nat |>, w)).
    eapply wp_mono; [apply (tx_loop_wp i _ (f :: l) (s1 <| tx_work := 0%nat |>) w); [cbn; lia|cbn; rewrite Hrb'; cbn; lia|done|done]|].
    intros [] [s2 w2] (k & Hk & Hs2 & Hroom & Hp2 & _). cbn [fst snd] in *.
    destruct k as [|k]; cbn [take drop fmap list_fmap] in *.
    - rewrite <-tx_more_none in Hs2. by subst s2.
    - rewrite Hs2 in Hroom. unfold tx_more in Hroom. cbn in Hroom. rewrite !length_app, wire_length in Hroom by by inversion Hl.
      lia. }
  apply wp_run in Hw as (out & [s1 w1] & Hrun & -> & Hp1 & Hrb1 & Hirq1). cbn [fst snd] in *.
  destruct (IH s1 w1 Hbig Hl Hp1 Hrb1 Hirq1) as (s2 & w2 & Hrun2 & Hp2).
  exists s2, w2. split; [|done]. cbn [serial_tx_rounds]. unfold mbind, M_bind. by rewrite Hrun, Hrun2.
Qed.
End stall.

(** ** Witness: two frames and a UART that takes a byte at a time *)

#[local] Existing Instance default_kconfig.
#[local] Instance silent_FromRadio : Pb FromRadio := pb_silent FromRadio.
#[local] Instance silent_ToRadio : Pb ToRadio := pb_silent ToRadio.

Definition two_frames : list (list Z) := [[7]; [8; 9]].
Definition waiting_world : world toy_psa mock_lora mock_kernel :=
  hearing_world <| w_phones := [(meshtastic_phoneapi_init two_frames) <| ph_count := 2%nat |>] |>.
Lemma two_frames_held : phone_holds 0 waiting_world two_frames.
Proof.
  eexists. split; [done|]. split; [|done]. constructor; unfold ph_queue_size; cbn; try done; try lia.
  intros [|[|k]] f; cbn; done.
Qed.

Lemma serial_delivers_witness :
  ∃ sw, serial_tx_rounds 0 (replicate 23 (λ _, Some 1%nat)) (serial_zero <| tx_work := 1%nat |>, waiting_world)
      = Some ([0x94; 0xc3; 0; 1; 7; 0x94; 0xc3; 0; 2; 8; 9], sw) ∧
    serial_tx_rb sw.1 = [] ∧ phone_holds 0 sw.2 [].
Proof.
  destruct (serial_delivers 0 ltac:(apply Nat.leb_le; by vm_compute) two_frames
    (serial_zero <| tx_work := 1%nat |>) waiting_world (replicate 23 (λ _, Some 1%nat))) as (sw & Hrun & Hrb & Hp).
  - constructor; cbn [fst snd].
    + apply two_frames_held.
    + by apply (bool_decide_unpack _); vm_compute.
    + cbn. lia.
    + done.
    + right. left. cbn. lia.
  - apply Forall_replicate. exists 1%nat. split; [done|lia].
  - apply Nat.leb_le. by vm_compute.
  - exists sw. split; [|by split].
    assert (serial_tx_rb (serial_zero <| tx_work := 1%nat |>) ++ wires two_frames
      = [0x94; 0xc3; 0; 1; 7; 0x94; 0xc3; 0; 2; 8; 9]) as E by (by vm_compute).
    rewrite <-E. exact Hrun.
Defined.
