(* ===== verification/Settings.v ===== *)
(** * Persistent settings (src/meshtastic_settings.c)

    The handler the stack registers with the settings subsystem under the
    name "meshtastic": saving exports every record of the configuration store
    with the subtree's name in front, loading passes every saved record of the
    subtree to the store.  The subsystem and its storage are not part of src/:
    they are the interface [Backend]. *)

From S2P Require Import Prelude Types External Mock Channels NodeDB Store.

Definition MESHTASTIC_SETTINGS_SUBTREE : string := "meshtastic".

(** ** The settings subsystem

    A saved record as the load callback sees it: its announced length, and
    what [read_cb] yields ([None] is an error code). *)
Record saved_value := mk_saved { sv_len : nat; sv_read : option (list Z) }.

(** [save_one] stores one record under its full name ([settings_save_subtree]
    passes it to the handler's export function), [saved_list] are the records
    [settings_load_subtree] visits, in the order of the storage, by full
    name. *)
Class Backend (B : Type) := {
  backend_init : B → result ();
  save_one : string → list Z → B → result () * B;
  saved_list : B → list (string * saved_value);
  backend_load : B → result ()
}.

(** The storage is a map from names to values: a record that was saved
    replaces the one with its name, a failed save leaves the records as they
    were, and loading visits every record in some order, with its whole
    value. *)
Class BackendLaws (B : Type) `{Backend B} := {
  contents : B → gmap string (list Z);
  save_one_contents k v b : contents (save_one k v b).2 =
    match (save_one k v b).1 with Ok _ => <[k := v]> (contents b) | Err _ => contents b end;
  saved_list_contents b k v : (k, v) ∈ saved_list b →
    ∃ bs, contents b !! k = Some bs ∧ v = mk_saved (length bs) (Some bs);
  contents_saved_list b k bs : contents b !! k = Some bs →
    (k, mk_saved (length bs) (Some bs)) ∈ saved_list b
}.

(** [snprintk("meshtastic/%s", name)]. *)
Definition prefixed (name : string) : string :=
  String.append MESHTASTIC_SETTINGS_SUBTREE (String.append "/" name).

Section settings.
Context `{Pb Channel} `{Pb Config} `{Pb ModuleConfig}.
(** [sizeof(full_name)], a constant of the settings subsystem. *)
Context (full_name_size : nat).

Definition settings_get_cb (key : string) (val_len_max : nat) (st : store) : result (list Z) :=
  meshtastic_config_store_setting_get key val_len_max st.

(** Every outcome is reported as 0. *)
Definition settings_set_cb (key : string) (v : saved_value) (st : store) : store :=
  if (MESHTASTIC_STORE_VALUE_MAX <? sv_len v)%nat then st
  else match sv_read v with
       | None => st
       | Some buf =>
           if negb (length buf =? sv_len v)%nat then st
           else (meshtastic_config_store_setting_set key buf st).2
       end.

Definition settings_export_prefixed {E} (export_func : string → list Z → E → result () * E)
    (name : string) (val : list Z) (e : E) : result () * E :=
  if (full_name_size <=? String.length (prefixed name))%nat then (Err EINVAL, e)
  else export_func (prefixed name) val e.

(** [active_export_func] is the argument of the export in progress. *)
Definition settings_export_cb {E} (export_func : string → list Z → E → result () * E)
    (st : store) (e : E) : result () * E :=
  meshtastic_config_store_export (settings_export_prefixed export_func) st e.

Context `{Backend B}.

(** [settings_save_subtree(MESHTASTIC_SETTINGS_SUBTREE)]: the one handler of
    the subtree exports into the storage. *)
Definition settings_save_subtree (st : store) (b : B) : result () * B :=
  settings_export_cb save_one st b.

(** [settings_load_subtree(MESHTASTIC_SETTINGS_SUBTREE)]: the handler gets the
    name after the subtree's. *)
Definition load_one (st : store) (r : string * saved_value) : store :=
  match strip_prefix (String.append MESHTASTIC_SETTINGS_SUBTREE "/") r.1 with
  | Some key => settings_set_cb key r.2 st
  | None => st
  end.
Definition settings_load_subtree (b : B) (st : store) : result () * store :=
  (backend_load b, foldl load_one st (saved_list b)).

Definition meshtastic_settings_init (b : B) (st : store) : result () * store :=
  match backend_init b with
  | Err e => (Err e, st)
  | Ok _ => settings_load_subtree b st
  end.

(** ** The delayed save

    [save_work] is when the delayable work item is due, if it is scheduled. *)
Record saver := mk_saver { save_work : option Z; saved : B }.
#[export] Instance saver_set : Settable saver := λ x, mk_saver (save_work x) (saved x).

Definition meshtastic_settings_schedule_save (delay_ms now : Z) (s : saver) : saver :=
  s <| save_work := Some (now + delay_ms) |>.

(** The work queue runs the handler once and the item is idle again. *)
Definition save_work_handler (st : store) (s : saver) : saver :=
  s <| save_work := None |> <| saved := (settings_save_subtree st (saved s)).2 |>.

Definition meshtastic_settings_flush (st : store) (s : saver) : result () * saver :=
  let s := s <| save_work := None |> in
  let '(ret, b) := settings_save_subtree st (saved s) in
  (ret, s <| saved := b |>).
End settings.

(** ** Loading *)

Section correct.
Context `{Pb Channel} `{Pb Config} `{Pb ModuleConfig} `{BackendLaws B}.
Context (full_name_size : nat).

Lemma strip_prefix_append p s : strip_prefix p (String.append p s) = Some s.
Proof.
  induction p as [|a p IH]; [done|].
  change (String.append (String a p) s) with (String a (String.append p s)).
  cbn [strip_prefix]. by rewrite Ascii.eqb_refl.
Qed.

Lemma strip_prefixed key :
  strip_prefix (String.append MESHTASTIC_SETTINGS_SUBTREE "/") (prefixed key) = Some key.
Proof. apply (strip_prefix_append (String.append MESHTASTIC_SETTINGS_SUBTREE "/")). Qed.

Lemma strip_prefix_inv p : ∀ s rest, strip_prefix p s = Some rest → s = String.append p rest.
Proof.
  induction p as [|a p IH]; intros s rest; cbn; [by intros [= ->]|].
  destruct s as [|b s]; [done|]. destruct (Ascii.eqb_spec a b) as [->|]; [|done].
  by intros ->%IH.
Qed.

(** A value the storage can hold is a string of bytes. *)
Definition storage_ok (b : B) : Prop := ∀ k bs, contents b !! k = Some bs → bytes_ok bs.

Lemma set_cb_wf key v st :
  (∀ bs, sv_read v = Some bs → bytes_ok bs) → store_wf st → store_wf (settings_set_cb key v st).
Proof.
  intros Hv Hwf. unfold settings_set_cb. case_if; [done|].
  destruct (sv_read v) as [bs|]; [|done]. case_if; [done|]. apply setting_set_wf; auto.
Qed.

Lemma saved_bytes b : storage_ok b →
  Forall (λ r : string * saved_value, ∀ bs, sv_read r.2 = Some bs → bytes_ok bs) (saved_list b).
Proof.
  intros Hb. apply Forall_forall. intros [k v] (bs & Hk & ->)%saved_list_contents bs'.
  intros [= <-]. by eapply Hb.
Qed.

Lemma load_list_wf recs : ∀ st,
  Forall (λ r : string * saved_value, ∀ bs, sv_read r.2 = Some bs → bytes_ok bs) recs →
  store_wf st → store_wf (foldl load_one st recs).
Proof.
  induction recs as [|r recs IH]; intros st Hr Hwf; cbn; [done|].
  apply Forall_cons in Hr as [Hr Hrs]. apply IH; [done|].
  unfold load_one. destruct (strip_prefix _ _); [|done]. by apply set_cb_wf.
Qed.

(** ** Loading twice *)

(** What a saved record does to any store: nothing, or it overwrites the names
    or a slot. *)
Inductive write :=
  | Wr_none
  | Wr_names (long_name short_name : string)
  | Wr_channel (i : nat) (ch : Channel)
  | Wr_config (i : nat) (c : Config)
  | Wr_module (i : nat) (m : ModuleConfig).
Definition apply_write (st : store) (w : write) : store :=
  match w with
  | Wr_none => st
  | Wr_names l s => st <| st_long_name := l |> <| st_short_name := s |>
  | Wr_channel i ch => st <| st_channels ::= <[i := ch]> |>
  | Wr_config i c => st <| st_configs ::= <[i := c]> |>
  | Wr_module i m => st <| st_modules ::= <[i := m]> |>
  end.

Lemma setting_set_writes key buf :
  ∃ w, ∀ st, (meshtastic_config_store_setting_set key buf st).2 = apply_write st w.
Proof.
  unfold meshtastic_config_store_setting_set.
  destruct (classify_key key) as [|n|n|n|]; [|..|by exists Wr_none].
  - unfold setting_set_owner. case_if; [by exists Wr_none|]. eexists (Wr_names _ _). done.
  - destruct (parse_channel_index n); [|by exists Wr_none].
    destruct (decode_record buf); [|by exists Wr_none]. case_if; [by exists Wr_none|].
    by eexists (Wr_channel _ _).
  - destruct (index_for_name config_names n); [|by exists Wr_none].
    destruct (decode_record buf); [|by exists Wr_none]. case_if; [by exists Wr_none|].
    by eexists (Wr_config _ _).
  - destruct (index_for_name module_names n); [|by exists Wr_none].
    destruct (decode_record buf); [|by exists Wr_none]. case_if; [by exists Wr_none|].
    by eexists (Wr_module _ _).
Qed.

Lemma load_one_writes r : ∃ w, ∀ st, load_one st r = apply_write st w.
Proof.
  unfold load_one, settings_set_cb. destruct (strip_prefix _ _) as [key|]; [|by exists Wr_none].
  case_if; [by exists Wr_none|]. destruct (sv_read r.2) as [buf|]; [|by exists Wr_none].
  case_if; [by exists Wr_none|]. apply setting_set_writes.
Qed.

(** Seen through one place of the store, a write is the identity or a
    constant where the place exists. *)
Definition overwrites {A} (f : option A → option A) : Prop :=
  (∀ o, f o = o) ∨ ∃ x, ∀ o, f o = (λ _, x) <$> o.

Lemma overwrites_idem {A} (f : option A → option A) o : overwrites f → f (f o) = f o.
Proof. intros [Hf|[x Hf]]; rewrite !Hf; [done|]. by destruct o. Qed.

Lemma insert_overwrites {A} (i j : nat) (x : A) :
  ∃ f, overwrites f ∧ ∀ l : list A, <[i := x]> l !! j = f (l !! j).
Proof.
  destruct (decide (i = j)) as [->|Hne].
  - exists (fmap (λ _, x)). split; [by right; exists x|]. intros l.
    destruct (l !! j) eqn:E; cbn.
    + by eapply list_lookup_insert_eq, lookup_lt_Some.
    + by rewrite list_insert_ge by (by apply lookup_ge_None).
  - exists id. split; [by left|]. intros l. by rewrite list_lookup_insert_ne.
Qed.

Lemma loads_overwrite {A} (view : store → option A) recs :
  (∀ w, ∃ f, overwrites f ∧ ∀ st, view (apply_write st w) = f (view st)) →
  ∃ f, overwrites f ∧ ∀ st, view (foldl load_one st recs) = f (view st).
Proof.
  intros Hw. induction recs as [|r recs (g & Hg & IH)]; cbn [foldl]; [by exists id; split; [left|]|].
  destruct (load_one_writes r) as [w Hr]. destruct (Hw w) as (f & Hf & Hv).
  exists (g ∘ f). split; [|intros st; cbn; by rewrite IH, Hr, Hv].
  destruct Hg as [Hg|[x Hg]]; [destruct Hf as [Hf|[x Hf]]|].
  - left. intros o. cbn. by rewrite Hg, Hf.
  - right. exists x. intros o. cbn. by rewrite Hg, Hf.
  - right. exists x. intros o. cbn. rewrite Hg. destruct Hf as [Hf|[y Hf]]; rewrite Hf; by destruct o.
Qed.

(** Loading the storage again changes nothing, whatever it holds: each place
    has the value of the last record that was accepted for it. *)
Lemma reload_idem b st :
  (settings_load_subtree b (settings_load_subtree b st).2).2 = (settings_load_subtree b st).2.
Proof.
  cbn [settings_load_subtree snd]. set (recs := saved_list b).
  assert (∀ (A : Type) (view : store → option A),
    (∀ w, ∃ f, overwrites f ∧ ∀ st, view (apply_write st w) = f (view st)) →
    view (foldl load_one (foldl load_one st recs) recs) = view (foldl load_one st recs)) as Hview.
  { intros A view (f & Hf & Hv)%(loads_overwrite view recs). rewrite !Hv. by apply overwrites_idem. }
  pose proof (Hview _ (λ st, Some (st_long_name st, st_short_name st))) as Hn.
  pose proof (λ i, Hview _ (λ st, st_channels st !! i)) as Hc.
  pose proof (λ i, Hview _ (λ st, st_configs st !! i)) as Hf.
  pose proof (λ i, Hview _ (λ st, st_modules st !! i)) as Hm. clear Hview.
  destruct (foldl load_one (foldl load_one st recs) recs) as [ln sn cs fs ms].
  destruct (foldl load_one st recs) as [ln' sn' cs' fs' ms']. cbn in Hn, Hc, Hf, Hm.
  assert (Some (ln, sn) = Some (ln', sn')) as [= -> ->].
  { apply Hn. intros [|l s|i x|i x|i x].
    2: { exists (fmap (λ _, (l, s))). split; [by right; exists (l, s)|done]. }
    all: exists id; split; [by left|done]. }
  f_equal; apply list_eq; intros j; first [apply Hc|apply Hf|apply Hm]; intros [|l s|i x|i x|i x];
    first [by exists id; split; [left|]
          |destruct (insert_overwrites i j x) as (f & Hov & Hfo); exists f; by split; [|intros; apply Hfo]].
Qed.

(** C13: booting from any storage is safe: whatever records the storage holds
    (corrupt, foreign, outdated or missing ones included) and in whatever
    order it lists them, loading them leaves a well-formed configuration
    store, and a failing subsystem leaves it as it was. *)
Theorem settings_init_wf b st :
  storage_ok b → store_wf st → store_wf (meshtastic_settings_init b st).2.
Proof.
  intros Hb Hwf. unfold meshtastic_settings_init. destruct (backend_init b); [|done].
  cbn [settings_load_subtree snd]. by apply load_list_wf, Hwf; apply saved_bytes.
Qed.

(** ** Saving and loading *)

Context {okc : Channel → Prop} {okf : Config → Prop} {okm : ModuleConfig → Prop}.
Context `{!PbLaws Channel okc} `{!PbLaws Config okf} `{!PbLaws ModuleConfig okm}.

(** A store the messages of which can be encoded faithfully. *)
Record store_ok (st : store) : Prop := {
  so_wf : store_wf st;
  so_channels : Forall okc (st_channels st);
  so_configs : Forall okf (st_configs st);
  so_modules : Forall okm (st_modules st)
}.

(** [st] has the value of [src] under the key. *)
Definition holds (src : store) (key : string) (st : store) : Prop :=
  match classify_key key with
  | Key_owner => st_long_name st = st_long_name src ∧ st_short_name st = st_short_name src
  | Key_channel name =>
      ∀ i, parse_channel_index name = Ok i → st_channels st !! i = st_channels src !! i
  | Key_config name =>
      ∀ i, index_for_name config_names name = Some i → st_configs st !! i = st_configs src !! i
  | Key_module name =>
      ∀ i, index_for_name module_names name = Some i → st_modules st !! i = st_modules src !! i
  | Key_unknown => True
  end.

(** The tables have their sizes. *)
Definition sized (st st' : store) : Prop :=
  length (st_channels st) = length (st_channels st') ∧
  length (st_configs st) = length (st_configs st') ∧
  length (st_modules st) = length (st_modules st').

Lemma store_wf_sized st st' : store_wf st → store_wf st' → sized st st'.
Proof. intros [_ _ [? _] [? _] [? _]] [_ _ [? _] [? _] [? _]]. split_and!; lia. Qed.

(** [st'] agrees with [src] wherever [st] does. *)
Record closer (src st st' : store) : Prop := {
  cl_sized : sized st src → sized st' src;
  cl_names : st_long_name st = st_long_name src ∧ st_short_name st = st_short_name src →
    st_long_name st' = st_long_name src ∧ st_short_name st' = st_short_name src;
  cl_channels i : sized st src → st_channels st !! i = st_channels src !! i →
    st_channels st' !! i = st_channels src !! i;
  cl_configs i : sized st src → st_configs st !! i = st_configs src !! i →
    st_configs st' !! i = st_configs src !! i;
  cl_modules i : sized st src → st_modules st !! i = st_modules src !! i →
    st_modules st' !! i = st_modules src !! i
}.

Lemma insert_agrees {A} (l l' : list A) i x :
  length l = length l' → l' !! i = Some x → ∀ j,
  j = i ∨ l !! j = l' !! j → <[i := x]> l !! j = l' !! j.
Proof.
  intros Hlen Hx j. destruct (decide (j = i)) as [->|Hne].
  - intros _. rewrite list_lookup_insert_eq; [done|]. rewrite Hlen. by eapply lookup_lt_Some.
  - intros [?|?]; [done|]. by rewrite list_lookup_insert_ne.
Qed.

Lemma closer_refl src st : closer src st st.
Proof. by constructor. Qed.

Lemma copy_key_closer src key st : closer src st (copy_key src key st).
Proof.
  unfold copy_key.
  destruct (classify_key key) as [|n|n|n|]; [by constructor|..|apply closer_refl].
  - destruct (parse_channel_index n) as [i|]; [|apply closer_refl].
    destruct (st_channels src !! i) as [x|] eqn:Ex; [|apply closer_refl].
    constructor; try done; rgoal.
    + unfold sized. rgoal. by rewrite length_insert.
    + intros j (? & ? & ?) Hj. apply insert_agrees; auto.
  - destruct (index_for_name config_names n) as [i|]; [|apply closer_refl].
    destruct (st_configs src !! i) as [x|] eqn:Ex; [|apply closer_refl].
    constructor; try done; rgoal.
    + unfold sized. rgoal. by rewrite length_insert.
    + intros j (? & ? & ?) Hj. apply insert_agrees; auto.
  - destruct (index_for_name module_names n) as [i|]; [|apply closer_refl].
    destruct (st_modules src !! i) as [x|] eqn:Ex; [|apply closer_refl].
    constructor; try done; rgoal.
    + unfold sized. rgoal. by rewrite length_insert.
    + intros j (? & ? & ?) Hj. apply insert_agrees; auto.
Qed.

Lemma holds_closer src key st st' :
  sized st src → closer src st st' → holds src key st → holds src key st'.
Proof.
  intros Hs [_ Hn Hc Hf Hm]. unfold holds.
  destruct (classify_key key); intros Hk; [by apply Hn|..|done];
    intros i Hi; [apply Hc|apply Hf|apply Hm]; auto.
Qed.

(** The key of a record that exists agrees once the record is copied. *)
Lemma copy_key_holds src key st n buf :
  sized st src → meshtastic_config_store_setting_get key n src = Ok buf →
  holds src key (copy_key src key st).
Proof.
  intros (Hc & Hf & Hm) Hget. unfold meshtastic_config_store_setting_get in Hget.
  unfold copy_key, holds. destruct (classify_key key) as [|nm|nm|nm|]; [done|..|done].
  - destruct (parse_channel_index nm) as [i|]; [|done].
    destruct (st_channels src !! i) eqn:Ex; [|done]. intros j [= <-].
    apply insert_agrees; auto.
  - destruct (index_for_name config_names nm) as [i|]; [|done].
    destruct (st_configs src !! i) eqn:Ex; [|done]. intros j [= <-].
    apply insert_agrees; auto.
  - destruct (index_for_name module_names nm) as [i|]; [|done].
    destruct (st_modules src !! i) eqn:Ex; [|done]. intros j [= <-].
    apply insert_agrees; auto.
Qed.

Lemma encode_record_length {X} `{PbLaws X ok} (x : X) n bs :
  encode_record x n = Ok bs → (length bs ≤ n)%nat.
Proof.
  unfold encode_record. destruct (Nat.ltb_spec n STORE_RECORD_HEADER_LEN); [done|].
  destruct (pb_encode _ x) as [pbs|] eqn:E; [|done]. intros [= <-].
  apply pb_encode_length in E. cbn. unfold STORE_RECORD_HEADER_LEN in *. lia.
Qed.

Lemma setting_get_length src key buf :
  store_wf src →
  meshtastic_config_store_setting_get key MESHTASTIC_STORE_VALUE_MAX src = Ok buf →
  (length buf ≤ MESHTASTIC_STORE_VALUE_MAX)%nat.
Proof.
  intros Hwf. unfold meshtastic_config_store_setting_get.
  destruct (classify_key key) as [|n|n|n|]; [|..|done].
  - unfold setting_get_owner. case_if; [done|]. intros Hb.
    lazymatch type of Hb with Ok ?x = _ => assert (buf = x) as -> by congruence end.
    assert (∀ n s, (String.length (copy_string "" n (Some s)) ≤ n)%nat) as Hcs.
    { intros [|n] s; [done|]. unfold copy_string. cbn [Nat.eqb Nat.sub].
      etrans; [apply substring0_length|lia]. }
    unfold char_array. rewrite !length_app, !length_str_bytes, !length_replicate.
    pose proof (Hcs OWNER_LONG_NAME_LEN (st_long_name src)).
    pose proof (Hcs OWNER_SHORT_NAME_LEN (st_short_name src)).
    unfold OWNER_LONG_NAME_LEN, OWNER_SHORT_NAME_LEN, MESHTASTIC_STORE_VALUE_MAX in *.
    cbn [length]. lia.
  - destruct (parse_channel_index n) as [i|]; [|done].
    destruct (st_channels src !! i); [|done]. apply encode_record_length.
  - destruct (index_for_name config_names n) as [i|]; [|done].
    destruct (st_configs src !! i); [|done]. apply encode_record_length.
  - destruct (index_for_name module_names n) as [i|]; [|done].
    destruct (st_modules src !! i); [|done]. apply encode_record_length.
Qed.

(** A saved record of [src]. *)
Definition record_of (src : store) (r : string * saved_value) : Prop :=
  ∃ key bs, r = (prefixed key, mk_saved (length bs) (Some bs)) ∧
    meshtastic_config_store_setting_get key MESHTASTIC_STORE_VALUE_MAX src = Ok bs.

Lemma load_record src key bs st :
  store_ok src →
  meshtastic_config_store_setting_get key MESHTASTIC_STORE_VALUE_MAX src = Ok bs →
  load_one st (prefixed key, mk_saved (length bs) (Some bs)) = copy_key src key st.
Proof.
  intros [Hwf Hc Hf Hm] Hget. unfold load_one. cbn [fst snd]. rewrite strip_prefixed.
  unfold settings_set_cb. cbn [sv_len sv_read].
  rewrite (proj2 (Nat.ltb_ge _ _)) by (by eapply setting_get_length).
  rewrite Nat.eqb_refl. cbn [negb]. by rewrite (setting_set_get src st key bs).
Qed.

(** A record outside the subtree. *)
Definition foreign (r : string * saved_value) : Prop :=
  strip_prefix (String.append MESHTASTIC_SETTINGS_SUBTREE "/") r.1 = None.

(** Loading the records of [src], in any order and any number of times, with
    foreign ones between them. *)
Lemma load_agrees src recs : ∀ st,
  store_ok src → sized st src → Forall (λ r, record_of src r ∨ foreign r) recs →
  sized (foldl load_one st recs) src ∧
  ∀ key, holds src key st ∨ (∃ bs, (prefixed key, mk_saved (length bs) (Some bs)) ∈ recs ∧
      meshtastic_config_store_setting_get key MESHTASTIC_STORE_VALUE_MAX src = Ok bs) →
    holds src key (foldl load_one st recs).
Proof.
  induction recs as [|r recs IH]; intros st Hsrc Hs Hrs; cbn [foldl].
  { split; [done|]. intros key [?|(bs & Hin & _)]; [done|by apply elem_of_nil in Hin]. }
  apply Forall_cons in Hrs as [Hr Hrs].
  assert (closer src st (load_one st r)) as Hcl.
  { destruct Hr as [(key & bs & -> & Hget)|Hf].
    - rewrite (load_record src) by done. apply copy_key_closer.
    - unfold load_one. rewrite Hf. apply closer_refl. }
  pose proof (cl_sized _ _ _ Hcl Hs) as Hs'.
  destruct (IH (load_one st r) Hsrc Hs' Hrs) as [Hsz Hall]. split; [done|].
  intros key [Hk|(bs & Hin & Hget)]; apply Hall;
    [|apply elem_of_cons in Hin as [Heq|Hin]].
  - left. by apply (holds_closer src key st).
  - left. rewrite <-Heq, (load_record src) by done. by apply (copy_key_holds src key st MESHTASTIC_STORE_VALUE_MAX bs).
  - right. by exists bs.
Qed.

Lemma copy_key_id src key st : holds src key st → copy_key src key st = st.
Proof.
  destruct st as [ln sn cs fs ms]. unfold holds, copy_key.
  destruct (classify_key key) as [|n|n|n|]; [by intros [<- <-]|..|done].
  - destruct (parse_channel_index n) as [i|]; [|done]. intros Hi. specialize (Hi i eq_refl).
    destruct (Store.st_channels src !! i) as [x|]; [|done].
    change (mk_store ln sn (<[i:=x]> cs) fs ms = mk_store ln sn cs fs ms). by rewrite list_insert_id.
  - destruct (index_for_name config_names n) as [i|]; [|done]. intros Hi.
    specialize (Hi i eq_refl). destruct (st_configs src !! i) as [x|]; [|done].
    change (mk_store ln sn cs (<[i:=x]> fs) ms = mk_store ln sn cs fs ms). by rewrite list_insert_id.
  - destruct (index_for_name module_names n) as [i|]; [|done]. intros Hi.
    specialize (Hi i eq_refl). destruct (st_modules src !! i) as [x|]; [|done].
    change (mk_store ln sn cs fs (<[i:=x]> ms) = mk_store ln sn cs fs ms). by rewrite list_insert_id.
Qed.

(** The exported keys determine the store. *)
Lemma holds_all src st :
  store_wf src → sized st src → (∀ key, key ∈ export_keys → holds src key st) → st = src.
Proof.
  intros Hwf (Hc & Hf & Hm) Hall.
  assert (∀ keys, (∀ key, key ∈ keys → holds src key st) →
    foldl (λ st key, copy_key src key st) st keys = st) as Hid.
  { induction keys as [|key keys IH]; intros Hk; cbn [foldl]; [done|].
    rewrite copy_key_id by (apply Hk; left). apply IH. intros key' Hk'. apply Hk. by right. }
  rewrite <-(Hid _ Hall). destruct Hwf as [Hl Hs [Hc8 ?] [Hf10 ?] [Hm16 ?]].
  apply copy_all_keys; [done|lia..].
Qed.

(** What a complete export leaves in the storage. *)
Lemma export_contents src keys : ∀ b b',
  export_loop (settings_export_prefixed full_name_size save_one) keys src b = (Ok (), b') →
  (∀ key, key ∈ keys → ∃ bs, contents b' !! prefixed key = Some bs ∧
    meshtastic_config_store_setting_get key MESHTASTIC_STORE_VALUE_MAX src = Ok bs) ∧
  (∀ k, (∀ key, key ∈ keys → k ≠ prefixed key) → contents b' !! k = contents b !! k).
Proof.
  induction keys as [|key keys IH]; intros b b'; cbn [export_loop].
  { intros [= <-]. split; [|done]. by intros key ?%elem_of_nil. }
  destruct (meshtastic_config_store_setting_get key _ src) as [bs|] eqn:Hget; [|done].
  unfold settings_export_prefixed at 1. case_if; [done|].
  pose proof (save_one_contents (prefixed key) bs b) as Hsave.
  destruct (save_one (prefixed key) bs b) as [[[]|] b1]; cbn [fst snd] in Hsave; [|done].
  intros [Hin Hout]%IH. split.
  - intros key' [->|Hk]%elem_of_cons; [|by apply Hin].
    destruct (decide (key ∈ keys)) as [Hk|Hk]; [by apply Hin|].
    exists bs. split; [|done]. rewrite Hout, Hsave, lookup_insert_eq; [done|].
    intros key' Hk' [= ?]%(inj _). by subst.
  - intros k Hk. rewrite Hout by (intros key' Hk'; apply Hk; by right).
    rewrite Hsave, lookup_insert_ne; [done|]. intros Hkk. by apply (Hk key); [left|].
Qed.

(** The stack is the only writer of its subtree. *)
Definition own_records (b : B) : Prop := ∀ k bs key,
  contents b !! k = Some bs →
  strip_prefix (String.append MESHTASTIC_SETTINGS_SUBTREE "/") k = Some key → key ∈ export_keys.

Lemma saved_records src b b' :
  own_records b → settings_save_subtree full_name_size src b = (Ok (), b') →
  Forall (λ r, record_of src r ∨ foreign r) (saved_list b') ∧
  ∀ key, key ∈ export_keys → ∃ bs,
    (prefixed key, mk_saved (length bs) (Some bs)) ∈ saved_list b' ∧
    meshtastic_config_store_setting_get key MESHTASTIC_STORE_VALUE_MAX src = Ok bs.
Proof.
  intros Hown [Hin Hout]%export_contents. split.
  - apply Forall_forall. intros [k v] (bs & Hk & ->)%saved_list_contents.
    destruct (strip_prefix (String.append MESHTASTIC_SETTINGS_SUBTREE "/") k) as [key|] eqn:E;
      [left|by right].
    assert (k = prefixed key) as -> by exact (strip_prefix_inv _ _ _ E).
    assert (key ∈ export_keys) as Hkey.
    { destruct (decide (key ∈ export_keys)) as [?|Hn]; [done|]. apply (Hown (prefixed key) bs key); [|done].
      rewrite <-Hout; [done|]. intros key' Hk' Heq.
      pose proof (strip_prefixed key) as H5. rewrite Heq, strip_prefixed in H5. congruence. }
    destruct (Hin key Hkey) as (bs' & Hbs' & Hget). rewrite Hk in Hbs'. injection Hbs' as <-.
    by exists key, bs.
  - intros key (bs & Hk & Hget)%Hin. exists bs. split; [by apply contents_saved_list|done].
Qed.

Lemma load_saved src st b b' :
  store_ok src → sized st src → own_records b →
  settings_save_subtree full_name_size src b = (Ok (), b') → backend_init b' = Ok () →
  meshtastic_settings_init b' st = (backend_load b', src).
Proof.
  intros Hsrc Hst Hown Hsave Hb.
  destruct (saved_records src b b' Hown Hsave) as [Hrecs Hall].
  unfold meshtastic_settings_init. rewrite Hb. unfold settings_load_subtree. f_equal.
  destruct (load_agrees src (saved_list b') st Hsrc Hst Hrecs) as [Hsz Hkeys].
  apply holds_all; [apply Hsrc|done|]. intros key (bs & Hin & Hget)%Hall.
  apply Hkeys. right. by exists bs.
Qed.

Lemma flush_saves src s s' :
  meshtastic_settings_flush full_name_size src s = (Ok (), s') →
  save_work s' = None ∧ settings_save_subtree full_name_size src (saved s) = (Ok (), saved s').
Proof.
  unfold meshtastic_settings_flush. change (saved (s <| save_work := None |>)) with (saved s).
  destruct (settings_save_subtree full_name_size src (saved s)) as [ret b'] eqn:Hsave.
  by intros [= -> <-].
Qed.

(** C14: what was saved is what the next boot restores: after a flush that
    reported success no save is pending, and loading the storage into whatever
    well-formed store the next boot starts from makes it exactly the store
    that was flushed, in whatever order the storage lists its records, and
    whatever earlier saves and other subsystems left in it. *)
Theorem flush_init src st s s' :
  store_ok src → store_wf st → own_records (saved s) →
  meshtastic_settings_flush full_name_size src s = (Ok (), s') →
  save_work s' = None ∧
  (backend_init (saved s') = Ok () →
   meshtastic_settings_init (saved s') st = (backend_load (saved s'), src)).
Proof.
  intros Hsrc Hst Hown [Hw Hsave]%flush_saves. split; [done|]. intros Hb.
  apply (load_saved src st (saved s)); try done. apply store_wf_sized; [done|apply Hsrc].
Qed.
End correct.

(** ** A storage in memory *)

#[global] Instance map_backend : Backend (gmap string (list Z)) := {
  backend_init _ := Ok ();
  save_one k v b := (Ok (), <[k := v]> b);
  saved_list b := (λ kv : string * list Z, (kv.1, mk_saved (length kv.2) (Some kv.2))) <$> map_to_list b;
  backend_load _ := Ok ()
}.

#[global] Instance map_backend_laws : BackendLaws (gmap string (list Z)).
Proof.
  refine {| contents b := b |}.
  - done.
  - intros b k v ([k' bs] & [= -> ->] & Hin)%list_elem_of_fmap.
    exists bs. by apply elem_of_map_to_list in Hin.
  - intros b k bs Hk. apply list_elem_of_fmap. exists (k, bs).
    split; [done|]. by apply elem_of_map_to_list.
Defined.

Section witnesses.
#[local] Existing Instance default_kconfig.
#[local] Instance saved_Channel : Pb Channel := table_pb (st_channels factory_store).
#[local] Instance saved_Config : Pb Config := table_pb (st_configs factory_store).
#[local] Instance saved_Module : Pb ModuleConfig := table_pb (st_modules factory_store).

(** The storage after a name was saved by another subsystem. *)
Definition used_storage : gmap string (list Z) := {[ "bt/name" := [1; 2] ]}.

(** A storage with two corrupt records. *)
Definition corrupt_storage : gmap string (list Z) :=
  {[ "meshtastic/owner" := [1; 65]; "meshtastic/config/lora" := [9] ]}.

Lemma settings_init_wf_witness :
  store_wf (meshtastic_settings_init corrupt_storage factory_store).2.
Proof.
  apply settings_init_wf; [|apply factory_store_wf].
  intros k bs Hk. change (corrupt_storage !! k = Some bs) in Hk. unfold corrupt_storage in Hk. apply lookup_insert_Some in Hk as [[<- <-]|[_ Hk]];
    [|apply lookup_singleton_Some in Hk as [<- <-]]; apply (bool_decide_unpack _); by vm_compute.
Defined.

Definition flushed : result () * saver (B := gmap string (list Z)) :=
  meshtastic_settings_flush 73 factory_store (mk_saver (Some 5000) used_storage).

Lemma flush_init_witness :
  save_work flushed.2 = None ∧
  meshtastic_settings_init (saved flushed.2) (factory_store <| st_long_name := "other" |>) =
    (Ok (), factory_store).
Proof.
  destruct (flush_init (H := saved_Channel) (H0 := saved_Config) (H1 := saved_Module)
    (PbLaws0 := table_pb_laws _) (PbLaws1 := table_pb_laws _) (PbLaws2 := table_pb_laws _)
    73 factory_store (factory_store <| st_long_name := "other" |>)
    (mk_saver (Some 5000) used_storage) flushed.2) as [? Hload].
  - constructor; [apply factory_store_wf|by apply Forall_forall..].
  - destruct factory_store_wf. constructor; try done.
    split; [apply (bool_decide_unpack _); by vm_compute|cbn; lia].
  - intros k bs key Hk. change (used_storage !! k = Some bs) in Hk.
    unfold used_storage in Hk. apply lookup_singleton_Some in Hk as [<- <-]. done.
  - vm_compute. reflexivity.
  - split; [done|]. by apply Hload.
Defined.
End witnesses.
