(* ===== verification/Init.v ===== *)
(** * Starting the node (src/meshtastic.c, [meshtastic_init])

    The initialisation order: the configuration is checked, the context and
    the channel table are set up from it, the configuration store is seeded
    from them, the saved settings are loaded over it, the result is pushed
    into the running stack, and the radio and the modules start.

    The build modelled has the node database, NodeInfo, messages, airtime,
    device metrics, environment sensors, GNSS where [CONFIG_GNSS] says so, and
    (if [settings] is given) the settings.  The last three steps, which start
    Bluetooth, the serial port and the MQTT gateway, are in Boot.v. *)

From S2P Require Import Prelude Types External Mock Core Airtime Channels NodeDB Wire Store World.
From S2P Require Import StoreApply Radio Reliable PhoneApi Invariant Send Position Settings.

(** [struct meshtastic_config]; the device is whether its pointer is not NULL. *)
Record meshtastic_config := mk_config {
  cfg_lora_dev : bool;
  cfg_node_id : Z;
  cfg_channel : channel_config;
  cfg_frequency : Z;
  cfg_hop_limit : Z;
  cfg_tx_power : Z;
  cfg_long_name : option string;
  cfg_short_name : option string
}.

(** The Kconfig options only the start reads. *)
Class BootConfig := {
  CONFIG_NODE_ID_CUSTOM : bool;
  CONFIG_SERIAL : bool;
  CONFIG_GNSS : bool;
  CONFIG_BLE_PASSKEY : option Z
}.

(** Steps that can fail, up to the first failure. *)
Fixpoint run_stages {S : Type} (stages : list (M S (result ()))) : M S (result ()) :=
  match stages with
  | [] => mret (Ok ())
  | stage :: stages =>
      ret ← stage;
      match ret with Err e => mret (Err e) | Ok _ => run_stages stages end
  end.

Section init.
Context {K L T : Type} `{Kconfig} `{MqttConfig} `{BootConfig} `{PositionConfig} `{PSA K} `{LoraDriver L} `{Kernel T}.
Context `{Pb Channel} `{Pb Config} `{Pb ModuleConfig} `{Backend B}.
Notation W := (world K L T).
(** What the platform answers: the hardware identifier, whether
    [psa_crypto_init] succeeds, the settings storage, and the apply hooks the
    application registered, which observe the stack. *)
Context (hwid : option (list Z)) (psa_ready : bool) (settings : option B).
Context (hooks : list (option (W → result ()))).

(** [mt.node_id]; a hardware identifier of zero is stored, then refused. *)
Definition init_node_id (cfg : meshtastic_config) : M W (result ()) :=
  if CONFIG_NODE_ID_CUSTOM then
    let id := if negb (cfg_node_id cfg =? 0) then cfg_node_id cfg else CONFIG_NODE_ID_DEFAULT in
    modify (set w_mt (set mt_node_id (λ _, id))) ;;
    mret (Ok ())
  else
    (match hwid with
     | None | Some [] => mret ()
     | Some hwid => modify (set w_mt (set mt_node_id (λ _, node_id_from_bytes hwid)))
     end) ;;
    mret (match node_id_from_hwinfo hwid with Ok _ => Ok () | Err e => Err e end).

(** The assignments to [mt] after the channel table is set up. *)
Definition init_context (cfg : meshtastic_config) (mt : context) : context :=
  mt <| mt_frequency := cfg_frequency cfg |>
     <| mt_hop_limit := if cfg_hop_limit cfg =? 0 then u8 CONFIG_DEFAULT_HOP_LIMIT
                        else cfg_hop_limit cfg |>
     <| mt_tx_power := if cfg_tx_power cfg =? 0 then i8 CONFIG_TX_POWER else cfg_tx_power cfg |>
     <| mt_long_name := default CONFIG_NODE_LONG_NAME (cfg_long_name cfg) |>
     <| mt_short_name := default CONFIG_NODE_SHORT_NAME (cfg_short_name cfg) |>
     <| mt_next_pkt_id := 1 |> <| mt_next_fromradio_id := 1 |>
     <| mt_dup_head := 0%nat |> <| mt_radio_rx_armed := false |>
     <| mt_dup_cache := replicate CONFIG_DUP_CACHE_SIZE (0, 0) |>
     <| mt_status := status_zero |>.

(** What [meshtastic_config_store_seed] reads. *)
Definition seed_of (cfg : meshtastic_config) (w : W) : seed_inputs :=
  mk_seed (cfg_long_name cfg) (cfg_short_name cfg) (cfg_frequency cfg)
    (channel_slots (w_channels w)) (device_role (w_channels w)) (rebroadcast_mode (w_channels w))
    (mt_hop_limit (w_mt w)) (mt_tx_power (w_mt w)) CONFIG_SERIAL CONFIG_GNSS CONFIG_BLE CONFIG_BLE_PASSKEY.

Definition init_seed (cfg : meshtastic_config) : M W (result ()) :=
  s ← gets (seed_of cfg);
  zoom w_store (state (meshtastic_config_store_seed (Some s))).

Definition init_settings : M W (result ()) :=
  match settings with
  | None => mret (Ok ())
  | Some b => zoom w_store (state (meshtastic_settings_init b))
  end.

(** src/meshtastic_settings_apply.c *)
Fixpoint apply_hooks (hooks : list (option (W → result ()))) (w : W) : result () :=
  match hooks with
  | [] => Ok ()
  | None :: hooks => apply_hooks hooks w
  | Some hook :: hooks =>
      match hook w with Err e => Err e | Ok _ => apply_hooks hooks w end
  end.
Definition meshtastic_settings_apply_all : M W (result ()) := gets (apply_hooks hooks).

Definition meshtastic_metrics_init : M W (result ()) :=
  modify (set w_airtime (λ _, meshtastic_airtime_init)) ;; mret (Ok ()).

Definition nodedb_init : M W (result ()) :=
  mt ← gets (S:=W) w_mt;
  ch ← gets (S:=W) w_channels;
  now ← uptime_get;
  zoom w_nodedb (state (meshtastic_nodedb_init (mt_node_id mt)
    (meshtastic_fill_user MESHTASTIC_BOARD_HW_MODEL (meshtastic_device_role ch) mt) now)).

(** They start a thread or do nothing. *)
Definition meshtastic_environment_init : M W (result ()) := mret (Ok ()).
Definition meshtastic_nodeinfo_init : M W (result ()) := mret (Ok ()).
Definition meshtastic_message_init : M W (result ()) := mret (Ok ()).

Definition init_stages (cfg : meshtastic_config) : list (M W (result ())) :=
  [init_seed cfg; init_settings; meshtastic_config_store_apply_core;
   meshtastic_settings_apply_all; meshtastic_radio_init;
   (if CONFIG_GNSS then meshtastic_gnss_init else mret (Ok ()));
   meshtastic_metrics_init; meshtastic_environment_init; nodedb_init; meshtastic_nodeinfo_init; meshtastic_message_init].

(** The checks before anything is changed. *)
Definition config_error (cfg : meshtastic_config) (lora : L) : option errno :=
  if negb (cfg_lora_dev cfg) || negb (device_is_ready lora) then Some ENODEV
  else if bool_decide (cc_psk (cfg_channel cfg) = None)
          || (negb (cc_psk_len (cfg_channel cfg) =? 16)%nat
              && negb (cc_psk_len (cfg_channel cfg) =? 32)%nat) then Some EINVAL
  else if bool_decide (cc_channel_name (cfg_channel cfg) = None) || (cfg_frequency cfg =? 0)
       then Some EINVAL
  else None.

Definition set_initialized (b : bool) : M W () := modify (set w_mt (set mt_initialized (λ _, b))).

Definition meshtastic_init (cfg : option meshtastic_config) : M W (result ()) :=
  match cfg with
  | None => mret (Err EINVAL)
  | Some cfg =>
      lora ← gets (S:=W) w_lora;
      match config_error cfg lora with
      | Some e => mret (Err e)
      | None =>
          modify (set w_mt (set mt_lora_dev (λ _, true))) ;;
          ret ← run_stages [init_node_id cfg;
                            zoom w_channels (meshtastic_channels_init_from_config
                                               (Some (cfg_channel cfg)))];
          match ret with
          | Err e => mret (Err e)
          | Ok _ =>
              modify (set w_mt (init_context cfg)) ;;
              meshtastic_reliable_reset ;;
              if negb psa_ready then mret (Err EIO)
              else
                set_initialized true ;;
                ret ← run_stages (init_stages cfg);
                match ret with
                | Err e => set_initialized false ;; mret (Err e)
                | Ok _ => mret (Ok ())
                end
          end
      end
  end.
End init.

(** ** The steps *)

Lemma stage_wp {S : Type} (s : M S (result ())) l (Q : result () → S → Prop) w :
  wp s (λ r w', match r with Ok _ => wp (run_stages l) Q w' | Err e => Q (Err e) w' end) w →
  wp (run_stages (s :: l)) Q w.
Proof.
  intros Hs. cbn [run_stages]. rewrite wp_bind. eapply wp_mono; [exact Hs|].
  intros [[]|e] w' Hr; [done|]. by wps.
Qed.

Section correct.
Context {K L T : Type} `{KconfigRanges} `{MqttConfig} `{BootConfig} `{PositionConfig} `{PSALaws K} `{LoraLaws L} `{KernelLaws T}.
Context `{Pb Channel} `{Pb Config} `{Pb ModuleConfig} `{Backend B}.
Context `{Pb Data} `{!PbLaws Data Data_ok}.
Notation W := (world K L T).

(** A configuration whose pointers are what they claim to be. *)
Definition config_ok (cfg : meshtastic_config) : Prop :=
  ∀ src, cc_psk (cfg_channel cfg) = Some src →
    (cc_psk_len (cfg_channel cfg) ≤ length src)%nat ∧ bytes_ok src.

Lemma config_error_channel cfg (lora : L) :
  config_ok cfg → config_error cfg lora = None → channel_config_ok (cfg_channel cfg).
Proof.
  intros Hok. unfold config_error. case_if; [done|]. case_if; [done|]. intros _.
  destruct (cc_psk (cfg_channel cfg)) as [src|] eqn:Esrc; [|done].
  destruct (Hok src Esrc). boolp. split.
  - destruct (Nat.eqb_spec (cc_psk_len (cfg_channel cfg)) 16) as [->|]; [lia|].
    destruct (Nat.eqb_spec (cc_psk_len (cfg_channel cfg)) 32) as [->|]; [lia|naive_solver].
  - by exists src.
Qed.

(** A store [meshtastic_config_store_apply_core] can push into the running
    stack of a node that was just configured, whose primary slot is slot 0. *)
Definition bootable (st : store) : Prop := ∃ p device lora,
  length (st_channels st) = 8%nat ∧ Forall psk_ok (st_channels st) ∧ (p < 8)%nat ∧
  one_primary (st_channels st) p ∧
  (∀ ch, st_channels st !! 0%nat = Some ch → (0 < p)%nat → inherits ch = false) ∧
  stored_device st = Some device ∧ stored_lora st = Some lora ∧ freq_ok lora.

(** The node while it starts: the invariant but for the node database. *)
Record starting (fx : fixed) (w : W) : Prop := {
  sg_channels : chan_wf (w_channels w);
  sg_outbound : outbound_wf (w_outbound w);
  sg_pending : length (reliable_entries (w_reliable w)) = CONFIG_RELIABLE_MAX_PENDING;
  sg_entries : Forall entry_wf (reliable_entries (w_reliable w));
  sg_phones : Forall (λ api, ∃ l, ring_repr api l) (w_phones w);
  sg_dup : length (mt_dup_cache (w_mt w)) = CONFIG_DUP_CACHE_SIZE;
  sg_dup_head : (mt_dup_head (w_mt w) < CONFIG_DUP_CACHE_SIZE)%nat;
  sg_peers : length (w_peers w) = CONFIG_NODEINFO_PEER_CACHE_SIZE;
  sg_keys : psa_keys (w_psa w) = fx_keys fx;
  sg_count : length (w_phones w) = fx_phones fx;
  sg_uplinks : fx_uplinks fx `prefix_of` w_uplinks w;
  sg_initialized : mt_initialized (w_mt w) = true
}.

(** ... and once the store [st] with primary slot [p] was pushed. *)
Record running (fx : fixed) (st : store) (p : nat) (w : W) : Prop := {
  rn_starting : starting fx w;
  rn_store : w_store w = st;
  rn_primary : primary_index (w_channels w) = Z.of_nat p;
  rn_force : in_force st (w_channels w) (w_mt w)
}.

Lemma configured_in_force (w : W) st p device lora ch :
  one_primary (st_channels st) p → stored_device st = Some device → stored_lora st = Some lora →
  primary_index ch = Z.of_nat p →
  (∀ i c, st_channels st !! i = Some c → channel_slots ch !! i = Some (fixup_slot (Z.of_nat i) c)) →
  in_force st (ch <| device_role := dev_role device |>
      <| rebroadcast_mode := dev_rebroadcast_mode device |>)
    (configured lora (named st (w_mt w))).
Proof.
  intros Hone Hd Hl Hp Hs. constructor.
  - done.
  - done.
  - intros i c Hc Hrole. cbn. rewrite Hp. f_equal. specialize (Hone i c Hc).
    rewrite Hrole, Z.eqb_refl in Hone. symmetry. by apply Nat.eqb_eq.
  - intros d. rewrite Hd. by intros [= <-].
  - intros l. rewrite Hl. intros [= <-] Hh. cbn. by rewrite bool_decide_true.
  - intros l. rewrite Hl. intros [= <-] Hh. cbn. by rewrite bool_decide_false.
  - intros l hz. rewrite Hl. intros [= <-] Hh. cbn. by rewrite Hh.
Qed.
Lemma in_force_status st ch mt s a :
  in_force st ch mt → in_force st ch (mt <| mt_status := s |> <| mt_radio_rx_armed := a |>).
Proof. intros []. by constructor. Qed.

Lemma apply_core_stage fx st w :
  starting fx w → bootable st → w_store w = st → primary_index (w_channels w) = 0 →
  wp meshtastic_config_store_apply_core (λ r w', r = Ok () ∧ ∃ p, running fx st p w') w.
Proof.
  intros Hs (p & device & lora & Hlen & Hpsk & Hp & Hone & Hhand & Hd & Hl & Hfreq) Hst Hprim.
  destruct (apply_core_ok p device lora w) as (st1 & Hr & [Hwf1 Hs1 Hp1]);
    rewrite ?Hst; try done; [apply Hs|unfold handover_ok; by rewrite Hprim|].
  apply wp_run. do 2 eexists. split; [exact Hr|]. split; [done|]. exists p.
  rewrite (proj2 (Nat.ltb_lt _ _)) in Hp1 by done. rewrite Hst in Hs1.
  rewrite Hst. destruct Hs. constructor; [constructor|..]; try done.
  - by destruct Hwf1 as [[] ? ?].
  - apply (configured_in_force w st p device lora); try done.
    intros i ch Hch. apply Hs1; [|done]. apply lookup_lt_Some in Hch. lia.
Qed.

Lemma running_same fx st p w w' :
  w_channels w' = w_channels w → w_outbound w' = w_outbound w → w_reliable w' = w_reliable w →
  w_phones w' = w_phones w → w_peers w' = w_peers w → w_psa w' = w_psa w →
  w_store w' = w_store w → w_uplinks w' = w_uplinks w →
  (∃ s a, w_mt w' = (w_mt w) <| mt_status := s |> <| mt_radio_rx_armed := a |>) →
  running fx st p w → running fx st p w'.
Proof.
  intros E1 E2 E3 E4 E5 E6 E7 E8 (s & a & E9) [[] ? ? ?].
  constructor; [constructor|..]; rewrite ?E1, ?E2, ?E3, ?E4, ?E5, ?E6, ?E7, ?E8, ?E9; try done.
  by apply in_force_status.
Qed.

Lemma radio_stage fx st p w :
  running fx st p w → wp meshtastic_radio_init (λ _ w', running fx st p w') w.
Proof.
  intros Hr. unfold meshtastic_radio_init, lora_call. wps.
  destruct (lora_config _ _) as [[[]|e] l]; cbn [fst snd].
  - wps. eapply wp_mono; [apply arm_rx_spec|]. cbn beta.
    intros _ w' ([Hmt ? ? ? ? ? ? ? ? ? ?] & _). wps. by eapply running_same; [..|exact Hr].
  - wps. eapply running_same; [..|exact Hr]; try done.
    exists (mt_status (w_mt w)), (mt_radio_rx_armed (w_mt w)). by destruct w as [[]].
Qed.

(** The channel table right after [meshtastic_channels_init_from_config]. *)
Definition fresh_table (st : channels) : Prop :=
  chan_wf st ∧ primary_index st = 0 ∧
  ∃ ch, channel_slots st = <[0%nat := ch]> default_slots ∧ c_role ch = Role_PRIMARY.

Lemma seed_slot slots i :
  length slots = 8%nat → ∀ c,
  ((λ i, (default Channel_zero (slots !! i)) <| c_index := Z.of_nat i |>) <$> seq 0 8) !! i = Some c →
  (i < 8)%nat ∧ ∃ ch, slots !! i = Some ch ∧ c = ch <| c_index := Z.of_nat i |>.
Proof.
  intros Hlen c (j & -> & Hj)%list_lookup_fmap_Some. apply lookup_seq in Hj as [-> Hi].
  split; [done|]. destruct (lookup_lt_is_Some_2 slots (0 + i)) as [ch Hch]; [lia|].
  exists ch. by rewrite Hch.
Qed.

Lemma seed_bootable s st :
  fresh_table st → seed_channels s = channel_slots st →
  bootable (meshtastic_config_store_seed (Some s) store_bss).2.
Proof.
  intros (Hwf & _ & ch0 & Hslots & Hrole) Hs.
  pose proof (base_slots _ (wf_base _ Hwf)) as Hlen.
  assert (Forall psk_ok (channel_slots st)) as Hpsk by apply Hwf.
  exists 0%nat. do 2 eexists. split_and!; [done|..|reflexivity|reflexivity|].
  - apply Forall_lookup_2. intros i c Hc. cbn [st_channels snd meshtastic_config_store_seed] in Hc.
    rewrite Hs in Hc. apply seed_slot in Hc as (_ & ch & Hch & ->); [|done].
    by apply (Forall_lookup_1 _ _ _ _ Hpsk Hch).
  - lia.
  - intros i c Hc. cbn [st_channels snd meshtastic_config_store_seed] in Hc.
    rewrite Hs in Hc. apply seed_slot in Hc as (Hi & ch & Hch & ->); [|done].
    change (c_role (ch <| c_index := Z.of_nat i |>)) with (c_role ch). rewrite Hslots in Hch.
    destruct i as [|i]; [injection Hch as <-; by rewrite Hrole|].
    rewrite list_lookup_insert_ne in Hch by done.
    do 7 (destruct i as [|i]; [by injection Hch as <-|]). lia.
  - intros ? _ ?. lia.
  - done.
Qed.

Lemma nodedb_stage fx st p w :
  running fx st p w → wp nodedb_init (λ r w', running fx st p w' ∧
    (r = Ok () → nodedb_wf (w_nodedb w'))) w.
Proof.
  intros Hr. unfold nodedb_init, uptime_get. wps. cbn beta.
  lazymatch goal with |- context [meshtastic_nodedb_init ?l ?u ?n ?db] =>
    destruct (decide (l = 0)) as [Hl|Hl];
    [rewrite Hl; destruct (meshtastic_nodedb_init 0 u n db) as [r db'] eqn:Edb
    |pose proof (nodedb_init_spec l u n db _ Hl) as Hdb;
     destruct (meshtastic_nodedb_init l u n db) as [r db']] end;
  cbn [fst snd].
  - split; [|by intros ->]. by eapply running_same; [..|exact Hr]; try done;
      exists (mt_status (w_mt w)), (mt_radio_rx_armed (w_mt w)); destruct w as [[]].
  - destruct Hdb as (-> & Hwf & _). split; [|done].
    eapply running_same; [..|exact Hr]; try done.
    exists (mt_status (w_mt w)), (mt_radio_rx_armed (w_mt w)). by destruct w as [[]].
Qed.

(** ** The whole start *)

(** The state of a node that was switched on: the queues and tables the start
    does not set up itself are the ones of the program image. *)
Record power_on (fx : fixed) (w : W) : Prop := {
  po_outbound : outbound_wf (w_outbound w);
  po_phones : Forall (λ api, ∃ l, ring_repr api l) (w_phones w);
  po_peers : length (w_peers w) = CONFIG_NODEINFO_PEER_CACHE_SIZE;
  po_keys : psa_keys (w_psa w) = fx_keys fx;
  po_count : length (w_phones w) = fx_phones fx;
  po_uplinks : fx_uplinks fx `prefix_of` w_uplinks w;
  po_initialized : mt_initialized (w_mt w) = false
}.

Context (hwid : option (list Z)) (psa_ready : bool) (settings : option B).
Context (hooks : list (option (W → result ()))).

(** What loading the saved settings makes of the seeded store. *)
Definition load (st : store) : store :=
  match settings with None => st | Some b => (meshtastic_settings_init b st).2 end.
Definition full_size (st : store) : Prop :=
  length (st_channels st) = 8%nat ∧ length (st_configs st) = 10%nat ∧ length (st_modules st) = 16%nat.

(** Saved settings that a node can boot from. *)
Definition loads : Prop := ∀ st, bootable st → full_size st → bootable (load st).

(** The settings subsystem came up. *)
Definition subsys_ok : Prop := ∀ b, settings = Some b → backend_init b = Ok ().

(** The factory settings of the application's configuration, on the channel
    table it sets up. *)
Definition seeded (cfg : meshtastic_config) (st : store) : Prop :=
  ∃ w : W, fresh_table (w_channels w) ∧
    st = (meshtastic_config_store_seed (Some (seed_of cfg w)) store_bss).2.
Lemma seeded_full cfg st : seeded cfg st → full_size st.
Proof. by intros (w & _ & ->). Qed.

(** The node is up, with the stored settings in force: those of the factory
    where nothing was saved. *)
Definition started (cfg : meshtastic_config) (fx : fixed) (w : W) : Prop :=
  subsys_ok ∧ ∃ st p, world_wf (with_store fx (load st)) w ∧ seeded cfg st ∧ running fx (load st) p w.

Lemma node_id_stage cfg (w : W) :
  wp (init_node_id (K:=K) (L:=L) (T:=T) hwid cfg) (λ r w', ∃ id, w' = w <| w_mt ::= set mt_node_id (λ _, id) |>) w.
Proof.
  assert (∃ id, w = w <| w_mt ::= set mt_node_id (λ _, id) |>) as [id0 Hid0].
  { exists (mt_node_id (w_mt w)). by destruct w as [[]]. }
  unfold init_node_id. case_if; [wps; by eexists|].
  destruct hwid as [[|b l]|]; wps; by eexists.
Qed.

Lemma seed_stage (cfg : meshtastic_config) (w : W) :
  wp (init_seed cfg) (λ r w', r = Ok () ∧
    w' = w <| w_store := (meshtastic_config_store_seed (Some (seed_of cfg w)) store_bss).2 |>) w.
Proof. unfold init_seed. wps. done. Qed.

Lemma settings_stage (w : W) :
  wp (init_settings settings) (λ r w', (r = Ok () → subsys_ok) ∧ w' = w <| w_store := load (w_store w) |>) w.
Proof.
  unfold init_settings, load, subsys_ok. destruct settings as [b|]; wps; [|by destruct w].
  split; [|done]. unfold meshtastic_settings_init.
  destruct (backend_init b) as [[]|] eqn:E; [|done]. intros _ b' [= <-]. exact E.
Qed.

Lemma airtime_same fx st p w a : running fx st p w → running fx st p (w <| w_airtime := a |>).
Proof.
  intros Hr. eapply running_same; [..|exact Hr]; try done.
  exists (mt_status (w_mt w)), (mt_radio_rx_armed (w_mt w)). by destruct w as [[]].
Qed.

Lemma gnss_stage fx st p w :
  running fx st p w →
  wp (if CONFIG_GNSS then meshtastic_gnss_init else mret (Ok ())) (λ _ w', running fx st p w') w.
Proof.
  intros Hr. destruct CONFIG_GNSS; [|by wps]. unfold meshtastic_gnss_init, gnss_modify. wps.
  eapply running_same; [..|exact Hr]; try done.
  exists (mt_status (w_mt w)), (mt_radio_rx_armed (w_mt w)). by destruct w as [[]].
Qed.

Lemma later_stages fx st p w :
  running fx st p w →
  wp (run_stages [meshtastic_settings_apply_all hooks; meshtastic_radio_init;
      (if CONFIG_GNSS then meshtastic_gnss_init else mret (Ok ()));
      meshtastic_metrics_init; meshtastic_environment_init; nodedb_init;
      meshtastic_nodeinfo_init; meshtastic_message_init])
    (λ r w', running fx st p w' ∧ (r = Ok () → nodedb_wf (w_nodedb w'))) w.
Proof.
  intros Hr. apply stage_wp. unfold meshtastic_settings_apply_all. wps.
  destruct (apply_hooks hooks w) as [[]|]; [|done].
  apply stage_wp. eapply wp_mono; [by apply radio_stage|]. intros [[]|] w1 Hr1; [|done].
  apply stage_wp. eapply wp_mono; [by apply gnss_stage|]. intros [[]|] w2 Hr2; [|done].
  apply stage_wp. unfold meshtastic_metrics_init. wps.
  apply stage_wp. unfold meshtastic_environment_init. wps.
  apply stage_wp. eapply wp_mono; [by apply nodedb_stage, airtime_same|]. cbn beta.
  intros [[]|] w3 [Hr3 Hdb]; [|done].
  apply stage_wp. unfold meshtastic_nodeinfo_init. wps.
  apply stage_wp. unfold meshtastic_message_init. wps. cbn [run_stages]. wps. auto.
Qed.

Lemma boot_stages fx cfg w :
  loads → starting fx w → fresh_table (w_channels w) →
  wp (run_stages (init_stages settings hooks cfg)) (λ r w', match r with
    | Ok _ => started cfg fx w'
    | Err _ => True end) w.
Proof.
  intros Hload Hs Hfresh. unfold init_stages.
  set (st := (meshtastic_config_store_seed (Some (seed_of cfg w)) store_bss).2).
  assert (bootable st) as Hb by (by eapply seed_bootable).
  assert (full_size st) as Hsz.
  { split_and!; try reflexivity. }
  apply stage_wp. eapply wp_mono; [apply seed_stage|]. cbn beta. intros r w1 [-> ->]. fold st.
  apply stage_wp. eapply wp_mono; [apply settings_stage|]. cbn beta. intros [[]|] w2 [Hsub ->]; [|done]. specialize (Hsub eq_refl).
  change (w_store (w <| w_store := st |>)) with st.
  apply stage_wp. eapply wp_mono.
  { apply (apply_core_stage fx (load st)); [|by apply Hload|done|apply Hfresh].
    by destruct Hs; constructor. }
  cbn beta. intros r w3 (-> & p & Hr3).
  eapply wp_mono; [by apply later_stages|]. cbn beta.
  intros [[]|e] w4 [Hr4 Hdb]; [|done]. split; [done|]. exists st, p. split; [|split; [by exists w|done]].
  specialize (Hdb eq_refl). destruct Hr4 as [[] ? ? ?]. by constructor.
Qed.

Definition init (cfg : meshtastic_config) : M W (result ()) :=
  meshtastic_init hwid psa_ready settings hooks (Some cfg).

Lemma init_wp fx cfg w :
  config_ok cfg → power_on fx w → loads →
  wp (init cfg) (λ r w', match r with
    | Ok _ => started cfg fx w'
    | Err _ => mt_initialized (w_mt w') = false end) w.
Proof.
  intros Hok [] Hload. unfold init, meshtastic_init. wps.
  destruct (config_error cfg (w_lora w)) as [e|] eqn:He; [by wps|]. wps.
  set (w0 := w <| w_mt ::= _ |>).
  assert (mt_initialized (w_mt w0) = false) as Hi0 by done.
  apply stage_wp. eapply wp_mono; [apply node_id_stage|]. cbn beta.
  intros [[]|e] w1 [id ->]; [|by wps].
  apply stage_wp. rewrite wp_zoom.
  eapply wp_mono; [apply init_from_config_spec; by eapply config_error_channel|]. cbn beta.
  intros r ch (-> & Hch & Hp & c & Hslots & Hrole & _). cbn [run_stages]. wps.
  unfold meshtastic_reliable_reset, set_initialized. wps.
  destruct psa_ready; cbn [negb]; wps; [|done].
  lazymatch goal with |- wp (run_stages _) _ ?w => set (w2 := w) end.
  eapply wp_mono; [apply (boot_stages fx cfg w2); [done|..]|].
  - constructor; try done; subst w2; cbn -[replicate].
    + by rewrite length_replicate.
    + apply Forall_replicate. by intros [=].
    + by rewrite length_replicate.
    + pose proof dup_cache_range. lia.
  - split; [done|]. split; [done|]. by exists c.
  - cbn beta. intros [[]|e] w3 Hr; wps; done.
Qed.

(** starting the node always ends, in one of two ways.  Either it reports
    success and the whole invariant of the running node holds, the store is
    the one the saved settings describe, and these settings are in force; or it reports an error (a bad configuration, a radio
    that is not ready, no node identifier, or a step that failed) and the node
    stays switched off.  The saved settings must be such that the channels can
    be pushed ([apply_core_diverges] says why). *)
Theorem init_outcome fx cfg w :
  config_ok cfg → power_on fx w → loads →
  ∃ r w', init cfg w = Some (r, w') ∧
    match r with
    | Ok _ => started cfg fx w' ∧ mt_initialized (w_mt w') = true
    | Err _ => mt_initialized (w_mt w') = false
    end.
Proof.
  intros Hok Hon Hload. pose proof (init_wp fx cfg w Hok Hon Hload) as Hw.
  apply wp_run in Hw as (r & w' & Hr & Hpost). exists r, w'. split; [done|].
  destruct r; [|done]. split; [done|]. by destruct Hpost as (_ & ? & ? & _ & _ & [[] ? ? ?]).
Qed.
End correct.

(** ** Rebooting *)

Section reboot.
Context {K L T : Type} `{KconfigRanges} `{MqttConfig} `{BootConfig} `{PositionConfig} `{PSALaws K} `{LoraLaws L} `{KernelLaws T}.
Context `{Pb Channel} `{Pb Config} `{Pb ModuleConfig} `{BackendLaws B}.
Context {okc : Channel → Prop} {okf : Config → Prop} {okm : ModuleConfig → Prop}.
Context `{!PbLaws Channel okc} `{!PbLaws Config okf} `{!PbLaws ModuleConfig okm}.
Context `{Pb Data} `{!PbLaws Data Data_ok}.
Notation W := (world K L T).
Context (full_name_size : nat).
Context (hwid : option (list Z)) (psa_ready : bool) (hooks : list (option (W → result ()))).

(** Saved settings make of any store the one that was saved. *)
Lemma flushed_load (src : store) (s s' : saver (B:=B)) :
  store_ok (okc:=okc) (okf:=okf) (okm:=okm) src → own_records (saved s) →
  meshtastic_settings_flush full_name_size src s = (Ok (), s') → backend_init (saved s') = Ok () →
  ∀ st, full_size st → load (Some (saved s')) st = src.
Proof.
  intros Hsrc Hown [_ Hsave]%flush_saves Hb st (? & ? & ?). unfold load.
  rewrite (load_saved full_name_size src st (saved s)); try done.
  destruct (so_wf _ Hsrc) as [_ _ [? _] [? _] [? _]]. split_and!; lia.
Qed.

(** C12: a node that saved settings it can boot from ([bootable]: one PRIMARY
    channel, no earlier slot that inherits its key while slot 0 is the running
    primary one, a frequency below 2^32 Hz; [apply_core_diverges] shows that
    the node may hang otherwise) comes back as it was: after a flush that
    reported success, starting again (with whatever configuration the
    application passes, from whatever was in memory) either reports an error
    or brings up a node that satisfies the whole invariant with the same store,
    whose settings are all in force: names, channel slots, primary channel,
    device role, rebroadcast mode, and where they are usable hop limit,
    transmit power and frequency. *)
Theorem reboot_restores (src : store) (s s' : saver (B:=B)) fx cfg (w : W) :
  store_ok (okc:=okc) (okf:=okf) (okm:=okm) src → bootable src → own_records (saved s) →
  meshtastic_settings_flush full_name_size src s = (Ok (), s') →
  backend_init (saved s') = Ok () → config_ok cfg → power_on fx w →
  ∃ r w', init hwid psa_ready (Some (saved s')) hooks cfg w = Some (r, w') ∧
    match r with
    | Ok _ => world_wf (with_store fx src) w' ∧ w_store w' = src ∧
        in_force src (w_channels w') (w_mt w')
    | Err _ => mt_initialized (w_mt w') = false
    end.
Proof.
  intros Hsrc Hboot Hown Hflush Hb Hcfg Hon.
  pose proof (flushed_load src s s' Hsrc Hown Hflush Hb) as Hload.
  assert (loads (Some (saved s'))) as Hl by (intros st _ Hst; by rewrite Hload).
  pose proof (init_wp hwid psa_ready (Some (saved s')) hooks fx cfg w Hcfg Hon Hl) as Hw.
  apply wp_run in Hw as (r & w' & Hr & Hpost). exists r, w'. split; [done|].
  destruct r; [|done]. destruct Hpost as (_ & st & p & Hwf & Hst%seeded_full & [_ Hs _ Hforce]).
  rewrite Hload in * by done. done.
Qed.
End reboot.

(** ** A start of the mock node *)

#[local] Existing Instances default_kconfig default_mqtt_config.
#[local] Existing Instance default_kconfig_ranges.
#[local] Existing Instance default_position_config.
#[local] Instance boot_config : BootConfig := {|
  CONFIG_NODE_ID_CUSTOM := false; CONFIG_SERIAL := true; CONFIG_GNSS := true; CONFIG_BLE_PASSKEY := None |}.
#[local] Instance boot_Channel : Pb Channel := table_pb (st_channels factory_store).
#[local] Instance boot_Config : Pb Config := table_pb (st_configs factory_store).
#[local] Instance boot_Module : Pb ModuleConfig := table_pb (st_modules factory_store).

Definition home : meshtastic_config :=
  mk_config true 0 (mk_channel_config (Some "home") (Some (replicate 16 9)) 16) 869525000 0 0
    (Some "Home") None.
Definition cold_world : world toy_psa mock_lora mock_kernel :=
  (mock_world (mk_mock_lora false [] 0 None true) (mock_clock false))
    <| w_mt ::= set mt_initialized (λ _, false) |>.
Definition hw : option (list Z) := Some [1; 2; 3; 4; 5; 6].

Lemma home_ok : config_ok home.
Proof.
  intros src [= <-]. split; [cbn; lia|]. apply (bool_decide_unpack _). by vm_compute.
Qed.

Lemma cold_power_on : power_on (mk_fixed ∅ 0 store_bss []) cold_world.
Proof.
  pose proof (mock_world_wf (mk_mock_lora false [] 0 None true) (mock_clock false)) as [].
  by constructor.
Qed.

Lemma init_outcome_witness :
  (∃ w', init hw true (None : option (gmap string (list Z))) [] home cold_world = Some (Ok (), w') ∧
     started None home (mk_fixed ∅ 0 store_bss []) w' ∧ mt_node_id (w_mt w') = 0x03040506 ∧ mt_ch_hash (w_channels w') = 15) ∧
  (∃ w', init hw false (None : option (gmap string (list Z))) [] home cold_world
     = Some (Err EIO, w') ∧ mt_initialized (w_mt w') = false).
Proof.
  split.
  - destruct (init_outcome hw true (None : option (gmap string (list Z))) [] (mk_fixed ∅ 0 store_bss []) home cold_world
      home_ok cold_power_on) as (r & w' & Hr & Hpost); [by intros st|].
    assert (init hw true (None : option (gmap string (list Z))) [] home cold_world
      ≫= (λ r, Some (r.1, mt_node_id (w_mt r.2), mt_ch_hash (w_channels r.2)))
      = Some (Ok (), 0x03040506, 15)) as Hrun by (by vm_compute).
    rewrite Hr in Hrun.
    change (Some (r, mt_node_id (w_mt w'), mt_ch_hash (w_channels w')) =
      Some (Ok (), 0x03040506, 15)) in Hrun.
    injection Hrun as Er Eid Ehash. subst r. destruct Hpost as [Hpost _].
    exists w'. split_and!; assumption.
  - eexists. by split; [vm_compute; reflexivity|].
Defined.

(** The node is switched off after a flush and started again with another
    configuration. *)
Definition saved_before : result () * saver (B := gmap string (list Z)) :=
  meshtastic_settings_flush 73 factory_store (mk_saver None ∅).

(** What the theorem asks of those settings. *)
Lemma factory_ok : store_ok (okc := λ x, x ∈ st_channels factory_store)
  (okf := λ x, x ∈ st_configs factory_store) (okm := λ x, x ∈ st_modules factory_store) factory_store.
Proof. constructor; [apply factory_store_wf|by apply Forall_forall..]. Qed.
Lemma factory_bootable : bootable factory_store.
Proof.
  exists 0%nat. do 2 eexists. split_and!; [done|..|reflexivity|reflexivity|].
  - by apply (bool_decide_unpack _); vm_compute.
  - lia.
  - apply one_primary_by. by apply (bool_decide_unpack _); vm_compute.
  - intros ? _ ?. lia.
  - done.
Qed.
Lemma nothing_saved : own_records (∅ : gmap string (list Z)).
Proof. intros k bs key Hk. change ((∅ : gmap string (list Z)) !! k = Some bs) in Hk. by rewrite lookup_empty in Hk. Qed.

Lemma saved_ok :
  meshtastic_settings_flush 73 factory_store (mk_saver None (∅ : gmap string (list Z))) = (Ok (), saved_before.2).
Proof.
  assert (saved_before.1 = Ok ()) as E by (by vm_compute).
  change (saved_before = (Ok (), saved_before.2)). rewrite <-E. apply surjective_pairing.
Qed.

Lemma reboot_restores_witness :
  ∃ r w', init hw true (Some (saved saved_before.2)) [] home cold_world = Some (r, w') ∧
    r = Ok () ∧ world_wf (mk_fixed ∅ 0 factory_store []) w' ∧ w_store w' = factory_store ∧
    mt_long_name (w_mt w') = "Base station" ∧ mt_hop_limit (w_mt w') = 3.
Proof.
  destruct (reboot_restores (PbLaws0 := table_pb_laws (st_channels factory_store))
    (PbLaws1 := table_pb_laws (st_configs factory_store))
    (PbLaws2 := table_pb_laws (st_modules factory_store)) 73 hw true [] factory_store
    (mk_saver None ∅) saved_before.2 (mk_fixed ∅ 0 store_bss []) home cold_world) as (r & w' & Hr & Hpost).
  - apply factory_ok.
  - apply factory_bootable.
  - apply nothing_saved.
  - apply saved_ok.
  - done.
  - apply home_ok.
  - apply cold_power_on.
  - assert (∀ o, o = Some (r, w') → o ≫= (λ x, Some x.1) = Some r) as Hrun by (by intros ? ->).
    specialize (Hrun _ Hr). vm_compute in Hrun. injection Hrun as <-.
    destruct Hpost as (Hwf & Hst & Hforce). exists (Ok ()), w'.
    split; [exact Hr|]. split; [reflexivity|]. split; [exact Hwf|]. split; [exact Hst|].
    destruct (if_names _ _ _ Hforce) as [Hname _]. split; [by rewrite Hname|].
    assert (lora_hop_limit <$> stored_lora factory_store = Some 3) as Hl by (by vm_compute).
    apply fmap_Some in Hl as (lora & Hlora & Hhops). pose proof (if_hops _ _ _ Hforce lora Hlora) as Hh.
    rewrite <-Hhops in Hh. rewrite Hh by lia. reflexivity.
Defined.
