(* ===== verification/BleAccess.v ===== *)
(** * Access to the Bluetooth service (src/meshtastic_ble.c)

    The table of the GATT service with its permissions and the callbacks behind
    them, what is advertised, and the callbacks of the security manager.
    Proved: with a fixed passkey, what a client does over a connection that is
    not authenticated leaves no trace in the service or the node. *)

From S2P Require Import Prelude Types External Mock Core Airtime Channels NodeDB Wire Store World StoreApply.
From S2P Require Import Radio Reliable PhoneApi Handshake Invariant Send NodeInfo Router Telemetry Position Reception Node Ble Init.

(** The options of Kconfig.ble these parts read; [CONFIG_BLE_PASSKEY] of
    [BootConfig] is set in a build with [CONFIG_BLE_FIXED_PASSKEY]. *)
Class BleConfig := {
  CONFIG_BT_SMP : bool;
  CONFIG_BT_SMP_APP_PAIRING_ACCEPT : bool;
  CONFIG_BLE_PAIRING : bool;
  CONFIG_BLE_DEVICE_NAME : string
}.
Class BleRanges `{BootConfig} `{BleConfig} := {
  pairing_selects : CONFIG_BLE_PAIRING = true → CONFIG_BT_SMP = true ∧ CONFIG_BT_SMP_APP_PAIRING_ACCEPT = true;
  passkey_depends : is_Some CONFIG_BLE_PASSKEY → CONFIG_BLE_PAIRING = true;
  passkey_range pin : CONFIG_BLE_PASSKEY = Some pin → 0 ≤ pin ≤ 999999
}.

(** Bits of the Bluetooth host's interface. *)
Definition BT_GATT_PERM_READ : Z := 1.
Definition BT_GATT_PERM_WRITE : Z := 2.
Definition BT_GATT_PERM_READ_AUTHEN : Z := 16.
Definition BT_GATT_PERM_WRITE_AUTHEN : Z := 32.
Definition BT_GATT_PERM_READ_MASK : Z := 1 + 4 + 16 + 128.
Definition BT_GATT_PERM_WRITE_MASK : Z := 2 + 8 + 32 + 256.
Definition BT_GATT_CHRC_READ : Z := 2.
Definition BT_GATT_CHRC_WRITE_WITHOUT_RESP : Z := 4.
Definition BT_GATT_CHRC_WRITE : Z := 8.
Definition BT_GATT_CHRC_NOTIFY : Z := 16.
Definition BT_GATT_CHRC_INDICATE : Z := 32.
Definition BT_SECURITY_L3 : Z := 3.

(** What the host does with the table: [bt_gatt_check_perm level perm mask]
    says whether a connection of that security level may do what the mask asks
    for, which takes level 3 where a bit of the permissions asks for
    authentication; and the bytes of a UUID. *)
Class GattHost := {
  bt_gatt_check_perm : Z → Z → Z → bool;
  BT_UUID_128_ENCODE : Z → Z → Z → Z → Z → list Z
}.
Class GattHostLaws `{GattHost} := {
  check_perm_authen level perm mask :
    level < BT_SECURITY_L3 →
    Z.land (Z.land perm mask) (Z.lor BT_GATT_PERM_READ_AUTHEN BT_GATT_PERM_WRITE_AUTHEN) ≠ 0 →
    bt_gatt_check_perm level perm mask = false;
  uuid_length a b c d e : length (BT_UUID_128_ENCODE a b c d e) = 16%nat
}.

(** ** The attribute table *)

(** The functions of the table; [host_read], [host_read_ccc] and
    [host_write_ccc] are the host's own, for declarations and client
    configurations. *)
Inductive ccc_callback := cb_fromnum_ccc_changed | cb_logradio_ccc_changed.
Inductive read_callback := host_read | host_read_ccc | cb_read_fromradio | cb_read_fromnum | cb_read_logradio.
Inductive write_callback := cb_write_toradio | host_write_ccc (changed : ccc_callback).

Inductive gatt_kind := Gatt_primary_service | Gatt_characteristic (props : Z) | Gatt_value | Gatt_ccc.
Record gatt_attr := mk_attr {
  at_kind : gatt_kind; at_uuid : list Z; at_perm : Z;
  at_read : option read_callback; at_write : option write_callback
}.

(** The enumeration [MESHTASTIC_ATTR_*]. *)
Definition MESHTASTIC_ATTR_TORADIO_VALUE : nat := 2.
Definition MESHTASTIC_ATTR_FROMRADIO_VALUE : nat := 4.
Definition MESHTASTIC_ATTR_FROMNUM_VALUE : nat := 6.
Definition MESHTASTIC_ATTR_FROMNUM_CCC : nat := 7.
Definition MESHTASTIC_ATTR_LOGRADIO_VALUE : nat := 9.
Definition MESHTASTIC_ATTR_LOGRADIO_CCC : nat := 10.

Section table.
Context `{BootConfig} `{GattHost}.

Definition CONFIG_BLE_FIXED_PASSKEY : bool := bool_decide (is_Some CONFIG_BLE_PASSKEY).

Definition MT_GATT_PERM_READ : Z :=
  if CONFIG_BLE_FIXED_PASSKEY then Z.lor BT_GATT_PERM_READ BT_GATT_PERM_READ_AUTHEN else BT_GATT_PERM_READ.
Definition MT_GATT_PERM_WRITE : Z :=
  if CONFIG_BLE_FIXED_PASSKEY then Z.lor BT_GATT_PERM_WRITE BT_GATT_PERM_WRITE_AUTHEN else BT_GATT_PERM_WRITE.

Definition meshtastic_service_uuid : list Z :=
  BT_UUID_128_ENCODE 0x6ba1b218 0x15a8 0x461f 0x9fa8 0x5dcae273eafd.
Definition toradio_uuid : list Z := BT_UUID_128_ENCODE 0xf75c76d2 0x129e 0x4dad 0xa1dd 0x7866124401e7.
Definition fromradio_uuid : list Z := BT_UUID_128_ENCODE 0x2c55e69e 0x4993 0x11ed 0xb878 0x0242ac120002.
Definition fromnum_uuid : list Z := BT_UUID_128_ENCODE 0xed9da18c 0xa800 0x4f66 0xa670 0xaa7547e34453.
Definition logradio_uuid : list Z := BT_UUID_128_ENCODE 0x5a3d6e49 0x06e6 0x4423 0x9944 0xe9de8cdf9547.

(** The host's macros: a service is one attribute, a characteristic its
    declaration and its value, a client configuration one attribute. *)
Definition primary_service (uuid : list Z) : list gatt_attr :=
  [mk_attr Gatt_primary_service uuid BT_GATT_PERM_READ (Some host_read) None].
Definition characteristic (uuid : list Z) (props perm : Z) read write : list gatt_attr :=
  [mk_attr (Gatt_characteristic props) uuid BT_GATT_PERM_READ (Some host_read) None;
   mk_attr Gatt_value uuid perm read write].
Definition ccc (changed : ccc_callback) (perm : Z) : list gatt_attr :=
  [mk_attr Gatt_ccc [] perm (Some host_read_ccc) (Some (host_write_ccc changed))].

Definition meshtastic_svc : list gatt_attr :=
  primary_service meshtastic_service_uuid
  ++ characteristic toradio_uuid (Z.lor BT_GATT_CHRC_WRITE BT_GATT_CHRC_WRITE_WITHOUT_RESP)
       MT_GATT_PERM_WRITE None (Some cb_write_toradio)
  ++ characteristic fromradio_uuid BT_GATT_CHRC_READ MT_GATT_PERM_READ (Some cb_read_fromradio) None
  ++ characteristic fromnum_uuid (Z.lor BT_GATT_CHRC_READ BT_GATT_CHRC_NOTIFY)
       MT_GATT_PERM_READ (Some cb_read_fromnum) None
  ++ ccc cb_fromnum_ccc_changed (Z.lor MT_GATT_PERM_READ MT_GATT_PERM_WRITE)
  ++ characteristic logradio_uuid
       (Z.lor (Z.lor BT_GATT_CHRC_READ BT_GATT_CHRC_NOTIFY) BT_GATT_CHRC_INDICATE)
       MT_GATT_PERM_READ (Some cb_read_logradio) None
  ++ ccc cb_logradio_ccc_changed (Z.lor MT_GATT_PERM_READ MT_GATT_PERM_WRITE).

(** ** Advertising *)

Definition BT_DATA_FLAGS : Z := 1.
Definition BT_DATA_UUID128_ALL : Z := 7.
Definition BT_DATA_NAME_COMPLETE : Z := 9.
Definition BT_LE_AD_GENERAL : Z := 2.
Definition BT_LE_AD_NO_BREDR : Z := 4.

Definition advertising_data : list (Z * list Z) :=
  [(BT_DATA_FLAGS, [Z.lor BT_LE_AD_GENERAL BT_LE_AD_NO_BREDR]);
   (BT_DATA_UUID128_ALL, meshtastic_service_uuid)].
Definition scan_response `{BleConfig} : list (Z * list Z) :=
  [(BT_DATA_NAME_COMPLETE, str_bytes CONFIG_BLE_DEVICE_NAME)].

(** An element takes a length and a type byte on the air. *)
Definition adv_size (ad : list (Z * list Z)) : nat :=
  sum_list_with (λ d : Z * list Z, (2 + length d.2)%nat) ad.

(** ** The security manager's callbacks *)

(** [enum bt_security_err], the values the code tells apart. *)
Inductive security_err := SECURITY_SUCCESS | SECURITY_PIN_OR_KEY_MISSING | SECURITY_OTHER (code : Z).

(** What a callback asks of the host; the answers are ignored or logged. *)
Inductive host_request :=
  | Ask_unpair (conn : nat)
  | Ask_exchange_mtu (conn : nat)
  | Ask_confirm_pairing (conn : nat).

Definition security_changed (conn : nat) (err : security_err) : list host_request :=
  match err with
  | SECURITY_SUCCESS => [Ask_exchange_mtu conn]
  | SECURITY_PIN_OR_KEY_MISSING => [Ask_unpair conn]
  | SECURITY_OTHER _ => []
  end.
Definition pairing_confirm (conn : nat) : list host_request := [Ask_confirm_pairing conn].
Definition pairing_accept : security_err := SECURITY_SUCCESS.

(** [auth_callbacks]: a callback that is not set is [None]; [passkey_display]
    and [cancel] only log. *)
Record bt_conn_auth_cb := mk_auth_cb {
  cb_pairing_accept : option security_err;
  cb_passkey_display : bool;
  cb_app_passkey : option Z;
  cb_pairing_confirm : option (nat → list host_request);
  cb_cancel : bool
}.
Definition auth_callbacks `{BleConfig} : bt_conn_auth_cb := {|
  cb_pairing_accept := if CONFIG_BT_SMP_APP_PAIRING_ACCEPT then Some pairing_accept else None;
  cb_passkey_display := CONFIG_BLE_FIXED_PASSKEY;
  cb_app_passkey := CONFIG_BLE_PASSKEY;
  cb_pairing_confirm :=
    if CONFIG_BLE_FIXED_PASSKEY then None else if CONFIG_BLE_PAIRING then Some pairing_confirm else None;
  cb_cancel := true
|}.
(** What [meshtastic_ble_init] registers. *)
Definition registered_callbacks `{BleConfig} : option bt_conn_auth_cb :=
  if CONFIG_BT_SMP && CONFIG_BLE_PAIRING then Some auth_callbacks else None.
End table.

(** ** Clients *)

(** A request of a client by the place of the attribute in the table.  Of a
    client configuration, [reports] is what the host then tells the service,
    if anything. *)
Inductive att_request :=
  | Att_read (handle len offset : nat)
  | Att_write (handle : nat) (buf : list Z) (offset : nat) (flags : Z) (reports : option Z).

Inductive att_answer :=
  | Refused
  | Host_answers
  | Service_reads (piece : option (list Z))
  | Service_takes (len : option nat).

(** What happens to the service: requests over connections of some security
    level, and what no client does; [Link_ccc] is a report the host makes of its
    own accord, as at the end of a connection. *)
Inductive link_event :=
  | Link_att (level : Z) (req : att_request)
  | Link_connected (conn : nat) (err : bool)
  | Link_disconnected (conn : nat)
  | Link_ccc (changed : ccc_callback) (value : Z)
  | Link_fromradio_work
  | Link_to_radio_work
  | Link_node (ev : node_event).

Section clients.
Context {K L T : Type} `{Kconfig} `{PSA K} `{LoraDriver L} `{Kernel T} `{Libc}.
Context `{Pb Data} `{Pb User} `{Pb Routing} `{Pb Position} `{Pb Telemetry} `{Pb StatusMessage}.
Context `{Pb FromRadio} `{Pb ToRadio} `{TelemetryConfig} `{TelemetryDrivers T} `{PositionConfig} `{BtHost}.
Context `{BootConfig} `{GattHost}.
Notation W := (world K L T).
Notation G := (ble * W)%type.
Context (mods : list (module K L T)) (garbage : packet).

Definition run_read (cb : read_callback) (len offset : nat) : M G att_answer :=
  match cb with
  | host_read | host_read_ccc => mret Host_answers
  | cb_read_fromradio => piece ← read_fromradio len offset; mret (Service_reads piece)
  | cb_read_fromnum => piece ← read_fromnum len offset; mret (Service_reads piece)
  | cb_read_logradio => mret (Service_reads (read_logradio len offset))
  end.
Definition run_ccc (cb : ccc_callback) (value : Z) : M G () :=
  match cb with
  | cb_fromnum_ccc_changed => on_ble (fromnum_ccc_changed value)
  | cb_logradio_ccc_changed => on_ble (logradio_ccc_changed value)
  end.
Definition run_write (cb : write_callback) buf offset flags (reports : option Z) : M G att_answer :=
  match cb with
  | cb_write_toradio => len ← on_ble (write_toradio buf offset flags); mret (Service_takes len)
  | host_write_ccc changed =>
      match reports with Some value => run_ccc changed value | None => mret () end ;;
      mret Host_answers
  end.

(** The host looks the attribute up, checks the permission and calls the
    attribute's function. *)
Definition gatt_exec (level : Z) (req : att_request) : M G att_answer :=
  match req with
  | Att_read handle len offset =>
      match meshtastic_svc !! handle with
      | Some a =>
          if bt_gatt_check_perm level (at_perm a) BT_GATT_PERM_READ_MASK then
            match at_read a with Some cb => run_read cb len offset | None => mret Refused end
          else mret Refused
      | None => mret Refused
      end
  | Att_write handle buf offset flags reports =>
      match meshtastic_svc !! handle with
      | Some a =>
          if bt_gatt_check_perm level (at_perm a) BT_GATT_PERM_WRITE_MASK then
            match at_write a with Some cb => run_write cb buf offset flags reports | None => mret Refused end
          else mret Refused
      | None => mret Refused
      end
  end.

Definition link_exec (ev : link_event) : M G () :=
  match ev with
  | Link_att level req => gatt_exec level req ;; mret ()
  | Link_connected conn err => ble_exec mods garbage (Bl_connected conn err)
  | Link_disconnected conn => ble_exec mods garbage (Bl_disconnected conn)
  | Link_ccc changed value => run_ccc changed value
  | Link_fromradio_work => ble_exec mods garbage Bl_fromradio_work
  | Link_to_radio_work => ble_exec mods garbage Bl_to_radio_work
  | Link_node ev => ble_exec mods garbage (Bl_node ev)
  end.
Fixpoint link_run (evs : list link_event) : M G () :=
  match evs with
  | [] => mret ()
  | ev :: evs => link_exec ev ;; link_run evs
  end.

(** Not the doing of a client without authentication. *)
Definition authenticated (ev : link_event) : Prop :=
  match ev with Link_att level _ => BT_SECURITY_L3 ≤ level | _ => True end.
#[export] Instance authenticated_dec ev : Decision (authenticated ev).
Proof. destruct ev; apply _. Defined.
End clients.

(** ** The table *)

Section layout.
Context `{BootConfig} `{GattHost}.

(** The enumeration names the places at which the macros put the attributes,
    so a notification leaves under the value of FromNum. *)
Lemma svc_layout :
  length meshtastic_svc = 11%nat ∧
  (λ h, (at_uuid <$> meshtastic_svc !! h)) <$>
    [MESHTASTIC_ATTR_TORADIO_VALUE; MESHTASTIC_ATTR_FROMRADIO_VALUE; MESHTASTIC_ATTR_FROMNUM_VALUE;
     MESHTASTIC_ATTR_LOGRADIO_VALUE]
    = [Some toradio_uuid; Some fromradio_uuid; Some fromnum_uuid; Some logradio_uuid] ∧
  (λ h, (meshtastic_svc !! h ≫= at_write)) <$> [MESHTASTIC_ATTR_FROMNUM_CCC; MESHTASTIC_ATTR_LOGRADIO_CCC]
    = [Some (host_write_ccc cb_fromnum_ccc_changed); Some (host_write_ccc cb_logradio_ccc_changed)].
Proof. done. Qed.

(** What the bits of a permission ask of a connection. *)
Definition asks_authen (perm mask : Z) : Prop :=
  Z.land (Z.land perm mask) (Z.lor BT_GATT_PERM_READ_AUTHEN BT_GATT_PERM_WRITE_AUTHEN) ≠ 0.

(** With a fixed passkey every function of the service is behind one. *)
Lemma guarded h a :
  is_Some CONFIG_BLE_PASSKEY → meshtastic_svc !! h = Some a →
  (∀ cb, at_read a = Some cb → cb = host_read ∨ asks_authen (at_perm a) BT_GATT_PERM_READ_MASK) ∧
  (∀ cb, at_write a = Some cb → asks_authen (at_perm a) BT_GATT_PERM_WRITE_MASK).
Proof.
  intros Hpin. unfold meshtastic_svc, MT_GATT_PERM_READ, MT_GATT_PERM_WRITE, CONFIG_BLE_FIXED_PASSKEY.
  rewrite bool_decide_eq_true_2 by done. intros Ha.
  do 11 (destruct h as [|h]; [injection Ha as <-; split; intros cb [= <-]; (by left) || (by right) || done|]). done.
Qed.

(** The seeded configuration tells the phone the passkey the security manager
    asks for. *)
Lemma seeded_pin `{Kconfig} `{MqttConfig} `{BleConfig} {K L T} cfg (w : world K L T) :
  ∃ b, st_configs (meshtastic_config_store_seed (Some (seed_of cfg w)) store_bss).2 !! 6%nat = Some (CFG_bluetooth b) ∧
    cb_app_passkey auth_callbacks = (if bt_mode b =? PairingMode_FIXED_PIN then Some (bt_fixed_pin b) else None).
Proof.
  eexists. split; [done|]. cbn. by destruct CONFIG_BLE_PASSKEY.
Qed.

(** A build with pairing registers the callbacks; it confirms by itself only
    without a passkey. *)
Lemma registered `{BleConfig} `{!BleRanges} :
  CONFIG_BLE_PAIRING = true →
  registered_callbacks = Some auth_callbacks ∧ is_Some (cb_pairing_accept auth_callbacks) ∧
  (cb_pairing_confirm auth_callbacks = None ↔ is_Some (cb_app_passkey auth_callbacks)).
Proof.
  intros Hp. destruct (pairing_selects Hp) as [Hs Ha]. unfold registered_callbacks, auth_callbacks. cbn.
  rewrite Hs, Hp, Ha. unfold CONFIG_BLE_FIXED_PASSKEY. split_and!; [done..|].
  case_bool_decide; naive_solver.
Qed.

(** The advertised data always fits in the 31 bytes of a packet; the name does
    when it has at most 29 characters, which Kconfig does not check. *)
Lemma advertising_fits `{!GattHostLaws} `{BleConfig} :
  adv_size advertising_data = 21%nat ∧
  ((adv_size scan_response ≤ 31)%nat ↔ (String.length CONFIG_BLE_DEVICE_NAME ≤ 29)%nat).
Proof.
  unfold adv_size, advertising_data, scan_response, meshtastic_service_uuid.
  cbn [sum_list_with snd length]. rewrite uuid_length, length_str_bytes. split; [done|lia].
Qed.
End layout.

(** ** Clients without authentication *)

Section silent.
Context {K L T : Type} `{KconfigRanges} `{PSALaws K} `{LoraLaws L} `{KernelLaws T} `{Libc}.
Context `{Pb Data} `{!PbLaws Data Data_ok} `{Pb User} `{Pb Routing} `{Pb Position} `{Pb Telemetry}.
Context `{Pb StatusMessage} `{Pb FromRadio} `{Pb ToRadio}.
Context `{TelemetryConfig} `{TelemetryDrivers T} `{PositionConfig} `{BtHost} `{BootConfig} `{GattHostLaws}.
Context (fx : fixed) (mods : list (module K L T)) (garbage : packet).
Context (Hmods : Forall (module_safe fx) mods).
Notation W := (world K L T).
Notation G := (ble * W)%type.

Lemma gatt_silent level req (s : G) :
  is_Some CONFIG_BLE_PASSKEY → level < BT_SECURITY_L3 →
  gatt_exec level req s = Some (Refused, s) ∨ gatt_exec level req s = Some (Host_answers, s).
Proof.
  intros Hpin Hlevel. destruct req as [h len offset|h buf offset flags reports]; cbn [gatt_exec];
    (destruct (meshtastic_svc !! h) as [a|] eqn:Ha; [|by left]); destruct (guarded h a Hpin Ha) as [Hr Hw].
  - destruct (at_read a) as [cb|]; [|by case_if; left].
    destruct (Hr _ eq_refl) as [->|Hask]; [case_if; auto|].
    rewrite check_perm_authen by done. by left.
  - destruct (at_write a) as [cb|]; [|by case_if; left].
    rewrite check_perm_authen by (done || by eapply Hw). by left.
Qed.

Lemma keeps_gatt level req : keeps (service_wf fx) (gatt_exec level req : M G att_answer).
Proof.
  destruct req as [h len offset|h buf offset flags reports]; cbn [gatt_exec];
    (destruct (meshtastic_svc !! h) as [a|]; [|apply keeps_ret]); (apply keeps_if; [|apply keeps_ret]).
  - destruct (at_read a) as [[]|]; cbn [run_read]; try apply keeps_ret.
    + apply keeps_bind; [apply keeps_read_fromradio|]. intros. apply keeps_ret.
    + apply keeps_bind; [|intros; apply keeps_ret].
      apply keeps_bind; [apply keeps_api, keeps_gets|]. intros. apply keeps_ret.
  - destruct (at_write a) as [[|[]]|]; cbn [run_write]; try apply keeps_ret.
    + apply keeps_bind; [apply keeps_on_ble, keeps_write|]. intros. apply keeps_ret.
    + apply keeps_bind; [|intros; apply keeps_ret]. destruct reports; [by apply keeps_field|apply keeps_ret].
    + apply keeps_bind; [|intros; apply keeps_ret]. destruct reports; [by apply keeps_field|apply keeps_ret].
Qed.

Definition link_event_ok (ev : link_event) : Prop :=
  match ev with Link_node ev => event_ok ev | _ => True end.

Lemma keeps_link_event ev : link_event_ok ev → keeps (service_wf fx) (link_exec mods garbage ev).
Proof.
  intros Hok. destruct ev as [| | |changed value| | |]; cbn [link_exec].
  1: by apply keeps_bind; [apply keeps_gatt|intros; apply keeps_ret].
  3: by destruct changed; apply keeps_field.
  all: by apply keeps_ble_event.
Qed.

(** C20: in a build with a fixed passkey a client that is not authenticated has
    no effect: under any history of connections, requests of any clients at any
    security levels, work items and events of the node, everything runs to its
    end, and the service and the node end up exactly as they would without the
    requests of the connections below level 3, with their invariants. *)
Theorem unpaired_silent evs s :
  is_Some CONFIG_BLE_PASSKEY → Forall link_event_ok evs → service_wf fx s →
  ∃ s', link_run mods garbage evs s = Some ((), s') ∧
    link_run mods garbage (filter authenticated evs) s = Some ((), s') ∧ service_wf fx s'.
Proof.
  intros Hpin Hevs. revert s. induction Hevs as [|ev evs Hok _ IH]; intros s Hs; [by exists s|].
  destruct (proj1 (wp_run _ _ _) (keeps_link_event ev Hok s Hs)) as ([] & s1 & Hr & Hs1).
  destruct (IH s1 Hs1) as (s' & Hrun & Hfilter & Hs'). exists s'. cbn [link_run].
  split_and!; [by rewrite (bind_run _ _ _ _ _ Hr)| |done].
  rewrite filter_cons. case_decide as Ha; [cbn [link_run]; by rewrite (bind_run _ _ _ _ _ Hr)|].
  enough (s1 = s) as -> by done. destruct ev as [level req| | | | | |]; try (by destruct Ha).
  cbn [authenticated] in Ha. cbn [link_exec] in Hr.
  destruct (gatt_silent level req s Hpin ltac:(lia)) as [Hg|Hg];
    rewrite (bind_run _ _ _ _ _ Hg) in Hr; by injection Hr.
Qed.
End silent.

(** ** The mock node with a passkey *)

#[local] Existing Instances default_kconfig default_kconfig_ranges.
#[local] Existing Instances byte_position byte_telemetry bare_board no_drivers default_position_config.
#[local] Existing Instances no_User no_Status plain_FromRadio asking_ToRadio plain_host.
#[local] Instance passkey_config : BootConfig := {|
  CONFIG_NODE_ID_CUSTOM := false; CONFIG_SERIAL := false; CONFIG_GNSS := false;
  CONFIG_BLE_PASSKEY := Some 123456 |}.
#[local] Instance checking_host : GattHost := {|
  bt_gatt_check_perm level perm mask :=
    let asked := Z.land perm mask in
    if asked =? 0 then false
    else if Z.land asked (Z.lor BT_GATT_PERM_READ_AUTHEN BT_GATT_PERM_WRITE_AUTHEN) =? 0 then true
    else BT_SECURITY_L3 <=? level;
  BT_UUID_128_ENCODE a b c d e := replicate 16 0 |}.
#[local] Instance checking_host_laws : GattHostLaws.
Proof.
  split; [|done]. intros level perm mask Hl Ha. cbn.
  case_if; [done|]. rewrite (proj2 (Z.eqb_neq _ _) Ha). by apply Z.leb_gt.
Qed.

(** A phone with the passkey asks for the configuration and reads a frame; a
    second client without it subscribes, writes, and tries to read the frame
    away under it. *)
Definition two_clients : list link_event :=
  [Link_connected 7 false; Link_connected 8 false;
   Link_att 4 (Att_write MESHTASTIC_ATTR_FROMNUM_CCC [1; 0] 0 0 (Some 1));
   Link_att 1 (Att_write MESHTASTIC_ATTR_FROMNUM_CCC [0; 0] 0 0 (Some 0));
   Link_att 1 (Att_read 0 20 0);
   Link_att 4 (Att_write MESHTASTIC_ATTR_TORADIO_VALUE [1; 2] 0 0 None);
   Link_att 2 (Att_write MESHTASTIC_ATTR_TORADIO_VALUE [9; 9; 9] 0 0 None);
   Link_to_radio_work; Link_fromradio_work;
   Link_att 1 (Att_read MESHTASTIC_ATTR_FROMRADIO_VALUE 100 0);
   Link_node (Ev_air heard_frame (-80) 6); Link_node Ev_rx_thread; Link_fromradio_work;
   Link_att 4 (Att_read MESHTASTIC_ATTR_FROMRADIO_VALUE 100 0)].

Lemma unpaired_silent_witness :
  (∃ s', link_run full_modules packet_zero two_clients idle_service = Some ((), s') ∧
     link_run full_modules packet_zero (filter authenticated two_clients) idle_service = Some ((), s') ∧
     service_wf (mk_fixed ∅ 1 store_bss []) s') ∧
  length (filter authenticated two_clients) = 10%nat ∧
  (λ r, (bl_notified r.2.1, bl_buf r.2.1)) <$> link_run full_modules packet_zero two_clients idle_service
    = Some ([(7%nat, 1)], [1; 42]).
Proof.
  split_and!.
  - apply unpaired_silent; [apply full_modules_safe|by eexists|by repeat constructor|].
    split; [constructor; cbn; done || lia|apply hearing_world_wf].
  - by vm_compute.
  - vm_compute. reflexivity.
Defined.
