(* ===== verification/Mqtt.v ===== *)
(** * The gateway (src/meshtastic_mqtt.c)

    Packets heard or sent on the air are wrapped in a ServiceEnvelope and
    queued for a broker; envelopes from the broker are unwrapped and injected
    into the mesh.  Here: what is uploaded and under which topic, the publish
    queue and what is accepted from the broker.  The upload hooks run on what
    their callers have noted of the node ([uplink_call]).  What a heard frame
    uploads is in Uplink.v, the map report in MapReport.v, the connection and
    the thread in MqttSession.v and MqttLive.v. *)

From S2P Require Import Prelude Types External Mock Core Airtime Channels NodeDB Wire Store World.
From S2P Require Import Radio Reliable PhoneApi Invariant Send NodeInfo Router Reception.

Definition MQTT_DEFAULT_BROKER : string := "mqtt.meshtastic.org".
Definition CRYPT_TOPIC_SUFFIX : string := "/2/e/".
Definition MAP_TOPIC_SUFFIX : string := "/2/map/".
(** Array sizes: [topic], [map_topic], [encrypted.bytes] of mesh.options. *)
Definition MQTT_TOPIC_SIZE : nat := 128.
Definition MQTT_MAP_TOPIC_SIZE : nat := 80.
Definition ENCRYPTED_BYTES_SIZE : nat := 256.
Definition PortNum_DETECTION_SENSOR_APP : Z := 10.
Definition PortNum_RANGE_TEST_APP : Z := 66.

(** [meshtastic_ServiceEnvelope]; a field is a pointer that may be NULL. *)
Record ServiceEnvelope := mk_envelope {
  env_packet : option MeshPacket; env_channel_id : option string; env_gateway_id : option string
}.

#[export] Instance ServiceEnvelope_eq_dec : EqDecision ServiceEnvelope.
Proof. solve_decision. Defined.

(** [mqtt_publish] of the MQTT client library: the return code, whether the
    client raised [MQTT_EVT_DISCONNECT] during the call, as it does when the
    connection breaks, and the client after it.  Its law is that a message is
    handed over exactly when the call succeeds. *)
Class MqttClient (C : Type) := { mqtt_publish : string → list Z → C → (result () * bool) * C }.
Class MqttClientLaws (C : Type) `{MqttClient C} := {
  published : C → list (string * list Z);
  publish_spec t p c : published (mqtt_publish t p c).2 =
    published c ++ (if is_err (mqtt_publish t p c).1.1 then [] else [(t, p)])
}.

(** [struct mqtt_pub_entry]: the topic and [len] bytes of payload. *)
Record pub_entry := mk_pub { pub_topic : string; pub_payload : list Z }.

(** [mqtt_ctx], without the client's buffers, and the statics next to it: [mqtt_net_has_ipv4], [mqtt_work_sem], whose
    limit is one unit, and whether [mqtt_nfds] is 1. *)
Record mqtt (C : Type) := mk_mqtt {
  mq_client : C; mq_client_id : string; mq_broker : list Z; mq_sub_topic : string;
  mq_crypt_prefix : string; mq_map_topic : string;
  mq_last_map_report_ms : Z; mq_last_map_no_position_ms : Z;
  mq_queue : list pub_entry; mq_head : nat; mq_tail : nat; mq_count : nat;
  mq_connected : bool; mq_thread_running : bool; mq_started : bool; mq_disconnect_pending : bool;
  mq_net_has_ipv4 : bool; mq_work_sem : bool; mq_polled : bool
}.
Arguments mk_mqtt {C} _ _ _ _ _ _ _ _ _ _ _ _ _ _ _ _ _ _ _.
Arguments mq_client {C} _.
Arguments mq_client_id {C} _.
Arguments mq_broker {C} _.
Arguments mq_sub_topic {C} _.
Arguments mq_crypt_prefix {C} _.
Arguments mq_map_topic {C} _.
Arguments mq_last_map_report_ms {C} _.
Arguments mq_last_map_no_position_ms {C} _.
Arguments mq_queue {C} _.
Arguments mq_head {C} _.
Arguments mq_tail {C} _.
Arguments mq_count {C} _.
Arguments mq_connected {C} _.
Arguments mq_thread_running {C} _.
Arguments mq_started {C} _.
Arguments mq_disconnect_pending {C} _.
Arguments mq_net_has_ipv4 {C} _.
Arguments mq_work_sem {C} _.
Arguments mq_polled {C} _.
#[export] Instance mqtt_set {C} : Settable (mqtt C) := λ x,
  mk_mqtt (mq_client x) (mq_client_id x) (mq_broker x) (mq_sub_topic x) (mq_crypt_prefix x)
    (mq_map_topic x) (mq_last_map_report_ms x) (mq_last_map_no_position_ms x)
    (mq_queue x) (mq_head x) (mq_tail x) (mq_count x) (mq_connected x) (mq_thread_running x)
    (mq_started x) (mq_disconnect_pending x) (mq_net_has_ipv4 x) (mq_work_sem x) (mq_polled x).

(** [snprintk] into an array of [n] bytes: the length it reports and what the
    array holds. *)
Definition snprintk (n : nat) (s : string) : nat * string := (String.length s, strncpy (n - 1) s).

(** ** Topics and filters *)

Definition mqtt_is_default_broker `{MqttConfig} : bool :=
  bool_decide (CONFIG_MQTT_BROKER_HOST = MQTT_DEFAULT_BROKER).

Definition mqtt_should_skip_portnum `{MqttConfig} (portnum : Z) (from_us : bool) : bool :=
  if from_us || negb mqtt_is_default_broker then false
  else (portnum =? PortNum_RANGE_TEST_APP) || (portnum =? PortNum_DETECTION_SENSOR_APP).

(** [meshtastic_runtime_channel_name] is the primary slot's name. *)
Definition runtime_channel_name (ch : channels) : string :=
  name_of ch (meshtastic_channels_primary_name ch).

Definition mqtt_build_publish_topic {C} (node_id : Z) (ch : channels) (q : mqtt C)
    : nat * string :=
  snprintk MQTT_TOPIC_SIZE
    (String.append (mq_crypt_prefix q) (String.append CRYPT_TOPIC_SUFFIX
       (String.append (runtime_channel_name ch)
          (String.append "/" (node_id_string node_id))))).

Definition mqtt_build_map_topic {C} (q : mqtt C) : nat * string :=
  snprintk MQTT_MAP_TOPIC_SIZE (String.append (mq_crypt_prefix q) MAP_TOPIC_SUFFIX).

Definition mqtt_build_subscribe_topic {C} (ch : channels) (q : mqtt C) : nat * string :=
  snprintk MQTT_TOPIC_SIZE
    (String.append (mq_crypt_prefix q) (String.append CRYPT_TOPIC_SUFFIX
       (String.append (runtime_channel_name ch) "/+"))).

Definition mqtt_mesh_from_wire (wire : list Z) : result MeshPacket :=
  if (length wire <? MESHTASTIC_HDR_LEN)%nat then Err EINVAL
  else
    let hdr := header_of wire in
    let encrypted := drop MESHTASTIC_HDR_LEN wire in
    if (ENCRYPTED_BYTES_SIZE <? length encrypted)%nat then Err ENOMEM
    else Ok (MeshPacket_zero
      <| m_from := h_src hdr |> <| m_to := h_dest hdr |> <| m_id := h_id hdr |>
      <| m_hop_limit := Z.land (h_flags hdr) 7 |>
      <| m_hop_start := Z.land (Z.shiftr (h_flags hdr) 5) 7 |>
      <| m_want_ack := negb (Z.land (h_flags hdr) 8 =? 0) |>
      <| m_via_mqtt := negb (Z.land (h_flags hdr) 16 =? 0) |>
      <| m_channel := h_channel hdr |> <| m_next_hop := h_next_hop hdr |>
      <| m_relay_node := h_relay_node hdr |> <| m_transport := Transport_LORA |>
      <| m_variant := PV_encrypted encrypted |>).

(** ** The publish queue *)

Section queue.
Context {C : Type} `{MqttConfig} `{MqttClient C}.
Notation Q := (mqtt C).

Definition pub_index (i : nat) : nat := (i `mod` CONFIG_MQTT_PUBLISH_QUEUE_SIZE)%nat.

(** [mqtt_ctx.queue[i]] *)
Definition pub_slot (i : nat) : M Q pub_entry := λ q,
  match mq_queue q !! i with Some entry => Some (entry, q) | None => None end.
Definition pub_write (f : pub_entry → pub_entry) : M Q () :=
  q ← gets id;
  entry ← pub_slot (mq_tail q);
  modify (set mq_queue <[mq_tail q := f entry]>).

(** The oldest entry makes room in a full queue. *)
Definition pub_make_room : M Q () :=
  modify (λ q : Q, if (CONFIG_MQTT_PUBLISH_QUEUE_SIZE <=? mq_count q)%nat
    then q <| mq_head := pub_index (mq_head q + 1) |> <| mq_count ::= pred |>
    else q).

(** The entry at the tail becomes part of the queue. *)
Definition pub_commit : M Q () :=
  modify (λ q : Q, q <| mq_tail := pub_index (mq_tail q + 1) |> <| mq_count ::= S |>).

Definition mqtt_work_notify : M Q () := modify (set mq_work_sem (λ _, true)).

Definition set_topic (topic : string) (entry : pub_entry) : pub_entry :=
  mk_pub (strncpy (MQTT_TOPIC_SIZE - 1) topic) (pub_payload entry).
Definition set_payload (payload : list Z) (entry : pub_entry) : pub_entry :=
  mk_pub (pub_topic entry) payload.

Definition mqtt_queue_publish (topic : string) (payload : list Z) : M Q () :=
  if (CONFIG_MQTT_TX_BUFFER_SIZE <? length payload)%nat then mret ()
  else
    pub_make_room ;;
    pub_write (λ entry, set_payload payload (set_topic topic entry)) ;;
    pub_commit ;;
    mqtt_work_notify.

(** The handler of [MQTT_EVT_DISCONNECT], and [mqtt_clear_fds] in it. *)
Definition mqtt_clear_fds : M Q () := modify (set mq_polled (λ _, false)).
Definition on_disconnect : M Q () := modify (set mq_connected (λ _, false)) ;; mqtt_clear_fds.

(** A call of the client during which it may raise [MQTT_EVT_DISCONNECT]. *)
Definition client_call {A} (f : C → (A * bool) * C) : M Q A :=
  r ← zoom mq_client (state f);
  (if r.2 : bool then on_disconnect else mret ()) ;;
  mret r.1.

(** The message identifier, which a QoS 0 message does not carry, is left
    out. *)
Definition mqtt_do_publish (topic : string) (payload : list Z) : M Q (result ()) :=
  connected ← gets mq_connected;
  if negb connected then mret (Err ENOTCONN)
  else client_call (mqtt_publish topic payload).
End queue.

(** ** The queue's consumer *)

Section gateway.
Context {C K L T : Type} `{Kconfig} `{PSA K} `{LoraDriver L} `{Kernel T} `{Libc}.
Context `{Pb Data} `{Pb FromRadio} `{Pb Routing} `{Pb ServiceEnvelope}.
Context `{MqttConfig} `{MqttClient C}.
Notation W := (world K L T).
Notation G := (mqtt C * W)%type.

(** Run on one of the two halves of the state. *)
Definition on_mqtt {A} (m : M (mqtt C) A) : M G A := λ s,
  match m s.1 with Some (a, q) => Some (a, (q, s.2)) | None => None end.
Definition on_node {A} (m : M W A) : M G A := λ s,
  match m s.2 with Some (a, w) => Some (a, (s.1, w)) | None => None end.

(** The result of each publication is ignored. *)
Fixpoint mqtt_drain_queue (max_publish : nat) : M G () :=
  match max_publish with
  | O => mret ()
  | S max_publish =>
      q ← gets (S:=G) fst;
      if negb (mq_connected q) || (mq_count q =? 0)%nat then mret ()
      else
        entry ← on_mqtt (pub_slot (mq_head q));
        on_mqtt (modify (λ q, q <| mq_head := pub_index (mq_head q + 1) |>
                                <| mq_count ::= pred |>)) ;;
        on_mqtt (mqtt_do_publish (pub_topic entry) (pub_payload entry)) ;;
        on_node (sleep 20) ;;
        mqtt_drain_queue max_publish
  end.

(** ** Upload *)

Definition mqtt_encode_envelope (mesh : MeshPacket) (channel_id gateway_id : string)
    (out_len : nat) : result (list Z) :=
  match pb_encode out_len (mk_envelope (Some mesh) (Some channel_id) (Some gateway_id)) with
  | None => Err ENOMEM
  | Some env => Ok env
  end.

(** The message of a packet to upload. *)
Definition uplink_mesh (p : packet) (wire : list Z) : result MeshPacket :=
  if CONFIG_MQTT_ENCRYPTION_ENABLED then mqtt_mesh_from_wire wire
  else meshtastic_packet_to_mesh_pb (Some p).

(** The tests before the queue is touched. *)
Definition uplink_allowed (ch : channels) (node_id : Z) (p : packet) : bool :=
  let ch_index := if negb (p_channel_index p =? MESHTASTIC_CHANNEL_INDEX_INVALID)
                  then p_channel_index p else meshtastic_channels_primary_index ch in
  meshtastic_channels_uplink_enabled ch ch_index
  && negb (p_via_mqtt p)
  && negb (mqtt_should_skip_portnum (p_portnum p) (p_from p =? node_id)).

(** The part under the lock.  A message that does not fit leaves the free
    entry's payload unspecified; it is kept here. *)
Definition uplink_enqueue (topic : string) (mesh : MeshPacket) (channel_id gateway_id : string)
    : M (mqtt C) () :=
  pub_make_room ;;
  pub_write (set_topic topic) ;;
  match mqtt_encode_envelope mesh channel_id gateway_id CONFIG_MQTT_TX_BUFFER_SIZE with
  | Err _ => mret ()
  | Ok env => pub_write (set_payload env) ;; pub_commit ;; mqtt_work_notify
  end.

Definition mqtt_queue_uplink (node : node_view) (packet : option packet)
    (wire : option (list Z)) : M (mqtt C) () :=
  match packet, wire with
  | Some p, Some wire =>
      let ch := nv_channels node in
      let node_id := nv_node_id node in
      if (length wire =? 0)%nat then mret ()
      else if negb (uplink_allowed ch node_id p) then mret ()
      else
        q ← gets (S:=mqtt C) id;
        let '(ret, topic) := mqtt_build_publish_topic node_id ch q in
        if (MQTT_TOPIC_SIZE <=? ret)%nat then mret ()
        else
          match uplink_mesh p wire with
          | Err _ => mret ()
          | Ok mesh => uplink_enqueue topic mesh (runtime_channel_name ch) (node_id_string node_id)
          end
  | _, _ => mret ()
  end.

(** Packets of this node are uploaded when sent, others when heard. *)
Definition meshtastic_mqtt_on_tx (node : node_view) (packet : option packet)
    (wire : option (list Z)) : M (mqtt C) () :=
  if negb CONFIG_MQTT_UPLINK_ENABLED then mret ()
  else
    match packet with
    | Some p =>
        if negb (p_from p =? nv_node_id node) then mret () else mqtt_queue_uplink node packet wire
    | None => mqtt_queue_uplink node packet wire
    end.
Definition meshtastic_mqtt_on_rx (node : node_view) (packet : option packet)
    (wire : option (list Z)) : M (mqtt C) () :=
  if negb CONFIG_MQTT_UPLINK_ENABLED then mret ()
  else
    match packet with
    | Some p =>
        if p_from p =? nv_node_id node then mret () else mqtt_queue_uplink node packet wire
    | None => mqtt_queue_uplink node packet wire
    end.

(** The calls the node makes while it runs, served in their order.  Nothing
    else of the node looks at the gateway, and a hook reads no more of the
    node than its call has noted, so that the end of the operation is as good
    as the place of the call. *)
Definition serve_uplink (call : uplink_call) : M (mqtt C) () :=
  (if up_sent call then meshtastic_mqtt_on_tx else meshtastic_mqtt_on_rx)
    (up_node call) (Some (up_packet call)) (up_wire call).
Definition with_hooks {A} (m : M W A) : M G A :=
  before ← gets (S:=G) (λ s, length (w_uplinks s.2));
  a ← on_node m;
  calls ← gets (S:=G) (λ s, drop before (w_uplinks s.2));
  on_mqtt (mapM_ serve_uplink calls) ;;
  mret a.

(** ** Download *)

Context (mods : list (module K L T)).

(** What of an envelope is injected, if anything. *)
Definition downlink_mesh (ch : channels) (node_id : Z) (env : ServiceEnvelope)
    : option MeshPacket :=
  match env_channel_id env, env_gateway_id env, env_packet env with
  | Some channel_id, Some gateway_id, Some mesh =>
      if negb (meshtastic_channels_matches_mqtt_name ch (Some channel_id)) then None
      else if negb (meshtastic_channels_downlink_enabled ch (meshtastic_channels_primary_index ch))
      then None
      else if bool_decide (gateway_id = node_id_string node_id) then None
      else if m_from mesh =? node_id then None
      else if CONFIG_MQTT_ENCRYPTION_ENABLED && is_decoded mesh then None
      else
        let inject := meshtastic_mesh_packet_copy mesh <| m_via_mqtt := true |>
                        <| m_transport := Transport_MQTT |> in
        Some (if is_decoded inject
              then inject <| m_channel := meshtastic_channels_primary_index ch |> else inject)
  | _, _, _ => None
  end.

Definition mqtt_handle_publish (payload : list Z) : M W () :=
  if negb CONFIG_MQTT_DOWNLINK_ENABLED then mret ()
  else
    match pb_decode payload with
    | None => mret ()
    | Some env =>
        w ← gets (S:=W) id;
        match downlink_mesh (w_channels w) (mt_node_id (w_mt w)) env with
        | None => mret ()
        | Some inject => meshtastic_inject_downlink_mesh_packet mods (Some inject) ;; mret ()
        end
    end.
End gateway.

(** ** The queue as a bounded list *)

Section queue_correct.
Context {C : Type} `{MqttRanges} `{MqttClientLaws C}.
Notation Q := (mqtt C).

Record pub_repr (q : Q) (l : list pub_entry) : Prop := {
  pr_size : length (mq_queue q) = CONFIG_MQTT_PUBLISH_QUEUE_SIZE;
  pr_head : (mq_head q < CONFIG_MQTT_PUBLISH_QUEUE_SIZE)%nat;
  pr_count : mq_count q = length l;
  pr_bound : (length l ≤ CONFIG_MQTT_PUBLISH_QUEUE_SIZE)%nat;
  pr_tail : mq_tail q = pub_index (mq_head q + length l);
  pr_slots : ring_at (mq_queue q) (mq_head q) CONFIG_MQTT_PUBLISH_QUEUE_SIZE l
}.

(** The statics at the start of the program. *)
Definition mqtt_bss (c : C) : Q :=
  mk_mqtt c "" [] "" "" "" 0 0 (replicate CONFIG_MQTT_PUBLISH_QUEUE_SIZE (mk_pub "" [])) 0 0 0
    false false false false false false false.

Lemma bss_repr c : pub_repr (mqtt_bss c) [].
Proof.
  pose proof publish_queue_range. constructor; cbn.
  - apply length_replicate.
  - lia.
  - done.
  - lia.
  - unfold pub_index. rewrite Nat.mod_small; lia.
  - by intros k x Hk.
Qed.

(** Everything but the queue. *)
Definition pub_rest (q q' : Q) : Prop :=
  mq_client q' = mq_client q ∧ mq_crypt_prefix q' = mq_crypt_prefix q ∧
  mq_connected q' = mq_connected q.

Lemma pub_index_lt i : (pub_index i < CONFIG_MQTT_PUBLISH_QUEUE_SIZE)%nat.
Proof. apply Nat.mod_upper_bound. pose proof publish_queue_range. lia. Qed.

(** The messages after the oldest made room. *)
Definition with_room (l : list pub_entry) : list pub_entry :=
  if (CONFIG_MQTT_PUBLISH_QUEUE_SIZE <=? length l)%nat then tail l else l.

Lemma pub_repr_tail q e l :
  pub_repr q (e :: l) →
  pub_repr (q <| mq_head := pub_index (mq_head q + 1) |> <| mq_count ::= pred |>) l.
Proof.
  intros [Hs Hh Hc Hb Ht Hsl]. apply ring_at_tail in Hsl. cbn in *.
  constructor; cbn; try done.
  - apply pub_index_lt.
  - by rewrite Hc.
  - lia.
  - rewrite Ht. unfold pub_index. rewrite Nat.Div0.add_mod_idemp_l. f_equal. lia.
Qed.

Lemma pub_make_room_wp q l :
  pub_repr q l → wp pub_make_room (λ _ q', pub_rest q q' ∧ mq_work_sem q' = mq_work_sem q ∧
    pub_repr q' (with_room l) ∧ (length (with_room l) < CONFIG_MQTT_PUBLISH_QUEUE_SIZE)%nat) q.
Proof.
  intros Hr. pose proof (pr_count _ _ Hr) as Hc. pose proof publish_queue_range.
  pose proof (pr_bound _ _ Hr). unfold pub_make_room, with_room. wps. rewrite Hc.
  destruct (Nat.leb_spec CONFIG_MQTT_PUBLISH_QUEUE_SIZE (length l)); [|by split_and!].
  destruct l as [|e l]; [cbn in *; lia|]. split_and!; [done|done|by eapply pub_repr_tail|].
  cbn in *. lia.
Qed.

(** Writing the free entry at the tail. *)
Lemma pub_write_wp f q l :
  pub_repr q l → (length l < CONFIG_MQTT_PUBLISH_QUEUE_SIZE)%nat →
  wp (pub_write f) (λ _ q', pub_rest q q' ∧ mq_work_sem q' = mq_work_sem q ∧ pub_repr q' l ∧
    ∃ e, mq_queue q !! mq_tail q = Some e ∧ mq_head q' = mq_head q ∧ mq_tail q' = mq_tail q ∧
      mq_queue q' !! mq_tail q' = Some (f e)) q.
Proof.
  intros [Hs Hh Hc Hb Ht Hsl] Hroom. unfold pub_write, pub_slot. wps. cbn [id].
  destruct (lookup_lt_is_Some_2 (mq_queue q) (mq_tail q)) as [e He].
  { rewrite Hs, Ht. apply pub_index_lt. }
  unfold wp at 1. rewrite He. wps. split_and!; [done|done|..].
  - constructor; cbn; try done; [by rewrite length_insert|].
    intros k x Hk. apply lookup_lt_Some in Hk as Hlt. rewrite list_lookup_insert_ne; [by apply Hsl|].
    rewrite Ht. unfold pub_index. wraps; lia.
  - exists e. split_and!; [done..|]. cbn. apply list_lookup_insert_eq.
    rewrite Hs, Ht. apply pub_index_lt.
Qed.

Lemma pub_commit_wp q l e :
  pub_repr q l → (length l < CONFIG_MQTT_PUBLISH_QUEUE_SIZE)%nat →
  mq_queue q !! mq_tail q = Some e →
  wp pub_commit (λ _ q', pub_rest q q' ∧ mq_work_sem q' = mq_work_sem q ∧ pub_repr q' (l ++ [e])) q.
Proof.
  intros [Hs Hh Hc Hb Ht Hsl] Hroom He. unfold pub_commit. wps. split_and!; [done..|].
  constructor; cbn; rewrite ?length_app; cbn; try done; try lia.
  - rewrite Ht. unfold pub_index. rewrite Nat.Div0.add_mod_idemp_l. f_equal. lia.
  - rewrite <-(list_insert_id (mq_queue q) (mq_tail q) e) by done. rewrite Ht.
    by apply ring_at_snoc.
Qed.

(** The messages of [es] that the client took, [oks] saying which. *)
Definition taken (es : list pub_entry) (oks : list bool) : list (string * list Z) :=
  concat (zip_with (λ e (ok : bool), if ok then [(pub_topic e, pub_payload e)] else []) es oks).

Lemma pub_slot_wp i e (Q0 : pub_entry → Q → Prop) q :
  mq_queue q !! i = Some e → Q0 e q → wp (pub_slot i) Q0 q.
Proof. intros He HQ. unfold pub_slot, wp. by rewrite He. Qed.

Lemma do_publish_wp t p l q :
  pub_repr q l →
  wp (mqtt_do_publish t p) (λ r q', pub_repr q' l ∧
    published (mq_client q') = published (mq_client q) ++ (if is_err r then [] else [(t, p)]) ∧
    mq_crypt_prefix q' = mq_crypt_prefix q ∧ (mq_connected q = false → r = Err ENOTCONN ∧ q' = q)) q.
Proof.
  intros Hr. unfold mqtt_do_publish, client_call, on_disconnect, mqtt_clear_fds. wps. destruct (mq_connected q); cbn [negb]; wps; cycle 1.
  { cbn [is_err]. by rewrite app_nil_r. }
  pose proof (publish_spec t p (mq_client q)) as Hp. destruct Hr as [? ? ? ? ? ?].
  destruct (mqtt_publish t p (mq_client q)) as [[r []] c]; cbn [fst snd] in *;
    wps; (split; [by constructor|]); by split.
Qed.
End queue_correct.

Section gateway_correct.
Context {C K L T : Type} `{KconfigRanges} `{PSALaws K} `{LoraLaws L} `{KernelLaws T} `{Libc}.
Context `{Pb Data} `{!PbLaws Data Data_ok} `{Pb FromRadio} `{Pb Routing}.
Context `{Pb ServiceEnvelope}.
Context `{MqttRanges} `{MqttClientLaws C}.
Notation W := (world K L T).
Notation G := (mqtt C * W)%type.

(** ** The queue is drained in order *)

(** Nothing of the node but its clock. *)
Definition later (w w' : W) : Prop := ∃ t, w' = w <| w_kernel := t |>.

Lemma later_refl w : later w w.
Proof. exists (w_kernel w). by destruct w. Qed.
Lemma later_sleep w w' t : later (w <| w_kernel := t |>) w' → later w w'.
Proof. intros [t' ->]. by exists t'. Qed.

Lemma wp_on_mqtt {A} (m : M (mqtt C) A) Q (s : G) :
  wp (on_mqtt m) Q s ↔ wp m (λ a q, Q a (q, s.2)) s.1.
Proof. unfold wp, on_mqtt. by destruct (m s.1) as [[a q]|]. Qed.
Lemma wp_on_node {A} (m : M W A) Q (s : G) :
  wp (on_node m) Q s ↔ wp m (λ a w, Q a (s.1, w)) s.2.
Proof. unfold wp, on_node. by destruct (m s.2) as [[a w]|]. Qed.

(** What a drain of at most [n] messages did to a queue of [l], [oks] saying
    of each message taken out whether the client took it. *)
Record drained (n : nat) (l : list pub_entry) (s s' : G) (oks : list bool) : Prop := {
  dr_queue : pub_repr s'.1 (drop (length oks) l);
  dr_number : (length oks ≤ n `min` length l)%nat;
  dr_all : mq_connected s'.1 = true → length oks = (n `min` length l)%nat;
  dr_off : mq_connected s.1 = false → s' = s;
  dr_published : published (mq_client s'.1) =
    published (mq_client s.1) ++ taken (take (length oks) l) oks;
  dr_prefix : mq_crypt_prefix s'.1 = mq_crypt_prefix s.1;
  dr_node : later s.2 s'.2
}.

Lemma drain_stop n l s :
  pub_repr s.1 l → mq_connected s.1 = false ∨ (n `min` length l = 0)%nat → drained n l s s [].
Proof.
  intros Hr Hstop. constructor; cbn.
  - by rewrite drop_0.
  - lia.
  - intros. destruct Hstop; [congruence|done].
  - done.
  - by rewrite take_0, app_nil_r.
  - done.
  - apply later_refl.
Qed.

Lemma drain_wp n : ∀ l (s : G),
  pub_repr s.1 l → wp (mqtt_drain_queue n) (λ _ s', ∃ oks, drained n l s s' oks) s.
Proof.
  induction n as [|n IH]; intros l s Hr; cbn [mqtt_drain_queue].
  { wps. exists []. apply drain_stop; auto. }
  wps. rewrite (pr_count _ _ Hr). destruct (mq_connected s.1) eqn:Hc; cbn [negb orb]; cycle 1.
  { wps. exists []. apply drain_stop; auto. }
  destruct l as [|e l]; cbn [length Nat.eqb].
  { wps. exists []. apply drain_stop; auto. }
  rewrite wp_bind, wp_on_mqtt. apply (pub_slot_wp _ e); [eapply ring_at_head; apply Hr|].
  rewrite wp_bind, wp_on_mqtt. wps. rewrite wp_on_mqtt.
  eapply wp_mono; [by eapply (do_publish_wp _ _ l), pub_repr_tail|].
  intros r q1 (Hr1 & Hp1 & Hpre & _). rewrite wp_bind, wp_on_node. unfold sleep. wps. cbn [fst snd].
  eapply wp_mono; [by apply (IH l)|]. intros _ s' (oks & Hd). exists (negb (is_err r) :: oks).
  destruct Hd as [Hq Hn Ha Ho Hp Hx Hl]. cbn [fst snd] in *. constructor; cbn [length drop take].
  - done.
  - cbn. lia.
  - intros H'. specialize (Ha H'). cbn. lia.
  - congruence.
  - rewrite Hp, Hp1. unfold taken. cbn. rewrite <-app_assoc. f_equal. by destruct r.
  - by rewrite Hx, Hpre.
  - by eapply later_sleep.
Qed.

(** a drain hands the oldest messages, at most [n] of them, to the client,
    in order and once each; it stops early only when the connection breaks.
    A message leaves the queue whether the client takes it or not: one whose
    publication fails is lost, not kept for a retry.  Without a connection
    nothing happens. *)
Theorem drain_spec n l (s : G) :
  pub_repr s.1 l → ∃ s' oks, mqtt_drain_queue n s = Some ((), s') ∧ drained n l s s' oks.
Proof.
  intros Hr. apply (drain_wp n l s), wp_run in Hr as ([] & s' & Hrun & oks & Hd). by exists s', oks.
Qed.

(** ** Upload *)

(** The channel whose permission counts: the one the packet was received on,
    else the primary one. *)
Definition packet_channel (ch : channels) (p : packet) : option Channel :=
  let i := if bool_decide (p_channel_index p = MESHTASTIC_CHANNEL_INDEX_INVALID)
           then primary_index ch else p_channel_index p in
  if bool_decide (i < 8) then channel_slots ch !! Z.to_nat i else None.

(** What may be uploaded: a packet of a channel in use whose owner allows it,
    that no broker has carried; and of other nodes' packets, to the public
    broker, neither range tests nor sensor detections. *)
Definition uploadable (node : node_view) (p : packet) : Prop :=
  match packet_channel (nv_channels node) p with
  | Some c => c_role c ≠ Role_DISABLED ∧ c_has_settings c = true ∧
      cs_uplink_enabled (c_settings c) = true
  | None => False
  end ∧
  p_via_mqtt p = false ∧
  (p_from p = nv_node_id node ∨ CONFIG_MQTT_BROKER_HOST ≠ MQTT_DEFAULT_BROKER ∨
   p_portnum p ≠ 66 ∧ p_portnum p ≠ 10).
#[export] Instance uploadable_dec node p : Decision (uploadable node p).
Proof. unfold uploadable. destruct (packet_channel _ _); apply _. Defined.

(** [msh/<region>/2/e/<primary channel>/!<gateway>]. *)
Definition upload_topic (q : mqtt C) (node : node_view) : string :=
  String.append (mq_crypt_prefix q) (String.append "/2/e/"
    (String.append (runtime_channel_name (nv_channels node))
       (String.append "/" (node_id_string (nv_node_id node))))).

(** The message made of a packet that is uploaded: its topic, and its payload
    unless the envelope does not fit the buffer. *)
Definition uplink_message (q : mqtt C) (node : node_view) (p : packet) (wire : list Z)
    : option (string * option (list Z)) :=
  if bool_decide (uploadable node p ∧ wire ≠ [] ∧ (String.length (upload_topic q node) < 128)%nat) then
    match (if CONFIG_MQTT_ENCRYPTION_ENABLED then mqtt_mesh_from_wire wire
           else meshtastic_packet_to_mesh_pb (Some p)) with
    | Err _ => None
    | Ok mesh =>
        Some (upload_topic q node, pb_encode CONFIG_MQTT_TX_BUFFER_SIZE
          (mk_envelope (Some mesh) (Some (runtime_channel_name (nv_channels node)))
             (Some (node_id_string (nv_node_id node)))))
    end
  else None.

Lemma channel_permits node p (ch := nv_channels node) :
  meshtastic_channels_uplink_enabled ch
    (if negb (p_channel_index p =? MESHTASTIC_CHANNEL_INDEX_INVALID) then p_channel_index p
     else meshtastic_channels_primary_index ch) = true ↔
  match packet_channel ch p with
  | Some c => c_role c ≠ Role_DISABLED ∧ c_has_settings c = true ∧
      cs_uplink_enabled (c_settings c) = true
  | None => False
  end.
Proof.
  unfold meshtastic_channels_uplink_enabled, meshtastic_channels_get, packet_channel,
    meshtastic_channels_primary_index, MESHTASTIC_MAX_CHANNELS.
  set (i := if negb _ then _ else _). replace (if bool_decide (p_channel_index p = _) then _ else _) with i.
  2: { unfold i. case_bool_decide as Ei; [by rewrite Ei|]. by rewrite (proj2 (Z.eqb_neq _ _)). }
  clearbody i. destruct (Z.leb_spec 8 i); [by rewrite bool_decide_false by lia|].
  rewrite bool_decide_true by lia. destruct (channel_slots _ !! _) as [c|]; [|done].
  destruct (Z.eqb_spec (c_role c) Role_DISABLED), (c_has_settings c); cbn; naive_solver.
Qed.
Lemma port_passes node p :
  mqtt_should_skip_portnum (p_portnum p) (p_from p =? nv_node_id node) = false ↔
  p_from p = nv_node_id node ∨ CONFIG_MQTT_BROKER_HOST ≠ MQTT_DEFAULT_BROKER ∨
  p_portnum p ≠ 66 ∧ p_portnum p ≠ 10.
Proof.
  unfold mqtt_should_skip_portnum, mqtt_is_default_broker, PortNum_RANGE_TEST_APP,
    PortNum_DETECTION_SENSOR_APP.
  destruct (Z.eqb_spec (p_from p) (nv_node_id node)); cbn [orb]; [naive_solver|].
  case_bool_decide; cbn [negb]; [|naive_solver]. rewrite orb_false_iff, !Z.eqb_neq. naive_solver.
Qed.

Lemma uplink_allowed_spec node p :
  uplink_allowed (nv_channels node) (nv_node_id node) p = bool_decide (uploadable node p).
Proof.
  apply eq_true_iff_eq. rewrite bool_decide_eq_true. unfold uplink_allowed, uploadable.
  rewrite !andb_true_iff, !negb_true_iff, channel_permits, port_passes. tauto.
Qed.

(** What a call of a hook adds to the queue, if it gets that far. *)
Definition call_message (q : mqtt C) (call : uplink_call) : option (string * option (list Z)) :=
  let node := up_node call in
  if CONFIG_MQTT_UPLINK_ENABLED
     && Bool.eqb (up_sent call) (p_from (up_packet call) =? nv_node_id node)
  then wire ← up_wire call; uplink_message q node (up_packet call) wire
  else None.

(** The queue after a message was added, the oldest giving way in a full one. *)
Definition queued (l : list pub_entry) (m : option (string * option (list Z))) : list pub_entry :=
  match m with
  | None => l
  | Some (_, None) => with_room l
  | Some (topic, Some env) => with_room l ++ [mk_pub topic env]
  end.

Lemma uplink_enqueue_wp topic mesh cid gid l (q : mqtt C) :
  pub_repr q l → (String.length topic < MQTT_TOPIC_SIZE)%nat →
  wp (uplink_enqueue topic mesh cid gid) (λ _ q', pub_rest q q' ∧
    match mqtt_encode_envelope mesh cid gid CONFIG_MQTT_TX_BUFFER_SIZE with
    | Ok env => pub_repr q' (with_room l ++ [mk_pub topic env]) ∧ mq_work_sem q' = true
    | Err _ => pub_repr q' (with_room l) ∧ mq_work_sem q' = mq_work_sem q
    end) q.
Proof.
  intros Hr Ht. unfold uplink_enqueue. rewrite wp_bind.
  eapply wp_mono; [by apply pub_make_room_wp|]. intros _ q1 (Hrest1 & Hs1 & Hr1 & Hroom).
  rewrite wp_bind. eapply wp_mono; [by apply pub_write_wp|].
  intros _ q2 (Hrest2 & Hs2 & Hr2 & e & He & Hh & Htl & Hq2). unfold pub_rest in *.
  destruct (mqtt_encode_envelope _ _ _ _) as [env|]; [|wps; destruct_and!; split_and!; congruence || done].
  rewrite wp_bind. eapply wp_mono; [by apply pub_write_wp|].
  intros _ q3 (Hrest3 & Hs3 & Hr3 & e2 & He2 & Hh3 & Htl3 & Hq3). unfold pub_rest in *.
  rewrite He2 in Hq2. injection Hq2 as ->.
  rewrite wp_bind. eapply wp_mono; [by apply (pub_commit_wp _ (with_room l) _ Hr3 Hroom Hq3)|].
  intros _ q4 (Hrest4 & Hs4 & Hr4). unfold mqtt_work_notify, pub_rest in *. wps.
  unfold set_payload, set_topic in Hr4. cbn [pub_topic] in Hr4.
  rewrite substring0_id in Hr4 by lia.
  destruct_and!. split_and!; try (cbn; congruence); by destruct Hr4.
Qed.

Lemma uplink_run node p wire l (q : mqtt C) :
  pub_repr q l →
  wp (mqtt_queue_uplink node (Some p) (Some wire)) (λ _ q', pub_rest q q' ∧
    pub_repr q' (queued l (uplink_message q node p wire))) q.
Proof.
  intros Hr. assert (pub_rest q q) as Hq by (by split_and!).
  unfold mqtt_queue_uplink, uplink_message, mqtt_build_publish_topic, snprintk, queued.
  rewrite uplink_allowed_spec.
  set (s := upload_topic q node).
  destruct (Nat.eqb_spec (length wire) 0) as [->%nil_length_inv|Hw].
  { rewrite bool_decide_false by naive_solver. by wps. }
  destruct (bool_decide (uploadable node p)) eqn:Eup; cbn [negb]; [|rewrite bool_decide_false; [by wps|]].
  2: { apply bool_decide_eq_false in Eup. naive_solver. }
  apply bool_decide_eq_true in Eup. wps. cbn [id].
  change (String.append (mq_crypt_prefix q) (String.append CRYPT_TOPIC_SUFFIX
    (String.append (runtime_channel_name (nv_channels node)) (String.append "/"
      (node_id_string (nv_node_id node)))))) with s.
  destruct (Nat.leb_spec MQTT_TOPIC_SIZE (String.length s)) as [Hge|Hlt].
  { rewrite bool_decide_false by (intros (_ & _ & ?); unfold MQTT_TOPIC_SIZE in *; lia). by wps. }
  rewrite bool_decide_true by (split_and!; [done|by intros ->|unfold MQTT_TOPIC_SIZE in *; lia]).
  unfold uplink_mesh. set (ret := if CONFIG_MQTT_ENCRYPTION_ENABLED then _ else _).
  destruct ret as [mesh|]; [|by wps].
  assert (strncpy (MQTT_TOPIC_SIZE - 1) s = s) as ->
    by (apply substring0_id; unfold MQTT_TOPIC_SIZE in *; lia).
  eapply wp_mono; [by apply uplink_enqueue_wp|]. intros [] q' [Hrest Hpost]. split; [done|].
  unfold mqtt_encode_envelope in Hpost. by destruct (pb_encode _ _); apply Hpost.
Qed.

Lemma serve_wp call l (q : mqtt C) :
  pub_repr q l →
  wp (serve_uplink call) (λ _ q', pub_rest q q' ∧ pub_repr q' (queued l (call_message q call))) q.
Proof.
  intros Hr. assert (∀ p, wp (mqtt_queue_uplink (up_node call) (Some p) (up_wire call)) (λ _ q',
    pub_rest q q' ∧ pub_repr q' (queued l (wire ← up_wire call; uplink_message q (up_node call) p wire))) q)
    as Hup.
  { intros p. destruct (up_wire call) as [wire|]; [by apply uplink_run|]. by wps. }
  unfold serve_uplink, call_message, meshtastic_mqtt_on_tx, meshtastic_mqtt_on_rx.
  destruct CONFIG_MQTT_UPLINK_ENABLED, (up_sent call), (p_from (up_packet call) =? _); cbn [negb andb Bool.eqb];
    first [apply Hup | by wps].
Qed.

(** Of the gateway a message depends on the topic's prefix only. *)
Lemma calls_message (q q' : mqtt C) (calls : list uplink_call) :
  mq_crypt_prefix q = mq_crypt_prefix q' → call_message q <$> calls = call_message q' <$> calls.
Proof.
  intros E. apply list_fmap_ext. intros _ call _. unfold call_message, uplink_message, upload_topic.
  by rewrite E.
Qed.

Lemma serves_wp calls : ∀ l (q : mqtt C),
  pub_repr q l →
  wp (mapM_ serve_uplink calls) (λ _ q', pub_rest q q' ∧
    pub_repr q' (foldl queued l (call_message q <$> calls))) q.
Proof.
  induction calls as [|call calls IH]; intros l q Hr; cbn [mapM_ foldl fmap list_fmap]; [by wps|].
  rewrite wp_bind. eapply wp_mono; [by apply serve_wp|]. intros [] q1 [Hrest1 Hr1].
  eapply wp_mono; [by apply IH|]. intros [] q2 [Hrest2 Hr2].
  unfold pub_rest in *. destruct_and!. split; [split_and!; congruence|].
  by erewrite (calls_message q1 q) in Hr2.
Qed.

(** An operation of the node and the calls it made. *)
Lemma with_hooks_wp {A} (m : M W A) (Q : A → W → Prop) l (q : mqtt C) (w : W) :
  pub_repr q l → wp m (λ a w', Q a w' ∧ w_uplinks w `prefix_of` w_uplinks w') w →
  wp (with_hooks m) (λ a s', ∃ calls, w_uplinks s'.2 = w_uplinks w ++ calls ∧ Q a s'.2 ∧
    pub_rest q s'.1 ∧ pub_repr s'.1 (foldl queued l (call_message q <$> calls))) (q, w).
Proof.
  intros Hr Hm. unfold with_hooks. wps. rewrite wp_on_node. cbn [fst snd].
  eapply wp_mono; [exact Hm|]. intros a w' [HQ [calls Hc]]. wps. cbn [fst snd].
  rewrite Hc, drop_app_length, wp_on_mqtt. cbn [fst snd].
  eapply wp_mono; [by apply serves_wp|]. intros [] q' [Hrest Hr']. wps. by exists calls.
Qed.

(** What a call leaves in the queue. *)
Theorem uplink_spec node p wire l (q : mqtt C) :
  pub_repr q l →
  ∃ q', mqtt_queue_uplink node (Some p) (Some wire) q = Some ((), q') ∧
    pub_repr q' (queued l (uplink_message q node p wire)).
Proof. intros Hr. apply (uplink_run node p wire l q), wp_run in Hr as ([] & q' & ? & _ & ?). by exists q'. Qed.
End gateway_correct.

(** ** Witnesses: a broker that answers as it is told *)

(** What was published, and the answers to come: a refused publication breaks
    the connection. *)
Record mock_client := mk_mock_client { mc_published : list (string * list Z); mc_answers : list bool }.
#[export] Instance mock_mqtt_client : MqttClient mock_client := {
  mqtt_publish t p c :=
    match mc_answers c with
    | false :: answers => ((Err EIO, true), mk_mock_client (mc_published c) answers)
    | answers => ((Ok (), false), mk_mock_client (mc_published c ++ [(t, p)]) (tail answers))
    end
}.
#[export] Instance mock_mqtt_client_laws : MqttClientLaws mock_client.
Proof.
  refine {| published := mc_published |}. intros t p [ps [|[] answers]]; cbn; [done..|].
  by rewrite app_nil_r.
Defined.

#[local] Existing Instance default_kconfig.
#[local] Existing Instance default_kconfig_ranges.
#[local] Existing Instance default_mqtt_config.
#[local] Existing Instance default_mqtt_ranges.

(** The first two messages wait; the second will be refused. *)
Definition waiting_queue : mqtt mock_client :=
  (mqtt_bss (mk_mock_client [] [true; false]))
    <| mq_queue := [mk_pub "a" [1]; mk_pub "b" [2]; mk_pub "c" [3]; mk_pub "" []] |>
    <| mq_tail := 3%nat |> <| mq_count := 3%nat |> <| mq_connected := true |>.
Definition waiting : list pub_entry := [mk_pub "a" [1]; mk_pub "b" [2]; mk_pub "c" [3]].
Lemma waiting_repr : pub_repr waiting_queue waiting.
Proof.
  constructor; cbn; try done; [lia..|]. intros [|[|[|k]]] x; cbn; try done.
Qed.

Lemma drain_spec_witness :
  ∃ s' oks, mqtt_drain_queue 8 (waiting_queue, hearing_world) = Some ((), s') ∧
    drained 8 waiting (waiting_queue, hearing_world) s' oks ∧
    published (mq_client s'.1) = [("a", [1])] ∧ pub_repr s'.1 [mk_pub "c" [3]].
Proof.
  destruct (drain_spec 8 waiting (waiting_queue, hearing_world) waiting_repr) as (s' & oks & Hrun & Hd).
  exists s', oks. split; [exact Hrun|]. split; [exact Hd|].
  assert (∃ s'', mqtt_drain_queue 8 (waiting_queue, hearing_world) = Some ((), s'') ∧
    mc_published (mq_client s''.1) = [("a", [1])] ∧ mq_count s''.1 = 1%nat) as (s'' & Hrun' & Hp & Hc)
    by (eexists; by split; [vm_compute; reflexivity|]).
  rewrite Hrun in Hrun'. injection Hrun' as <-. split; [exact Hp|].
  destruct Hd as [Hq _ _ _ _ _ _]. pose proof (pr_count _ _ Hq) as Hlen. rewrite Hc, length_drop in Hlen.
  cbn in Hlen. replace (length oks) with 2%nat in Hq by lia. exact Hq.
Defined.

(** The envelope of [heard_frame] and a codec that knows it. *)
Definition heard_envelope : ServiceEnvelope :=
  mk_envelope (match mqtt_mesh_from_wire heard_frame with Ok mesh => Some mesh | Err _ => None end)
    (Some "LongFast") (Some "!00000007").
#[local] Instance heard_codec : Pb ServiceEnvelope := table_pb [heard_envelope].
Definition heard_packet : packet := fill_packet_from_header (header_of heard_frame) (-80) 6 packet_zero.
Definition gateway_bss : mqtt mock_client :=
  (mqtt_bss (mk_mock_client [] [])) <| mq_crypt_prefix := CONFIG_MQTT_ROOT |>.

Lemma gateway_bss_repr : pub_repr gateway_bss [].
Proof. by destruct (bss_repr (mk_mock_client [] [])). Qed.

Lemma uplink_spec_witness :
  ∃ q', mqtt_queue_uplink (view_of hearing_world) (Some heard_packet) (Some heard_frame) gateway_bss
      = Some ((), q') ∧
    pub_repr q' [mk_pub "msh/EU_868/2/e/LongFast/!00000007" [0]].
Proof.
  destruct (uplink_spec (view_of hearing_world) heard_packet heard_frame [] gateway_bss gateway_bss_repr)
    as (q' & Hrun & Hpost). exists q'. split; [exact Hrun|].
  assert (uplink_message gateway_bss (view_of hearing_world) heard_packet heard_frame =
    Some ("msh/EU_868/2/e/LongFast/!00000007", Some [0])) as E by (by vm_compute).
  rewrite E in Hpost. exact Hpost.
Defined.
