(* ===== verification/Uplink.v ===== *)
(** * From the air to the publish queue (src/meshtastic_router.c, src/meshtastic_mqtt.c)

    The receive path of a gateway, with its call of [meshtastic_mqtt_on_rx]:
    what a heard frame leaves in the publish queue. *)

From S2P Require Import Prelude Types External Mock Core Airtime Channels NodeDB Wire Store World.
From S2P Require Import Radio Reliable PhoneApi Invariant Send NodeInfo Router Position Reception Mqtt.

Section uplink.
Context {C K L T : Type} `{KconfigRanges} `{PSALaws K} `{LoraLaws L} `{KernelLaws T} `{Libc}.
Context `{Pb Data} `{!PbLaws Data Data_ok} `{Pb User} `{Pb Routing} `{Pb Position} `{Pb Telemetry}.
Context `{Pb StatusMessage} `{Pb FromRadio} `{Pb ServiceEnvelope}.
Context `{MqttRanges} `{MqttClientLaws C}.
Notation W := (world K L T).
Context (fx : fixed) (mods : list (module K L T)) (garbage : packet).
Context (Hmods : ∀ calls, Forall (module_safe (with_uplinks fx calls)) mods).

(** What the receive path decodes for the first time. *)
Definition heard (buf : list Z) (rssi snr : Z) (w : W) : option packet :=
  let hdr := header_of buf in
  if (length buf <? MESHTASTIC_HDR_LEN)%nat
     || CONFIG_MQTT_IGNORE_MQTT && flags_via_mqtt (h_flags hdr)
     || bool_decide ((h_src hdr, h_id hdr) ∈ mt_dup_cache (w_mt w))
  then None
  else
    match meshtastic_try_decode_wire_packet (w_nodedb w) (w_channels w) garbage (Some buf) rssi snr
            MESHTASTIC_MAX_PAYLOAD_LEN (w_psa w) with
    | Some (Ok (p, true), _) => Some p
    | _ => None
    end.

(** The part of the state a call of a hook notes, and the calls. *)
Definition noted (w : W) : list uplink_call * node_view := (w_uplinks w, view_of w).
Notation keeps_noted := (leaves noted).

Lemma noted_phone {A} i (m : M phoneapi A) : keeps_noted (on_phone i m).
Proof.
  intros w a w'. unfold on_phone. destruct (w_phones w !! i) as [api|]; [|done].
  destruct (m api) as [[b api']|]; [|done]. by intros [= _ <-].
Qed.
Lemma noted_mapM {A} (f : A → M W ()) l : (∀ a, keeps_noted (f a)) → keeps_noted (mapM_ f l).
Proof.
  intros Hf. induction l as [|a l IH]; cbn [mapM_]; [apply leaves_ret|].
  by apply leaves_bind; [apply Hf|intros _].
Qed.
Lemma noted_emit ty err p : keeps_noted (meshtastic_emit_event ty err p).
Proof. unfold meshtastic_emit_event. leave. Qed.
Lemma noted_fromradio_id : keeps_noted next_fromradio_id.
Proof.
  intros w id w'. unfold next_fromradio_id, zoom, state, meshtastic_next_fromradio_id.
  destruct (next_nonzero _). by intros [= _ <-].
Qed.
Lemma noted_deliver p : keeps_noted (deliver_packet p).
Proof.
  unfold deliver_packet, meshtastic_phoneapi_on_packet, meshtastic_phoneapi_enqueue_fromradio.
  repeat first [ apply noted_emit | apply noted_fromradio_id | apply noted_phone
    | apply noted_mapM; intros ? | progress leave ].
Qed.

(** The node is well-formed and its calls begin with [log]. *)
Notation logged log := (world_wf (L:=L) (T:=T) (with_uplinks fx log)).

Lemma logged_prefix log (w : W) : logged log w → log `prefix_of` w_uplinks w.
Proof. apply ww_uplinks. Qed.
Lemma logged_all log (w : W) : logged log w → logged (w_uplinks w) w.
Proof. intros []. by constructor. Qed.

Lemma keeps_noted_too {A} log n (m : M W A) :
  keeps (logged log) m → keeps_noted m → keeps (λ w, logged log w ∧ noted w = n) m.
Proof.
  intros Hk Hl w [HI <-]. destruct (proj1 (wp_run _ _ _) (Hk w HI)) as (a & w' & Hr & HI').
  apply wp_run. exists a, w'. split; [done|]. split; [done|]. by eapply Hl.
Qed.

Lemma inbound_wp p wire (w : W) (call := mk_uplink false p wire (view_of w)) :
  CONFIG_MQTT = true → logged (w_uplinks w) w →
  wp (meshtastic_handle_inbound_packet mods p wire true)
    (λ _ w', w_uplinks w ++ [call] `prefix_of` w_uplinks w') w.
Proof.
  intros Hm HI. unfold meshtastic_handle_inbound_packet. rewrite wp_bind. do 4 wp_step. rewrite wp_bind.
  eapply wp_mono; [apply (keeps_noted_too (w_uplinks w) (noted w)); [| |done]|].
  { apply keeps_if; [apply keeps_ret|]. apply keeps_if; [apply keeps_deliver|apply keeps_ret]. }
  { repeat first [apply noted_deliver | progress leave]. }
  intros [] w1 [HI1 Hn]. pose proof (f_equal fst Hn) as Hu. pose proof (f_equal snd Hn) as Hv. cbn [fst snd noted] in Hu, Hv. unfold mqtt_hook. rewrite Hm. do 2 wp_step. cbn beta.
  set (w2 := set w_uplinks _ _). assert (logged (w_uplinks w ++ [call]) w2) as HI2.
  { subst w2 call. rewrite <-Hu, <-Hv. apply logged_all in HI1. destruct HI1. by constructor. }
  rewrite wp_bind. eapply wp_mono; [by apply keeps_on_decoded|]. intros [] w3 HI3.
  eapply wp_mono; [by apply (keeps_dispatch (with_uplinks fx (w_uplinks w ++ [call])))|]. intros [] w4 HI4.
  apply wp_mono with (Q := λ _, logged (w_uplinks w ++ [call])); [|intros [] w5; apply logged_prefix]. destruct wire as [wire|]; [|by wps].
  destruct (Nat.leb_spec MESHTASTIC_HDR_LEN (length wire)); [|by wps].
  rewrite read_header_bind by done. by apply keeps_sniff.
Qed.
Lemma noted_sniff hdr wire p : keeps_noted (meshtastic_routing_sniff_rebroadcast hdr wire p).
Proof.
  assert (keeps_noted (meshtastic_radio_send_wire (<[12%nat := relay_flags (h_flags hdr) (flags_hop_limit (h_flags hdr))]> wire)))
    as Hsend; [|unfold meshtastic_routing_sniff_rebroadcast, relay_packet, status_modify;
      repeat first [apply Hsend | progress leave]].
  intros w a w'. unfold meshtastic_radio_send_wire. set (frame := <[_ := _]> _).
  destruct (decide (frame_ok frame)) as [Hok|Hbad].
  - rewrite enqueue_no_wait_run by done. case_if; by intros [= _ <-].
  - rewrite enqueue_bad_frame by done. by intros [= _ <-].
Qed.

(** The calls after the receive path, for a frame it decodes and another. *)
Definition calls_after (buf : list Z) (rssi snr : Z) (w w' : W) : Prop :=
  match heard buf rssi snr w with
  | Some p => w_uplinks w ++ [mk_uplink false p (Some buf) (view_of w)] `prefix_of` w_uplinks w'
  | None => ((h_src (header_of buf), h_id (header_of buf)) ∈ mt_dup_cache (w_mt w) →
      flags_want_ack (h_flags (header_of buf)) && (h_dest (header_of buf) =? mt_node_id (w_mt w)) = false) →
      w_uplinks w' = w_uplinks w
  end.

Lemma fresh_wp buf rssi snr (w : W) (hdr := header_of buf) :
  CONFIG_MQTT = true → logged (w_uplinks w) w → (MESHTASTIC_HDR_LEN ≤ length buf)%nat →
  CONFIG_MQTT_IGNORE_MQTT && flags_via_mqtt (h_flags hdr) = false →
  (h_src hdr, h_id hdr) ∉ mt_dup_cache (w_mt w) →
  wp (meshtastic_router_process_lora_rx mods garbage buf rssi snr) (λ _, calls_after buf rssi snr w) w.
Proof.
  intros Hm HI Hlen Hmq Hnew. unfold meshtastic_router_process_lora_rx, calls_after, heard. fold hdr.
  rewrite (proj2 (Nat.ltb_ge _ _)), read_header_bind by done. fold hdr.
  rewrite Hmq, bool_decide_false by done. cbn [orb]. rewrite wp_bind. destruct (airtime_ms_run (Z.of_nat (length buf)) w) as [ms Hms]. unfold wp at 1. rewrite Hms.
  rewrite wp_bind. apply dup_check_fresh; [done|]. rewrite wp_bind.
  pose proof (keeps_dup_add _ (h_src hdr) (h_id hdr) w HI) as HI1. unfold wp in HI1.
  unfold dup_add_ at 1. do 2 wp_step. set (w1 := set w_mt _ w). change (logged (w_uplinks w) w1) in HI1.
  unfold try_decode. rewrite wp_bind. do 4 wp_step.
  change (w_nodedb w1) with (w_nodedb w). change (w_channels w1) with (w_channels w). change (w_psa w1) with (w_psa w).
  pose proof (try_decode_keys (w_nodedb w) (w_channels w) garbage buf rssi snr MESHTASTIC_MAX_PAYLOAD_LEN
    (w_psa w) (ww_channels _ _ HI)) as Hk. unfold wp in Hk |- * at 1.
  destruct (meshtastic_try_decode_wire_packet _ _ _ _ _ _ _ _) as [[r k]|]; [|done].
  set (w2 := set w_psa _ w1). assert (logged (w_uplinks w) w2) as HI2.
  { destruct HI1. constructor; try done. cbn. by rewrite Hk. }
  destruct r as [[p decoded]|e]; [|unfold airtime_log; by wps].
  rewrite wp_bind. eapply wp_mono;
    [apply (keeps_noted_too (w_uplinks w) (noted w)); [apply keeps_airtime_log|unfold airtime_log; leave|done]|].
  intros [] w3 Hw3. rewrite wp_bind. eapply wp_mono;
    [apply (keeps_noted_too (w_uplinks w) (noted w)); [keep|unfold status_modify; leave|done]|].
  intros [] w4 Hw4. rewrite wp_bind. eapply wp_mono;
    [apply (keeps_noted_too (w_uplinks w) (noted w)); [keep|unfold status_modify; leave|done]|].
  intros [] w5 [HI5 Hn5]. pose proof (f_equal fst Hn5) as Hu. pose proof (f_equal snd Hn5) as Hv.
  cbn [fst snd noted] in Hu, Hv. rewrite <-Hu, <-Hv. rewrite <-Hu in HI5. destruct decoded.
  - by apply inbound_wp.
  - eapply wp_mono; [apply (keeps_noted_too (w_uplinks w5) (noted w5)); [by apply keeps_inbound| |done]|].
    + unfold meshtastic_handle_inbound_packet, read_header. repeat first [apply noted_sniff | progress leave].
    + intros [] w6 [_ Hn] _. exact (f_equal fst Hn).
Qed.

Lemma process_wp buf rssi snr (w : W) :
  CONFIG_MQTT = true → logged (w_uplinks w) w →
  wp (meshtastic_router_process_lora_rx mods garbage buf rssi snr) (λ _, calls_after buf rssi snr w) w.
Proof.
  intros Hm HI. set (hdr := header_of buf).
  destruct (Nat.ltb (length buf) MESHTASTIC_HDR_LEN) eqn:El.
  { unfold meshtastic_router_process_lora_rx, calls_after, heard. rewrite El. by wps. }
  apply Nat.ltb_ge in El. destruct (CONFIG_MQTT_IGNORE_MQTT && flags_via_mqtt (h_flags hdr)) eqn:Eq.
  { unfold meshtastic_router_process_lora_rx, calls_after, heard. fold hdr.
    rewrite (proj2 (Nat.ltb_ge _ _)), read_header_bind by done. fold hdr.
    rewrite Eq. cbn [orb]. rewrite wp_bind.
    destruct (airtime_ms_run (Z.of_nat (length buf)) w) as [ms Hms]. unfold wp at 1. rewrite Hms.
    unfold airtime_log. by wps. }
  destruct (decide ((h_src hdr, h_id hdr) ∈ mt_dup_cache (w_mt w))) as [Hd|Hnew]; [|by apply fresh_wp].
  destruct (duplicate_run mods garbage buf rssi snr w El Eq Hd) as [ms Hrun]. unfold wp. rewrite Hrun.
  change (wp (reack_duplicate garbage buf rssi snr) (λ _, calls_after buf rssi snr w) (dup_counted ms w)).
  assert (logged (w_uplinks w) (dup_counted ms w)) as HI' by (by apply (same_wf_keeps _ w)).
  unfold calls_after, heard. fold hdr. rewrite bool_decide_true, orb_true_r by done.
  destruct (flags_want_ack (h_flags hdr) && (h_dest hdr =? mt_node_id (w_mt w))) eqn:Ea.
  { eapply wp_mono; [by apply keeps_reack|]. intros [] w' _ Hno. by specialize (Hno Hd). }
  unfold reack_duplicate. rewrite read_header_bind by done. fold hdr. do 2 wp_step.
  change (mt_node_id (w_mt (dup_counted ms w))) with (mt_node_id (w_mt w)).
  rewrite <-negb_andb, Ea. by wps.
Qed.

End uplink.

(** ** Witness: node 7 hears a text message to all *)

#[local] Existing Instances default_kconfig default_kconfig_ranges default_mqtt_config default_mqtt_ranges.
#[local] Instance no_User : Pb User := pb_silent User.
#[local] Instance no_Position : Pb Position := pb_silent Position.
#[local] Instance no_Telemetry : Pb Telemetry := pb_silent Telemetry.
#[local] Instance no_Status : Pb StatusMessage := pb_silent StatusMessage.
#[local] Instance no_FromRadio : Pb FromRadio := pb_silent FromRadio.

(** Node 9's frame, with the default channel's key and hash. *)
Definition group_frame : list Z :=
  match meshtastic_build_wire_packet () default_table
          (ping <| p_from := 9 |> <| p_to := MESHTASTIC_NODE_BROADCAST |> <| p_want_ack := false |>) toy_psa_empty with
  | Some (Ok wire, _) => wire | _ => []
  end.
Definition group_packet : packet :=
  default packet_zero (heard packet_zero group_frame (-80) 6 hearing_world).
Definition group_envelope : ServiceEnvelope :=
  mk_envelope (match mqtt_mesh_from_wire group_frame with Ok mesh => Some mesh | Err _ => None end)
    (Some "LongFast") (Some "!00000007").
Definition group_codec : Pb ServiceEnvelope := table_pb [group_envelope].
#[local] Existing Instance group_codec.


(** The same frame again changes nothing. *)
Example heard_again :
  (λ s, (length (w_uplinks s.2.2), mq_count s.2.1)) <$>
    (with_hooks (meshtastic_router_process_lora_rx stock_modules packet_zero group_frame (-80) 6) ;;
     with_hooks (meshtastic_router_process_lora_rx stock_modules packet_zero group_frame (-80) 6))
      (gateway_bss, hearing_world) = Some (1, 1)%nat.
Proof. by vm_compute. Qed.
