(* ===== verification/MapReport.v ===== *)
(** * The map report (src/meshtastic_mqtt.c)

    With CONFIG_MESHTASTIC_MQTT_MAP_REPORT the gateway publishes, at most once
    per interval, an unencrypted report of itself with a coarsened position.
    The interval, the coarsening and the fallback to the publish queue. *)

From stdpp Require Import vector.
From S2P Require Import Prelude Types External Mock Core Airtime Channels NodeDB Wire Store World.
From S2P Require Import Radio Reliable PhoneApi Invariant Send NodeInfo Router Telemetry Position Reception Mqtt.

Definition MQTT_MAP_WARN_MS : Z := 15000.
Definition PortNum_MAP_REPORT_APP : Z := 73.
Definition RegionCode_UNSET : Z := 0.
Definition RegionCode_US : Z := 1.
Definition RegionCode_EU_433 : Z := 2.
Definition RegionCode_EU_868 : Z := 3.
Definition ModemPreset_LONG_FAST : Z := 0.

(** [meshtastic_MapReport]. *)
Record MapReport := mk_MapReport {
  mr_long_name : string; mr_short_name : string; mr_role : Z; mr_hw_model : Z;
  mr_firmware_version : string; mr_region : Z; mr_modem_preset : Z; mr_has_default_channel : bool;
  mr_latitude_i : Z; mr_longitude_i : Z; mr_altitude : Z; mr_position_precision : Z;
  mr_num_online_local_nodes : Z; mr_has_opted_report_location : bool
}.
#[export] Instance MapReport_set : Settable MapReport := λ x,
  mk_MapReport (mr_long_name x) (mr_short_name x) (mr_role x) (mr_hw_model x) (mr_firmware_version x)
    (mr_region x) (mr_modem_preset x) (mr_has_default_channel x) (mr_latitude_i x) (mr_longitude_i x)
    (mr_altitude x) (mr_position_precision x) (mr_num_online_local_nodes x) (mr_has_opted_report_location x).
#[export] Instance MapReport_eq_dec : EqDecision MapReport.
Proof. solve_decision. Defined.

Definition mqtt_lora_region (hz : Z) : Z :=
  if (902000000 <=? hz) && (hz <=? 928000000) then RegionCode_US
  else if (869000000 <=? hz) && (hz <=? 870000000) then RegionCode_EU_868
  else if (433000000 <=? hz) && (hz <=? 434000000) then RegionCode_EU_433
  else RegionCode_UNSET.

(** [None]: the key lookup does not return. *)
Definition mqtt_has_default_channel (ch : channels) : option bool :=
  let i := meshtastic_channels_primary_index ch in
  match meshtastic_channels_get ch i with
  | None => Some false
  | Some c =>
      if c_role c =? Role_DISABLED then Some false
      else if negb (bool_decide (name_of ch (meshtastic_channels_get_name ch i) = MESHTASTIC_CHANNEL_LONGFAST))
      then Some false
      else
        key ← meshtastic_channels_primary_key ch;
        match key with
        | Err _ => Some false
        | Ok key =>
            Some ((k_len key =? length meshtastic_default_psk)%nat
                  && bool_decide (take (k_len key) (k_bytes key) = meshtastic_default_psk))
        end
  end.

(** ** The reported position *)

Definition mqtt_map_position_precision `{MqttConfig} : Z :=
  let precision := CONFIG_MQTT_MAP_REPORT_POSITION_PRECISION in
  if (precision <? 12) || (15 <? precision) then 14 else precision.

(** [*x &= (int32_t)mask; *x += (int32_t)(1U << (31U - precision));] on one
    coordinate, an [int32_t] in two's complement; [None] is signed overflow. *)
Definition map_coarsen (precision x : Z) : option Z :=
  let mask := u32 (Z.shiftl UINT32_MAX (32 - precision)) in
  let x := Z.land x (i32 mask) in
  let x' := x + i32 (Z.shiftl 1 (31 - precision)) in
  if (-2147483648 <=? x') && (x' <=? 2147483647) then Some x' else None.

Definition mqtt_apply_map_position_precision (latitude_i longitude_i precision : Z)
    : option (Z * Z) :=
  if 32 <=? precision then Some (latitude_i, longitude_i)
  else
    lat ← map_coarsen precision latitude_i;
    lon ← map_coarsen precision longitude_i;
    Some (lat, lon).

(** The strings are never NULL; the array sizes are those of mqtt.options.
    [None]: undefined. *)
Definition mqtt_build_map_report `{Kconfig} `{MqttConfig} (mt : context) (ch : channels) (pos : Position)
    : option MapReport :=
  has_default ← mqtt_has_default_channel ch;
  let precision := mqtt_map_position_precision in
  let report := mk_MapReport (strncpy 39 (mt_long_name mt)) (strncpy 4 (mt_short_name mt))
    (meshtastic_device_role ch) MESHTASTIC_BOARD_HW_MODEL (strncpy 17 KERNEL_VERSION_STRING)
    (mqtt_lora_region (mt_frequency mt)) ModemPreset_LONG_FAST has_default 0 0 0 precision 0 true in
  match pos_latitude_i pos, pos_longitude_i pos with
  | Some lat, Some lon =>
      coords ← mqtt_apply_map_position_precision lat lon precision;
      Some (report <| mr_latitude_i := coords.1 |> <| mr_longitude_i := coords.2 |>
              <| mr_altitude := default 0 (pos_altitude pos) |>)
  | _, _ => Some report
  end.

Section report.
Context {C K L T : Type} `{Kconfig} `{PSA K} `{LoraDriver L} `{Kernel T} `{Pb Data}.
Context `{Pb ServiceEnvelope} `{Pb MapReport} `{MqttConfig} `{MqttClient C} `{PositionConfig}.
Notation W := (world K L T).
Notation G := (mqtt C * W)%type.

(** The time of the last warning. *)
Definition map_no_position (now : Z) : M (mqtt C) () :=
  modify (λ q : mqtt C,
    if (mq_last_map_no_position_ms q =? 0) || (MQTT_MAP_WARN_MS <=? now - mq_last_map_no_position_ms q)
    then q <| mq_last_map_no_position_ms := now |> else q).

(** The packet of a report made at [now]. *)
Definition map_mesh (mt : context) (now : Z) (payload : list Z) : MeshPacket :=
  MeshPacket_zero <| m_from := mt_node_id mt |> <| m_to := MESHTASTIC_NODE_BROADCAST |>
    <| m_id := u32 now |> <| m_want_ack := false |> <| m_hop_limit := mt_hop_limit mt |>
    <| m_hop_start := mt_hop_limit mt |> <| m_channel := 0 |>
    <| m_variant := PV_decoded (Data_zero <| d_portnum := PortNum_MAP_REPORT_APP |>
                                  <| d_payload := payload |>) |>.

Definition map_envelope (w : W) (now : Z) (report : MapReport) : option (list Z) :=
  match pb_encode MESHTASTIC_MAX_PAYLOAD_LEN report with
  | None => None
  | Some payload =>
      match mqtt_encode_envelope (map_mesh (w_mt w) now payload) (runtime_channel_name (w_channels w))
              (node_id_string (mt_node_id (w_mt w))) CONFIG_MQTT_TX_BUFFER_SIZE with
      | Err _ => None
      | Ok env => Some env
      end
  end.

(** The report is published at once, or queued if that fails. *)
Definition map_publish (now : Z) (env : list Z) : M (mqtt C) () :=
  topic ← gets mq_map_topic;
  ret ← mqtt_do_publish topic env;
  (if is_err ret then mqtt_queue_publish topic env else mret ()) ;;
  modify (set mq_last_map_report_ms (λ _, now)).

(** The report, when it is time for one; with CONFIG_MESHTASTIC_GNSS. *)
Definition map_report_now (now : Z) : M G () :=
  ret ← on_node meshtastic_gnss_get_last_position;
  match ret with
  | Err _ => on_mqtt (map_no_position now)
  | Ok position =>
      if bool_decide (pos_latitude_i position = None) || bool_decide (pos_longitude_i position = None)
         || bool_decide (pos_latitude_i position = Some 0 ∧ pos_longitude_i position = Some 0)
      then on_mqtt (map_no_position now)
      else
        w ← gets (S:=G) snd;
        match mqtt_build_map_report (w_mt w) (w_channels w) position with
        | None => ub
        | Some report =>
            match map_envelope w now report with
            | None => mret ()
            | Some env => on_mqtt (map_publish now env)
            end
        end
  end.

Definition mqtt_perhaps_report_to_map : M G () :=
  now ← on_node uptime_get;
  q ← gets (S:=G) fst;
  let interval_ms := CONFIG_MQTT_MAP_REPORT_INTERVAL_SEC * MSEC_PER_SEC in
  if negb (mq_connected q) then mret ()
  else if negb (mq_last_map_report_ms q =? 0) && (now - mq_last_map_report_ms q <? interval_ms) then mret ()
  else map_report_now now.
End report.

(** ** The grid *)

Lemma coarse_mask precision x :
  12 ≤ precision ≤ 15 →
  Z.land x (i32 (u32 (Z.shiftl UINT32_MAX (32 - precision)))) =
    x `div` 2 ^ (32 - precision) * 2 ^ (32 - precision).
Proof.
  intros Hp. set (k := 32 - precision).
  replace (i32 (u32 (Z.shiftl UINT32_MAX k))) with (Z.lnot (Z.ones k)).
  - rewrite <-Z.ldiff_land, Z.ldiff_ones_r by lia. by rewrite Z.shiftl_mul_pow2, Z.shiftr_div_pow2 by lia.
  - subst k. assert (precision = 12 ∨ precision = 13 ∨ precision = 14 ∨ precision = 15) as Hc by lia.
    by destruct Hc as [->|[->|[->| ->]]].
Qed.

Lemma map_precision_range `{MqttConfig} : 12 ≤ mqtt_map_position_precision ≤ 15.
Proof. unfold mqtt_map_position_precision. case_if; [lia|]. boolp. lia. Qed.

(** The side of a cell, in 1e-7 degrees, and the centre of the cell of [x]. *)
Definition map_cell `{MqttConfig} : Z := 2 ^ (32 - mqtt_map_position_precision).
Definition cell_centre `{MqttConfig} (x : Z) : Z := x `div` map_cell * map_cell + map_cell / 2.

Lemma map_cell_range `{MqttConfig} : 131072 ≤ map_cell ≤ 1048576 ∧ ∃ n, map_cell * n = 2147483648.
Proof.
  unfold map_cell. pose proof map_precision_range as Hp. revert Hp. generalize mqtt_map_position_precision. intros p Hp.
  assert (p = 12 ∨ p = 13 ∨ p = 14 ∨ p = 15) as Hc by lia.
  destruct Hc as [->|[->|[->| ->]]]; (split; [done|]); [by exists 2048|by exists 4096|by exists 8192|by exists 16384].
Qed.

Lemma map_coarsen_centre `{MqttConfig} x :
  -2147483648 ≤ x ≤ 2147483647 → map_coarsen mqtt_map_position_precision x = Some (cell_centre x).
Proof.
  intros Hx. unfold map_coarsen. pose proof map_precision_range as Hp. rewrite coarse_mask by done.
  fold map_cell. assert (i32 (Z.shiftl 1 (31 - mqtt_map_position_precision)) = map_cell / 2) as ->.
  { unfold map_cell. revert Hp. generalize mqtt_map_position_precision. intros p Hp.
    assert (p = 12 ∨ p = 13 ∨ p = 14 ∨ p = 15) as Hc by lia. by destruct Hc as [->|[->|[->| ->]]]. }
  fold (cell_centre x). destruct map_cell_range as [Hc [n Hn]]. unfold cell_centre. set (c := map_cell) in *.
  assert (c / 2 < c ∧ 0 ≤ c / 2) as [Hh Hh'] by (split; [apply Z.div_lt; lia|apply Z.div_pos; lia]).
  assert (- n ≤ x `div` c) as Hq by (apply Z.div_le_lower_bound; lia).
  assert (x `div` c < n) as Hq' by (apply Z.div_lt_upper_bound; lia).
  assert (-2147483648 ≤ x `div` c * c + c / 2 ≤ 2147483647) as [Hlo Hhi] by nia.
  by rewrite (proj2 (Z.leb_le _ _) Hlo), (proj2 (Z.leb_le _ _) Hhi).
Qed.

Lemma cell_centre_near `{MqttConfig} x : Z.abs (cell_centre x - x) ≤ map_cell / 2.
Proof.
  destruct map_cell_range as [Hc [n Hn]]. unfold cell_centre.
  assert (map_cell = 2 * (map_cell / 2)) as He.
  { unfold map_cell. pose proof map_precision_range as Hp. revert Hp. generalize mqtt_map_position_precision.
    intros p Hp. assert (p = 12 ∨ p = 13 ∨ p = 14 ∨ p = 15) as Hcase by lia. by destruct Hcase as [->|[->|[->| ->]]]. }
  revert Hc He. generalize map_cell. intros c Hc He.
  pose proof (Z.div_mod x c ltac:(lia)). pose proof (Z.mod_pos_bound x c ltac:(lia)). lia.
Qed.

Lemma default_channel_total ch : chan_wf ch → is_Some (mqtt_has_default_channel ch).
Proof.
  intros [Hb _ _]. unfold mqtt_has_default_channel. pose proof (base_primary _ Hb) as Hp.
  destruct (meshtastic_channels_get ch _); [|done]. do 2 (case_match; [done|]).
  unfold meshtastic_channels_primary_key, channel_get_key.
  destruct (get_key_fuel 2 ch (Z.to_nat (primary_index ch)) Hb) as (ow & _ & Hk); [lia|lia|].
  rewrite Z2Nat.id in Hk by lia. rewrite Hk. by destruct (own_key ow).
Qed.

Lemma map_report_built `{Kconfig} `{MqttConfig} `{PositionConfig} mt ch data
    (pos := fill_position data) :
  chan_wf ch → ∃ report, mqtt_build_map_report mt ch pos = Some report ∧
    Some (mr_latitude_i report) = cell_centre <$> pos_latitude_i pos ∧
    Some (mr_longitude_i report) = cell_centre <$> pos_longitude_i pos ∧
    mr_position_precision report = mqtt_map_position_precision.
Proof.
  intros Hch. destruct (default_channel_total ch Hch) as [b Hb]. unfold mqtt_build_map_report.
  rewrite Hb. cbn [mbind option_bind]. unfold mqtt_apply_map_position_precision. pose proof map_precision_range.
  rewrite (proj2 (Z.leb_gt 32 _)) by lia. subst pos. cbn [fill_position pos_latitude_i pos_longitude_i].
  assert (∀ z, -2147483648 ≤ i32 z ≤ 2147483647) as Hi.
  { intros z. unfold i32. pose proof (Z.mod_pos_bound (z + 2147483648) 4294967296). lia. }
  cbn. rewrite !map_coarsen_centre by apply Hi. cbn. eexists. by split.
Qed.

(** ** One call *)

Section report_correct.
Context {C K L T : Type} `{KconfigRanges} `{PSALaws K} `{LoraLaws L} `{KernelLaws T}.
Context `{Pb Data} `{!PbLaws Data Data_ok} `{Pb MapReport} `{Pb ServiceEnvelope}.
Context {env_ok : ServiceEnvelope → Prop} `{!PbLaws ServiceEnvelope env_ok}.
Context `{MqttRanges} `{MqttClientLaws C} `{PositionConfig} (fx : fixed).
Notation W := (world K L T).
Notation G := (mqtt C * W)%type.

Lemma queue_publish_wp topic payload l (q : mqtt C) :
  pub_repr q l → (String.length topic < MQTT_TOPIC_SIZE)%nat →
  (length payload ≤ CONFIG_MQTT_TX_BUFFER_SIZE)%nat →
  wp (mqtt_queue_publish topic payload) (λ _ q',
    mq_client q' = mq_client q ∧ pub_repr q' (with_room l ++ [mk_pub topic payload])) q.
Proof.
  intros Hr Ht Hp. unfold mqtt_queue_publish. rewrite (proj2 (Nat.ltb_ge _ _)) by done.
  rewrite wp_bind. eapply wp_mono; [by apply pub_make_room_wp|]. intros _ q1 ((Hc1 & _) & _ & Hr1 & Hroom).
  rewrite wp_bind. eapply wp_mono; [by apply pub_write_wp|].
  intros _ q2 ((Hc2 & _) & _ & Hr2 & e & _ & _ & _ & Hq2).
  rewrite wp_bind. eapply wp_mono; [by apply (pub_commit_wp _ (with_room l) _ Hr2 Hroom Hq2)|].
  intros _ q3 ((Hc3 & _) & _ & Hr3). unfold mqtt_work_notify. wps. cbn.
  unfold set_payload, set_topic in Hr3. cbn [pub_topic] in Hr3. rewrite substring0_id in Hr3 by lia.
  split; [congruence|]. by destruct Hr3.
Qed.

Lemma map_publish_wp now env l (q : mqtt C) (topic := mq_map_topic q) :
  pub_repr q l → (String.length topic < MQTT_TOPIC_SIZE)%nat → (length env ≤ CONFIG_MQTT_TX_BUFFER_SIZE)%nat →
  wp (map_publish now env) (λ _ q', mq_last_map_report_ms q' = now ∧
    (published (mq_client q') = published (mq_client q) ++ [(topic, env)] ∧ pub_repr q' l
     ∨ published (mq_client q') = published (mq_client q) ∧ pub_repr q' (with_room l ++ [mk_pub topic env]))) q.
Proof.
  intros Hr Ht He. unfold map_publish. wps. fold topic. eapply wp_mono; [by apply do_publish_wp|].
  intros ret q1 (Hr1 & Hp1 & _). rewrite wp_bind. destruct (is_err ret); cycle 1.
  { wps. split; [done|]. left. split; [done|]. by destruct Hr1. }
  rewrite app_nil_r in Hp1. eapply wp_mono; [by apply queue_publish_wp|].
  intros _ q2 [Hc2 Hr2]. wps. split; [done|]. right. cbn. split; [by rewrite Hc2|]. by destruct Hr2.
Qed.

(** Whether there is a position to report, and whether a report is due. *)
Definition map_position (w : W) : bool :=
  let p := fill_position (gs_data (gnss w)) in
  MESHTASTIC_HAS_GNSS_ALIAS && gs_has_fix (gnss w)
  && negb (bool_decide (pos_latitude_i p = Some 0 ∧ pos_longitude_i p = Some 0)).
Definition map_due (now : Z) (q : mqtt C) : bool :=
  mq_connected q
  && ((mq_last_map_report_ms q =? 0)
      || (CONFIG_MQTT_MAP_REPORT_INTERVAL_SEC * 1000 <=? now - mq_last_map_report_ms q)).

(** What is published of the node's position: the centre of its cell. *)
Definition shows_cell (report : MapReport) (w : W) : Prop :=
  let p := fill_position (gs_data (gnss w)) in
  ∃ lat lon, pos_latitude_i p = Some lat ∧ pos_longitude_i p = Some lon ∧
    mr_latitude_i report = cell_centre lat ∧ Z.abs (mr_latitude_i report - lat) ≤ map_cell / 2 ∧
    mr_longitude_i report = cell_centre lon ∧ Z.abs (mr_longitude_i report - lon) ≤ map_cell / 2.

(** The gateway after a call that reported nothing, and after one at [now]
    that reported [env]. *)
Definition silent (l : list pub_entry) (q q' : mqtt C) : Prop :=
  pub_repr q' l ∧ published (mq_client q') = published (mq_client q) ∧
  mq_last_map_report_ms q' = mq_last_map_report_ms q.
Definition reported (now : Z) (env : list Z) (l : list pub_entry) (q q' : mqtt C) : Prop :=
  mq_last_map_report_ms q' = now ∧
  (published (mq_client q') = published (mq_client q) ++ [(mq_map_topic q, env)] ∧ pub_repr q' l
   ∨ published (mq_client q') = published (mq_client q) ∧
     pub_repr q' (with_room l ++ [mk_pub (mq_map_topic q) env])).

Lemma no_position_wp now l (q : mqtt C) : pub_repr q l → wp (map_no_position now) (λ _, silent l q) q.
Proof.
  intros Hr. unfold map_no_position. wps. case_if; unfold silent; split_and!; try done; by destruct Hr.
Qed.

Lemma report_now_wp now l (q : mqtt C) (w : W) :
  pub_repr q l → chan_wf (w_channels w) → (String.length (mq_map_topic q) < MQTT_TOPIC_SIZE)%nat →
  wp (map_report_now now) (λ _ s', s'.2 = w ∧
    if map_position w then
      ∃ report, shows_cell report w ∧
        match map_envelope w now report with
        | None => s'.1 = q
        | Some env => reported now env l q s'.1
        end
    else silent l q s'.1) (q, w).
Proof.
  intros Hr Hch Ht. unfold map_report_now, map_position. rewrite wp_bind, wp_on_node. cbn [fst snd].
  unfold meshtastic_gnss_get_last_position.
  assert (wp (on_mqtt (map_no_position now)) (λ _ s', s'.2 = w ∧ silent l q s'.1) ((q, w) : G)) as Hno.
  { rewrite wp_on_mqtt. eapply wp_mono; [by apply no_position_wp|]. done. }
  destruct MESHTASTIC_HAS_GNSS_ALIAS; cbn [negb andb]; wps; [|exact Hno].
  destruct (gs_has_fix (gnss w)); cbn [andb]; [|exact Hno].
  destruct (map_report_built (w_mt w) (w_channels w) (gs_data (gnss w)) Hch) as (report & Hb & Hlat & Hlon & _).
  cbv zeta in *. set (pos := fill_position (gs_data (gnss w))) in *.
  destruct (pos_latitude_i pos) as [lat|] eqn:Elat; [|done].
  destruct (pos_longitude_i pos) as [lon|] eqn:Elon; [|done].
  rewrite !(bool_decide_eq_false_2 (Some _ = None)) by done. cbn [orb].
  destruct (bool_decide (Some lat = Some 0 ∧ Some lon = Some 0)); cbn [negb]; [exact Hno|].
  wps. cbn [snd]. rewrite Hb.
  assert (shows_cell report w) as Hcell.
  { exists lat, lon. cbn in Hlat, Hlon. injection Hlat as ->. injection Hlon as ->.
    split_and!; try done; apply cell_centre_near. }
  destruct (map_envelope w now report) as [env|] eqn:Eenv; cycle 1.
  { wps. split; [done|]. exists report. by rewrite Eenv. }
  rewrite wp_on_mqtt. eapply wp_mono; [eapply map_publish_wp; [done..|]|].
  - unfold map_envelope, mqtt_encode_envelope in Eenv. destruct (pb_encode _ report); [|done].
    destruct (pb_encode CONFIG_MQTT_TX_BUFFER_SIZE _) eqn:Ee; [|done]. injection Eenv as <-.
    by apply (pb_encode_length _ _ _ Ee).
  - intros u q' Hrep. split; [done|]. exists report. split; [done|]. by rewrite Eenv.
Qed.

(** C28: The map report: the gateway reports to the map exactly when it is
    connected, the interval has passed since the last report, and the receiver
    has a position that is not 0, 0; the report then is published on the map
    topic once, or put at the end of the publish queue if that fails, and the
    interval starts anew.  Of the position it shows the centre of a grid cell
    of at least 131072 units of 1e-7 degrees, at most half a cell away, with
    no overflow; a report that does not fit its buffers is not made and the
    next call tries again.  Nothing of the node changes but the clock. *)
Theorem map_report_spec l (q : mqtt C) (w : W) :
  pub_repr q l → world_wf fx w → (String.length (mq_map_topic q) < MQTT_TOPIC_SIZE)%nat →
  131072 ≤ map_cell ∧
  ∃ q' t, mqtt_perhaps_report_to_map (q, w) = Some ((), (q', w <| w_kernel := t |>)) ∧
    if map_due (clock w) q && map_position w then
      ∃ report, shows_cell report w ∧
        match map_envelope w (clock w) report with
        | None => silent l q q'
        | Some env => reported (clock w) env l q q'
        end
    else silent l q q'.
Proof.
  intros Hr HI Ht. split; [apply map_cell_range|].
  set (t := (k_uptime_get (w_kernel w)).2). set (w1 := w <| w_kernel := t |>).
  assert (silent l q q) as Hq by (by split_and!).
  assert (wp mqtt_perhaps_report_to_map (λ _ s', s'.2 = w1 ∧
    if map_due (clock w) q && map_position w then
      ∃ report, shows_cell report w ∧
        match map_envelope w (clock w) report with
        | None => silent l q s'.1
        | Some env => reported (clock w) env l q s'.1
        end
    else silent l q s'.1) (q, w)) as Hw; cycle 1.
  { apply wp_run in Hw as ([] & [q' w'] & Hrun & Ew & Hpost). cbn [fst snd] in *. subst w'. by exists q', t. }
  unfold mqtt_perhaps_report_to_map, map_due. rewrite wp_bind, wp_on_node. cbn [snd fst].
  unfold uptime_get. wps. fold (clock w) t w1. cbn [fst]. change MSEC_PER_SEC with 1000.
  destruct (mq_connected q); cbn [negb andb]; [|by wps]. rewrite Z.leb_antisym.
  destruct (mq_last_map_report_ms q =? 0); cbn [negb andb orb];
    [|destruct (clock w - mq_last_map_report_ms q <? _); cbn [negb andb orb]; [by wps|]];
    (eapply wp_mono; [apply (report_now_wp (clock w) l q w1); [done|apply HI|done]|]);
    intros _ [q' w'] [Ew Hpost]; (split; [done|]);
    change (map_position w1) with (map_position w) in Hpost; (destruct (map_position w); [|done]);
    destruct Hpost as (report & Hcell & Henv); exists report; (split; [exact Hcell|]);
    change (map_envelope w1 (clock w) report) with (map_envelope w (clock w) report) in Henv;
    (destruct (map_envelope w (clock w) report); [done|]); cbn in Henv |- *; by rewrite Henv.
Qed.
End report_correct.

(** ** Witness: node 7 in Grenoble *)

#[local] Existing Instance default_kconfig.
#[local] Existing Instance default_kconfig_ranges.
#[local] Existing Instance default_mqtt_config.
#[local] Existing Instance default_mqtt_ranges.
#[local] Existing Instance default_position_config.
#[local] Instance byte_map_report : Pb MapReport :=
  {| pb_encode n _ := if (1 <=? n)%nat then Some [0] else None; pb_decode _ := None |}.
#[local] Instance byte_envelope : Pb ServiceEnvelope :=
  {| pb_encode n _ := if (1 <=? n)%nat then Some [9] else None; pb_decode _ := None |}.
#[local] Instance byte_envelope_laws : PbLaws ServiceEnvelope (λ _, False).
Proof.
  constructor; [..|done]; intros [|n] x bs Hbs; try done; injection Hbs as <-; [cbn; lia|].
  repeat constructor; lia.
Qed.

Definition mapped_world : world toy_psa mock_lora mock_kernel :=
  (mock_world (mock_radio 0) (mock_clock false))
    <| w_sensing ::= set sn_gnss (λ g, g <| gs_data := grenoble |> <| gs_has_fix := true |>) |>.
Definition mapped_gateway : mqtt mock_client :=
  gateway_bss <| mq_connected := true |> <| mq_map_topic := "msh/EU_868/2/map/" |>.

Lemma map_report_spec_witness :
  ∃ q' t, mqtt_perhaps_report_to_map (mapped_gateway, mapped_world)
      = Some ((), (q', mapped_world <| w_kernel := t |>)) ∧
    reported 5000 [9] [] mapped_gateway q'.
Proof.
  assert (pub_repr mapped_gateway []) as Hr by (by destruct gateway_bss_repr).
  assert (world_wf (mk_fixed ∅ 0 store_bss []) mapped_world) as HI
    by (destruct (mock_world_wf (mock_radio 0) (mock_clock false)); by constructor).
  destruct (map_report_spec (mk_fixed ∅ 0 store_bss []) [] mapped_gateway mapped_world Hr HI) as (_ & q' & t & Hrun & Hpost).
  { vm_compute. lia. }
  exists q', t. split; [exact Hrun|].
  assert (map_due (clock mapped_world) mapped_gateway && map_position mapped_world = true) as Hd by (by vm_compute).
  rewrite Hd in Hpost. destruct Hpost as (report & _ & Henv).
  assert (∀ r, map_envelope mapped_world (clock mapped_world) r = Some [9]) as He by (intros; by vm_compute).
  assert (clock mapped_world = 5000) as Hc by (by vm_compute).
  rewrite He, Hc in Henv. exact Henv.
Defined.
