(* ===== verification/Bridge.v ===== *)
(** * What the gateway does (the properties of Mqtt.v)

    A frame heard by one gateway reaches the air at another unchanged but for
    the mark that it came through a broker, and what carries that mark is not
    uploaded again. *)

From S2P Require Import Prelude Types External Mock Core Airtime Channels NodeDB Wire Store World.
From S2P Require Import Radio Reliable PhoneApi Invariant Send NodeInfo Router Reception Mqtt.

(** ** From air to air *)

(** The message of a frame, and the frame marked as coming from a broker. *)
Definition wire_mesh (wire : list Z) : MeshPacket :=
  match mqtt_mesh_from_wire wire with Ok mesh => mesh | Err _ => MeshPacket_zero end.
Definition via_mqtt (wire : list Z) : list Z :=
  <[12%nat := Z.lor (h_flags (header_of wire)) MESHTASTIC_FLAGS_VIA_MQTT]> wire.

Lemma mesh_from_wire_air wire :
  air_frame wire → mqtt_mesh_from_wire wire = Ok (wire_mesh wire).
Proof.
  intros [_ Hlen]. unfold wire_mesh, mqtt_mesh_from_wire.
  unfold MESHTASTIC_HDR_LEN, MESHTASTIC_PKT_MAX, ENCRYPTED_BYTES_SIZE in *.
  rewrite (proj2 (Nat.ltb_ge _ _)) by lia. by rewrite (proj2 (Nat.ltb_ge _ _)) by (rewrite length_drop; lia).
Qed.

Lemma bridged_flags flags :
  is_u8 flags → flags_hop_limit flags ≠ 0 → flags_hop_start flags ≠ 0 →
  header_flags (Z.land flags 7) (Z.land (Z.shiftr flags 5) 7) (negb (Z.land flags 8 =? 0)) true
    = Z.lor flags MESHTASTIC_FLAGS_VIA_MQTT ∧
  is_u8 (Z.land flags 7) ∧ Z.land flags 7 ≠ 0 ∧
  is_u8 (Z.land (Z.shiftr flags 5) 7) ∧ Z.land (Z.shiftr flags 5) 7 ≠ 0.
Proof.
  refine (byte_forall (λ flags, flags_hop_limit flags ≠ 0 → flags_hop_start flags ≠ 0 →
    header_flags (Z.land flags 7) (Z.land (Z.shiftr flags 5) 7) (negb (Z.land flags 8 =? 0)) true
      = Z.lor flags MESHTASTIC_FLAGS_VIA_MQTT ∧
    is_u8 (Z.land flags 7) ∧ Z.land flags 7 ≠ 0 ∧
    is_u8 (Z.land (Z.shiftr flags 5) 7) ∧ Z.land (Z.shiftr flags 5) 7 ≠ 0) flags _).
  by vm_compute.
Qed.

(** The message as the receiving gateway injects it. *)
Definition injected (wire : list Z) : MeshPacket :=
  (wire_mesh wire) <| m_via_mqtt := true |> <| m_transport := Transport_MQTT |>.

(** A frame with its hop counts set, from a node to a node, of a channel whose
    hash is not a slot index. *)
Definition bridgeable (wire : list Z) : Prop :=
  let h := header_of wire in
  h_src h ≠ 0 ∧ h_dest h ≠ 0 ∧ h_dest h ≠ MESHTASTIC_NODE_BROADCAST ∧ h_id h ≠ 0 ∧
  MESHTASTIC_MAX_CHANNELS ≤ h_channel h ∧ flags_hop_limit (h_flags h) ≠ 0 ∧
  flags_hop_start (h_flags h) ≠ 0.

Lemma header_flags_byte wire : air_frame wire → is_u8 (h_flags (header_of wire)).
Proof.
  intros [Hok Hlen]. unfold MESHTASTIC_HDR_LEN in Hlen. open_frame wire. cbn.
  by apply (Forall_lookup_1 _ _ 12 _ Hok).
Qed.

(** A frame is its header and its payload. *)
Lemma frame_rebuild wire f :
  air_frame wire →
  header_bytes ((header_of wire) <| h_flags := f |>) ++ drop MESHTASTIC_HDR_LEN wire
    = <[12%nat := f]> wire.
Proof.
  intros [Hok Hlen]. unfold MESHTASTIC_HDR_LEN in *. open_frame wire. clear Hlen.
  unfold bytes_ok in Hok. repeat (apply Forall_cons in Hok as [? Hok]).
  unfold header_bytes. cbn [h_dest h_src h_id h_flags h_channel h_next_hop h_relay_node set header_of
    drop lookup list_lookup default get_le32].
  cbn -[Z.mul Z.add Z.div Z.modulo le32].
  pose proof le32_get_le32 as Hle. cbn [get_le32] in Hle. by rewrite !Hle.
Qed.

(** The header [meshtastic_send_mesh_pb] gives the injected message. *)
Lemma bridged_header mt ch wire (m := injected wire) (h := header_of wire) :
  air_frame wire → bridgeable wire →
  encrypted_header mt ch m (m_id m) (u8 (m_hop_limit m)) (u8 (m_hop_start m)) =
    h <| h_flags := Z.lor (h_flags h) MESHTASTIC_FLAGS_VIA_MQTT |>.
Proof.
  intros Hair (Hs & Hd & Hb & Hi & Hch & Hhl & Hhs).
  destruct (bridged_flags _ (header_flags_byte wire Hair) Hhl Hhs) as (Hf & Hu1 & _ & Hu2 & _).
  assert (is_u8 (h_channel h) ∧ is_u8 (h_next_hop h) ∧ is_u8 (h_relay_node h)) as (Hc & Hn & Hr).
  { destruct Hair as [Hok Hlen]. unfold MESHTASTIC_HDR_LEN in Hlen. subst h. open_frame wire. cbn.
    split_and!; [by apply (Forall_lookup_1 _ _ 13 _ Hok)|by apply (Forall_lookup_1 _ _ 14 _ Hok)
      |by apply (Forall_lookup_1 _ _ 15 _ Hok)]. }
  subst m. unfold injected, wire_mesh, mqtt_mesh_from_wire. fold h in Hs, Hch, Hf, Hu1, Hu2, Hd |- *.
  destruct Hair as [_ Hlen]. unfold MESHTASTIC_HDR_LEN, MESHTASTIC_PKT_MAX, ENCRYPTED_BYTES_SIZE in *.
  rewrite (proj2 (Nat.ltb_ge _ _)) by lia. cbv zeta.
  rewrite (proj2 (Nat.ltb_ge _ _)) by (rewrite length_drop; lia). clear Hlen. clearbody h.
  unfold encrypted_header, encrypted_wire_hash. cbn [set m_to m_from m_id m_hop_limit m_hop_start
    m_want_ack m_via_mqtt m_channel m_next_hop m_relay_node MeshPacket_zero].
  unfold MESHTASTIC_MAX_CHANNELS in *.
  rewrite (proj2 (Z.ltb_ge (h_channel h) 8)) by done.
  rewrite (proj2 (Z.eqb_neq (h_channel h) 0)) by lia.
  rewrite (proj2 (Z.eqb_neq (h_dest h) 0)), (proj2 (Z.eqb_neq (h_src h) 0)) by done.
  cbn [negb]. rewrite !u8_id by done. rewrite Hf. by destruct h.
Qed.

Lemma injected_fields wire (m := injected wire) (h := header_of wire) :
  air_frame wire →
  m_variant m = PV_encrypted (drop MESHTASTIC_HDR_LEN wire) ∧ m_from m = h_src h ∧
  m_to m = h_dest h ∧ m_id m = h_id h ∧ m_hop_limit m = Z.land (h_flags h) 7 ∧
  m_hop_start m = Z.land (Z.shiftr (h_flags h) 5) 7.
Proof.
  intros [_ Hlen]. subst m. unfold injected, wire_mesh, mqtt_mesh_from_wire. fold h.
  unfold MESHTASTIC_HDR_LEN, MESHTASTIC_PKT_MAX, ENCRYPTED_BYTES_SIZE in *.
  rewrite (proj2 (Nat.ltb_ge _ _)) by lia. cbv zeta.
  by rewrite (proj2 (Nat.ltb_ge _ _)) by (rewrite length_drop; lia).
Qed.

Section bridge.
Context {C K L T : Type} `{KconfigRanges} `{PSALaws K} `{LoraLaws L} `{KernelLaws T} `{Libc}.
Context `{Pb Data} `{!PbLaws Data Data_ok} `{Pb FromRadio} `{Pb Routing}.
Context {env_ok : ServiceEnvelope → Prop} `{Pb ServiceEnvelope} `{!PbLaws ServiceEnvelope env_ok}.
Context `{MqttRanges} `{MqttClientLaws C}.
Notation W := (world K L T).

(** What [mqtt_handle_publish] asks of an envelope that carries [wire]. *)
Definition gateway_accepts (w : W) (wire : list Z) (channel_id gateway_id : string) : Prop :=
  mt_initialized (w_mt w) = true ∧
  meshtastic_channels_matches_mqtt_name (w_channels w) (Some channel_id) = true ∧
  meshtastic_channels_downlink_enabled (w_channels w)
    (meshtastic_channels_primary_index (w_channels w)) = true ∧
  gateway_id ≠ node_id_string (mt_node_id (w_mt w)) ∧
  h_src (header_of wire) ≠ mt_node_id (w_mt w) ∧ h_dest (header_of wire) ≠ mt_node_id (w_mt w) ∧
  (h_src (header_of wire), h_id (header_of wire)) ∉ mt_dup_cache (w_mt w).

Lemma downlink_injects w wire cid gid :
  CONFIG_MQTT_ENCRYPTION_ENABLED = true → air_frame wire → gateway_accepts w wire cid gid →
  downlink_mesh (w_channels w) (mt_node_id (w_mt w))
    (mk_envelope (Some (wire_mesh wire)) (Some cid) (Some gid)) = Some (injected wire).
Proof.
  intros Henc Hair (_ & Hname & Hdown & Hgid & Hsrc & _).
  destruct (injected_fields wire Hair) as (Hv & Hf & _). unfold downlink_mesh. cbn [env_channel_id env_gateway_id env_packet].
  rewrite Hname, Hdown. cbn [negb]. rewrite bool_decide_false by done.
  change (m_from (wire_mesh wire)) with (m_from (injected wire)).
  rewrite Hf, (proj2 (Z.eqb_neq _ _)) by done. unfold meshtastic_mesh_packet_copy. cbv zeta.
  fold (injected wire). change (is_decoded (wire_mesh wire)) with (is_decoded (injected wire)).
  unfold is_decoded. by rewrite Hv, andb_false_r.
Qed.

Context (mods : list (module K L T)) (fx : fixed).

(** A packet that came through a broker is not uploaded. *)
Lemma call_via (call : uplink_call) (q : mqtt C) :
  p_via_mqtt (up_packet call) = true → call_message q call = None.
Proof.
  intros Hv. unfold call_message. case_if; [|done]. destruct (up_wire call); [|done]. cbn.
  unfold uplink_message, uploadable. rewrite bool_decide_false; [done|]. rewrite Hv. naive_solver.
Qed.

(** C26: two gateways with encryption on join two meshes for direct messages: a
    frame between two other nodes (no broadcast) that still has hops left, with
    a starting hop count and a channel hash of 8 or more ([bridgeable]), which
    one gateway uploads, is transmitted by a gateway that accepts its envelope,
    after what was already queued there, and byte for byte the same but for the
    flag that says it came through a broker: addresses, identifier, hop counts,
    channel hash and payload are those of the frame heard.  It is on the air
    when that transmission succeeds.  The gateway that sends it does not upload
    it again. *)
Theorem gateway_bridge wire p (q : mqtt C) (na : node_view) (w : W) topic env
    (cid := runtime_channel_name (nv_channels na))
    (gid := node_id_string (nv_node_id na)) :
  CONFIG_MQTT_ENCRYPTION_ENABLED = true → CONFIG_MQTT_DOWNLINK_ENABLED = true →
  air_frame wire → bridgeable wire → world_wf fx w →
  uplink_message q na p wire = Some (topic, Some env) →
  env_ok (mk_envelope (Some (wire_mesh wire)) (Some cid) (Some gid)) →
  gateway_accepts w wire cid gid →
  ∃ ret rets calls w1 w', mqtt_handle_publish mods env w = Some ((), w') ∧
    meshtastic_radio_send_wire_wait (via_mqtt wire) K_FOREVER
      (w <| w_mt ::= dup_add (h_src (header_of wire)) (h_id (header_of wire)) |>) = Some (ret, w1) ∧
    w' = w1 <| w_uplinks := w_uplinks w ++ calls |> ∧
    on_air (w_lora w') = on_air (w_lora w) ++ sent_of (out_queue (w_outbound w)) rets ++
      (if is_err ret then [] else [via_mqtt wire]) ∧
    ∀ q' : mqtt C, Forall (λ c, call_message q' c = None) calls.
Proof.
  intros Henc Hdown Hair Hb HI Hup Hok Hacc.
  assert (pb_decode env = Some (mk_envelope (Some (wire_mesh wire)) (Some cid) (Some gid))) as Hdec.
  { unfold uplink_message in Hup. case_if_in Hup; [|done]. rewrite Henc, (mesh_from_wire_air _ Hair) in Hup.
    fold cid gid in Hup. injection Hup as _ Hbs. by eapply pb_decode_encode. }
  pose proof (downlink_injects w wire cid gid Henc Hair Hacc) as Hinj.
  destruct (injected_fields wire Hair) as (Hv & Hf & Ht & Hi & Hhl & Hhs).
  pose proof Hb as (Hs & Hd & Hbc & Hid & Hch & Hl0 & Hs0).
  destruct (bridged_flags _ (header_flags_byte wire Hair) Hl0 Hs0) as (_ & Hu1 & Hn1 & Hu2 & Hn2).
  assert (frame_ok (via_mqtt wire)) as Hfok.
  { destruct Hair as [_ Hlen]. unfold frame_ok, via_mqtt.
    rewrite length_insert. unfold MESHTASTIC_HDR_LEN in Hlen. lia. }
  set (w0 := w <| w_mt ::= dup_add (h_src (header_of wire)) (h_id (header_of wire)) |>).
  destruct (proj1 (wp_run _ _ _) (enqueue_forever_wp (via_mqtt wire) w0 Hfok (ww_outbound _ _ HI)))
    as (ret & w1 & Hsend & rets & _ & [_ _ _ _ _ _ _ _ _ _ Hul] & _ & Hon & _). cbn in Hul, Hon.
  cut (wp (mqtt_handle_publish mods env) (λ _ w', ∃ calls, w' = w1 <| w_uplinks := w_uplinks w ++ calls |> ∧
    ∀ q' : mqtt C, Forall (λ c, call_message q' c = None) calls) w).
  { intros ([] & w' & Hrun & calls & -> & Hcalls)%wp_run. by eexists ret, rets, calls, w1, _. }
  unfold mqtt_handle_publish. rewrite Hdown, Hdec. cbn [negb]. wps. cbn [id]. rewrite Hinj. wps.
  unfold meshtastic_inject_downlink_mesh_packet. wps.
  destruct Hacc as (Hinit & _ & _ & _ & Hsrc & Hdest & Hdup). rewrite Hinit. cbn [negb]. cbv zeta.
  unfold meshtastic_mesh_packet_copy.
  change ((injected wire) <| m_via_mqtt := true |> <| m_transport := Transport_MQTT |>) with (injected wire).
  rewrite Hf, Ht, Hi. wps. apply dup_check_fresh; [done|]. wps. unfold dup_add_. wps.
  rewrite (proj2 (Z.eqb_neq _ (mt_node_id (w_mt w)))) by done.
  rewrite (proj2 (Z.eqb_neq _ MESHTASTIC_NODE_BROADCAST)) by done. cbn [negb andb orb].
  rewrite Hhl, (proj2 (Z.eqb_neq _ 0)) by done. cbn [andb].
  rewrite orb_false_r, (proj2 (Z.ltb_lt _ _)) by (unfold is_u8 in *; lia).
  unfold meshtastic_send_mesh_pb. rewrite Hv. unfold meshtastic_radio_send_wire_wait.
  assert (length (drop MESHTASTIC_HDR_LEN wire) ≤ MESHTASTIC_PAYLOAD_MAX)%nat as Hpl.
  { destruct Hair as [_ Hlen]. rewrite length_drop.
    unfold MESHTASTIC_HDR_LEN, MESHTASTIC_PKT_MAX, MESHTASTIC_PAYLOAD_MAX in *. lia. }
  rewrite (proj2 (Nat.ltb_ge _ _)) by done. wps. unfold mesh_id. rewrite Hi.
  rewrite (proj2 (Z.eqb_neq _ 0)) by done. cbn [negb]. wps.
  rewrite wp_within. split; [by apply wire_room, Nat.ltb_ge|]. wps.
  rewrite Hhl, Hhs, !(proj2 (Z.eqb_neq _ 0)) by done.
  rewrite <-Hi, <-Hhl, <-Hhs, bridged_header, frame_rebuild by done. fold (via_mqtt wire).
  replace (set w_mt (dup_add (h_src (header_of wire)) (m_id (injected wire))) w) with w0
    by (unfold w0; by rewrite Hi).
  unfold wp at 1. rewrite Hsend.
  destruct ret as [[]|e]; cbn [is_err] in *; [unfold mqtt_hook; case_if|]; wps.
  - eexists [_]. split; [unfold set; cbn; by rewrite Hul|]. intros n.
    apply Forall_singleton. by apply call_via.
  - exists []. rewrite app_nil_r, <- Hul. split; [by destruct w1|done].
  - exists []. rewrite app_nil_r, <- Hul. split; [by destruct w1|done].
Qed.

(** ** What came through a broker is not uploaded *)

Lemma via_mqtt_flag wire :
  air_frame wire → flags_via_mqtt (h_flags (header_of (via_mqtt wire))) = true.
Proof.
  intros Hair. pose proof (header_flags_byte wire Hair) as Hu. unfold via_mqtt.
  assert (h_flags (header_of (<[12%nat := Z.lor (h_flags (header_of wire)) MESHTASTIC_FLAGS_VIA_MQTT]> wire))
    = Z.lor (h_flags (header_of wire)) MESHTASTIC_FLAGS_VIA_MQTT) as ->.
  { unfold header_of at 1. cbn [h_flags]. rewrite list_lookup_insert_eq; [done|].
    destruct Hair as [_ Hlen]. unfold MESHTASTIC_HDR_LEN in Hlen. lia. }
  revert Hu. generalize (h_flags (header_of wire)). intros flags.
  refine (byte_forall (λ flags, flags_via_mqtt (Z.lor flags MESHTASTIC_FLAGS_VIA_MQTT) = true) flags _).
  by vm_compute.
Qed.

Lemma decoded_via `{PeerDirectory D} (db : D) st p0 buf rssi snr n (k k' : K) p d :
  meshtastic_try_decode_wire_packet db st p0 (Some buf) rssi snr n k = Some (Ok (p, d), k') →
  p_via_mqtt p = flags_via_mqtt (h_flags (header_of buf)).
Proof.
  unfold meshtastic_try_decode_wire_packet. destruct (Nat.ltb_spec (length buf) MESHTASTIC_HDR_LEN); [done|].
  rewrite read_header_bind by done. cbv zeta. case_if.
  { by intros [= <- _ _]. }
  unfold mbind, M_bind. destruct (try_decrypt_wire_hash _ _ _ _ _ k) as [[[[data ch]|e] k1]|];
    [|by intros [= <- _ _]|done].
  rewrite copy_data_payload_eq. unfold mret, M_ret. repeat case_match; try done; by intros [= <- _ _].
Qed.

Lemma uplink_via node p wire (q : mqtt C) :
  p_via_mqtt p = true → mqtt_queue_uplink node (Some p) (Some wire) q = Some ((), q).
Proof.
  intros Hv. unfold mqtt_queue_uplink. case_if; [done|].
  unfold uplink_allowed. by rewrite Hv, andb_false_r.
Qed.

(** No loop through the broker: whatever the gateway takes from an
    envelope is marked as coming from a broker, is not the node's own packet
    and, with encryption on, is still encrypted; and a packet with that mark,
    as any node decodes it from the frame the gateway put on the air, is not
    uploaded by either hook. *)
Theorem no_echo `{PeerDirectory D} (db : D) st p0 wire rssi snr n (k k' : K) p d
    (node : node_view) (q : mqtt C) :
  (∀ env m, downlink_mesh (nv_channels node) (nv_node_id node) env = Some m →
    m_via_mqtt m = true ∧ m_from m ≠ nv_node_id node ∧
    (CONFIG_MQTT_ENCRYPTION_ENABLED = true → is_decoded m = false)) ∧
  (air_frame wire →
   meshtastic_try_decode_wire_packet db st p0 (Some (via_mqtt wire)) rssi snr n k = Some (Ok (p, d), k') →
   ∀ frame, meshtastic_mqtt_on_rx node (Some p) (Some frame) q = Some ((), q) ∧
     meshtastic_mqtt_on_tx node (Some p) (Some frame) q = Some ((), q)).
Proof.
  split.
  - intros env m. unfold downlink_mesh. destruct (env_channel_id env), (env_gateway_id env), (env_packet env) as [mesh|]; try done.
    repeat (case_if; [done|]). intros [= <-]. unfold meshtastic_mesh_packet_copy.
    set (inj := mesh <| m_via_mqtt := true |> <| m_transport := Transport_MQTT |>).
    change (is_decoded mesh) with (is_decoded inj) in *. boolp.
    split_and!; [by case_if..|]. intros Henc. rewrite Henc in *.
    destruct (is_decoded inj) eqn:Ed; [naive_solver|done].
  - intros Hair Hdec frame. pose proof (decoded_via _ _ _ _ _ _ _ _ _ _ _ Hdec) as Hv.
    rewrite via_mqtt_flag in Hv by done.
    unfold meshtastic_mqtt_on_rx, meshtastic_mqtt_on_tx.
    split; (case_if; [done|]; case_if; [done|]; by apply uplink_via).
Qed.
End bridge.

(** ** Witnesses: a frame for node 32, heard by node 7, goes on the air at node 8 *)

#[local] Existing Instance default_kconfig.
#[local] Existing Instance default_kconfig_ranges.
#[local] Existing Instance default_mqtt_config.
#[local] Existing Instance default_mqtt_ranges.

Definition passing_frame : list Z :=
  [32; 0; 0; 0; 9; 0; 0; 0; 55; 0; 0; 0; 0x63; 8; 0; 0; 1; 2; 3].
Lemma passing_air : air_frame passing_frame.
Proof.
  split; [by apply (bool_decide_unpack _); vm_compute|].
  cbn. unfold MESHTASTIC_HDR_LEN, MESHTASTIC_PKT_MAX. lia.
Qed.
Definition passing_envelope : ServiceEnvelope :=
  mk_envelope (Some (wire_mesh passing_frame)) (Some "LongFast") (Some "!00000007").
#[local] Instance passing_codec : Pb ServiceEnvelope := table_pb [passing_envelope].
#[local] Instance passing_codec_laws : PbLaws ServiceEnvelope (λ x, x ∈ [passing_envelope]) :=
  table_pb_laws [passing_envelope].
#[local] Instance bridge_FromRadio : Pb FromRadio := pb_silent FromRadio.
Definition far_world : world toy_psa mock_lora mock_kernel :=
  hearing_world <| w_mt ::= set mt_node_id (λ _, 8) |>.

Lemma gateway_bridge_witness :
  ∃ (ret : result ()) rets calls w', mqtt_handle_publish [] [0] far_world = Some ((), w') ∧
    mock_air (w_lora w') = sent_of [] rets ++ (if is_err ret then [] else
      [[32; 0; 0; 0; 9; 0; 0; 0; 55; 0; 0; 0; 0x73; 8; 0; 0; 1; 2; 3]]) ∧
    w_uplinks w' = calls ∧ Forall (λ c, call_message gateway_bss c = None) calls.
Proof.
  destruct (gateway_bridge [] (mk_fixed ∅ 1 store_bss []) passing_frame
    (fill_packet_from_header (header_of passing_frame) (-80) 6 packet_zero) gateway_bss (view_of hearing_world)
    far_world "msh/EU_868/2/e/LongFast/!00000007" [0]) as (ret & rets & calls & w1 & w' & Hrun & _ & Hw' & Hair & Hno).
  - done.
  - done.
  - apply passing_air.
  - by apply (bool_decide_unpack _); vm_compute.
  - destruct hearing_world_wf. by constructor.
  - by vm_compute.
  - apply list_elem_of_singleton. by vm_compute.
  - by apply (bool_decide_unpack _); vm_compute.
  - exists ret, rets, calls, w'. split; [exact Hrun|]. split; [|split; [by rewrite Hw'|apply Hno]].
    change (mock_air (w_lora w')) with (on_air (w_lora w')). rewrite Hair.
    assert (on_air (w_lora far_world) = []) as -> by (by vm_compute).
    assert (out_queue (w_outbound far_world) = []) as -> by (by vm_compute).
    assert (via_mqtt passing_frame = [32; 0; 0; 0; 9; 0; 0; 0; 55; 0; 0; 0; 0x73; 8; 0; 0; 1; 2; 3])
      as -> by (by vm_compute). reflexivity.
Defined.

(** Node 9 hears that frame; it has no key for it. *)
Lemma no_echo_witness :
  ∃ p k', meshtastic_try_decode_wire_packet (D:=nodedb) (w_nodedb hearing_world) default_table
      packet_zero (Some (via_mqtt passing_frame)) (-80) 6 233 (w_psa hearing_world) = Some (Ok (p, false), k') ∧
    meshtastic_mqtt_on_rx (view_of hearing_world) (Some p) (Some (via_mqtt passing_frame)) gateway_bss
      = Some ((), gateway_bss).
Proof.
  assert (∃ p k', meshtastic_try_decode_wire_packet (D:=nodedb) (w_nodedb hearing_world) default_table
    packet_zero (Some (via_mqtt passing_frame)) (-80) 6 233 (w_psa hearing_world) = Some (Ok (p, false), k'))
    as (p & k' & Hrun) by (do 2 eexists; vm_compute; reflexivity).
  destruct (no_echo (w_nodedb hearing_world) default_table packet_zero passing_frame (-80) 6 233
    (w_psa hearing_world) k' p false (view_of hearing_world) gateway_bss) as [_ Hup].
  exists p, k'. split; [exact Hrun|]. apply (Hup passing_air Hrun).
Defined.

(** An envelope whose packet has sender 0 passes the test for the node's own
    packets, and the node sends it under its own number. *)
#[local] Instance zero_codec : Pb ServiceEnvelope := {|
  pb_encode _ _ := None;
  pb_decode _ := Some (mk_envelope (Some ((wire_mesh passing_frame) <| m_from := 0 |>))
    (Some "LongFast") (Some "!00000007"))
|}.
Lemma zero_sender_is_us :
  ∃ w', mqtt_handle_publish [] [0] far_world = Some ((), w') ∧
    mock_air (w_lora w') = [[32; 0; 0; 0; 8; 0; 0; 0; 55; 0; 0; 0; 0x73; 8; 0; 0; 1; 2; 3]].
Proof. eexists. by split; [vm_compute; reflexivity|]. Qed.
