(* ===== verification/MqttSession.v ===== *)
(** * The gateway's connection (src/meshtastic_mqtt.c)

    The broker connection as the MQTT thread drives it: connecting, the
    client's events, the network's events, and the thread's loop, in the build
    without the map report.  The client library, the sockets and the network
    interface are parameters.  The theorem is that of the whole gateway: under
    any history its messages reach the broker in the order of upload, none
    twice, and the node's invariant holds; it is for builds without the map
    report, which is published ahead of the queue (MapReport.v). *)

From stdpp Require Import pretty.
From S2P Require Import Prelude Types External Mock Core Airtime Channels NodeDB Wire Store World.
From S2P Require Import Radio Reliable PhoneApi Invariant Send NodeInfo Router Telemetry Position Reception Node Mqtt Uplink MapReport.

Definition MQTT_NET_WAIT_MS : Z := 2000.
Definition MQTT_PUBLISH_BUDGET_PER_LOOP : nat := 2.
Definition MQTT_PUBLISH_BUDGET_ON_CONNECT : nat := 8.
(** Array sizes: [crypt_prefix], [client_id]. *)
Definition MQTT_PREFIX_SIZE : nat := 64.
Definition MQTT_CLIENT_ID_SIZE : nat := 16.

(** [struct mqtt_evt], what the handler looks at. *)
Inductive mqtt_evt :=
  | EVT_CONNACK (result : Z)
  | EVT_DISCONNECT
  | EVT_PUBLISH (topic_size : nat) (at_least_once : bool) (message_id : Z)
  | EVT_OTHER.
(** [mqtt_net_event_handler]'s events. *)
Inductive mgmt_event := IPV4_ADDR_ADD | IPV4_ADDR_DEL | NET_EVENT_OTHER.

(** The client library, the sockets below it and the network interface.  The
    flag of a call is as that of [mqtt_publish]; [mqtt_input] raises any
    events.  [zsock_getaddrinfo] gives its code and, if the result list is not
    NULL, the first address, which may be NULL; [zsock_poll] its code and
    whether [ZSOCK_POLLIN] is set. *)
Class Broker (C : Type) := {
  mqtt_client_init : string → string → string → C → C;
  mqtt_connect : C → (result () * bool) * C;
  mqtt_input : C → (result () * list mqtt_evt) * C;
  mqtt_live : C → (result () * bool) * C;
  mqtt_disconnect : C → (result () * bool) * C;
  mqtt_abort : C → (result () * bool) * C;
  mqtt_subscribe : string → C → (result () * bool) * C;
  mqtt_read_publish_payload : nat → C → (result (list Z) * bool) * C;
  mqtt_publish_qos1_ack : Z → C → (result () * bool) * C;
  client_sock : C → Z;
  zsock_poll : Z → C → (Z * bool) * C;
  zsock_getaddrinfo : string → string → C → (Z * option (option (list Z))) * C;
  sockaddr_storage_size : nat;
  net_if_get_default : C → bool;
  net_if_is_up : C → bool;
  net_if_ipv4_get_global_addr : C → bool
}.
(** Only [mqtt_publish] publishes. *)
Class BrokerLaws (C : Type) `{MqttClientLaws C} `{!Broker C} := {
  init_published i u p c : published (mqtt_client_init i u p c) = published c;
  connect_published c : published (mqtt_connect c).2 = published c;
  input_published c : published (mqtt_input c).2 = published c;
  live_published c : published (mqtt_live c).2 = published c;
  disconnect_published c : published (mqtt_disconnect c).2 = published c;
  abort_published c : published (mqtt_abort c).2 = published c;
  subscribe_published t c : published (mqtt_subscribe t c).2 = published c;
  read_published n c : published (mqtt_read_publish_payload n c).2 = published c;
  ack_published i c : published (mqtt_publish_qos1_ack i c).2 = published c;
  poll_published t c : published (zsock_poll t c).2 = published c;
  resolve_published h p c : published (zsock_getaddrinfo h p c).2 = published c
}.

(** ** The network *)

Section link.
Context {C : Type} `{MqttConfig} `{MqttClient C} `{Broker C}.
Notation Q := (mqtt C).

Definition mqtt_net_event_handler (mgmt_event : mgmt_event) : M Q () :=
  match mgmt_event with
  | IPV4_ADDR_ADD => modify (set mq_net_has_ipv4 (λ _, true))
  | IPV4_ADDR_DEL =>
      modify (λ q, q <| mq_net_has_ipv4 := false |> <| mq_disconnect_pending := true |>)
  | NET_EVENT_OTHER => mret ()
  end.

Definition mqtt_iface_has_global_ipv4 (c : C) : bool :=
  if negb (net_if_get_default c) || negb (net_if_is_up c) then false
  else net_if_ipv4_get_global_addr c.
Definition mqtt_network_is_ready (q : Q) : bool :=
  mq_net_has_ipv4 q && mqtt_iface_has_global_ipv4 (mq_client q).

(** The transport is [MQTT_TRANSPORT_NON_SECURE], as [mqtt_client_configure]
    sets it. *)
Definition mqtt_prepare_fds : M Q () :=
  modify (λ q, q <| mq_polled := 0 <=? client_sock (mq_client q) |>).

Definition mqtt_handle_disconnect_pending : M Q () :=
  q ← gets id;
  if negb (mq_disconnect_pending q) then mret ()
  else
    modify (set mq_disconnect_pending (λ _, false)) ;;
    if negb (mq_connected q) then mret ()
    else
      client_call mqtt_disconnect ;;
      modify (set mq_connected (λ _, false)) ;;
      mqtt_clear_fds.

Definition mqtt_poll_socket (timeout_ms : Z) : M Q (Z * bool) :=
  polled ← gets mq_polled;
  if negb polled then mret (0, false) else zoom mq_client (state (zsock_poll timeout_ms)).

Definition mqtt_resolve_broker : M Q (result ()) :=
  r ← zoom mq_client (state (zsock_getaddrinfo CONFIG_MQTT_BROKER_HOST
        (pretty CONFIG_MQTT_BROKER_PORT)));
  let '(rc, result) := r in
  if negb (rc =? 0) then mret (Err ENOENT)
  else
    match result with
    | Some (Some addr) =>
        if (sockaddr_storage_size <? length addr)%nat then mret (Err ENOMEM)
        else modify (set mq_broker (λ _, addr)) ;; mret (Ok ())
    | _ => mret (Err ENOENT)
    end.

Definition mqtt_client_configure : M Q () :=
  id ← gets mq_client_id;
  zoom mq_client (modify (mqtt_client_init id CONFIG_MQTT_USERNAME CONFIG_MQTT_PASSWORD)).
End link.

(** ** The session *)

Section session.
Context {C K L T : Type} `{Kconfig} `{PSA K} `{LoraDriver L} `{Kernel T} `{Libc}.
Context `{Pb Data} `{Pb FromRadio} `{Pb Routing} `{Pb ServiceEnvelope} `{Pb MapReport}.
Context `{MqttConfig} `{MqttClient C} `{!Broker C} `{PositionConfig}.
Notation W := (world K L T).
Notation G := (mqtt C * W)%type.
Context (mods : list (module K L T)).

Definition mqtt_on_publish_evt (topic_size : nat) (at_least_once : bool) (message_id : Z)
    : M G () :=
  if (MQTT_TOPIC_SIZE <=? topic_size)%nat then mret ()
  else
    rc ← on_mqtt (client_call (mqtt_read_publish_payload CONFIG_MQTT_RX_BUFFER_SIZE));
    match rc with
    | Err _ => mret ()
    | Ok payload =>
        with_hooks (mqtt_handle_publish mods payload) ;;
        if at_least_once
        then on_mqtt (client_call (mqtt_publish_qos1_ack message_id)) ;; mret ()
        else mret ()
    end.

Definition mqtt_evt_handler (evt : mqtt_evt) : M G () :=
  match evt with
  | EVT_CONNACK result =>
      if negb (result =? 0) then on_mqtt (modify (set mq_connected (λ _, false)))
      else
        on_mqtt (modify (set mq_connected (λ _, true)) ;; mqtt_prepare_fds) ;;
        mqtt_drain_queue MQTT_PUBLISH_BUDGET_ON_CONNECT ;;
        on_mqtt mqtt_work_notify
  | EVT_DISCONNECT => on_mqtt on_disconnect
  | EVT_PUBLISH topic_size at_least_once message_id =>
      mqtt_on_publish_evt topic_size at_least_once message_id
  | EVT_OTHER => mret ()
  end.

(** [mqtt_input] and the events it raises. *)
Definition client_input : M G (result ()) :=
  r ← on_mqtt (zoom mq_client (state mqtt_input));
  mapM_ mqtt_evt_handler r.2 ;;
  mret r.1.

Definition mqtt_subscribe_downlink : M G (result ()) :=
  s ← gets (S:=G) id;
  let '(ret, topic) := mqtt_build_subscribe_topic (w_channels s.2) s.1 in
  on_mqtt (modify (set mq_sub_topic (λ _, topic))) ;;
  if (MQTT_TOPIC_SIZE <=? ret)%nat then mret (Err EINVAL)
  else on_mqtt (client_call (mqtt_subscribe topic)).

Definition mqtt_try_connect : M G (result ()) :=
  on_mqtt mqtt_client_configure ;;
  ret ← on_mqtt (client_call mqtt_connect);
  match ret with
  | Err e => mret (Err e)
  | Ok _ =>
      on_mqtt mqtt_prepare_fds ;;
      r ← on_mqtt (mqtt_poll_socket 5000);
      (if 0 <? r.1 then client_input ;; mret () else mret ()) ;;
      q ← gets (S:=G) fst;
      if negb (mq_connected q) then
        on_mqtt (client_call mqtt_abort) ;; mret (Err ENOTCONN)
      else if CONFIG_MQTT_DOWNLINK_ENABLED then
        ret ← mqtt_subscribe_downlink;
        match ret with
        | Err e =>
            on_mqtt (client_call mqtt_disconnect) ;;
            on_mqtt (modify (set mq_connected (λ _, false))) ;;
            mret (Err e)
        | Ok _ => mret (Ok ())
        end
      else mret (Ok ())
  end.

Definition mqtt_process_once (timeout_ms : Z) : M G (result ()) :=
  q ← gets (S:=G) fst;
  if negb (mq_connected q) then mret (Err ENOTCONN)
  else
    r ← on_mqtt (mqtt_poll_socket timeout_ms);
    if (0 <? r.1) && r.2 then client_input
    else if r.1 =? 0 then
      ret ← on_mqtt (client_call mqtt_live);
      match ret with
      | Err e => if decide (e = EAGAIN) then mret (Ok ()) else mret (Err e)
      | Ok _ => mret (Ok ())
      end
    else mret (Ok ()).

(** [k_sem_take(&mqtt_work_sem, K_MSEC(200))], its result ignored: a unit is
    taken at once, without one the thread sleeps. *)
Definition work_wait : M G () :=
  q ← gets (S:=G) fst;
  if mq_work_sem q then on_mqtt (modify (set mq_work_sem (λ _, false))) else on_node (sleep 200).

(** One round of the loop of [mqtt_thread_fn]; a [continue] ends the round. *)
Definition mqtt_connected_round : M G () :=
  q ← gets (S:=G) fst;
  if negb (mqtt_network_is_ready q) then
    on_mqtt (modify (set mq_disconnect_pending (λ _, true)) ;; mqtt_handle_disconnect_pending) ;;
    on_node (sleep MQTT_NET_WAIT_MS)
  else
    mqtt_drain_queue MQTT_PUBLISH_BUDGET_PER_LOOP ;;
    ret ← mqtt_process_once 0;
    match ret with
    | Err _ =>
        on_mqtt (client_call mqtt_disconnect) ;;
        on_mqtt (modify (set mq_connected (λ _, false)) ;; mqtt_clear_fds) ;;
        on_node (sleep CONFIG_MQTT_RECONNECT_INTERVAL_MS)
    | Ok _ =>
        mqtt_drain_queue MQTT_PUBLISH_BUDGET_PER_LOOP ;;
        (if CONFIG_MQTT_MAP_REPORT then mqtt_perhaps_report_to_map else mret ()) ;;
        q ← gets (S:=G) fst;
        if (0 <? mq_count q)%nat then mret () else work_wait
    end.

Definition mqtt_thread_round : M G () :=
  on_mqtt mqtt_handle_disconnect_pending ;;
  q ← gets (S:=G) fst;
  if mq_connected q then mqtt_connected_round
  else if negb (mqtt_network_is_ready q) then on_node (sleep MQTT_NET_WAIT_MS)
  else
    ret ← on_mqtt mqtt_resolve_broker;
    ret ← (match ret with Ok _ => mqtt_try_connect | Err e => mret (Err e) end);
    match ret with
    | Err _ => on_node (sleep CONFIG_MQTT_RECONNECT_INTERVAL_MS)
    | Ok _ => mqtt_connected_round
    end.

(** [meshtastic_mqtt_init] up to the creation of the thread; the mutex and
    the callback registration have no state here. *)
Definition meshtastic_mqtt_init : M G (result ()) :=
  s ← gets (S:=G) id;
  if mq_started s.1 then mret (Ok ())
  else
    on_mqtt (modify (λ q, q <| mq_net_has_ipv4 := mqtt_iface_has_global_ipv4 (mq_client q) |>
      <| mq_crypt_prefix := strncpy (MQTT_PREFIX_SIZE - 1) CONFIG_MQTT_ROOT |>
      <| mq_client_id := (snprintk MQTT_CLIENT_ID_SIZE (node_id_string (mt_node_id (w_mt s.2)))).2 |>)) ;;
    q ← gets (S:=G) fst;
    on_mqtt (modify (set mq_sub_topic (λ _, (mqtt_build_subscribe_topic (w_channels s.2) q).2))) ;;
    let '(ret, topic) := mqtt_build_map_topic q in
    on_mqtt (modify (set mq_map_topic (λ t, if CONFIG_MQTT_MAP_REPORT then topic else t))) ;;
    if CONFIG_MQTT_MAP_REPORT && (MQTT_MAP_TOPIC_SIZE <=? ret)%nat then mret (Err EINVAL)
    else
      on_mqtt (modify (set mq_started (λ _, true))) ;;
      mret (Ok ()).
End session.

(** ** A history of the gateway *)

(** One round of the thread, an event of the network, or anything else that
    happens to the node, with the uploads it brings. *)
Inductive gateway_event :=
  | Gw_round
  | Gw_net (mgmt_event : mgmt_event)
  | Gw_node (ev : node_event).

Section history.
Context {C K L T : Type} `{Kconfig} `{PSA K} `{LoraDriver L} `{Kernel T} `{Libc}.
Context `{Pb Data} `{Pb User} `{Pb Routing} `{Pb Position} `{Pb Telemetry} `{Pb StatusMessage}.
Context `{Pb FromRadio} `{Pb ToRadio} `{Pb ServiceEnvelope} `{Pb MapReport}.
Context `{MqttConfig} `{MqttClient C} `{!Broker C}.
Context `{TelemetryConfig} `{TelemetryDrivers T} `{PositionConfig}.
Notation W := (world K L T).
Notation G := (mqtt C * W)%type.
Context (mods : list (module K L T)) (garbage : packet).

Definition gateway_exec (ev : gateway_event) : M G () :=
  match ev with
  | Gw_round => mqtt_thread_round mods
  | Gw_net mgmt_event => on_mqtt (mqtt_net_event_handler mgmt_event)
  | Gw_node ev => with_hooks (node_exec mods garbage ev)
  end.
Definition gateway_run (evs : list gateway_event) : M G () := mapM_ gateway_exec evs.
End history.

(** ** In order, at most once *)

Section fifo.
Context {C K L T : Type} `{KconfigRanges} `{PSALaws K} `{LoraLaws L} `{KernelLaws T} `{Libc}.
Context `{Pb Data} `{!PbLaws Data Data_ok} `{Pb User} `{Pb Routing} `{Pb Position} `{Pb Telemetry}.
Context `{Pb StatusMessage} `{Pb FromRadio} `{Pb ToRadio} `{Pb ServiceEnvelope} `{Pb MapReport}.
Context `{MqttRanges} `{BrokerLaws C} `{TelemetryConfig} `{TelemetryDrivers T} `{PositionConfig}.
Context (Hmap : CONFIG_MQTT_MAP_REPORT = false).
Notation W := (world K L T).
Notation Q := (mqtt C).
Notation G := (mqtt C * W)%type.
Context (fx : fixed) (mods : list (module K L T)) (garbage : packet).
Context (Hmods : ∀ calls, Forall (module_safe (with_uplinks fx calls)) mods).
Notation I := (world_wf (L:=L) (T:=T) fx).

Lemma mods_safe : Forall (module_safe fx) mods.
Proof. pose proof (Hmods (fx_uplinks fx)) as Hm. by destruct fx. Qed.

Definition message (e : pub_entry) : string * list Z := (pub_topic e, pub_payload e).

Lemma taken_sublist es oks : taken es oks `sublist_of` message <$> es.
Proof.
  revert oks. induction es as [|e es IH]; intros [|ok oks]; try apply sublist_nil_l.
  unfold taken. cbn. destruct ok; cbn; constructor; apply IH.
Qed.

Lemma with_room_sublist l : message <$> with_room l `sublist_of` message <$> l.
Proof.
  unfold with_room. case_if; [|done]. destruct l as [|e l]; cbn; [done|]. by constructor.
Qed.

(** The messages the calls put into the queue of the gateway [q0]. *)
Definition uploads (q0 : Q) (calls : list uplink_call) : list (string * list Z) :=
  omap (λ c, match call_message q0 c with Some (topic, Some env) => Some (topic, env) | _ => None end) calls.

Lemma queued_sublist q0 l call :
  message <$> queued l (call_message q0 call) `sublist_of` (message <$> l) ++ uploads q0 [call].
Proof.
  unfold queued, uploads. cbn. destruct (call_message q0 call) as [[topic [env|]]|]; cbn; rewrite ?app_nil_r.
  - rewrite fmap_app. cbn. apply sublist_app; [apply with_room_sublist|done].
  - apply with_room_sublist.
  - done.
Qed.
Lemma uploads_sublist q0 calls : ∀ l,
  message <$> foldl queued l (call_message q0 <$> calls) `sublist_of` (message <$> l) ++ uploads q0 calls.
Proof.
  induction calls as [|call calls IH]; intros l; cbn [fmap list_fmap foldl].
  { unfold uploads. cbn. by rewrite app_nil_r. }
  etrans; [apply IH|]. change (call :: calls) with ([call] ++ calls).
  unfold uploads. rewrite omap_app, app_assoc. apply sublist_app; [apply queued_sublist|done].
Qed.

(** Since the gateway was in the state [q0] and the calls were [log], the broker
    has received [sent]; [sent] and then the queue are a part of what was queued
    and then uploaded, in its order. *)
Definition gateway_inv (q0 : Q) (old : list pub_entry) (log : list uplink_call) (s : G) : Prop :=
  ∃ l sent calls, pub_repr s.1 l ∧ published (mq_client s.1) = published (mq_client q0) ++ sent ∧
    mq_crypt_prefix s.1 = mq_crypt_prefix q0 ∧ w_uplinks s.2 = log ++ calls ∧
    sent ++ (message <$> l) `sublist_of` (message <$> old) ++ uploads q0 calls ∧ I s.2.

(** The queue and the published messages are those of [q]. *)
Definition same_queue (q q' : Q) : Prop :=
  published (mq_client q') = published (mq_client q) ∧ mq_queue q' = mq_queue q ∧
  mq_head q' = mq_head q ∧ mq_tail q' = mq_tail q ∧ mq_count q' = mq_count q ∧
  mq_crypt_prefix q' = mq_crypt_prefix q.
Definition quiet {A} (m : M Q A) : Prop := ∀ q, keeps (same_queue q) m.

Lemma quiet_modify f : (∀ q, same_queue q (f q)) → quiet (modify f).
Proof.
  intros Hf q. apply keeps_modify. intros q' Hq. specialize (Hf q'). unfold same_queue in *.
  destruct_and!. split_and!; congruence.
Qed.
Lemma quiet_client {A} (f : C → A * C) :
  (∀ c, published (f c).2 = published c) → quiet (zoom mq_client (state f)).
Proof.
  intros Hf q q' Hq. wps. unfold same_queue in *. cbn. rewrite Hf. exact Hq.
Qed.
Lemma quiet_off : quiet on_disconnect.
Proof. intros q. apply keeps_bind; [|intros ?]; by apply quiet_modify. Qed.
Lemma quiet_call {A} (f : C → (A * bool) * C) :
  (∀ c, published (f c).2 = published c) → quiet (client_call f).
Proof.
  intros Hf q. apply keeps_bind; [by apply quiet_client|]. intros r.
  apply keeps_bind; [|intros; apply keeps_ret]. apply keeps_if; [apply quiet_off|apply keeps_ret].
Qed.

Context (q0 : Q) (old : list pub_entry) (log : list uplink_call).
Notation GI := (gateway_inv q0 old log).

Lemma keeps_on_mqtt {A} (m : M Q A) : quiet m → keeps GI (on_mqtt m).
Proof.
  intros Hm [q w] (l & sent & calls & Hr & Hp & Hx & Hc & Hs & HI). rewrite wp_on_mqtt. cbn [fst snd] in *.
  eapply wp_mono; [by apply (Hm q)|]. intros a q' (E1 & E2 & E3 & E4 & E5 & E6).
  exists l, sent, calls. cbn. split_and!; try done; [|congruence..].
  destruct Hr. by constructor; rewrite ?E2, ?E3, ?E4, ?E5.
Qed.
Lemma keeps_sleep ms : keeps GI (on_node (sleep ms)).
Proof.
  intros [q w] (l & sent & calls & Hr & Hp & Hx & Hc & Hs & HI). rewrite wp_on_node. unfold sleep. wps.
  exists l, sent, calls. split_and!; try done. by apply (same_wf_keeps fx w).
Qed.

(** The invariant with the calls so far. *)
Lemma wf_uplinks (w : W) : I w → world_wf (with_uplinks fx (w_uplinks w)) w.
Proof. intros []. by constructor. Qed.

Lemma keeps_with_hooks {A} (m : M W A) :
  (∀ calls, keeps (world_wf (with_uplinks fx calls)) m) → keeps I m → keeps GI (with_hooks m).
Proof.
  intros Hm HmI [q w] (l & sent & calls & Hr & Hp & Hx & Hc & Hs & HI). cbn [fst snd] in *.
  eapply wp_mono; [apply (with_hooks_wp m (λ _ w', I w') l q w Hr)|].
  - eapply wp_mono; [apply wp_and; [by apply HmI|by apply (Hm (w_uplinks w)), wf_uplinks]|].
    cbn. intros a w' [HI' Hw']. split; [done|]. apply (ww_uplinks _ _ Hw').
  - intros a [q' w'] (calls' & Hc' & HI' & Hrest & Hr'). cbn [fst snd] in *. unfold pub_rest in Hrest.
    destruct_and!. cbn [fst snd]. eexists _, sent, (calls ++ calls'). split_and!; cbn [fst snd]; [exact Hr'|congruence..| | |exact HI'].
    + by rewrite Hc', Hc, app_assoc.
    + rewrite (calls_message q q0) by done. etrans.
      { apply sublist_app; [done|apply uploads_sublist]. }
      unfold uploads. rewrite omap_app, !app_assoc. by apply sublist_app.
Qed.

Lemma keeps_drain n : keeps GI (mqtt_drain_queue n).
Proof.
  intros s (l & sent & calls & Hr & Hp & Hx & Hc & Hs & HI). eapply wp_mono; [by apply drain_wp|].
  intros _ s' (oks & [Hq _ _ _ Hp' Hx' [t Ht]]).
  eexists _, (sent ++ taken (take (length oks) l) oks), calls.
  split_and!; [done|by rewrite Hp', Hp, app_assoc|congruence|by rewrite Ht| |].
  - etrans; [|done]. rewrite <-app_assoc. apply sublist_app; [done|].
    rewrite <-(take_drop (length oks) l) at 3. rewrite fmap_app.
    apply sublist_app; [apply taken_sublist|done].
  - rewrite Ht. by apply (same_wf_keeps fx s.2).
Qed.

Create HintDb gateway discriminated.
#[local] Hint Resolve keeps_drain keeps_sleep : gateway.

Lemma keeps_handle_publish fx' payload : Forall (module_safe fx') mods →
  keeps (world_wf fx') (mqtt_handle_publish mods payload).
Proof.
  intros Hm.
  unfold mqtt_handle_publish. apply keeps_if; [apply keeps_ret|].
  destruct (pb_decode payload) as [env|]; [|apply keeps_ret].
  apply keeps_bind; [apply keeps_gets|]. intros w. destruct (downlink_mesh _ _ env) as [m|]; [|apply keeps_ret].
  by apply (keeps_then fx'), keeps_inject.
Qed.

Lemma keeps_publish payload : keeps GI (with_hooks (mqtt_handle_publish mods payload)).
Proof.
  apply keeps_with_hooks; [intros calls|]; apply keeps_handle_publish; [apply Hmods|apply mods_safe].
Qed.
#[local] Hint Resolve keeps_publish : gateway.

(** ** The connection *)

Lemma quiet_prepare : quiet mqtt_prepare_fds.
Proof. by apply quiet_modify. Qed.
Lemma quiet_pending : quiet mqtt_handle_disconnect_pending.
Proof.
  intros q. apply keeps_bind; [apply keeps_gets|]. intros q1. apply keeps_if; [apply keeps_ret|].
  apply keeps_bind; [by apply quiet_modify|]. intros _. apply keeps_if; [apply keeps_ret|].
  apply keeps_bind; [apply quiet_call, disconnect_published|]. intros _.
  apply keeps_bind; [|intros _]; by apply quiet_modify.
Qed.
Lemma quiet_poll ms : quiet (mqtt_poll_socket ms).
Proof.
  intros q. apply keeps_bind; [apply keeps_gets|]. intros polled. apply keeps_if; [apply keeps_ret|].
  apply quiet_client, poll_published.
Qed.
Lemma quiet_resolve : quiet mqtt_resolve_broker.
Proof.
  intros q. apply keeps_bind; [apply quiet_client, resolve_published|]. intros [rc result].
  apply keeps_if; [apply keeps_ret|]. destruct result as [[addr|]|]; try apply keeps_ret.
  apply keeps_if; [apply keeps_ret|]. apply keeps_bind; [by apply quiet_modify|]. intros _. apply keeps_ret.
Qed.
Lemma quiet_configure : quiet mqtt_client_configure.
Proof.
  intros q. apply keeps_bind; [apply keeps_gets|]. intros id q' Hq. wps. unfold same_queue in *.
  cbn. rewrite init_published. exact Hq.
Qed.

(** A step on the gateway's own half. *)
Ltac link := apply keeps_on_mqtt; first
  [ apply quiet_off | apply quiet_prepare | apply quiet_pending | apply quiet_poll
  | apply quiet_resolve | apply quiet_configure | by apply quiet_modify
  | apply quiet_call; intros; first
      [ apply connect_published | apply live_published | apply disconnect_published
      | apply abort_published | apply subscribe_published | apply read_published
      | apply ack_published ]
  | intros ?; apply keeps_bind; [|intros ?]; solve
      [ by apply quiet_modify | apply quiet_prepare | apply quiet_pending ] ].
(** A sequence of steps. *)
Ltac steps := repeat first
  [ solve [auto with gateway] | apply keeps_ret | apply keeps_gets | link
  | apply keeps_bind; [|intros ?] | apply keeps_if | progress case_match ].

Lemma keeps_evt evt : keeps GI (mqtt_evt_handler mods evt).
Proof.
  destruct evt as [rc| |ts qos mid|]; cbn [mqtt_evt_handler]; steps.
Qed.

Lemma keeps_input : keeps GI (client_input mods).
Proof.
  unfold client_input. apply keeps_bind; [apply keeps_on_mqtt, quiet_client, input_published|].
  intros r. apply keeps_bind; [apply keeps_mapM, keeps_evt|]. intros _. apply keeps_ret.
Qed.

Lemma keeps_subscribe : keeps GI mqtt_subscribe_downlink.
Proof. unfold mqtt_subscribe_downlink. steps. Qed.
#[local] Hint Resolve keeps_input keeps_subscribe : gateway.

Lemma keeps_connect : keeps GI (mqtt_try_connect mods).
Proof. unfold mqtt_try_connect. steps. Qed.

Lemma keeps_process_once ms : keeps GI (mqtt_process_once mods ms).
Proof. unfold mqtt_process_once. steps. Qed.
#[local] Hint Resolve keeps_connect keeps_process_once : gateway.

Lemma keeps_connected : keeps GI (mqtt_connected_round mods).
Proof. unfold mqtt_connected_round, work_wait. rewrite Hmap. steps. Qed.
#[local] Hint Resolve keeps_connected : gateway.

Lemma keeps_round : keeps GI (mqtt_thread_round mods).
Proof. unfold mqtt_thread_round. steps. Qed.

Lemma keeps_gateway ev :
  (∀ ev', ev = Gw_node ev' → event_ok ev') → keeps GI (gateway_exec mods garbage ev).
Proof.
  intros Hok. destruct ev as [|ev|ev]; cbn [gateway_exec].
  - apply keeps_round.
  - apply keeps_on_mqtt. destruct ev; [by apply quiet_modify..|]. intros q. apply keeps_ret.
  - apply keeps_with_hooks; [intros calls|]; eapply keeps_event; [apply Hmods|by apply Hok|apply mods_safe|by apply Hok].
Qed.
End fifo.

Definition gateway_ok (ev : gateway_event) : Prop :=
  match ev with Gw_node ev => event_ok ev | _ => True end.

Section gateway_fifo.
Context {C K L T : Type} `{KconfigRanges} `{PSALaws K} `{LoraLaws L} `{KernelLaws T} `{Libc}.
Context `{Pb Data} `{!PbLaws Data Data_ok} `{Pb User} `{Pb Routing} `{Pb Position} `{Pb Telemetry}.
Context `{Pb StatusMessage} `{Pb FromRadio} `{Pb ToRadio} `{Pb ServiceEnvelope} `{Pb MapReport}.
Context `{MqttRanges} `{BrokerLaws C} `{TelemetryConfig} `{TelemetryDrivers T} `{PositionConfig}.
Context (Hmap : CONFIG_MQTT_MAP_REPORT = false).
Context (fx : fixed) (mods : list (module K L T)) (garbage : packet).
Context (Hmods : ∀ calls, Forall (module_safe (with_uplinks fx calls)) mods).

(** C24: the gateway under any history (rounds of its thread with any answers
    of the broker and the network, and everything that happens to the node,
    with the uploads its packets bring), in a build without the map report: it
    runs to its end; what the broker has received since is, in order, a part of
    what was queued and then uploaded by the node's calls of the hooks, so that
    no message is published twice, out of order or made up, and messages still
    queued come after those sent; the node's invariant and the queue's hold at
    the end. *)
Theorem gateway_fifo evs l q (w : world K L T) :
  Forall gateway_ok evs → pub_repr q l → world_wf fx w →
  ∃ q' w' l' sent calls, gateway_run mods garbage evs (q, w) = Some ((), (q', w')) ∧
    published (mq_client q') = published (mq_client q) ++ sent ∧
    w_uplinks w' = w_uplinks w ++ calls ∧
    sent ++ (message <$> l') `sublist_of` (message <$> l) ++ uploads q calls ∧
    pub_repr q' l' ∧ world_wf fx w'.
Proof.
  intros Hok Hr HI.
  assert (gateway_inv fx q l (w_uplinks w) (q, w)) as HG
    by (exists l, [], []; unfold uploads; cbn; by rewrite !app_nil_r).
  assert (keeps (gateway_inv fx q l (w_uplinks w)) (gateway_run mods garbage evs)) as Hrun.
  { intros s Hs. apply wp_mapM; [done|]. intros ev s' Hin. apply (keeps_gateway Hmap fx mods garbage Hmods).
    intros ev' ->. exact (proj1 (Forall_forall _ _) Hok _ Hin). }
  apply Hrun, wp_run in HG as ([] & [q' w'] & Hr' & l' & sent & calls & ? & ? & _ & ? & ? & ?).
  by exists q', w', l', sent, calls.
Qed.
End gateway_fifo.

(** ** Witness: a broker that accepts every connection *)

#[local] Existing Instance default_kconfig.
#[local] Existing Instance default_kconfig_ranges.
#[local] Existing Instance default_mqtt_config.
#[local] Existing Instance default_mqtt_ranges.

#[local] Instance mock_broker : Broker mock_client := {
  mqtt_client_init _ _ _ c := c;
  mqtt_connect c := ((Ok (), false), c);
  mqtt_input c := ((Ok (), [EVT_CONNACK 0]), c);
  mqtt_live c := ((Err EAGAIN, false), c);
  mqtt_disconnect c := ((Ok (), true), c);
  mqtt_abort c := ((Ok (), true), c);
  mqtt_subscribe _ c := ((Ok (), false), c);
  mqtt_read_publish_payload _ c := ((Ok [], false), c);
  mqtt_publish_qos1_ack _ c := ((Ok (), false), c);
  client_sock _ := 3;
  zsock_poll ms c := ((if 0 <? ms then 1 else 0, 0 <? ms), c);
  zsock_getaddrinfo _ _ c := ((0, Some (Some [10; 0; 0; 1])), c);
  sockaddr_storage_size := 24;
  net_if_get_default _ := true;
  net_if_is_up _ := true;
  net_if_ipv4_get_global_addr _ := true
}.
#[local] Instance mock_broker_laws : BrokerLaws mock_client.
Proof. by constructor. Defined.

#[local] Instance no_User : Pb User := pb_silent User.
#[local] Instance no_Position : Pb Position := pb_silent Position.
#[local] Instance no_Telemetry : Pb Telemetry := pb_silent Telemetry.
#[local] Instance no_Status : Pb StatusMessage := pb_silent StatusMessage.
#[local] Instance plain_FromRadio : Pb FromRadio := pb_silent FromRadio.
#[local] Instance no_ToRadio : Pb ToRadio := pb_silent ToRadio.
#[local] Instance no_map : Pb MapReport := pb_silent MapReport.
#[local] Existing Instance bare_board.
#[local] Existing Instance no_drivers.
#[local] Existing Instance default_position_config.
#[local] Existing Instance group_codec.

(** A frame is heard and uploaded; then the network comes up, the thread
    connects and publishes. *)
Definition gateway_day : list gateway_event :=
  [Gw_node (Ev_air group_frame (-80) 6); Gw_node Ev_rx_thread; Gw_net IPV4_ADDR_ADD; Gw_round;
   Gw_node Ev_tick; Gw_net IPV4_ADDR_DEL; Gw_round].

Lemma gateway_fifo_witness :
  ∃ q' w', gateway_run stock_modules packet_zero gateway_day (gateway_bss, hearing_world) = Some ((), (q', w')) ∧
    uploads gateway_bss (w_uplinks w') = [("msh/EU_868/2/e/LongFast/!00000007", [0])] ∧
    mc_published (mq_client q') = [("msh/EU_868/2/e/LongFast/!00000007", [0])] ∧
    world_wf (mk_fixed ∅ 1 store_bss []) w'.
Proof.
  assert (CONFIG_MQTT_MAP_REPORT = false) as Hmap by done.
  destruct (gateway_fifo Hmap (mk_fixed ∅ 1 store_bss []) stock_modules packet_zero (λ calls, stock_modules_safe _)
    gateway_day [] gateway_bss hearing_world) as (q' & w' & l' & sent & calls & Hrun & Hp & Hc & Hs & Hr & HI).
  - by repeat constructor.
  - apply gateway_bss_repr.
  - apply hearing_world_wf.
  - exists q', w'.
    assert ((λ r, (uploads gateway_bss (w_uplinks r.2.2), mc_published (mq_client r.2.1))) <$>
      gateway_run stock_modules packet_zero gateway_day (gateway_bss, hearing_world)
      = Some ([("msh/EU_868/2/e/LongFast/!00000007", [0])], [("msh/EU_868/2/e/LongFast/!00000007", [0])]))
      as Hrun' by (by vm_compute).
    rewrite Hrun in Hrun'. injection Hrun' as Hu Hp'. cbn [fst snd] in Hu, Hp'.
    split; [exact Hrun|]. split; [exact Hu|]. split; [exact Hp'|exact HI].
Defined.
