(* ===== verification/MqttLive.v ===== *)
(** * The gateway publishes (src/meshtastic_mqtt.c)

    The counterpart of [gateway_fifo]: with a broker that accepts connections
    and messages the rounds of the gateway's thread publish everything that is
    queued, whatever the state of the connection was before. *)

From stdpp Require Import pretty.
From S2P Require Import Prelude Types External Mock Core Airtime Channels NodeDB Wire Store World.
From S2P Require Import Radio Reliable PhoneApi Invariant Send NodeInfo Router Telemetry Position Reception Node Mqtt Uplink MapReport MqttSession.

(** A broker in reach: [steady] is the client between calls, [dialing] after
    [mqtt_connect]; the broker has nothing to say but the CONNACK. *)
Class WillingBroker (C : Type) `{MqttClient C} `{!Broker C} := {
  steady : C → Prop;
  dialing : C → Prop;
  steady_net c : steady c → mqtt_iface_has_global_ipv4 c = true;
  steady_resolve h p c : steady c → (∃ addr, (zsock_getaddrinfo h p c).1 = (0, Some (Some addr)) ∧
    (length addr ≤ sockaddr_storage_size)%nat) ∧ steady (zsock_getaddrinfo h p c).2;
  steady_init i u p c : steady c → steady (mqtt_client_init i u p c);
  steady_connect c : steady c → (mqtt_connect c).1 = (Ok (), false) ∧ dialing (mqtt_connect c).2;
  dialing_sock c : dialing c → 0 ≤ client_sock c;
  dialing_poll ms c : dialing c → 0 < ms → 0 < (zsock_poll ms c).1.1 ∧ dialing (zsock_poll ms c).2;
  dialing_input c : dialing c → (mqtt_input c).1 = (Ok (), [EVT_CONNACK 0]) ∧ steady (mqtt_input c).2;
  steady_subscribe t c : steady c → (mqtt_subscribe t c).1 = (Ok (), false) ∧ steady (mqtt_subscribe t c).2;
  steady_publish t p c : steady c → (mqtt_publish t p c).1 = (Ok (), false) ∧ steady (mqtt_publish t p c).2;
  steady_poll c : steady c → (zsock_poll 0 c).1.1 = 0 ∧ steady (zsock_poll 0 c).2;
  steady_live c : steady c → ((mqtt_live c).1 = (Ok (), false) ∨ (mqtt_live c).1 = (Err EAGAIN, false)) ∧
    steady (mqtt_live c).2;
  steady_disconnect c : steady c → steady (mqtt_disconnect c).2
}.

Section live.
Context {C K L T : Type} `{Kconfig} `{PSA K} `{LoraDriver L} `{Kernel T} `{Libc}.
Context `{Pb Data} `{Pb FromRadio} `{Pb Routing} `{Pb ServiceEnvelope} `{Pb MapReport}.
Context `{MqttRanges} `{BrokerLaws C} `{!WillingBroker C} `{PositionConfig}.
Context (Hmap : CONFIG_MQTT_MAP_REPORT = false).
Notation W := (world K L T).
Notation Q := (mqtt C).
Notation G := (mqtt C * W)%type.
Context (mods : list (module K L T)) (prefix : string) (w0 : W).

(** The messages [l] wait, [pubs] were published; of the node only the clock
    has moved since [w0]. *)
Record live (good : C → Prop) (l : list pub_entry) (pubs : list (string * list Z)) (connected pending : bool)
    (s : G) : Prop := {
  lv_queue : pub_repr s.1 l;
  lv_pubs : published (mq_client s.1) = pubs;
  lv_good : good (mq_client s.1);
  lv_net : mq_net_has_ipv4 s.1 = true;
  lv_prefix : mq_crypt_prefix s.1 = prefix;
  lv_connected : mq_connected s.1 = connected;
  lv_pending : mq_disconnect_pending s.1 = pending;
  lv_node : later w0 s.2
}.

Lemma live_sleep good l pubs con pend ms s :
  live good l pubs con pend s → wp (on_node (sleep ms)) (λ _, live good l pubs con pend) s.
Proof.
  intros [? ? ? ? ? ? ? [t Ht]]. rewrite wp_on_node. unfold sleep. wps. constructor; try done. cbn.
  rewrite Ht. by eexists.
Qed.

(** A call of the client during which the connection stays. *)
Lemma live_call {A} (f : C → (A * bool) * C) r more (good good' : C → Prop) l pubs con pend s :
  (∀ c, good c → (f c).1 = (r, false) ∧ good' (f c).2 ∧ published (f c).2 = published c ++ more) →
  live good l pubs con pend s →
  wp (on_mqtt (client_call f)) (λ r' s', r' = r ∧ live good' l (pubs ++ more) con pend s') s.
Proof.
  intros Hf [[] Hps Hg ? ? ? ? ?]. destruct (Hf _ Hg) as (E & Hg' & Hp). rewrite wp_on_mqtt. unfold client_call. wps.
  rewrite E. wps. split; [done|]. constructor; cbn; rewrite ?Hp, ?Hps; done || by constructor.
Qed.

(** A statement on the other fields of the gateway. *)
Lemma live_modify (f : Q → Q) good l pubs con pend con' pend' s :
  (∀ q, mq_client (f q) = mq_client q ∧ mq_net_has_ipv4 (f q) = mq_net_has_ipv4 q ∧
    mq_crypt_prefix (f q) = mq_crypt_prefix q ∧ mq_queue (f q) = mq_queue q ∧ mq_head (f q) = mq_head q ∧
    mq_tail (f q) = mq_tail q ∧ mq_count (f q) = mq_count q) →
  mq_connected (f s.1) = con' → mq_disconnect_pending (f s.1) = pend' →
  live good l pubs con pend s → wp (on_mqtt (modify f)) (λ _, live good l pubs con' pend') s.
Proof.
  intros Hf Hc Hp [[] ? ? ? ? ? ? ?]. destruct (Hf s.1) as (E1 & E2 & E3 & E4 & E5 & E6 & E7).
  rewrite wp_on_mqtt. wps. constructor; cbn; rewrite ?E1, ?E2, ?E3; try done.
  by constructor; rewrite ?E4, ?E5, ?E6, ?E7.
Qed.

Lemma live_drain n : ∀ l pubs pend s,
  live steady l pubs true pend s →
  wp (mqtt_drain_queue n) (λ _, live steady (drop n l) (pubs ++ (message <$> take n l)) true pend) s.
Proof.
  induction n as [|n IH]; intros l pubs pend s Hs; cbn [mqtt_drain_queue].
  { wps. cbn. by rewrite app_nil_r, drop_0. }
  wps. rewrite (lv_connected _ _ _ _ _ _ Hs), (pr_count _ _ (lv_queue _ _ _ _ _ _ Hs)). cbn [negb orb].
  destruct l as [|e l]; cbn [length Nat.eqb].
  { wps. cbn. by rewrite app_nil_r. }
  rewrite wp_bind, wp_on_mqtt. apply (pub_slot_wp _ e); [eapply ring_at_head; apply Hs|].
  rewrite wp_bind. apply wp_mono with (Q := λ _, live steady l pubs true pend).
  { destruct Hs. rewrite wp_on_mqtt. wps. constructor; try done. by eapply pub_repr_tail. }
  intros [] s1 Hs1. rewrite wp_bind.
  apply wp_mono with (Q := λ _, live steady l (pubs ++ [message e]) true pend).
  { assert (mq_connected s1.1 = true) as Hc by apply Hs1.
    assert (on_mqtt (mqtt_do_publish (pub_topic e) (pub_payload e)) s1 =
      on_mqtt (K:=K) (L:=L) (T:=T) (client_call (mqtt_publish (pub_topic e) (pub_payload e))) s1) as Hrun
      by (unfold on_mqtt, mqtt_do_publish, mbind at 1, M_bind at 1, gets at 1; by rewrite Hc).
    unfold wp. rewrite Hrun. eapply wp_mono; [eapply (live_call _ (Ok ()) [message e] steady steady); [|done]|by intros ? ? [_ ?]].
    intros c Hg. destruct (steady_publish (pub_topic e) (pub_payload e) c Hg) as [E Hg'].
    pose proof (publish_spec (pub_topic e) (pub_payload e) c) as Hpub. by rewrite E in Hpub. }
  intros r s2 Hs2. rewrite wp_bind. eapply wp_mono; [by apply live_sleep|]. intros [] s3 Hs3.
  eapply wp_mono; [by apply IH|]. intros [] s4 Hs4. cbn [drop take]. rewrite fmap_cons. by rewrite <-app_assoc in Hs4.
Qed.

Lemma live_poll ms (good : C → Prop) (P : Z * bool → Prop) l pubs con pend s :
  (mq_polled s.1 = false → P (0, false)) →
  (mq_polled s.1 = true → ∀ c, good c → P (zsock_poll ms c).1 ∧ good (zsock_poll ms c).2) →
  live good l pubs con pend s →
  wp (on_mqtt (mqtt_poll_socket ms)) (λ r s', P r ∧ live good l pubs con pend s') s.
Proof.
  intros Hoff Hon Hs. rewrite wp_on_mqtt. unfold mqtt_poll_socket. do 2 wp_step.
  destruct (mq_polled s.1); cbn [negb]; wps; [|split; [by apply Hoff|by destruct s]].
  destruct Hs as [[] ? Hg ? ? ? ? ?]. destruct (Hon eq_refl _ Hg) as [HP Hg']. split; [done|].
  pose proof (poll_published ms (mq_client s.1)) as Hp. constructor; cbn; rewrite ?Hp; done || by constructor.
Qed.

Lemma live_process l pubs pend s :
  live steady l pubs true pend s →
  wp (mqtt_process_once mods 0) (λ r s', r = Ok () ∧ live steady l pubs true pend s') s.
Proof.
  intros Hs. unfold mqtt_process_once. do 2 wp_step. rewrite (lv_connected _ _ _ _ _ _ Hs). cbn [negb].
  rewrite wp_bind. eapply wp_mono; [apply (live_poll 0 steady (λ r, r.1 = 0)); [done| |done]|].
  { intros _ c Hg. apply (steady_poll c Hg). }
  intros [n readable] s1 [Hn Hs1]. cbn in Hn. subst n. cbn [fst snd]. rewrite Z.ltb_irrefl. cbn [andb]. rewrite Z.eqb_refl.
  rewrite wp_bind. assert (∃ r, (r = Ok () ∨ r = Err EAGAIN) ∧ wp (on_mqtt (client_call mqtt_live))
    (λ r' s', r' = r ∧ live steady l pubs true pend s') s1) as (r & Hr & Hw).
  { destruct (steady_live _ (lv_good _ _ _ _ _ _ Hs1)) as [Hl Hg']. pose proof (live_published (mq_client s1.1)) as Hp.
    assert (∀ r, (mqtt_live (mq_client s1.1)).1 = (r, false) → wp (on_mqtt (client_call mqtt_live))
      (λ r' s', r' = r ∧ live steady l pubs true pend s') s1) as Hgo.
    { intros r E. rewrite <-(app_nil_r pubs). apply (live_call mqtt_live r [] (λ c, c = mq_client s1.1) steady).
      - intros c ->. by rewrite app_nil_r.
      - destruct Hs1. constructor; try done. }
    destruct Hl as [E|E]; [exists (Ok ())|exists (Err EAGAIN)]; (split; [auto|by apply Hgo]). }
  eapply wp_mono; [exact Hw|]. intros r' s2 [-> Hs2]. destruct Hr as [-> | ->]; [by wps|]. case_decide; [by wps|done].
Qed.

Lemma live_net good l pubs con pend s : (∀ c, good c → steady c) →
  live good l pubs con pend s → mqtt_network_is_ready s.1 = true.
Proof.
  intros Hg Hs. unfold mqtt_network_is_ready. rewrite (lv_net _ _ _ _ _ _ Hs). apply steady_net, Hg, Hs.
Qed.

Lemma live_connected_round l pubs pend s :
  live steady l pubs true pend s →
  wp (mqtt_connected_round mods) (λ _, live steady (drop 4 l) (pubs ++ (message <$> take 4 l)) true pend) s.
Proof.
  intros Hs. unfold mqtt_connected_round. do 2 wp_step. rewrite (live_net _ _ _ _ _ _ (λ _ h, h) Hs). cbn [negb].
  rewrite wp_bind. eapply wp_mono; [by apply live_drain|]. intros [] s1 Hs1. rewrite wp_bind.
  eapply wp_mono; [by apply live_process|]. intros ? s2 [-> Hs2]. rewrite wp_bind.
  eapply wp_mono; [by apply live_drain|]. intros [] s3 Hs3. rewrite Hmap. do 4 wp_step.
  assert (live steady (drop 4 l) (pubs ++ (message <$> take 4 l)) true pend s3) as Hs4.
  { unfold MQTT_PUBLISH_BUDGET_PER_LOOP in *. rewrite drop_drop, <-app_assoc, <-fmap_app in Hs3. by rewrite take_take_drop in Hs3. }
  case_if; [by wps|]. unfold work_wait. do 2 wp_step. case_if; [|by apply live_sleep].
  eapply live_modify; [done|apply Hs4|apply Hs4|exact Hs4].
Qed.

(** ** Connecting *)

Lemma live_handle_pending l pubs con pend s :
  live steady l pubs con pend s →
  wp (on_mqtt mqtt_handle_disconnect_pending) (λ _ s', ∃ con', live steady l pubs con' false s') s.
Proof.
  intros Hs. pose proof Hs as [[] Hp Hg ? ? Hc Hpe ?]. rewrite wp_on_mqtt.
  unfold mqtt_handle_disconnect_pending, client_call, on_disconnect, mqtt_clear_fds. do 2 wp_step. cbn [id].
  destruct (mq_disconnect_pending s.1) eqn:Ep; cbn [negb]; wps; [|exists con; constructor; done || by constructor].
  destruct (mq_connected s.1) eqn:Ec; cbn [negb]; wps; [|exists false; constructor; done || by constructor].
  pose proof (steady_disconnect _ Hg) as Hg'. pose proof (disconnect_published (mq_client s.1)) as Hp'.
  destruct ((mqtt_disconnect (mq_client s.1)).1.2) eqn:Ed; wps; cbn; rewrite ?Ed; wps;
    exists false; constructor; cbn; rewrite ?Hp'; done || by constructor.
Qed.

Lemma live_resolve l pubs con pend s :
  live steady l pubs con pend s →
  wp (on_mqtt mqtt_resolve_broker) (λ r s', r = Ok () ∧ live steady l pubs con pend s') s.
Proof.
  intros [[] Hp Hg ? ? Hc Hpe ?]. rewrite wp_on_mqtt. unfold mqtt_resolve_broker. wps.
  destruct (steady_resolve CONFIG_MQTT_BROKER_HOST (pretty CONFIG_MQTT_BROKER_PORT) _ Hg) as [(addr & E & Hlen) Hg'].
  pose proof (resolve_published CONFIG_MQTT_BROKER_HOST (pretty CONFIG_MQTT_BROKER_PORT) (mq_client s.1)) as Hp'.
  rewrite E. cbn [negb Z.eqb]. rewrite (proj2 (Nat.ltb_ge _ _)) by done. wps. split; [done|].
  constructor; cbn; rewrite ?Hp'; done || by constructor.
Qed.

Lemma live_configure l pubs con pend s :
  live steady l pubs con pend s → wp (on_mqtt mqtt_client_configure) (λ _, live steady l pubs con pend) s.
Proof.
  intros [[] Hp Hg ? ? Hc Hpe ?]. rewrite wp_on_mqtt. unfold mqtt_client_configure. wps.
  pose proof (steady_init (mq_client_id s.1) CONFIG_MQTT_USERNAME CONFIG_MQTT_PASSWORD _ Hg).
  constructor; cbn; rewrite ?init_published; done || by constructor.
Qed.

(** The CONNACK, which starts with a larger budget. *)
Lemma live_connack l pubs pend s :
  live dialing l pubs false pend s →
  wp (client_input mods) (λ r, live steady (drop 8 l) (pubs ++ (message <$> take 8 l)) true pend) s.
Proof.
  intros [[] Hp Hg ? ? Hc Hpe ?]. unfold client_input. rewrite wp_bind, wp_on_mqtt, wp_zoom, wp_state.
  destruct (dialing_input _ Hg) as [E Hg']. pose proof (input_published (mq_client s.1)) as Hp'.
  rewrite E. cbn [fst snd mapM_]. do 2 rewrite wp_bind. cbn [mqtt_evt_handler Z.eqb negb]. rewrite wp_bind.
  apply wp_mono with (Q := λ _, live steady l pubs true pend).
  { rewrite wp_on_mqtt. unfold mqtt_prepare_fds. wps. constructor; cbn; rewrite ?Hp'; done || by constructor. }
  intros [] s1 Hs1. rewrite wp_bind. eapply wp_mono; [by apply live_drain|]. intros [] s2 Hs2.
  apply wp_mono with (Q := λ _, live steady (drop 8 l) (pubs ++ (message <$> take 8 l)) true pend);
    [|by intros [] s3 ?; wps].
  unfold mqtt_work_notify. eapply live_modify; [done|apply Hs2|apply Hs2|exact Hs2].
Qed.

(** The topic of the subscription fits its buffer. *)
Definition topic_fits : Prop := CONFIG_MQTT_DOWNLINK_ENABLED = true →
  ∀ q : Q, mq_crypt_prefix q = prefix → ((mqtt_build_subscribe_topic (w_channels w0) q).1 < MQTT_TOPIC_SIZE)%nat.

Lemma live_subscribe l pubs con pend s :
  topic_fits → CONFIG_MQTT_DOWNLINK_ENABLED = true → live steady l pubs con pend s →
  wp mqtt_subscribe_downlink (λ r s', r = Ok () ∧ live steady l pubs con pend s') s.
Proof.
  intros Hfit Hdown Hs. unfold mqtt_subscribe_downlink. do 2 wp_step. cbn [id].
  destruct (lv_node _ _ _ _ _ _ Hs) as [t Ht]. rewrite Ht. change (w_channels (w0 <| w_kernel := t |>)) with (w_channels w0).
  specialize (Hfit Hdown s.1 (lv_prefix _ _ _ _ _ _ Hs)). destruct (mqtt_build_subscribe_topic _ s.1) as [n topic].
  cbn [fst] in Hfit. rewrite wp_bind. eapply wp_mono; [eapply live_modify; [done|apply Hs|apply Hs|exact Hs]|].
  intros [] s1 Hs1. rewrite (proj2 (Nat.leb_gt _ _)) by done. rewrite <-(app_nil_r pubs).
  eapply live_call; [|exact Hs1]. intros c Hg. destruct (steady_subscribe topic c Hg). split_and!; try done.
  by rewrite subscribe_published, app_nil_r.
Qed.

Lemma live_try_connect l pubs s :
  topic_fits → live steady l pubs false false s →
  wp (mqtt_try_connect mods)
    (λ r s', r = Ok () ∧ live steady (drop 8 l) (pubs ++ (message <$> take 8 l)) true false s') s.
Proof.
  intros Hfit Hs. unfold mqtt_try_connect. rewrite wp_bind. eapply wp_mono; [by apply live_configure|].
  intros [] s1 Hs1. rewrite wp_bind. eapply wp_mono.
  { eapply (live_call mqtt_connect (Ok ()) [] steady dialing); [|exact Hs1]. intros c Hg.
    destruct (steady_connect c Hg). split_and!; try done. by rewrite connect_published, app_nil_r. }
  intros r s2 [-> Hs2]. rewrite app_nil_r in Hs2. rewrite wp_bind.
  apply wp_mono with (Q := λ _ s', live dialing l pubs false false s' ∧ mq_polled s'.1 = true).
  { pose proof (dialing_sock _ (lv_good _ _ _ _ _ _ Hs2)) as Hsock. destruct Hs2 as [[] ? ? ? ? ? ? ?].
    rewrite wp_on_mqtt. unfold mqtt_prepare_fds. wps. split; [constructor; done || by constructor|].
    cbn. by apply Z.leb_le. }
  intros [] s3 [Hs3 Hpoll]. rewrite wp_bind. eapply wp_mono.
  { apply (live_poll 5000 dialing (λ r, 0 < r.1)); [by rewrite Hpoll| |done]. intros _ c Hg. by apply dialing_poll. }
  intros r s4 [Hr Hs4]. rewrite (proj2 (Z.ltb_lt _ _)) by done. rewrite wp_bind.
  apply wp_mono with (Q := λ _, live steady (drop 8 l) (pubs ++ (message <$> take 8 l)) true false).
  { rewrite wp_bind. eapply wp_mono; [by apply live_connack|]. intros ? s5 Hs5. by wps. }
  intros [] s5 Hs5. do 2 wp_step. rewrite (lv_connected _ _ _ _ _ _ Hs5). cbn [negb].
  destruct CONFIG_MQTT_DOWNLINK_ENABLED eqn:Ed; [|by wps]. rewrite wp_bind.
  eapply wp_mono; [by apply live_subscribe|]. intros ? s6 [-> Hs6]. by wps.
Qed.

(** A round of the thread publishes four messages, and eight more if it had to
    connect first. *)
Lemma live_round l pubs con pend s :
  topic_fits → live steady l pubs con pend s →
  wp (mqtt_thread_round mods) (λ _ s', ∃ k, (4 ≤ k)%nat ∧
    live steady (drop k l) (pubs ++ (message <$> take k l)) true false s') s.
Proof.
  intros Hfit Hs. unfold mqtt_thread_round. rewrite wp_bind. eapply wp_mono; [by eapply live_handle_pending|].
  intros [] s1 (con1 & Hs1). do 2 wp_step. rewrite (lv_connected _ _ _ _ _ _ Hs1). destruct con1.
  { eapply wp_mono; [by apply live_connected_round|]. intros [] s2 Hs2. by exists 4%nat. }
  rewrite (live_net _ _ _ _ _ _ (λ _ h, h) Hs1). cbn [negb]. rewrite wp_bind.
  eapply wp_mono; [by apply live_resolve|]. intros ? s2 [-> Hs2]. rewrite wp_bind.
  eapply wp_mono; [by apply live_try_connect|]. intros ? s3 [-> Hs3].
  eapply wp_mono; [by apply live_connected_round|]. intros [] s4 Hs4. exists 12%nat. split; [lia|].
  rewrite drop_drop, <-app_assoc, <-fmap_app in Hs4. by rewrite take_take_drop in Hs4.
Qed.
End live.

Section gateway_live.
Context {C K L T : Type} `{Kconfig} `{PSA K} `{LoraDriver L} `{Kernel T} `{Libc}.
Context `{Pb Data} `{Pb User} `{Pb Routing} `{Pb Position} `{Pb Telemetry} `{Pb StatusMessage}.
Context `{Pb FromRadio} `{Pb ToRadio} `{Pb ServiceEnvelope} `{Pb MapReport}.
Context `{MqttRanges} `{BrokerLaws C} `{!WillingBroker C} `{TelemetryConfig} `{TelemetryDrivers T} `{PositionConfig}.
Context (Hmap : CONFIG_MQTT_MAP_REPORT = false).
Context (mods : list (module K L T)) (garbage : packet).

Lemma rounds_wp prefix (w0 : world K L T) n : ∀ l pubs con pend s,
  topic_fits (C:=C) prefix w0 → live prefix w0 steady l pubs con pend s → (0 < n)%nat → (length l ≤ 4 * n)%nat →
  wp (gateway_run mods garbage (replicate n Gw_round))
    (λ _, live prefix w0 steady [] (pubs ++ (message <$> l)) true false) s.
Proof.
  induction n as [|n IH]; intros l pubs con pend s Hfit Hs Hn Hl; [lia|].
  unfold gateway_run. cbn [replicate mapM_ gateway_exec]. rewrite wp_bind.
  eapply wp_mono; [by eapply live_round|]. intros [] s1 (k & Hk & Hs1).
  destruct n as [|n].
  { cbn [replicate mapM_]. wps. rewrite drop_ge, take_ge in Hs1 by lia. exact Hs1. }
  eapply wp_mono; [apply (IH _ _ _ _ s1 Hfit Hs1); [lia|rewrite length_drop; lia]|].
  intros [] s2 Hs2. by rewrite <-app_assoc, <-fmap_app, take_drop in Hs2.
Qed.

(** C25: the gateway publishes: from any state of the connection, a pending
    disconnect included, with an address, a broker that accepts connections
    and messages and a subscription whose topic fits, enough rounds of the
    thread, one for every four messages, hand everything that is queued to the
    broker, once each and in order, and leave the gateway connected with an
    empty queue; of the node only the clock has moved. *)
Theorem gateway_publishes n l (q : mqtt C) (w : world K L T) :
  pub_repr q l → steady (mq_client q) → mq_net_has_ipv4 q = true →
  topic_fits (C:=C) (mq_crypt_prefix q) w → (0 < n)%nat → (length l ≤ 4 * n)%nat →
  ∃ q' w', gateway_run mods garbage (replicate n Gw_round) (q, w) = Some ((), (q', w')) ∧
    published (mq_client q') = published (mq_client q) ++ (message <$> l) ∧
    pub_repr q' [] ∧ mq_connected q' = true ∧ later w w'.
Proof.
  intros Hr Hg Hnet Hfit Hn Hl.
  assert (live (mq_crypt_prefix q) w steady l (published (mq_client q)) (mq_connected q) (mq_disconnect_pending q) (q, w))
    as Hs by (constructor; try done; apply later_refl).
  apply (rounds_wp _ _ n _ _ _ _ _ Hfit Hs Hn), wp_run in Hl as ([] & [q' w'] & Hrun & []). by exists q', w'.
Qed.
End gateway_live.

(** ** Witness: three messages, and a connection that is being given up *)

#[local] Existing Instances default_kconfig default_kconfig_ranges default_mqtt_config default_mqtt_ranges.
#[local] Existing Instances mock_broker mock_broker_laws bare_board no_drivers default_position_config.
#[local] Instance no_User : Pb User := pb_silent User.
#[local] Instance no_Position : Pb Position := pb_silent Position.
#[local] Instance no_Telemetry : Pb Telemetry := pb_silent Telemetry.
#[local] Instance no_Status : Pb StatusMessage := pb_silent StatusMessage.
#[local] Instance no_FromRadio : Pb FromRadio := pb_silent FromRadio.
#[local] Instance no_ToRadio : Pb ToRadio := pb_silent ToRadio.
#[local] Instance no_map : Pb MapReport := pb_silent MapReport.
#[local] Existing Instance group_codec.

#[local] Instance mock_willing : WillingBroker mock_client.
Proof.
  refine {| steady := λ c, mc_answers c = []; dialing := λ c, mc_answers c = [] |}; try done.
  - intros h p c Hc. split; [|done]. exists [10; 0; 0; 1]. split; [done|]. cbn. lia.
  - intros ms c Hc Hms. cbn. by rewrite (proj2 (Z.ltb_lt _ _) Hms).
  - intros t p [ps answers] Hc. cbn in Hc. by subst answers.
  - intros c Hc. split; [by right|done].
Defined.

Definition hanging_up : mqtt mock_client :=
  waiting_queue <| mq_client := mk_mock_client [] [] |> <| mq_net_has_ipv4 := true |>
    <| mq_disconnect_pending := true |>.

Lemma gateway_publishes_witness :
  ∃ q' w', gateway_run stock_modules packet_zero [Gw_round] (hanging_up, hearing_world) = Some ((), (q', w')) ∧
    mc_published (mq_client q') = [("a", [1]); ("b", [2]); ("c", [3])] ∧ mq_connected q' = true.
Proof.
  assert (CONFIG_MQTT_MAP_REPORT = false) as Hmap by done.
  destruct (gateway_publishes Hmap stock_modules packet_zero 1 waiting hanging_up hearing_world)
    as (q' & w' & Hrun & Hp & _ & Hc & _).
  - pose proof waiting_repr as []. by constructor.
  - done.
  - done.
  - intros _ q Hq. unfold mqtt_build_subscribe_topic. rewrite Hq. apply Nat.ltb_lt. by vm_compute.
  - lia.
  - cbn. lia.
  - exists q', w'. split; [exact Hrun|]. split; [exact Hp|exact Hc].
Defined.
