(* ===== verification/Boot.v ===== *)
(** * Starting with the transports (src/meshtastic_ble.c, meshtastic_serial.c, meshtastic.c)

    The last three steps of [meshtastic_init]: Bluetooth, the serial port and
    the MQTT gateway.  The first two initialise and register their phone's
    queue, the second announces the reboot to its client, the third computes
    its topics.  Proved: a start with any of them compiled in ends in an error
    with the node switched off, or in the state that every theorem about the
    running node, its transports and its gateway starts from. *)

From stdpp Require Import pretty.
From S2P Require Import Prelude Types External Mock Core Airtime Channels NodeDB Wire Store World StoreApply.
From S2P Require Import Radio Reliable PhoneApi Handshake Invariant Send NodeInfo Router Telemetry Position Reception Node.
From S2P Require Import Ble Serial Settings Init BleAccess Mqtt MapReport MqttSession.

(** The options of Kconfig.ble, Kconfig.serial and Kconfig.mqtt the start
    reads, and whether the device tree leaves the UART's speed open. *)
Class TransportConfig := {
  CONFIG_BLE_FROMRADIO_QUEUE_SIZE : nat;
  CONFIG_BLE_ADV : bool;
  CONFIG_SERIAL_FROMRADIO_QUEUE_SIZE : nat;
  MESHTASTIC_SERIAL_CONFIGURE_DEFAULT_BAUD : bool
}.
Class TransportRanges `{TransportConfig} := {
  ble_queue_range : (8 ≤ CONFIG_BLE_FROMRADIO_QUEUE_SIZE ≤ 64)%nat;
  serial_queue_range : (8 ≤ CONFIG_SERIAL_FROMRADIO_QUEUE_SIZE ≤ 64)%nat
}.

(** What the Bluetooth host and the UART driver answer; what the registration
    of the pairing callbacks answers is only logged. *)
Class BootHost := {
  bt_is_ready : bool;
  bt_enable : result ();
  bt_le_adv_start : list (Z * list Z) → list (Z * list Z) → result ();
  uart_ready : bool;
  uart_configure : result ();
  uart_irq_callback_user_data_set : result ()
}.

(** The statics of the three files.  A transport is known once it is in the
    array of meshtastic_phoneapi.c; the serial one is then number
    [io_serial_phone] of it, the Bluetooth one number [bl_phone]. *)
Record io (C : Type) := mk_io {
  io_ble : ble; io_ble_known : bool;
  io_serial : serial; io_serial_phone : nat; io_serial_known : bool;
  io_mqtt : mqtt C
}.
Arguments mk_io {C} _ _ _ _ _ _.
Arguments io_ble {C} _.
Arguments io_ble_known {C} _.
Arguments io_serial {C} _.
Arguments io_serial_phone {C} _.
Arguments io_serial_known {C} _.
Arguments io_mqtt {C} _.
#[export] Instance io_set {C} : Settable (io C) := λ x,
  mk_io (io_ble x) (io_ble_known x) (io_serial x) (io_serial_phone x) (io_serial_known x) (io_mqtt x).

(** The program image. *)
Definition ble_bss : ble :=
  mk_ble 0 false false None (replicate MESHTASTIC_API_FRAME_MAX 0) 0 false false [] [] false [] [].
Definition io_bss {C} `{MqttConfig} (client : C) : io C :=
  mk_io ble_bss false serial_zero 0 false (mqtt_bss client).

Section boot.
Context {C K L T : Type} `{Kconfig} `{MqttConfig} `{BootConfig} `{PositionConfig} `{TransportConfig} `{BleConfig} `{GattHost}.
Context `{PSA K} `{LoraDriver L} `{Kernel T} `{BootHost} `{MqttClient C} `{!Broker C}.
Context `{Pb Channel} `{Pb Config} `{Pb ModuleConfig} `{Pb FromRadio} `{Backend B}.
Context (hwid : option (list Z)) (psa_ready : bool) (settings : option B).
Notation W := (world K L T).
Notation S := (io C * W)%type.
Context (hooks : list (option (W → result ()))).

Definition boot_world {A} (m : M W A) : M S A := λ s,
  match m s.2 with Some (a, w) => Some (a, (s.1, w)) | None => None end.
Definition boot_io (f : io C → io C) : M S () := λ s, Some ((), (f s.1, s.2)).

(** [meshtastic_phoneapi_init] of a transport's queue and
    [meshtastic_phoneapi_register]: its place in the array.  A transport that
    finds the array full has no place; there are not that many. *)
Definition start_phone (known : bool) (phone size : nat) : M W nat :=
  if known then
    on_phone phone (modify (λ api, meshtastic_phoneapi_init (ph_queue api))) ;;
    modify (set w_phones (λ l, meshtastic_phoneapi_register true (meshtastic_phoneapi_init []) l)) ;;
    mret phone
  else
    before ← gets w_phones;
    modify (set w_phones (meshtastic_phoneapi_register false
              (meshtastic_phoneapi_init (replicate size [])))) ;;
    after ← gets w_phones;
    if (length after =? length before)%nat then ub else mret (length before).

(** [settings_load]: every handler loads its subtree again. *)
Definition settings_load : M W () :=
  match settings with
  | None => mret ()
  | Some b => modify (set w_store (λ st, (settings_load_subtree b st).2))
  end.

Definition start_advertising : result () := bt_le_adv_start advertising_data scan_response.

Definition meshtastic_ble_init : M S (result ()) :=
  x ← gets (S:=S) fst;
  i ← boot_world (start_phone (io_ble_known x) (bl_phone (io_ble x)) CONFIG_BLE_FROMRADIO_QUEUE_SIZE);
  boot_io (λ x, x <| io_ble_known := true |>
    <| io_ble ::= λ b, b <| bl_phone := i |> <| bl_to_radio_work := false |> <| bl_fromradio_work := false |> |>) ;;
  match (if bt_is_ready then Ok () else bt_enable) with
  | Err e => mret (Err e)
  | Ok _ =>
      boot_world settings_load ;;
      mret (if CONFIG_BLE_ADV then
              match start_advertising with
              | Err e => if bool_decide (e = EALREADY) then Ok () else Err e
              | Ok _ => Ok ()
              end
            else Ok ())
  end.

Definition configure_uart : result () :=
  if MESHTASTIC_SERIAL_CONFIGURE_DEFAULT_BAUD then
    match uart_configure with
    | Err e => if bool_decide (e = ENOSYS) || bool_decide (e = ENOTSUP) then Ok () else Err e
    | Ok _ => Ok ()
    end
  else Ok ().

(** The announcement calls [serial_data_ready] if it is queued. *)
Definition meshtastic_serial_init : M S (result ()) :=
  if negb uart_ready then mret (Err ENODEV)
  else
    match configure_uart with
    | Err e => mret (Err e)
    | Ok _ =>
        x ← gets (S:=S) fst;
        i ← boot_world (start_phone (io_serial_known x) (io_serial_phone x) CONFIG_SERIAL_FROMRADIO_QUEUE_SIZE);
        boot_io (λ x, x <| io_serial_known := true |> <| io_serial_phone := i |>
          <| io_serial ::= λ s, s <| rx_work := 0%nat |> <| tx_work := 0%nat |> <| tx_cont_work := 0%nat |> |>) ;;
        match uart_irq_callback_user_data_set with
        | Err e => mret (Err e)
        | Ok _ =>
            boot_io (set io_serial (set tx_irq (λ _, false))) ;;
            before ← boot_world (on_phone i (gets ph_data_ready));
            boot_world (meshtastic_phoneapi_enqueue_rebooted i) ;;
            after ← boot_world (on_phone i (gets ph_data_ready));
            (if (before <? after)%nat then boot_io (set io_serial (set tx_work Datatypes.S)) else mret ()) ;;
            mret (Ok ())
        end
    end.

Definition on_gateway {A} (m : M (mqtt C * W) A) : M S A := λ s,
  match m (io_mqtt s.1, s.2) with
  | Some (a, (q, w)) => Some (a, (s.1 <| io_mqtt := q |>, w))
  | None => None
  end.

Definition transport_stages : list (M S (result ())) :=
  [if CONFIG_BLE then meshtastic_ble_init else mret (Ok ());
   if CONFIG_SERIAL then meshtastic_serial_init else mret (Ok ());
   if CONFIG_MQTT then on_gateway meshtastic_mqtt_init else mret (Ok ())].

(** The whole of [meshtastic_init]; [meshtastic_init] of Init.v is the function
    without its last three steps. *)
Definition meshtastic_init_all (cfg : option meshtastic_config) : M S (result ()) :=
  ret ← boot_world (meshtastic_init hwid psa_ready settings hooks cfg);
  match ret with
  | Err e => mret (Err e)
  | Ok _ =>
      ret ← run_stages transport_stages;
      match ret with
      | Err e => boot_world (set_initialized false) ;; mret (Err e)
      | Ok _ => mret (Ok ())
      end
  end.
End boot.

(** ** The steps *)

Section correct.
Context {C K L T : Type} `{KconfigRanges} `{MqttRanges} `{BootConfig} `{PositionConfig} `{TransportRanges} `{BleConfig} `{GattHost}.
Context `{PSALaws K} `{LoraLaws L} `{KernelLaws T} `{BootHost} `{MqttClient C} `{!Broker C}.
Context `{Pb Channel} `{Pb Config} `{Pb ModuleConfig} `{Pb FromRadio} `{BackendLaws B}.
Context `{Pb Data} `{!PbLaws Data Data_ok}.
Context (hwid : option (list Z)) (psa_ready : bool) (settings : option B).
Notation W := (world K L T).
Notation S := (io C * W)%type.
Context (hooks : list (option (W → result ()))).
Context (client : C) (fx : fixed) (st : store).

(** How many transports come before the serial one. *)
Definition ble_phones : nat := if CONFIG_BLE then 1 else 0.
Definition all_phones : nat := ble_phones + if CONFIG_SERIAL then 1 else 0.

(** What the serial client gets first. *)
Definition announcement : list (list Z) :=
  match meshtastic_phoneapi_encode_fromradio_frame (mk_FromRadio 0 (FR_rebooted true)) with
  | Ok frame => [frame]
  | Err _ => []
  end.

(** The node is up with [n] transports and the stored settings. *)
Definition with_phones (n : nat) : fixed := mk_fixed (fx_keys fx) n (load settings st) (fx_uplinks fx).
Record up (n : nat) (w : W) : Prop := {
  up_wf : world_wf (with_phones n) w;
  up_on : mt_initialized (w_mt w) = true;
  up_force : in_force (load settings st) (w_channels w) (w_mt w)
}.

(** Each transport and the gateway, once started. *)
Record ble_up (n : nat) (s : S) : Prop := {
  bu_service : service_ok (with_phones n) (io_ble s.1);
  bu_phone : bl_phone (io_ble s.1) = 0%nat;
  bu_empty : ∃ api, w_phones s.2 !! 0%nat = Some api ∧ ring_repr api []
}.
Record serial_up (s : S) : Prop := {
  su_phone : io_serial_phone s.1 = ble_phones;
  su_announced : ∃ api, w_phones s.2 !! ble_phones = Some api ∧ ring_repr api announcement;
  su_work : tx_work (io_serial s.1) = length announcement;
  su_rings : serial_rx_rb (io_serial s.1) = [] ∧ serial_tx_rb (io_serial s.1) = []
}.
Record gateway_up (s : S) : Prop := {
  gu_started : mq_started (io_mqtt s.1) = true;
  gu_queue : pub_repr (io_mqtt s.1) [];
  gu_prefix : mq_crypt_prefix (io_mqtt s.1) = strncpy (MQTT_PREFIX_SIZE - 1) CONFIG_MQTT_ROOT
}.

Lemma wp_boot_world {A} (m : M W A) Q (s : S) :
  wp (boot_world m) Q s ↔ wp m (λ a w, Q a (s.1, w)) s.2.
Proof. unfold wp, boot_world. by destruct (m s.2) as [[a w]|]. Qed.
Lemma wp_boot_io f (Q : () → S → Prop) s : wp (boot_io f) Q s ↔ Q () (f s.1, s.2).
Proof. done. Qed.
Lemma wp_on_gateway {A} (m : M (mqtt C * W) A) Q (s : S) :
  wp (on_gateway m) Q s ↔ wp m (λ a g, Q a (s.1 <| io_mqtt := g.1 |>, g.2)) (io_mqtt s.1, s.2).
Proof. unfold wp, on_gateway. by destruct (m (io_mqtt s.1, s.2)) as [[a [q w]]|]. Qed.

Lemma fresh_ring size : (0 < size)%nat → ring_repr (meshtastic_phoneapi_init (replicate size [])) [].
Proof.
  intros Hs. constructor; unfold ph_queue_size; cbn; rewrite ?length_replicate; try done; try lia.
  rewrite Nat.Div0.mod_0_l; lia.
Qed.

(** The node with one more transport. *)
Definition joined (size : nat) (w : W) : W :=
  w <| w_phones ::= λ l, l ++ [meshtastic_phoneapi_init (replicate size [])] |>.

Lemma start_phone_wp n phone size w :
  up n w → (n < MESHTASTIC_PHONEAPI_MAX_TRANSPORTS)%nat → (0 < size)%nat →
  wp (start_phone false phone size) (λ i w', i = n ∧ w' = joined size w ∧ up (Datatypes.S n) w') w.
Proof.
  intros [Hwf Hon Hforce] Hn Hs. pose proof (ww_count _ _ Hwf) as Hc. cbn [fx_phones with_phones] in Hc.
  unfold start_phone. wps.
  assert ((w <| w_phones ::= meshtastic_phoneapi_register false (meshtastic_phoneapi_init (replicate size [])) |>)
    = joined size w) as ->.
  { assert (meshtastic_phoneapi_register false (meshtastic_phoneapi_init (replicate size [])) (w_phones w)
      = w_phones w ++ [meshtastic_phoneapi_init (replicate size [])]) as E.
    { unfold meshtastic_phoneapi_register. by rewrite Hc, (proj2 (Nat.ltb_lt _ _)). }
    revert E. unfold joined. destruct w. cbn -[meshtastic_phoneapi_register]. unfold set.
    cbn -[meshtastic_phoneapi_register]. by intros ->. }
  assert (length (w_phones (joined size w)) = Datatypes.S n) as -> by (unfold joined; cbn; rewrite length_app; cbn; lia).
  rewrite Hc.
  rewrite (proj2 (Nat.eqb_neq _ _)) by lia. wps. split; [done|]. split; [done|].
  split; [|done..]. destruct Hwf. constructor; try done; cbn.
  - apply Forall_app. split; [done|]. apply Forall_singleton. exists []. by apply fresh_ring.
  - rewrite length_app. cbn. lia.
Qed.
(** The reload of Bluetooth's start finds the stored settings in force. *)
Lemma settings_load_wp n w :
  subsys_ok settings → up n w → wp (settings_load settings) (λ _ w', w' = w) w.
Proof.
  intros Hsub [Hwf _ _]. pose proof (ww_store _ _ Hwf) as Hst. cbn [fx_store with_phones] in Hst.
  unfold settings_load. destruct settings as [b|]; wps; [|done].
  unfold load in Hst. unfold meshtastic_settings_init in Hst. rewrite (Hsub b eq_refl) in Hst.
  destruct w. cbn in *. unfold set. cbn. f_equal. subst. apply reload_idem.
Qed.

Lemma joined_last size n w :
  up n w → w_phones (joined size w) !! n = Some (meshtastic_phoneapi_init (replicate size [])).
Proof.
  intros [Hwf _ _]. pose proof (ww_count _ _ Hwf) as Hc. cbn in Hc. subst n.
  unfold joined. cbn. by apply list_lookup_middle.
Qed.

Lemma ble_init_wp s :
  subsys_ok settings → up 0 s.2 → io_ble s.1 = ble_bss → io_ble_known s.1 = false →
  wp (meshtastic_ble_init settings) (λ r s', r = Ok () →
    up 1 s'.2 ∧ ble_up 1 s' ∧ ∃ b, s'.1 = s.1 <| io_ble_known := true |> <| io_ble := b |>) s.
Proof.
  destruct s as [[b known sr sp sk q] w]. cbn [fst snd io_ble io_ble_known]. intros Hsub Hup -> ->.
  unfold meshtastic_ble_init. wps. cbn [fst snd io_ble io_ble_known]. rewrite wp_boot_world.
  pose proof ble_queue_range. eapply wp_mono; [apply start_phone_wp; [done|unfold MESHTASTIC_PHONEAPI_MAX_TRANSPORTS; lia|lia]|].
  intros i w1 (-> & -> & Hup1). wps. rewrite wp_boot_io. cbn [fst snd].
  destruct (if bt_is_ready then _ else _); [|by wps]. wps. rewrite wp_boot_world.
  eapply wp_mono; [by apply (settings_load_wp 1)|]. intros u w2 ->. wps. intros _. cbn [fst snd].
  split; [done|]. split; [|by eexists]. constructor; [constructor; [cbn; lia|done|apply Nat.le_0_l]|done|].
  eexists. split; [by eapply joined_last|]. apply fresh_ring. lia.
Qed.
Lemma phone_gets_wp {A} i (f : phoneapi → A) api (w : W) :
  w_phones w !! i = Some api → wp (on_phone i (gets f)) (λ a w', a = f api ∧ w' = w) w.
Proof.
  intros Hi. eapply wp_on_phone; [exact Hi|]. wps. split; [done|].
  destruct w. cbn in *. unfold set. cbn. by rewrite list_insert_id.
Qed.

(** The announcement into the queue of phone [i]. *)
Lemma rebooted_wp n i api w :
  up n w → w_phones w !! i = Some api → ring_repr api [] →
  wp (meshtastic_phoneapi_enqueue_rebooted i) (λ _ w', up n w' ∧ ∃ api',
    w' = w <| w_phones ::= <[i := api']> |> ∧ ring_repr api' announcement ∧
    ph_data_ready api' = (length announcement + ph_data_ready api)%nat) w.
Proof.
  intros [Hwf Hon Hforce] Hi Hr. unfold meshtastic_phoneapi_enqueue_rebooted, meshtastic_phoneapi_enqueue_fromradio, announcement.
  destruct (meshtastic_phoneapi_encode_fromradio_frame _) as [frame|e]; wps.
  - eapply wp_on_phone; [exact Hi|]. eapply wp_mono; [by apply ring_push_wp|].
    intros u api' (_ & Hd & Hr'). wps. split; [|exists api'; split_and!; try done].
    + split; [|done..]. destruct Hwf. constructor; try done; cbn; [|by rewrite length_insert].
      apply Forall_insert; [done|]. by eexists.
    + cbn [length] in Hr'. pose proof (rr_size _ _ Hr). by destruct (ph_queue_size api).
  - split; [done|]. exists api. split_and!; try done. destruct w. cbn in *. unfold set. cbn.
    by rewrite list_insert_id.
Qed.

Lemma serial_init_wp s :
  up ble_phones s.2 → io_serial s.1 = serial_zero → io_serial_known s.1 = false →
  wp meshtastic_serial_init (λ r s', r = Ok () →
    up (Datatypes.S ble_phones) s'.2 ∧ serial_up s' ∧
    io_ble s'.1 = io_ble s.1 ∧ io_mqtt s'.1 = io_mqtt s.1 ∧
    ∀ i, (i < ble_phones)%nat → w_phones s'.2 !! i = w_phones s.2 !! i) s.
Proof.
  destruct s as [[b known sr sp sk q] w]. cbn [fst snd io_serial io_serial_known io_ble io_mqtt]. intros Hup -> ->.
  unfold meshtastic_serial_init. destruct (negb uart_ready); [by wps|].
  destruct configure_uart as [[]|]; [|by wps]. wps. cbn [fst snd io_serial_known]. rewrite wp_boot_world.
  pose proof serial_queue_range. eapply wp_mono.
  { apply start_phone_wp; [done|unfold ble_phones, MESHTASTIC_PHONEAPI_MAX_TRANSPORTS; destruct CONFIG_BLE; lia|lia]. }
  intros i w1 (-> & -> & Hup1). wps. rewrite wp_boot_io. cbn [fst snd].
  destruct uart_irq_callback_user_data_set as [[]|]; [|by wps]. wps. rewrite wp_boot_io. cbn [fst snd]. wps. rewrite wp_boot_world. cbn [fst snd].
  set (api := meshtastic_phoneapi_init (replicate CONFIG_SERIAL_FROMRADIO_QUEUE_SIZE [])).
  assert (w_phones (joined CONFIG_SERIAL_FROMRADIO_QUEUE_SIZE w) !! ble_phones = Some api) as Hapi
    by by apply joined_last.
  eapply wp_mono; [by apply phone_gets_wp|]. intros n0 w1 [-> ->]. wps. rewrite wp_boot_world. cbn [fst snd].
  eapply wp_mono; [eapply (rebooted_wp _ _ api); [done..|by apply fresh_ring; lia]|].
  intros u w1 (Hup2 & api' & -> & Hr' & Hd). wps. rewrite wp_boot_world. cbn [fst snd].
  assert (w_phones ((joined CONFIG_SERIAL_FROMRADIO_QUEUE_SIZE w) <| w_phones ::= <[ble_phones := api']> |>)
    !! ble_phones = Some api') as Hapi' by (by eapply phones_insert).
  eapply wp_mono; [by apply phone_gets_wp|]. intros n1 w1 [-> ->]. rewrite Hd. change (ph_data_ready api) with 0%nat.
  assert (length announcement ≤ 1)%nat as Hlen
    by (unfold announcement; destruct (meshtastic_phoneapi_encode_fromradio_frame _); cbn; lia).
  destruct (Nat.ltb_spec 0 (length announcement + 0)); wps; try (rewrite wp_boot_io; wps); intros _; cbn [fst snd];
    (split; [done|]); (split; [constructor; [done|by exists api'|cbn; lia|done]|]); (split; [done|]); (split; [done|]).
  all: intros i Hi; unfold joined; cbn; rewrite list_lookup_insert_ne by lia.
  all: rewrite lookup_app_l; [done|]; destruct Hup as [Hwf _ _]; pose proof (ww_count _ _ Hwf) as Hc; cbn in Hc; lia.
Qed.

Lemma mqtt_init_wp n (s : S) :
  up n s.2 → io_mqtt s.1 = mqtt_bss client →
  wp (on_gateway meshtastic_mqtt_init) (λ r s', r = Ok () →
    s'.2 = s.2 ∧ gateway_up s' ∧ ∃ q, s'.1 = s.1 <| io_mqtt := q |>) s.
Proof.
  destruct s as [[b known sr sp sk q] w]. cbn [fst snd io_mqtt]. intros Hup ->.
  rewrite wp_on_gateway. unfold meshtastic_mqtt_init, mqtt_build_map_topic, snprintk. wps.
  cbn [fst snd id io_mqtt mqtt_bss mq_started]. rewrite wp_bind, wp_on_mqtt. wps. rewrite wp_on_mqtt. wps.
  rewrite wp_on_mqtt. wps.
  destruct (CONFIG_MQTT_MAP_REPORT && _); wps; [done|]. rewrite wp_on_mqtt. wps. intros _.
  split; [done|]. split; [|by eexists]. pose proof (bss_repr client) as []. by repeat constructor.
Qed.

(** Everything the build has is up. *)
Record booted (s : S) : Prop := {
  bo_up : up all_phones s.2;
  bo_ble : CONFIG_BLE = true → ble_up all_phones s;
  bo_serial : CONFIG_SERIAL = true → serial_up s;
  bo_gateway : CONFIG_MQTT = true → gateway_up s
}.

Lemma ble_up_more n (s s' : S) :
  ble_up 1 s → (1 ≤ n)%nat → io_ble s'.1 = io_ble s.1 → w_phones s'.2 !! 0%nat = w_phones s.2 !! 0%nat →
  ble_up n s'.
Proof.
  intros [[Hp Hb Hl] Hph He] Hn E1 E2. split; rewrite ?E1, ?E2; try done. split; try done. cbn in *. lia.
Qed.

Lemma ble_stage_wp w :
  subsys_ok settings → up 0 w →
  wp (if CONFIG_BLE then meshtastic_ble_init settings else mret (Ok ())) (λ r s', r = Ok () →
    up ble_phones s'.2 ∧ (CONFIG_BLE = true → ble_up 1 s') ∧
    io_serial s'.1 = serial_zero ∧ io_serial_known s'.1 = false ∧ io_mqtt s'.1 = mqtt_bss client) (io_bss client, w).
Proof.
  intros Hsub Hup. unfold ble_phones. destruct CONFIG_BLE; [|by wps].
  eapply wp_mono; [by apply ble_init_wp|]. intros r s' Hs' ->.
  destruct (Hs' eq_refl) as (Hup1 & Hb & b & ->). done.
Qed.

Lemma serial_stage_wp s :
  up ble_phones s.2 → (CONFIG_BLE = true → ble_up 1 s) →
  io_serial s.1 = serial_zero → io_serial_known s.1 = false →
  wp (if CONFIG_SERIAL then meshtastic_serial_init else mret (Ok ())) (λ r s', r = Ok () →
    up all_phones s'.2 ∧ (CONFIG_BLE = true → ble_up all_phones s') ∧ (CONFIG_SERIAL = true → serial_up s') ∧
    io_mqtt s'.1 = io_mqtt s.1) s.
Proof.
  intros Hup Hble Hs Hk. unfold all_phones. destruct CONFIG_SERIAL eqn:E.
  - eapply wp_mono; [by apply serial_init_wp|]. intros r s' Hs' ->.
    destruct (Hs' eq_refl) as (Hup1 & Hser & Hb & Hq & Hold). rewrite Nat.add_1_r. split_and!; try done.
    intros HB. apply (ble_up_more _ s); [auto|lia|done|]. apply Hold. unfold ble_phones. rewrite HB. lia.
  - wps. intros _. rewrite Nat.add_0_r. split_and!; try done. intros HB.
    apply (ble_up_more _ s); try done; [auto|]. unfold ble_phones. by rewrite HB.
Qed.

Lemma transport_stages_wp w :
  subsys_ok settings → up 0 w →
  wp (run_stages (transport_stages settings)) (λ r s', r = Ok () → booted s') (io_bss client, w).
Proof.
  intros Hsub Hup. unfold transport_stages.
  apply stage_wp. eapply wp_mono; [by apply ble_stage_wp|]. intros [[]|] s1 Hs1; [|done].
  destruct (Hs1 eq_refl) as (Hup1 & Hb1 & Hser1 & Hk1 & Hq1).
  apply stage_wp. eapply wp_mono; [by apply serial_stage_wp|]. intros [[]|] s2 Hs2; [|done].
  destruct (Hs2 eq_refl) as (Hup2 & Hb2 & Hser2 & Hq2). apply stage_wp.
  destruct CONFIG_MQTT eqn:E; cbn [run_stages]; [|wps; intros _; by split; rewrite ?E].
  eapply wp_mono; [apply (mqtt_init_wp all_phones); [done|congruence]|]. intros [[]|] s3 Hs3; [|done].
  wps. intros _. destruct (Hs3 eq_refl) as (Ew & Hg & q & Ex). destruct s3 as [x3 w3]. cbn in *. subst.
  split; cbn; [done|..|done].
  - intros HB. destruct (Hb2 HB). by split.
  - intros HS. destruct (Hser2 HS). by split.
Qed.
End correct.

(** ** The whole start *)

Section whole.
Context {C K L T : Type} `{KconfigRanges} `{MqttRanges} `{BootConfig} `{PositionConfig} `{TransportRanges} `{BleConfig} `{GattHost}.
Context `{PSALaws K} `{LoraLaws L} `{KernelLaws T} {host : BootHost} `{MqttClient C} `{!Broker C}.
Context `{Pb Channel} `{Pb Config} `{Pb ModuleConfig} `{Pb FromRadio} `{BackendLaws B}.
Context `{Pb Data} `{!PbLaws Data Data_ok}.
Context (hwid : option (list Z)) (psa_ready : bool) (settings : option B).
Notation W := (world K L T).
Notation S := (io C * W)%type.
Context (hooks : list (option (W → result ()))).

Definition boot (cfg : meshtastic_config) : M S (result ()) :=
  meshtastic_init_all hwid psa_ready settings hooks (Some cfg).

(** C11: starting the whole build from saved settings a node can boot from
    ([loads]: they make a bootable store of the factory settings; a store
    without a hand-over can hang the node, [apply_core_diverges]) always ends,
    with any of Bluetooth, the serial port and the gateway compiled in and
    whatever the host and the drivers answer.  Either it reports an error and
    the node is switched off; or the node's invariant holds with exactly the
    build's transports registered, and the stored settings ([load st]: the
    saved ones, and those of the factory where nothing was saved) are in force
    after Bluetooth's start has loaded them a second time: names, every channel
    slot, the primary channel, device role, rebroadcast mode, and where they
    are usable hop limit, transmit power and frequency.  Then the Bluetooth service is in the state its theorems assume with an empty
    queue, the serial client's queue holds the announcement of the reboot and
    nothing else with its transmission scheduled, and the gateway's queue is
    empty. *)
Theorem boot_outcome fx cfg client w :
  config_ok cfg → power_on fx w → fx_phones fx = 0%nat → loads settings →
  ∃ r s', boot cfg (io_bss client, w) = Some (r, s') ∧
    match r with
    | Ok _ => ∃ st, seeded (K:=K) (L:=L) (T:=T) cfg st ∧ booted settings fx st s'
    | Err _ => mt_initialized (w_mt s'.2) = false
    end.
Proof.
  intros Hcfg Hon Hph Hload. apply wp_run. unfold boot, meshtastic_init_all. rewrite wp_bind, wp_boot_world.
  eapply wp_mono; [by apply (init_wp hwid psa_ready settings hooks fx)|].
  intros [[]|e] w1 Hw1; [|by wps]. destruct Hw1 as (Hsub & st & p & Hwf & Hseed & Hrun).
  rewrite wp_bind. eapply wp_mono.
  - apply (transport_stages_wp settings client fx st); [done|]. split; [|by destruct Hrun as [[] ? ? ?]..].
    unfold with_phones. rewrite <-Hph. by destruct fx.
  - intros [[]|e] s' Hs'; wps; [by exists st; auto|]. rewrite wp_boot_world. unfold set_initialized. by wps.
Qed.
End whole.

(** ** A start of the mock node with everything *)

#[local] Existing Instances default_kconfig default_kconfig_ranges default_mqtt_config default_mqtt_ranges.
#[local] Existing Instances default_position_config mock_broker boot_config boot_Channel boot_Config boot_Module.
#[local] Instance all_transports : TransportConfig := {|
  CONFIG_BLE_FROMRADIO_QUEUE_SIZE := 8; CONFIG_BLE_ADV := true;
  CONFIG_SERIAL_FROMRADIO_QUEUE_SIZE := 8; MESHTASTIC_SERIAL_CONFIGURE_DEFAULT_BAUD := true |}.
#[local] Existing Instance checking_host.
#[local] Instance paired : BleConfig := {|
  CONFIG_BT_SMP := true; CONFIG_BT_SMP_APP_PAIRING_ACCEPT := true; CONFIG_BLE_PAIRING := true;
  CONFIG_BLE_DEVICE_NAME := "Zephyr Meshtastic" |}.
#[local] Instance all_transports_ranges : TransportRanges.
Proof. constructor; cbn; lia. Qed.
#[local] Instance plain_FromRadio : Pb FromRadio :=
  {| pb_encode _ from := Some [fr_id from `mod` 256; 42]; pb_decode _ := None |}.

(** A host that is up already, and a UART whose speed cannot be set. *)
Definition good_host : BootHost := {|
  bt_is_ready := true; bt_enable := Err EIO; bt_le_adv_start _ _ := Err EALREADY; uart_ready := true;
  uart_configure := Err ENOTSUP; uart_irq_callback_user_data_set := Ok () |}.
Definition deaf_host : BootHost := {|
  bt_is_ready := true; bt_enable := Ok (); bt_le_adv_start _ _ := Ok (); uart_ready := false;
  uart_configure := Ok (); uart_irq_callback_user_data_set := Ok () |}.
Definition idle_client : mock_client := mk_mock_client [] [].

(** The settings a node flushed. *)
Definition kept : option (gmap string (list Z)) := Some (saved saved_before.2).

Lemma kept_loads : loads kept.
Proof.
  intros st _ Hst.
  assert (load kept st = factory_store) as ->; [|apply factory_bootable].
  apply (flushed_load (PbLaws0 := table_pb_laws (st_channels factory_store))
    (PbLaws1 := table_pb_laws (st_configs factory_store)) (PbLaws2 := table_pb_laws (st_modules factory_store))
    73 factory_store (mk_saver None ∅) saved_before.2); [apply factory_ok|apply nothing_saved|apply saved_ok|done|done].
Qed.

Notation boot_with host := (boot (host := host) hw true kept [] home (io_bss idle_client, cold_world)).

Lemma boot_outcome_witness :
  (∃ s', boot_with good_host = Some (Ok (), s') ∧
     ∃ st, seeded (K:=toy_psa) (L:=mock_lora) (T:=mock_kernel) home st ∧ booted kept (mk_fixed ∅ 0 store_bss []) st s') ∧
  (∃ s', boot_with deaf_host = Some (Err ENODEV, s') ∧ mt_initialized (w_mt s'.2) = false).
Proof.
  assert (∀ (o : option (result () * (io mock_client * world toy_psa mock_lora mock_kernel))) r s',
    o = Some (r, s') → fst <$> o = Some r) as Hfst by (by intros ? ? ? ->).
  split.
  - destruct (boot_outcome (host := good_host) hw true kept [] (mk_fixed ∅ 0 store_bss []) home idle_client cold_world
      home_ok cold_power_on eq_refl kept_loads) as (r & s' & Hr & Hpost).
    pose proof (Hfst _ _ _ Hr) as Hrun. vm_compute in Hrun. injection Hrun as <-. exists s'. split; [exact Hr|exact Hpost].
  - destruct (boot_outcome (host := deaf_host) hw true kept [] (mk_fixed ∅ 0 store_bss []) home idle_client cold_world
      home_ok cold_power_on eq_refl kept_loads) as (r & s' & Hr & Hpost).
    pose proof (Hfst _ _ _ Hr) as Hrun. vm_compute in Hrun. injection Hrun as <-. exists s'. split; [exact Hr|exact Hpost].
Defined.

(** What that start leaves: both phones, the serial one with the
    announcement, the topics, and one transmission to do. *)
Example everything_up :
  (λ r, (ph_count <$> w_phones r.2.2, bl_phone (io_ble r.2.1), io_serial_phone r.2.1,
         tx_work (io_serial r.2.1), mq_sub_topic (io_mqtt r.2.1), st_long_name (w_store r.2.2)))
    <$> boot_with good_host
  = Some ([0; 1]%nat, 0%nat, 1%nat, 1%nat, "msh/EU_868/2/e/LongFast/+"%string, "Base station"%string).
Proof. by vm_compute. Qed.
